(** * The LFU shard of the vector map (package vectormap, type LFUMap)

    A shallow embedding of the shard operations [Has], [Get], [Put],
    [PutMultiValue], [RePut], [Delete], [Clear], [rehash], [Eliminate] and
    [GCCopy], together with the bit-set primitives [metaMatchH2],
    [metaMatchEmpty] and [nextMatch].

    Conventions.
    - A [uint32] is a [Z] and every arithmetic result is wrapped by [u32].
    - A control byte ([int8]) and a counter ([uint8]) are [Z].
    - The arena is a [list byte]; slicing and [copy] follow Go: slicing out
      of range aborts the call, [copy] moves [min (len dst) (len src)] bytes.
    - Every operation runs in the option monad; [None] stands for a call
      that does not return (an index or slice panic, or a probe loop that
      keeps cycling over a table without any empty slot).
    - The three mutexes are not modelled: one call runs at a time. *)

From Stdlib Require Import ZArith Lia List Bool.
From Stdlib Require Strings.Byte.
From coqutil Require Import Byte Word.LittleEndianList.
From stdpp Require Import base option list.

Local Open Scope Z_scope.

(** ** Machine integers and bytes *)

Definition u16 (x : Z) : Z := x mod 2 ^ 16.
Definition u32 (x : Z) : Z := x mod 2 ^ 32.

Definition len {A} (l : list A) : Z := Z.of_nat (length l).

#[global] Instance byte_eq_dec : EqDecision byte := Strings.Byte.byte_eq_dec.

(** Go's [bytes.Equal]. *)
Definition bytesEqual (a b : list byte) : bool := bool_decide (a = b).

(** ** Go slices over the arena *)

(** [data[lo:]] *)
Definition sliceFrom (data : list byte) (lo : Z) : option (list byte) :=
  if (0 <=? lo) && (lo <=? len data) then Some (drop (Z.to_nat lo) data)
  else None.

(** [data[lo:hi]] *)
Definition slice (data : list byte) (lo hi : Z) : option (list byte) :=
  if (0 <=? lo) && (lo <=? hi) && (hi <=? len data)
  then Some (take (Z.to_nat (hi - lo)) (drop (Z.to_nat lo) data))
  else None.

(** [copy(data[off:], src)]: the arena after the call. *)
Definition copyAt (data : list byte) (off : Z) (src : list byte)
  : option (list byte) :=
  if (0 <=? off) && (off <=? len data) then
    let n := Nat.min (length data - Z.to_nat off) (length src) in
    Some (take (Z.to_nat off) data ++ take n src
            ++ drop (Z.to_nat off + n) data)
  else None.

(** Modelled from the spec: [LoadUint32] and [StoreUint32] are declared
    outside lfu.go; they read and write one 32-bit word at the head of a
    byte slice (the package is built for amd64, hence little endian). *)
Definition LoadUint32 (b : list byte) : option Z :=
  if 4 <=? len b then Some (le_combine (take 4 b)) else None.

(** [StoreUint32(data[off:], v)]: the arena after the call. *)
Definition storeAt (data : list byte) (off v : Z) : option (list byte) :=
  if (0 <=? off) && (off + 4 <=? len data) then
    Some (take (Z.to_nat off) data ++ le_split 4 v
            ++ drop (Z.to_nat off + 4) data)
  else None.

(** [LoadUint32(data[off:])] *)
Definition loadAt (data : list byte) (off : Z) : option Z :=
  b ← sliceFrom data off; LoadUint32 b.

(** Modelled from the spec: [Cap4Size] is declared outside lfu.go;
    [Cap4Size(n) = ceil(n/4)*4], the allocation granularity of the arena. *)
Definition Cap4Size (n : Z) : Z := u32 ((n + 3) / 4 * 4).

(** ** Slot descriptors *)

(** Modelled from the spec: the masks and accessors of [kIdx] are declared
    outside lfu.go.  Word A: low 24 bits = key offset in 4-byte units,
    bit 31 = value type, bits 24..30 = spare capacity in 4-byte units
    (type 0) or the high 7 bits of the value size (type 1).  Word B: low 24
    bits = value offset in 4-byte units, bits 24..31 = low 8 bits of the
    value size. *)
Definition IdxOffsetMask : Z := 0x00ffffff.
Definition IdxSmallSizeMask : Z := 0xff000000.
Definition IdxCapMask : Z := 0x7f000000.
Definition mapTypeHeader : Z := 0x80000000.
Definition storeUintBytes : Z := 4.

Definition offset (k : Z) : Z := Z.land k IdxOffsetMask.
Definition valType (k : Z) : Z := Z.shiftr k 31.
Definition capOrBigSize (k : Z) : Z := Z.shiftr (Z.land k IdxCapMask) 24.

(** Modelled from the spec: control bytes [EMPTY = -128],
    [TOMBSTONE = -2]; counters saturate at [MAX_COUNT = 255]. *)
Definition empty : Z := -128.
Definition tombstone : Z := -2.
Definition maxCount : Z := 255.

Definition groupSize : Z := 16.
Definition maxAvgGroupLoad : Z := 14.

(** ** The arena holder *)

Module KV.
Record t := mk {
  cap : Z;
  limit : Z;
  tail : Z;
  items : Z;
  valUsed : Z;
  data : list byte
}.

Definition setTail (h : t) (x : Z) : t :=
  mk (cap h) (limit h) x (items h) (valUsed h) (data h).
Definition setItems (h : t) (x : Z) : t :=
  mk (cap h) (limit h) (tail h) x (valUsed h) (data h).
Definition setValUsed (h : t) (x : Z) : t :=
  mk (cap h) (limit h) (tail h) (items h) x (data h).
Definition setData (h : t) (d : list byte) : t :=
  mk (cap h) (limit h) (tail h) (items h) (valUsed h) d.
End KV.

(** ** The shard *)

Abbreviation metadata := (list Z).  (* [16]int8  *)
Abbreviation counter := (list Z).   (* [16]uint8 *)
Abbreviation group := (list Z).     (* [16]kIdx  *)

Record LFUMap := mkLFUMap {
  kvHolder : KV.t;
  ctrl : list metadata;
  counters : list counter;
  groups : list group;
  resident : Z;
  dead : Z;
  limit : Z;
  queryCnt : Z;
  missCnt : Z;
  rehashing : bool
}.

Definition setKV (m : LFUMap) (h : KV.t) : LFUMap :=
  mkLFUMap h (ctrl m) (counters m) (groups m) (resident m) (dead m)
           (limit m) (queryCnt m) (missCnt m) (rehashing m).
Definition setCtrl (m : LFUMap) (c : list metadata) : LFUMap :=
  mkLFUMap (kvHolder m) c (counters m) (groups m) (resident m) (dead m)
           (limit m) (queryCnt m) (missCnt m) (rehashing m).
Definition setCounters (m : LFUMap) (c : list counter) : LFUMap :=
  mkLFUMap (kvHolder m) (ctrl m) c (groups m) (resident m) (dead m)
           (limit m) (queryCnt m) (missCnt m) (rehashing m).
Definition setGroups (m : LFUMap) (gs : list group) : LFUMap :=
  mkLFUMap (kvHolder m) (ctrl m) (counters m) gs (resident m) (dead m)
           (limit m) (queryCnt m) (missCnt m) (rehashing m).
Definition setResident (m : LFUMap) (x : Z) : LFUMap :=
  mkLFUMap (kvHolder m) (ctrl m) (counters m) (groups m) x (dead m)
           (limit m) (queryCnt m) (missCnt m) (rehashing m).
Definition setDead (m : LFUMap) (x : Z) : LFUMap :=
  mkLFUMap (kvHolder m) (ctrl m) (counters m) (groups m) (resident m) x
           (limit m) (queryCnt m) (missCnt m) (rehashing m).
Definition setQueryCnt (m : LFUMap) (x : Z) : LFUMap :=
  mkLFUMap (kvHolder m) (ctrl m) (counters m) (groups m) (resident m) (dead m)
           (limit m) x (missCnt m) (rehashing m).
Definition setMissCnt (m : LFUMap) (x : Z) : LFUMap :=
  mkLFUMap (kvHolder m) (ctrl m) (counters m) (groups m) (resident m) (dead m)
           (limit m) (queryCnt m) x (rehashing m).

(** [t[g][s]] and [t[g][s] = x]; an index out of range aborts the call. *)
Definition get2 {A} (t : list (list A)) (g s : nat) : option A :=
  row ← t !! g; row !! s.

Definition set2 {A} (t : list (list A)) (g s : nat) (x : A)
  : option (list (list A)) :=
  row ← t !! g;
  if decide (s < length row)%nat then Some (<[g := <[s := x]> row]> t)
  else None.

(** ** Bit-set primitives *)

(** Go's [bits.TrailingZeros16]: the number of trailing zero bits, 16 for 0. *)
Fixpoint tzFrom (n i : nat) (x : Z) : nat :=
  match n with
  | O => i
  | S n' => if Z.testbit x (Z.of_nat i) then i else tzFrom n' (S i) x
  end.
Definition TrailingZeros16 (x : Z) : nat := tzFrom 16 0 x.

(** Modelled from the spec: [simd.MatchMetadata] is declared outside
    lfu.go; it returns the 16-bit mask of the slots whose tag equals [h]. *)
Fixpoint MatchMetadata (md : metadata) (h : Z) : Z :=
  match md with
  | [] => 0
  | c :: t => Z.lor (Z.b2z (c =? h)) (Z.shiftl (MatchMetadata t h) 1)
  end.

Definition metaMatchH2 (md : metadata) (h : Z) : Z := u16 (MatchMetadata md h).
Definition metaMatchEmpty (md : metadata) : Z := u16 (MatchMetadata md empty).

(** [nextMatch]: the lowest set bit and the bit set without it. *)
Definition nextMatch (b : Z) : nat * Z :=
  let s := TrailingZeros16 b in
  (s, Z.land b (Z.lxor 0xffff (u16 (Z.shiftl 1 (Z.of_nat s))))).

(** Modelled from the spec: [splitHash] and [probeStart] are declared
    outside lfu.go; [H1 = L >> 7], [H2 = L & 0x7F], [g0 = H1 mod G]. *)
Definition splitHash (l : Z) : Z * Z := (Z.shiftr l 7, Z.land l 0x7f).
Definition probeStart (hi : Z) (nGroups : nat) : option nat :=
  if decide (nGroups = 0%nat) then None
  else Some (Z.to_nat (hi mod Z.of_nat nGroups)).

(** ** The probe loop shared by every operation

    [for matches != 0 { s := nextMatch(&matches); if test(s) { return } }] *)
Fixpoint scanMatches (test : nat → option bool) (fuel : nat) (matches : Z)
  : option (option nat) :=
  if matches =? 0 then Some None else
    match fuel with
    | O => None
    | S fuel' =>
        let '(s, rest) := nextMatch matches in
        b ← test s;
        if b : bool then Some (Some s) else scanMatches test fuel' rest
    end.

Inductive probe :=
| Found (g s : nat)
| AtEmpty (g : nat) (matches : Z).

(** The outer [for] of [Has], [Get], [Put], [PutMultiValue], [RePut] and
    [Delete].  The loop body does not write, so a pass over all
    [nGroups] groups that neither matches nor meets an empty slot repeats
    for ever: the fuel is the number of groups. *)
Fixpoint probeLoop (ct : list metadata) (nGroups : nat) (lo : Z)
    (test : nat → nat → option bool) (fuel g : nat) : option probe :=
  match fuel with
  | O => None
  | S fuel' =>
      md ← ct !! g;
      r ← scanMatches (test g) 16 (metaMatchH2 md lo);
      match r with
      | Some s => Some (Found g s)
      | None =>
          let matches := metaMatchEmpty md in
          if negb (matches =? 0) then Some (AtEmpty g matches)
          else probeLoop ct nGroups lo test fuel'
                 (if decide (nGroups ≤ S g)%nat then 0%nat else S g)
      end
  end.

(** ** Shard operations *)

(** What lfu.go takes from the rest of the package and from its imports:
    - the value-layout thresholds and the two header words of the long
      layout (constants declared outside lfu.go);
    - [MD5L]: [md5hash.MD5HL], second result, the 64-bit hash of a key;
    - [kvLimitOf]: the write limit [newKVHolder] gives to an arena;
    - the float comparisons of [Eliminate] and [GCCopy]:
      [missRateBelow miss qc] is
      [float32(miss)/float32(qc) < eliminateMissRate],
      [usageBelowStart h] is [h.itemsMemUsage() < eliminateStart],
      [dropCount items] is
      [int(ceil(float32(items) * (eliminateStart-eliminateEnd) / eliminateStart))],
      [garbageBelowRate h] is [h.garbageUsage() < garbageRate];
    - the selection routine [BuildMinTopCounter] and the skip codes. *)
Record Package := mkPackage {
  overShortSize : Z;
  overLongSize : Z;
  limitSize : Z;
  overLongStoreHeaderH : Z;
  overLongStoreHeaderL : Z;
  MD5L : list byte → Z;
  kvLimitOf : Z → Z;
  missRateBelow : Z → Z → bool;
  usageBelowStart : KV.t → bool;
  dropCount : Z → Z;
  garbageBelowRate : KV.t → bool;
  BuildMinTopCounter : list metadata → list counter → Z → list (nat * nat) * Z;
  skipReason1 : Z;
  skipReason2 : Z;
  skipReason3 : Z
}.

Section Shard.

Variable P : Package.

Local Abbreviation overShortSize := (overShortSize P).
Local Abbreviation overLongSize := (overLongSize P).
Local Abbreviation limitSize := (limitSize P).
Local Abbreviation overLongStoreHeaderH := (overLongStoreHeaderH P).
Local Abbreviation overLongStoreHeaderL := (overLongStoreHeaderL P).
Local Abbreviation MD5L := (MD5L P).
Local Abbreviation kvLimitOf := (kvLimitOf P).
Local Abbreviation missRateBelow := (missRateBelow P).
Local Abbreviation usageBelowStart := (usageBelowStart P).
Local Abbreviation dropCount := (dropCount P).
Local Abbreviation garbageBelowRate := (garbageBelowRate P).
Local Abbreviation BuildMinTopCounter := (BuildMinTopCounter P).
Local Abbreviation skipReason1 := (skipReason1 P).
Local Abbreviation skipReason2 := (skipReason2 P).
Local Abbreviation skipReason3 := (skipReason3 P).

(** *** Arena helpers *)

(** Modelled from the spec: [newKVHolder] is declared outside lfu.go; it
    allocates a zeroed buffer of [cap] bytes.  The first word is kept
    back, so that no key lives at offset 0 ([kIdx == 0] means that a slot
    holds no data; [ItemsUsedMem] counts these 4 bytes). *)
Definition newKVHolder (cap : Z) : KV.t :=
  KV.mk cap (kvLimitOf cap) 4 0 0 (replicate (Z.to_nat cap) Byte.x00).

(** Modelled from the spec: [getKey] is declared outside lfu.go; it
    returns the 16 bytes of the key as a view into the arena. *)
Definition getKey (h : KV.t) (k : Z) : option (list byte) :=
  let kOffset := u32 (offset k * 4) in
  slice (KV.data h) kOffset (u32 (kOffset + 16)).

(** Modelled from the spec: [getValue] is declared outside lfu.go; it
    copies [vSize] bytes at [vOffset] out of the arena. *)
Definition getValue (h : KV.t) (vOffset vSize : Z) : option (list byte) :=
  slice (KV.data h) vOffset (u32 (vOffset + vSize)).

(** The size of the value a descriptor points to, as [Get] decodes it,
    and where its bytes start. *)
Definition decodeValue (h : KV.t) (k vHeader : Z) : option (Z * Z) :=
  if valType k =? 0 then
    let vOffset := u32 (Z.land vHeader IdxOffsetMask * 4) in
    let vSize := Z.shiftr (Z.land vHeader IdxSmallSizeMask) 24 in
    Some (vOffset, vSize)
  else
    let vOffset := u32 (Z.land vHeader IdxOffsetMask * 4) in
    let vBig := capOrBigSize k in
    let vSize := u32 (Z.shiftr (Z.land vHeader IdxSmallSizeMask) 24
                      + u32 (Z.shiftl vBig 8)) in
    if vSize =? overLongSize then
      vSize' ← loadAt (KV.data h) vOffset;
      Some (u32 (vOffset + 4), vSize')
    else Some (vOffset, vSize).

(** The block that every update branch of [Put], [PutMultiValue] and
    [RePut] repeats: [valUsed] gives back what the old value held. *)
Definition releaseOld (h : KV.t) (k vHeader : Z) : option KV.t :=
  if valType k =? 0 then
    Some (KV.setValUsed h (u32 (KV.valUsed h - capOrBigSize k)))
  else
    let vBig := capOrBigSize k in
    let vSize := u32 (Z.shiftr (Z.land vHeader IdxSmallSizeMask) 24
                      + u32 (Z.shiftl vBig 8)) in
    if vSize =? overLongSize then
      let vOffset := u32 (Z.land vHeader IdxOffsetMask * 4) in
      vSize' ← loadAt (KV.data h) vOffset;
      Some (KV.setValUsed h
              (u32 (KV.valUsed h - u32 (Cap4Size vSize' + 4))))
    else
      Some (KV.setValUsed h (u32 (KV.valUsed h - Cap4Size vSize))).

(** Modelled from the spec: [kvHolder.del] is declared outside lfu.go; it
    marks the arena slot dead: [items] goes down by one and the bytes the
    value held become garbage. *)
Definition del (h : KV.t) (k : Z) : option KV.t :=
  vHeader ← loadAt (KV.data h) (u32 (u32 (offset k * 4) + 16));
  h1 ← releaseOld h k vHeader;
  Some (KV.setItems h1 (u32 (KV.items h1 - 1))).

(** Modelled from the spec: [getKVUnlock] is declared outside lfu.go; it
    reads the key and the value of a descriptor without locking. *)
Definition getKVUnlock (h : KV.t) (k : Z) : option (list byte * list byte) :=
  key ← getKey h k;
  vHeader ← loadAt (KV.data h) (u32 (u32 (offset k * 4) + 16));
  '(vOffset, vSize) ← decodeValue h k vHeader;
  v ← getValue h vOffset vSize;
  Some (key, v).

(** The four statements of every rejecting branch:
    [ctrl[g][s] = tombstone; dead++; counters[g][s] = 0; kvHolder.items--]. *)
Definition tombstoneSlot (m : LFUMap) (g s : nat) : option LFUMap :=
  ct ← set2 (ctrl m) g s tombstone;
  cn ← set2 (counters m) g s 0;
  let m1 := setDead (setCtrl m ct) (u32 (dead m + 1)) in
  let m2 := setCounters m1 cn in
  Some (setKV m2 (KV.setItems (kvHolder m2) (u32 (KV.items (kvHolder m2) - 1)))).

(** *** Key tests of the probe loops *)

(** [bytes.Equal(key, m.kvHolder.getKey(m.groups[g][s]))] *)
Definition keyTest (m : LFUMap) (key : list byte) (g s : nat) : option bool :=
  k ← get2 (groups m) g s;
  kb ← getKey (kvHolder m) k;
  Some (bytesEqual key kb).

(** The test of [Get]: a zero descriptor is skipped, otherwise the 16
    bytes at the key offset are compared. *)
Definition getTest (m : LFUMap) (key : list byte) (g s : nat) : option bool :=
  k ← get2 (groups m) g s;
  if k =? 0 then Some false
  else
    let kOffset := u32 (offset k * 4) in
    kb ← slice (KV.data (kvHolder m)) kOffset (u32 (kOffset + 16));
    Some (bytesEqual key kb).

Definition probeWith (m : LFUMap) (test : nat → nat → option bool) (l : Z)
  : option probe :=
  let '(hi, lo) := splitHash l in
  g ← probeStart hi (length (groups m));
  probeLoop (ctrl m) (length (groups m)) lo test (length (groups m)) g.

(** *** Has, Get *)

Definition add (m : LFUMap) (g s : nat) : option LFUMap :=
  c ← get2 (counters m) g s;
  if c <? maxCount then
    cn ← set2 (counters m) g s (c + 1); Some (setCounters m cn)
  else Some m.

Definition u64 (x : Z) : Z := x mod 2 ^ 64.

Definition Has (m : LFUMap) (l : Z) (key : list byte)
  : option (LFUMap * bool) :=
  let m := setQueryCnt m (u64 (queryCnt m + 1)) in
  r ← probeWith m (keyTest m key) l;
  match r with
  | Found g s => m' ← add m g s; Some (m', true)
  | AtEmpty _ _ => Some (setMissCnt m (u64 (missCnt m + 1)), false)
  end.

Definition Get (m : LFUMap) (l : Z) (key : list byte)
  : option (LFUMap * (list byte * bool)) :=
  let m := setQueryCnt m (u64 (queryCnt m + 1)) in
  r ← probeWith m (getTest m key) l;
  match r with
  | Found g s =>
      k ← get2 (groups m) g s;
      let h := kvHolder m in
      let kEnd := u32 (u32 (offset k * 4) + 16) in
      vHeader ← loadAt (KV.data h) kEnd;
      '(vOffset, vSize) ← decodeValue h k vHeader;
      value ← getValue h vOffset vSize;
      m' ← add m g s;
      Some (m', (value, true))
  | AtEmpty _ _ => Some (setMissCnt m (u64 (missCnt m + 1)), ([], false))
  end.

(** *** Put *)

(** The body of [Put] once the key has been found in slot [(g, s)]. *)
Definition putFound (m : LFUMap) (g s : nat) (value : list byte)
  : option (LFUMap * bool) :=
  k ← get2 (groups m) g s;
  let h := kvHolder m in
  let kOffset := u32 (offset k * 4) in
  let kEnd := u32 (kOffset + 16) in
  vHeader ← loadAt (KV.data h) kEnd;
  let vType := valType k in
  let lv := u32 (len value) in
  if limitSize <=? lv then
    m1 ← tombstoneSlot m g s;
    h1 ← releaseOld (kvHolder m1) k vHeader;
    Some (setKV m1 h1, false)
  else if overLongSize <=? lv then
    let vCap := u32 (Cap4Size lv + 4) in
    let ntail := u32 (u32 (KV.tail h + 20) + vCap) in
    h1 ← releaseOld h k vHeader;
    if KV.cap h1 <? ntail then
      m1 ← tombstoneSlot (setKV m h1) g s; Some (m1, false)
    else
      let vOffset := KV.tail h1 in
      d1 ← storeAt (KV.data h1) vOffset lv;
      d2 ← copyAt d1 (u32 (vOffset + 4)) value;
      gs ← set2 (groups m) g s
             (u32 (u32 (kOffset / storeUintBytes + overLongStoreHeaderH)
                   + mapTypeHeader));
      d3 ← storeAt d2 kEnd (u32 (vOffset / storeUintBytes + overLongStoreHeaderL));
      let h2 := KV.setData h1 d3 in
      let h3 := KV.setTail h2 ntail in
      let h4 := KV.setValUsed h3 (u32 (KV.valUsed h3 + vCap)) in
      Some (setKV (setGroups m gs) h4, true)
  else if overShortSize <=? lv then
    let vCap := Cap4Size lv in
    let ntail := u32 (KV.tail h + vCap) in
    h1 ← releaseOld h k vHeader;
    if KV.cap h1 <? ntail then
      m1 ← tombstoneSlot (setKV m h1) g s; Some (m1, false)
    else
      let vBig := Z.shiftr (Z.land lv 0x7f00) 8 in
      let vSmall := Z.land lv 0xff in
      d1 ← copyAt (KV.data h1) (KV.tail h1) value;
      gs ← set2 (groups m) g s
             (u32 (u32 (kOffset / 4 + u32 (Z.shiftl vBig 24)) + mapTypeHeader));
      d2 ← storeAt d1 kEnd (u32 (KV.tail h1 / 4 + u32 (Z.shiftl vSmall 24)));
      let h2 := KV.setData h1 d2 in
      let h3 := KV.setTail h2 ntail in
      let h4 := KV.setValUsed h3 (u32 (KV.valUsed h3 + vCap)) in
      Some (setKV (setGroups m gs) h4, true)
  else if (vType =? 0) && (lv <=? u32 (capOrBigSize k * 4))
          && (lv <? overShortSize) then
    let vOffset := Z.land vHeader IdxOffsetMask in
    d1 ← storeAt (KV.data h) kEnd (u32 (vOffset + u32 (Z.shiftl lv 24)));
    d2 ← copyAt d1 (u32 (vOffset * 4)) value;
    Some (setKV m (KV.setData h d2), true)
  else
    let vCap := Cap4Size lv in
    let ntail := u32 (KV.tail h + vCap) in
    h1 ← releaseOld h k vHeader;
    if KV.cap h1 <? ntail then
      m1 ← tombstoneSlot (setKV m h1) g s;
      gs ← set2 (groups m1) g s 0;
      Some (setGroups m1 gs, false)
    else
      d1 ← copyAt (KV.data h1) (KV.tail h1) value;
      gs ← set2 (groups m) g s
             (u32 (kOffset / 4 + u32 (Z.shiftl (vCap / 4) 24)));
      d2 ← storeAt d1 kEnd (u32 (KV.tail h1 / 4 + u32 (Z.shiftl lv 24)));
      let h2 := KV.setData h1 d2 in
      let h3 := KV.setTail h2 ntail in
      let h4 := KV.setValUsed h3 (u32 (KV.valUsed h3 + vCap)) in
      Some (setKV (setGroups m gs) h4, true).

Definition Put (m : LFUMap) (l : Z) (key value : list byte)
  : option (LFUMap * bool) :=
  r ← probeWith m (keyTest m key) l;
  match r with
  | Found g s => putFound m g s value
  | AtEmpty _ _ => Some (m, false)
  end.

(** *** PutMultiValue *)

(** [for _, v := range vals { copy(data[idx:], v); idx += uint32(len(v)) }] *)
Fixpoint copyVals (data : list byte) (idx : Z) (vals : list (list byte))
  : option (list byte * Z) :=
  match vals with
  | [] => Some (data, idx)
  | v :: rest =>
      d ← copyAt data idx v; copyVals d (u32 (idx + len v)) rest
  end.

Definition putMultiFound (m : LFUMap) (g s : nat) (vlen : Z)
    (vals : list (list byte)) : option (LFUMap * bool) :=
  k ← get2 (groups m) g s;
  let h := kvHolder m in
  let kOffset := u32 (offset k * 4) in
  let kEnd := u32 (kOffset + 16) in
  vHeader ← loadAt (KV.data h) kEnd;
  let vType := valType k in
  if limitSize <=? vlen then
    m1 ← tombstoneSlot m g s;
    h1 ← releaseOld (kvHolder m1) k vHeader;
    Some (setKV m1 h1, false)
  else if overLongSize <=? vlen then
    let vCap := u32 (Cap4Size vlen + 4) in
    let ntail := u32 (u32 (KV.tail h + 20) + vCap) in
    h1 ← releaseOld h k vHeader;
    if KV.cap h1 <? ntail then
      m1 ← tombstoneSlot (setKV m h1) g s; Some (m1, false)
    else
      let vOffset := KV.tail h1 in
      d1 ← storeAt (KV.data h1) vOffset vlen;
      '(d2, _) ← copyVals d1 (u32 (vOffset + 4)) vals;
      gs ← set2 (groups m) g s
             (u32 (u32 (kOffset / storeUintBytes + overLongStoreHeaderH)
                   + mapTypeHeader));
      d3 ← storeAt d2 kEnd (u32 (vOffset / storeUintBytes + overLongStoreHeaderL));
      let h2 := KV.setData h1 d3 in
      let h3 := KV.setTail h2 ntail in
      let h4 := KV.setValUsed h3 (u32 (KV.valUsed h3 + vCap)) in
      Some (setKV (setGroups m gs) h4, true)
  else if overShortSize <=? vlen then
    let vCap := Cap4Size vlen in
    let ntail := u32 (KV.tail h + vCap) in
    h1 ← releaseOld h k vHeader;
    if KV.cap h1 <? ntail then
      m1 ← tombstoneSlot (setKV m h1) g s; Some (m1, false)
    else
      let vBig := Z.shiftr (Z.land vlen 0x7f00) 8 in
      let vSmall := Z.land vlen 0xff in
      let vOffset := KV.tail h1 in
      '(d1, _) ← copyVals (KV.data h1) vOffset vals;
      gs ← set2 (groups m) g s
             (u32 (u32 (kOffset / 4 + u32 (Z.shiftl vBig 24)) + mapTypeHeader));
      d2 ← storeAt d1 kEnd (u32 (vOffset / 4 + u32 (Z.shiftl vSmall 24)));
      let h2 := KV.setData h1 d2 in
      let h3 := KV.setTail h2 ntail in
      let h4 := KV.setValUsed h3 (u32 (KV.valUsed h3 + vCap)) in
      Some (setKV (setGroups m gs) h4, true)
  else if (vType =? 0) && (vlen <=? u32 (capOrBigSize k * 4))
          && (vlen <? overShortSize) then
    let vOffset := Z.land vHeader IdxOffsetMask in
    d1 ← storeAt (KV.data h) kEnd (u32 (vOffset + u32 (Z.shiftl vlen 24)));
    '(d2, _) ← copyVals d1 (u32 (vOffset * 4)) vals;
    Some (setKV m (KV.setData h d2), true)
  else
    let vCap := Cap4Size vlen in
    let ntail := u32 (KV.tail h + vCap) in
    h1 ← releaseOld h k vHeader;
    if KV.cap h1 <? ntail then
      m1 ← tombstoneSlot (setKV m h1) g s;
      gs ← set2 (groups m1) g s 0;
      Some (setGroups m1 gs, false)
    else
      let vOffset := KV.tail h1 in
      '(d1, _) ← copyVals (KV.data h1) vOffset vals;
      gs ← set2 (groups m) g s
             (u32 (kOffset / 4 + u32 (Z.shiftl (vCap / 4) 24)));
      d2 ← storeAt d1 kEnd (u32 (vOffset / 4 + u32 (Z.shiftl vlen 24)));
      let h2 := KV.setData h1 d2 in
      let h3 := KV.setTail h2 ntail in
      let h4 := KV.setValUsed h3 (u32 (KV.valUsed h3 + vCap)) in
      Some (setKV (setGroups m gs) h4, true).

Definition PutMultiValue (m : LFUMap) (l : Z) (key : list byte) (vlen : Z)
    (vals : list (list byte)) : option (LFUMap * bool) :=
  r ← probeWith m (keyTest m key) l;
  match r with
  | Found g s => putMultiFound m g s vlen vals
  | AtEmpty _ _ => Some (m, false)
  end.

(** *** rehash *)

(** [uint32(math.Ceil(float64(len(m.groups)) * 1.2))], unless the table is
    mostly tombstones.  For every group count below [2^32] the float64
    product rounds to a value whose ceiling is [ceil(6*G/5)], which is what
    is computed here on integers. *)
Definition nextSize (m : LFUMap) : nat :=
  if resident m / 2 <=? dead m then length (groups m)
  else Z.to_nat (u32 ((6 * len (groups m) + 4) / 5)).

(** Modelled from the spec: [gcSet] is declared outside lfu.go; it appends
    the 16-byte key, the 4-byte value header and the value (after a 4-byte
    length prefix for a long value) at the tail of the arena and returns
    the descriptor. *)
Definition gcSet (h : KV.t) (key value : list byte) : option (KV.t * Z) :=
  let lv := u32 (len value) in
  let tail := KV.tail h in
  let kEnd := u32 (tail + 16) in
  let vOffset := u32 (kEnd + 4) in
  d0 ← copyAt (KV.data h) tail key;
  if overLongSize <=? lv then
    let vCap := u32 (Cap4Size lv + 4) in
    let ntail := u32 (u32 (tail + 20) + vCap) in
    d1 ← storeAt d0 vOffset lv;
    d2 ← copyAt d1 (u32 (vOffset + 4)) value;
    d3 ← storeAt d2 kEnd (u32 (vOffset / storeUintBytes + overLongStoreHeaderL));
    Some (KV.mk (KV.cap h) (KV.limit h) ntail (u32 (KV.items h + 1))
                (u32 (KV.valUsed h + vCap)) d3,
          u32 (u32 (tail / storeUintBytes + overLongStoreHeaderH)
               + mapTypeHeader))
  else if overShortSize <=? lv then
    let vCap := Cap4Size lv in
    let ntail := u32 (u32 (tail + 20) + vCap) in
    let vBig := Z.shiftr lv 8 in
    let vSmall := Z.land lv 0xff in
    d1 ← copyAt d0 vOffset value;
    d2 ← storeAt d1 kEnd (u32 (vOffset / 4 + u32 (Z.shiftl vSmall 24)));
    Some (KV.mk (KV.cap h) (KV.limit h) ntail (u32 (KV.items h + 1))
                (u32 (KV.valUsed h + vCap)) d2,
          u32 (u32 (tail / 4 + u32 (Z.shiftl vBig 24)) + mapTypeHeader))
  else
    let vCap := Cap4Size lv in
    let ntail := u32 (u32 (tail + 20) + vCap) in
    d1 ← copyAt d0 vOffset value;
    d2 ← storeAt d1 kEnd (u32 (vOffset / 4 + u32 (Z.shiftl lv 24)));
    Some (KV.mk (KV.cap h) (KV.limit h) ntail (u32 (KV.items h + 1))
                (u32 (KV.valUsed h + vCap)) d2,
          u32 (tail / 4 + u32 (Z.shiftl (vCap / 4) 24))).

(** The table under construction in [rehash] and [GCCopy]. *)
Record rebuild := mkRebuild {
  r_groups : list group;
  r_ctrl : list metadata;
  r_counters : list counter;
  r_kv : KV.t;
  r_resident : Z
}.

(** The inner [for] of [rehash]: the first group, from [gN] on, that has
    an empty slot, and the first empty slot in it. *)
Fixpoint findEmpty (ct : list metadata) (nGroups fuel gN : nat)
  : option (nat * nat) :=
  match fuel with
  | O => None
  | S fuel' =>
      md ← ct !! gN;
      let matches := metaMatchEmpty md in
      if negb (matches =? 0) then Some (gN, fst (nextMatch matches))
      else findEmpty ct nGroups fuel'
             (if decide (nGroups ≤ S gN)%nat then 0%nat else S gN)
  end.

(** The body of the double loop of [rehash] for the old slot [(g, s)]. *)
Definition moveSlot (m : LFUMap) (r : rebuild) (g s : nat) : option rebuild :=
  c ← get2 (ctrl m) g s;
  if (c =? empty) || (c =? tombstone) then Some r
  else
    k ← get2 (groups m) g s;
    '(key, v) ← getKVUnlock (kvHolder m) k;
    let '(hi, lo) := splitHash (MD5L key) in
    gN ← probeStart hi (length (r_groups r));
    '(gN, sN) ← findEmpty (r_ctrl r) (length (r_groups r))
                  (length (r_groups r)) gN;
    '(h, kN) ← gcSet (r_kv r) key v;
    gs ← set2 (r_groups r) gN sN kN;
    ct ← set2 (r_ctrl r) gN sN lo;
    cnt ← get2 (counters m) g s;
    cn ← set2 (r_counters r) gN sN cnt;
    Some (mkRebuild gs ct cn h (u32 (r_resident r + 1))).

(** [for s := range m.ctrl[g]] *)
Fixpoint moveRow (m : LFUMap) (r : rebuild) (g : nat) (ss : list nat)
  : option rebuild :=
  match ss with
  | [] => Some r
  | s :: rest => r' ← moveSlot m r g s; moveRow m r' g rest
  end.

(** [for g := range m.ctrl] *)
Fixpoint moveRows (m : LFUMap) (r : rebuild) (gs : list nat)
  : option rebuild :=
  match gs with
  | [] => Some r
  | g :: rest =>
      row ← ctrl m !! g;
      r' ← moveRow m r g (seq 0 (length row));
      moveRows m r' rest
  end.

Definition newEmptyMetadata : metadata := replicate 16 empty.

Definition freshTable (n : nat) (cap : Z) : rebuild :=
  mkRebuild (replicate n (replicate 16 0))
            (replicate n newEmptyMetadata)
            (replicate n (replicate 16 0))
            (newKVHolder cap) 0.

Definition rehash (m : LFUMap) : option LFUMap :=
  let n := nextSize m in
  r ← moveRows m (freshTable n (KV.cap (kvHolder m)))
        (seq 0 (length (ctrl m)));
  Some (mkLFUMap (r_kv r) (r_ctrl r) (r_counters r) (r_groups r)
          (r_resident r) 0 (u32 (Z.of_nat n * maxAvgGroupLoad))
          (queryCnt m) (missCnt m) (rehashing m)).

(** *** RePut *)

Definition setRehashing (m : LFUMap) (b : bool) : LFUMap :=
  mkLFUMap (kvHolder m) (ctrl m) (counters m) (groups m) (resident m) (dead m)
           (limit m) (queryCnt m) (missCnt m) b.

(** The body of [RePut] once the key has been found in slot [(g, s)]. *)
Definition rePutFound (m : LFUMap) (g s : nat) (value : list byte)
  : option (LFUMap * bool) :=
  k ← get2 (groups m) g s;
  let h := kvHolder m in
  let kOffset := u32 (offset k * 4) in
  let kEnd := u32 (kOffset + 16) in
  vHeader ← loadAt (KV.data h) kEnd;
  let vType := valType k in
  let lv := u32 (len value) in
  if overLongSize <=? lv then
    let vCap := u32 (Cap4Size lv + 4) in
    h1 ← releaseOld h k vHeader;
    let vOffset := u32 (KV.tail h1 + 4) in
    let ntail := u32 (vOffset + vCap) in
    if KV.cap h1 <? ntail then
      m1 ← tombstoneSlot (setKV m h1) g s; Some (m1, false)
    else
      d1 ← storeAt (KV.data h1) (KV.tail h1) lv;
      d2 ← copyAt d1 vOffset value;
      gs ← set2 (groups m) g s
             (u32 (u32 (kOffset / storeUintBytes + overLongStoreHeaderH)
                   + mapTypeHeader));
      d3 ← storeAt d2 kEnd
             (u32 (KV.tail h1 / storeUintBytes + overLongStoreHeaderL));
      let h2 := KV.setData h1 d3 in
      let h3 := KV.setTail h2 ntail in
      let h4 := KV.setValUsed h3 (u32 (KV.valUsed h3 + vCap)) in
      Some (setKV (setGroups m gs) h4, true)
  else if overShortSize <=? lv then
    let vCap := Cap4Size lv in
    let ntail := u32 (KV.tail h + vCap) in
    h1 ← releaseOld h k vHeader;
    if KV.cap h1 <? ntail then
      m1 ← tombstoneSlot (setKV m h1) g s; Some (m1, false)
    else
      let vBig := Z.shiftr (Z.land lv 0x7f00) 8 in
      let vSmall := Z.land lv 0xff in
      d1 ← copyAt (KV.data h1) (KV.tail h1) value;
      gs ← set2 (groups m) g s
             (u32 (u32 (kOffset / 4 + u32 (Z.shiftl vBig 24)) + mapTypeHeader));
      d2 ← storeAt d1 kEnd (u32 (KV.tail h1 / 4 + u32 (Z.shiftl vSmall 24)));
      let h2 := KV.setData h1 d2 in
      let h3 := KV.setTail h2 ntail in
      let h4 := KV.setValUsed h3 (u32 (KV.valUsed h3 + vCap)) in
      Some (setKV (setGroups m gs) h4, true)
  else if (vType =? 0) && (lv <=? u32 (capOrBigSize k * 4))
          && (lv <? overShortSize) then
    let vOffset := Z.land vHeader IdxOffsetMask in
    d1 ← storeAt (KV.data h) kEnd (u32 (vOffset + u32 (Z.shiftl lv 24)));
    d2 ← copyAt d1 (u32 (vOffset * 4)) value;
    Some (setKV m (KV.setData h d2), true)
  else
    let vCap := Cap4Size lv in
    let ntail := u32 (KV.tail h + vCap) in
    h1 ← releaseOld h k vHeader;
    if KV.cap h1 <? ntail then
      m1 ← tombstoneSlot (setKV m h1) g s;
      gs ← set2 (groups m1) g s 0;
      Some (setGroups m1 gs, false)
    else
      d1 ← copyAt (KV.data h1) (KV.tail h1) value;
      gs ← set2 (groups m) g s
             (u32 (kOffset / 4 + u32 (Z.shiftl (vCap / 4) 24)));
      d2 ← storeAt d1 kEnd (u32 (KV.tail h1 / 4 + u32 (Z.shiftl lv 24)));
      let h2 := KV.setData h1 d2 in
      let h3 := KV.setTail h2 ntail in
      let h4 := KV.setValUsed h3 (u32 (KV.valUsed h3 + vCap)) in
      Some (setKV (setGroups m gs) h4, true).

(** The body of [RePut] once the probe has met an empty slot in group [g]. *)
Definition rePutInsert (m : LFUMap) (g : nat) (matches lo : Z)
    (key value : list byte) : option (LFUMap * bool) :=
  let s := fst (nextMatch matches) in
  let h := kvHolder m in
  let lv := u32 (len value) in
  let tail := KV.tail h in
  let vCap := if overLongSize <=? lv then u32 (Cap4Size lv + 4)
              else Cap4Size lv in
  let ntail := u32 (u32 (tail + 20) + vCap) in
  if KV.cap h <? ntail then Some (m, false)
  else
    let kEnd := u32 (tail + 16) in
    let vOffset := u32 (kEnd + 4) in
    d0 ← copyAt (KV.data h) tail key;
    '(d, kN) ←
      (if overLongSize <=? lv then
         d1 ← storeAt d0 vOffset lv;
         d2 ← copyAt d1 (u32 (vOffset + 4)) value;
         d3 ← storeAt d2 kEnd
                (u32 (vOffset / storeUintBytes + overLongStoreHeaderL));
         Some (d3, u32 (u32 (tail / storeUintBytes + overLongStoreHeaderH)
                        + mapTypeHeader))
       else if overShortSize <=? lv then
         let vBig := Z.shiftr lv 8 in
         let vSmall := Z.land lv 0xff in
         d1 ← copyAt d0 vOffset value;
         d2 ← storeAt d1 kEnd (u32 (vOffset / 4 + u32 (Z.shiftl vSmall 24)));
         Some (d2, u32 (u32 (tail / 4 + u32 (Z.shiftl vBig 24))
                        + mapTypeHeader))
       else
         d1 ← copyAt d0 vOffset value;
         d2 ← storeAt d1 kEnd (u32 (vOffset / 4 + u32 (Z.shiftl lv 24)));
         Some (d2, u32 (tail / 4 + u32 (Z.shiftl (vCap / 4) 24))));
    gs ← set2 (groups m) g s kN;
    let h' := KV.mk (KV.cap h) (KV.limit h) ntail (u32 (KV.items h + 1))
                    (u32 (KV.valUsed h + vCap)) d in
    ct ← set2 (ctrl m) g s lo;
    cn ← set2 (counters m) g s 1;
    Some (setResident (setCounters (setCtrl (setKV (setGroups m gs) h') ct) cn)
            (u32 (resident m + 1)), true).

Definition RePut (m : LFUMap) (l : Z) (key value : list byte)
  : option (LFUMap * bool) :=
  if KV.limit (kvHolder m) <=? KV.tail (kvHolder m) then Some (m, false)
  else if rehashing m then Some (m, false)
  else
    m0 ← (if limit m <=? resident m then
            m' ← rehash (setRehashing m true); Some (setRehashing m' false)
          else Some m);
    r ← probeWith m0 (keyTest m0 key) l;
    match r with
    | Found g s => rePutFound m0 g s value
    | AtEmpty g matches =>
        rePutInsert m0 g matches (snd (splitHash l)) key value
    end.

(** *** Delete, Clear *)

Definition deleteFound (m : LFUMap) (g s : nat) : option LFUMap :=
  k ← get2 (groups m) g s;
  h ← del (kvHolder m) k;
  let m1 := setKV m h in
  md ← ctrl m1 !! g;
  m2 ← (if negb (metaMatchEmpty md =? 0) then
          ct ← set2 (ctrl m1) g s empty;
          Some (setResident (setCtrl m1 ct) (u32 (resident m1 - 1)))
        else
          ct ← set2 (ctrl m1) g s tombstone;
          Some (setDead (setCtrl m1 ct) (u32 (dead m1 + 1))));
  cn ← set2 (counters m2) g s 0;
  Some (setCounters m2 cn).

Definition Delete (m : LFUMap) (l : Z) (key : list byte)
  : option (LFUMap * bool) :=
  r ← probeWith m (keyTest m key) l;
  match r with
  | Found g s => m' ← deleteFound m g s; Some (m', true)
  | AtEmpty _ _ => Some (m, false)
  end.

Definition Clear (m : LFUMap) : LFUMap :=
  mkLFUMap (newKVHolder (KV.cap (kvHolder m)))
    (map (map (λ _, empty)) (ctrl m))
    (map (map (λ _, 0)) (counters m))
    (map (map (λ _, 0)) (groups m))
    0 0 (limit m) (queryCnt m) (missCnt m) (rehashing m).

(** *** Introspection *)

Definition Items (m : LFUMap) : Z := KV.items (kvHolder m).
Definition Count (m : LFUMap) : Z := u32 (resident m - dead m).
Definition UsedMem (m : LFUMap) : Z := KV.tail (kvHolder m).
Definition Capacity (m : LFUMap) : Z := u32 (limit m - resident m).

(** [newInnerLFUMap], given the group count [numGroups(sz)] and the arena
    size [memMax] it derives from its owner. *)
Definition newInnerLFUMap (nGroups : nat) (memMax : Z) : LFUMap :=
  mkLFUMap (newKVHolder memMax)
    (replicate nGroups newEmptyMetadata)
    (replicate nGroups (replicate 16 0))
    (replicate nGroups (replicate 16 0))
    0 0 (u32 (Z.of_nat nGroups * maxAvgGroupLoad)) 0 0 false.

(** *** Eliminate *)

(** The body of [for i := range item] in [Eliminate]. *)
Definition dropSlot (acc : LFUMap * Z) (gs : nat * nat) : option (LFUMap * Z) :=
  let '(m, delCount) := acc in
  let '(g, s) := gs in
  c ← get2 (ctrl m) g s;
  if (c =? tombstone) || (c =? empty) then Some (m, delCount)
  else
    k ← get2 (groups m) g s;
    h ← del (kvHolder m) k;
    gr ← set2 (groups m) g s 0;
    ct ← set2 (ctrl m) g s tombstone;
    Some (setDead (setCtrl (setGroups (setKV m h) gr) ct) (u32 (dead m + 1)),
          delCount + 1).

Fixpoint dropSlots (acc : LFUMap * Z) (item : list (nat * nat))
  : option (LFUMap * Z) :=
  match item with
  | [] => Some acc
  | gs :: rest => acc' ← dropSlot acc gs; dropSlots acc' rest
  end.

(** [simd.MSubs128epu8]: saturating subtraction of [x] on one row. *)
Definition subs (x : Z) (row : counter) : counter :=
  map (λ c, Z.max 0 (c - x)) row.

(** [for i := 0; i < len(m.ctrl); i++ { counters[i] -= level }] *)
Definition ageCounters (m : LFUMap) (x : Z) : option LFUMap :=
  let n := length (ctrl m) in
  if decide (n ≤ length (counters m))%nat then
    Some (setCounters m
            (map (subs x) (take n (counters m)) ++ drop n (counters m)))
  else None.

Definition Eliminate (m : LFUMap) : option (LFUMap * (Z * Z)) :=
  let qc := queryCnt m in
  if (0 <? qc) && missRateBelow (missCnt m) qc then
    Some (m, (0, skipReason1))
  else if usageBelowStart (kvHolder m) then Some (m, (0, skipReason2))
  else
    let n := dropCount (KV.items (kvHolder m)) in
    if n =? 0 then Some (m, (0, skipReason3))
    else
      let '(item, x) := BuildMinTopCounter (ctrl m) (counters m) n in
      '(m1, delCount) ← dropSlots (m, 0) item;
      m2 ← ageCounters m1 x;
      Some (m2, (delCount, 0)).

(** *** GCCopy *)

Definition GCCopy (m : LFUMap) : option (LFUMap * (Z * Z * Z)) :=
  if garbageBelowRate (kvHolder m) then Some (m, (0, 0, skipReason1))
  else if rehashing m then Some (m, (0, 0, skipReason2))
  else
    let m := setRehashing m true in
    let oldUsed := KV.tail (kvHolder m) in
    let deadCount := dead m in
    let n := length (groups m) in
    r ← moveRows m (freshTable n (KV.cap (kvHolder m)))
          (seq 0 (length (ctrl m)));
    let m' := mkLFUMap (r_kv r) (r_ctrl r) (r_counters r) (r_groups r)
                (u32 (resident m - dead m)) 0 (limit m)
                (queryCnt m) (missCnt m) false in
    Some (m', (deadCount, u32 (oldUsed - KV.tail (kvHolder m')), 0)).

End Shard.

(** ** Views used by the proofs *)

(** What the inner loop of a probe computes, over the list of candidate
    slots instead of a bit mask. *)
Fixpoint firstHit (test : nat → option bool) (ss : list nat)
  : option (option nat) :=
  match ss with
  | [] => Some None
  | s :: rest =>
      b ← test s; if b : bool then Some (Some s) else firstHit test rest
  end.

(** The set bits of a mask among the slots [k .. k+n-1], lowest first. *)
Definition bitsFrom (x : Z) (k n : nat) : list nat :=
  filter (λ s, Z.testbit x (Z.of_nat s) = true) (seq k n).

(** The slots of a row whose control byte is [c], lowest first. *)
Definition matchSlots (md : metadata) (c : Z) : list nat :=
  filter (λ s, md !! s = Some c) (seq 0 16).


(** Every row of a table has the 16 slots of a Go [[16]T]. *)
Definition rows16 {A} (t : list (list A)) : Prop :=
  Forall (λ row, length row = 16%nat) t.

Definition isLive (c : Z) : bool := negb ((c =? empty) || (c =? tombstone)).
Definition isDead (c : Z) : bool := c =? tombstone.

Fixpoint countRow (f : Z → bool) (row : list Z) : Z :=
  match row with
  | [] => 0
  | c :: t => Z.b2z (f c) + countRow f t
  end.

Fixpoint countTable (f : Z → bool) (t : list (list Z)) : Z :=
  match t with
  | [] => 0
  | row :: t' => countRow f row + countTable f t'
  end.

Record Inv (m : LFUMap) : Prop := mkInv {
  inv_ctrl : rows16 (ctrl m);
  inv_counters : rows16 (counters m);
  inv_groups : rows16 (groups m);
  inv_len_counters : length (counters m) = length (ctrl m);
  inv_len_groups : length (groups m) = length (ctrl m);
  inv_size : 16 * len (ctrl m) < 2 ^ 32;
  inv_items : KV.items (kvHolder m) = countTable isLive (ctrl m);
  inv_dead : dead m = countTable isDead (ctrl m);
  inv_resident :
    resident m = countTable isLive (ctrl m) + countTable isDead (ctrl m)
}.

(** What an update that succeeds leaves alone. *)
Definition keepsCounts (m m' : LFUMap) : Prop :=
  ctrl m' = ctrl m ∧ counters m' = counters m
  ∧ resident m' = resident m ∧ dead m' = dead m ∧ limit m' = limit m
  ∧ queryCnt m' = queryCnt m ∧ missCnt m' = missCnt m
  ∧ rehashing m' = rehashing m
  ∧ KV.items (kvHolder m') = KV.items (kvHolder m)
  ∧ KV.cap (kvHolder m') = KV.cap (kvHolder m)
  ∧ KV.limit (kvHolder m') = KV.limit (kvHolder m)
  ∧ (groups m' = groups m
     ∨ ∃ g s k, set2 (groups m) g s k = Some (groups m')).

(** What a rejected update does to slot [(g, s)]. *)
Definition tombstoned (m : LFUMap) (g s : nat) (m' : LFUMap) : Prop :=
  set2 (ctrl m) g s tombstone = Some (ctrl m')
  ∧ set2 (counters m) g s 0 = Some (counters m')
  ∧ dead m' = u32 (dead m + 1)
  ∧ KV.items (kvHolder m') = u32 (KV.items (kvHolder m) - 1)
  ∧ resident m' = resident m ∧ limit m' = limit m
  ∧ queryCnt m' = queryCnt m ∧ missCnt m' = missCnt m
  ∧ rehashing m' = rehashing m
  ∧ KV.cap (kvHolder m') = KV.cap (kvHolder m)
  ∧ KV.limit (kvHolder m') = KV.limit (kvHolder m)
  ∧ KV.tail (kvHolder m') = KV.tail (kvHolder m)
  ∧ KV.data (kvHolder m') = KV.data (kvHolder m)
  ∧ (groups m' = groups m ∨ set2 (groups m) g s 0 = Some (groups m')).

(** No tagged slot holds [key]: every slot whose control byte is a tag has
    a readable key, and that key is another one. *)
Definition absent (m : LFUMap) (key : list byte) : Prop :=
  ∀ g s c, get2 (ctrl m) g s = Some c → 0 ≤ c →
           keyTest m key g s = Some false.

Definition hasEmptySlot (m : LFUMap) : Prop :=
  ∃ g s, get2 (ctrl m) g s = Some empty.

(** A row of control bytes that still has an empty slot. *)
Definition rowHasEmpty (md : metadata) : Prop := ∃ s, md !! s = Some empty.

(** ** A concrete package for the examples

    Modelled from the spec: [OVER_SHORT = 256] and [LIMIT = 2^24]; the
    long layout is announced by the largest size that the 7+8 size bits of
    a descriptor can hold, [0x7fff], spread over the two header words.
    The hash reads the first 8 bytes of the key and the arena limit is
    its capacity.  The guards of the maintenance calls are given on
    integers: a miss rate below 1/10, an items usage below 4/5 of the
    arena, a quarter of the items to drop, a garbage share below 1/2;
    [BuildMinTopCounter] selects nothing. *)
Definition demoHash (k : list byte) : Z := le_combine (take 8 k).

Definition demoPackage : Package :=
  mkPackage 256 0x7fff (2 ^ 24) 0x7f000000 0xff000000 demoHash (λ c, c)
    (λ miss qc, miss * 10 <? qc)
    (λ h, (KV.valUsed h + KV.items h * 20 + 4) * 5 <? KV.cap h * 4)
    (λ n, (n + 3) / 4)
    (λ h, (KV.tail h - (KV.items h * 20 + KV.valUsed h)) * 2 <? KV.tail h)
    (λ _ _ _, ([], 0))
    1 2 3.

Definition keyA : list byte := replicate 16 Byte.x41.
Definition keyB : list byte := replicate 16 Byte.x42.
Definition hello : list byte :=
  [Byte.x68; Byte.x65; Byte.x6c; Byte.x6c; Byte.x6f].

(** A one-group shard over an arena of [cap] bytes after
    [RePut(h(A), A, "hello")]. *)
Definition shardWithA (cap : Z) : option (LFUMap * bool) :=
  RePut demoPackage (newInnerLFUMap demoPackage 1 cap) (demoHash keyA)
    keyA hello.

(** The counting invariant of a table under construction: nothing in it
    is a tombstone, and the arena holds one item per tagged slot. *)
Record InvR (r : rebuild) : Prop := mkInvR {
  invr_ctrl : rows16 (r_ctrl r);
  invr_counters : rows16 (r_counters r);
  invr_groups : rows16 (r_groups r);
  invr_len_counters : length (r_counters r) = length (r_ctrl r);
  invr_len_groups : length (r_groups r) = length (r_ctrl r);
  invr_size : 16 * len (r_ctrl r) < 2 ^ 32;
  invr_items : KV.items (r_kv r) = countTable isLive (r_ctrl r);
  invr_dead : countTable isDead (r_ctrl r) = 0;
  invr_resident : r_resident r = countTable isLive (r_ctrl r)
}.

(** ** Runs of the shard *)

Inductive op :=
| OpHas (l : Z) (key : list byte)
| OpGet (l : Z) (key : list byte)
| OpPut (l : Z) (key value : list byte)
| OpPutMultiValue (l : Z) (key : list byte) (vlen : Z) (vals : list (list byte))
| OpRePut (l : Z) (key value : list byte)
| OpDelete (l : Z) (key : list byte)
| OpClear
| OpRehash
| OpEliminate
| OpGCCopy.

(** The shard after one call that returns. *)
Definition run (P : Package) (m : LFUMap) (o : op) : option LFUMap :=
  match o with
  | OpHas l key => fst <$> Has m l key
  | OpGet l key => fst <$> Get P m l key
  | OpPut l key value => fst <$> Put P m l key value
  | OpPutMultiValue l key vlen vals => fst <$> PutMultiValue P m l key vlen vals
  | OpRePut l key value => fst <$> RePut P m l key value
  | OpDelete l key => fst <$> Delete P m l key
  | OpClear => Some (Clear P m)
  | OpRehash => rehash P m
  | OpEliminate => fst <$> Eliminate P m
  | OpGCCopy => fst <$> GCCopy P m
  end.

(** The shards that a sequence of calls reaches from a new shard, as long
    as the slot count of the table fits a [uint32] (a table of [2^28]
    groups and more does not fit the memory the arena accounts for). *)
Inductive reachable (P : Package) : LFUMap → Prop :=
| reach_new nGroups memMax :
    16 * Z.of_nat nGroups < 2 ^ 32 →
    reachable P (newInnerLFUMap P nGroups memMax)
| reach_step m o m' :
    reachable P m → run P m o = Some m' →
    16 * len (ctrl m') < 2 ^ 32 →
    reachable P m'.

(** The two descriptor words, from their fields. *)
Definition mkIdx (off hi ty : Z) : Z := off + hi * 2 ^ 24 + ty * 2 ^ 31.
Definition mkHeader (off sz : Z) : Z := off + sz * 2 ^ 24.

(** What the proofs ask of the constants of the package: a short value
    fits the 8 size bits of Word B, a medium one the 7+8 size bits of the
    two words, the header words of the long layout spell [overLongSize]
    in those bits, and the length of an accepted value fits an [int32]. *)
Record layout_ok (P : Package) : Prop := mkLayoutOk {
  lo_short : overShortSize P ≤ 256;
  lo_long : ∃ hb lb, 0 ≤ hb < 128 ∧ 0 ≤ lb < 256
      ∧ overLongStoreHeaderH P = hb * 2 ^ 24
      ∧ overLongStoreHeaderL P = lb * 2 ^ 24
      ∧ overLongSize P = lb + hb * 256;
  lo_limit : limitSize P ≤ 2 ^ 31
}.

(** The arena of a shard: the tail is word aligned and inside the buffer,
    the first word is never handed out, the buffer is at least as long as
    the declared capacity and short enough for 24-bit word offsets. *)
Record arena_ok (h : KV.t) : Prop := mkArenaOk {
  ao_tail_lo : 4 ≤ KV.tail h;
  ao_tail_al : KV.tail h mod 4 = 0;
  ao_tail_hi : KV.tail h ≤ len (KV.data h);
  ao_cap : KV.cap h ≤ len (KV.data h);
  ao_size : len (KV.data h) < 2 ^ 26
}.

(** Two arenas with the same bytes below [t]. *)
Definition agreeBelow (t : Z) (d d' : list byte) : Prop :=
  length d' = length d ∧ ∀ i : nat, Z.of_nat i < t → d' !! i = d !! i.

(** The bytes a value of [lv] bytes takes in the arena. *)
Definition valueCap (P : Package) (lv : Z) : Z :=
  if overLongSize P <=? lv then Cap4Size lv + 4 else Cap4Size lv.

(** Slot [(g, s)] of the shard is occupied and holds the pair
    [(key, v)] with counter [cnt]. *)
Definition holds (P : Package) (m : LFUMap) (g s : nat)
    (key v : list byte) (cnt : Z) : Prop :=
  ∃ c k, get2 (ctrl m) g s = Some c ∧ isLive c = true
         ∧ get2 (groups m) g s = Some k
         ∧ getKVUnlock P (kvHolder m) k = Some (key, v)
         ∧ get2 (counters m) g s = Some cnt.

(** Some slot tagged with the H2 of the key's hash holds [(key, v)] with
    counter [cnt], in tables [ct], [gs], [cn] over any arena that agrees
    with [d] below [t]. *)
Definition storedIn (P : Package) (ct : list metadata) (gs : list group)
    (cn : list counter) (t : Z) (d : list byte)
    (key v : list byte) (cnt : Z) : Prop :=
  ∃ g s k, get2 ct g s = Some (snd (splitHash (MD5L P key)))
           ∧ get2 gs g s = Some k ∧ get2 cn g s = Some cnt
           ∧ ∀ h2, agreeBelow t d (KV.data h2) →
                   getKVUnlock P h2 k = Some (key, v).

Definition stored (P : Package) (m : LFUMap) (key v : list byte) (cnt : Z)
  : Prop :=
  storedIn P (ctrl m) (groups m) (counters m) (KV.tail (kvHolder m))
    (KV.data (kvHolder m)) key v cnt.

Definition storedR (P : Package) (r : rebuild) (key v : list byte) (cnt : Z)
  : Prop :=
  storedIn P (r_ctrl r) (r_groups r) (r_counters r) (KV.tail (r_kv r))
    (KV.data (r_kv r)) key v cnt.

(** Every occupied slot of the shard can be read. *)
Definition readable (P : Package) (m : LFUMap) : Prop :=
  ∀ g s c k, get2 (ctrl m) g s = Some c → isLive c = true →
             get2 (groups m) g s = Some k →
             is_Some (getKVUnlock P (kvHolder m) k).

(** The bytes the pair of slot [(g, s)] takes in a fresh arena. *)
Definition slotNeed (P : Package) (m : LFUMap) (g s : nat) : Z :=
  match get2 (ctrl m) g s with
  | Some c =>
      if isLive c then
        match get2 (groups m) g s ≫= getKVUnlock P (kvHolder m) with
        | Some (_, v) => 20 + valueCap P (len v)
        | None => 0
        end
      else 0
  | None => 0
  end.

Fixpoint rowNeed (P : Package) (m : LFUMap) (g : nat) (ss : list nat) : Z :=
  match ss with
  | [] => 0
  | s :: rest => slotNeed P m g s + rowNeed P m g rest
  end.

Fixpoint tableNeed (P : Package) (m : LFUMap) (gs : list nat) : Z :=
  match gs with
  | [] => 0
  | g :: rest =>
      match ctrl m !! g with
      | Some row => rowNeed P m g (seq 0 (length row))
      | None => 0
      end + tableNeed P m rest
  end.

(** The tail of the arena once every occupied slot has been copied. *)
Definition compactSize (P : Package) (m : LFUMap) : Z :=
  4 + tableNeed P m (seq 0 (length (ctrl m))).

Definition isEmpty (c : Z) : bool := c =? empty.

(** The one-group shard over a 64-byte arena that holds A ↦ "hello". *)
Definition demoShard : LFUMap :=
  Eval vm_compute in
    match shardWithA 64 with
    | Some (m, _) => m
    | None => newInnerLFUMap demoPackage 1 64
    end.

(** Every slot that carries a tag has a descriptor other than 0. *)
Definition taggedNonzero (m : LFUMap) : Prop :=
  ∀ g s c, get2 (ctrl m) g s = Some c → 0 ≤ c → get2 (groups m) g s ≠ Some 0.

(** The slot a probe stops at, if it stops at a slot. *)
Definition verdict (r : probe) : option (nat * nat) :=
  match r with
  | Found g s => Some (g, s)
  | AtEmpty _ _ => None
  end.

(** The value [Get] reads out of slot [(g, s)]. *)
Definition readSlot (P : Package) (m : LFUMap) (g s : nat)
  : option (list byte) :=
  k ← get2 (groups m) g s;
  vHeader ← loadAt (KV.data (kvHolder m)) (u32 (u32 (offset k * 4) + 16));
  '(vOffset, vSize) ← decodeValue P (kvHolder m) k vHeader;
  getValue (kvHolder m) vOffset vSize.

(** The answer of [Has] and of [Get], read off the slot the probe stops
    at. *)
Definition hasAnswer (m : LFUMap) (v : option (nat * nat)) : option bool :=
  match v with
  | Some (g, s) => (λ _, true) <$> get2 (counters m) g s
  | None => Some false
  end.

Definition getAnswer (P : Package) (m : LFUMap) (v : option (nat * nat))
  : option (list byte * bool) :=
  match v with
  | Some (g, s) =>
      value ← readSlot P m g s;
      (λ _, (value, true)) <$> get2 (counters m) g s
  | None => Some ([], false)
  end.

(** The one-group shard over a 64-byte arena that holds A ↦ "hello" and
    B ↦ "hello". *)
Definition demoShardAB : LFUMap :=
  Eval vm_compute in
    match RePut demoPackage demoShard (demoHash keyB) keyB hello with
    | Some (m, _) => m
    | None => demoShard
    end.

(** The key of every tagged slot with a descriptor lies below the tail of
    the arena. *)
Definition belowTail (m : LFUMap) : Prop :=
  ∀ g s c k, get2 (ctrl m) g s = Some c → 0 ≤ c →
             get2 (groups m) g s = Some k → k ≠ 0 →
             offset k * 4 + 16 ≤ KV.tail (kvHolder m).

Definition keyC : list byte := replicate 16 Byte.x43.

(** A one-group shard over a 128-byte arena: A, B and C are stored, then
    A and B are deleted, which leaves more than half of the arena as
    garbage. *)
Definition demoShardGC : LFUMap :=
  Eval vm_compute in
    let m0 := newInnerLFUMap demoPackage 1 128 in
    match
      '(m1, _) ← RePut demoPackage m0 (demoHash keyA) keyA hello;
      '(m2, _) ← RePut demoPackage m1 (demoHash keyB) keyB hello;
      '(m3, _) ← RePut demoPackage m2 (demoHash keyC) keyC hello;
      '(m4, _) ← Delete demoPackage m3 (demoHash keyA) keyA;
      '(m5, _) ← Delete demoPackage m4 (demoHash keyB) keyB;
      Some m5
    with
    | Some m => m
    | None => m0
    end.

(** The package of the examples with the guards of [Eliminate] open and
    a selection routine that names slot (0, 0) and level 1. *)
Definition demoPackageEvict : Package :=
  mkPackage 256 0x7fff (2 ^ 24) 0x7f000000 0xff000000 demoHash (λ c, c)
    (λ _ _, false) (λ _, false) (λ _, 1) (λ _, false)
    (λ _ _ _, ([(0%nat, 0%nat)], 1))
    1 2 3.

(** What [Get] reads for a descriptor [k] over an arena. *)
Definition readValue (P : Package) (h : KV.t) (k : Z) : option (list byte) :=
  vHeader ← loadAt (KV.data h) (u32 (u32 (offset k * 4) + 16));
  '(vOffset, vSize) ← decodeValue P h k vHeader;
  getValue h vOffset vSize.

(** The layout of the arena that the updates rely on: every tagged slot
    has a descriptor other than 0 whose 20-byte record (key and Word B)
    lies below the tail, past the first word; the records of two tagged
    slots do not overlap; and the room of a short value (type 0) lies
    inside the buffer and overlaps no record. *)
Record wfSlots (m : LFUMap) : Prop := mkWfSlots {
  wf_rec : ∀ g s c k,
    get2 (ctrl m) g s = Some c → 0 ≤ c → get2 (groups m) g s = Some k →
    k ≠ 0 ∧ 4 ≤ offset k * 4
    ∧ offset k * 4 + 20 ≤ KV.tail (kvHolder m);
  wf_apart : ∀ g s c k g' s' c' k',
    get2 (ctrl m) g s = Some c → 0 ≤ c → get2 (groups m) g s = Some k →
    get2 (ctrl m) g' s' = Some c' → 0 ≤ c' →
    get2 (groups m) g' s' = Some k' → (g, s) ≠ (g', s') →
    offset k * 4 + 20 ≤ offset k' * 4 ∨ offset k' * 4 + 20 ≤ offset k * 4;
  wf_val : ∀ g s c k vh,
    get2 (ctrl m) g s = Some c → 0 ≤ c → get2 (groups m) g s = Some k →
    valType k = 0 →
    loadAt (KV.data (kvHolder m)) (offset k * 4 + 16) = Some vh →
    Z.land vh IdxOffsetMask * 4 + capOrBigSize k * 4
      ≤ len (KV.data (kvHolder m))
    ∧ ∀ g' s' c' k',
        get2 (ctrl m) g' s' = Some c' → 0 ≤ c' →
        get2 (groups m) g' s' = Some k' →
        Z.land vh IdxOffsetMask * 4 + capOrBigSize k * 4 ≤ offset k' * 4
        ∨ offset k' * 4 + 20 ≤ Z.land vh IdxOffsetMask * 4
}.

(** What an update of slot [(g, s)], which held descriptor [k] with
    Word B [vh], leaves behind: the slot has a descriptor [kN] for the
    same record that reads back [value]; the control bytes, the counters
    and the other descriptors are as before; and so is every stretch of
    the arena below the old tail that avoids Word B of the record and the
    room of the short value the slot held. *)
Definition updated (P : Package) (m : LFUMap) (g s : nat) (k vh : Z)
    (value : list byte) (m' : LFUMap) : Prop :=
  ∃ kN,
    get2 (groups m') g s = Some kN ∧ kN ≠ 0 ∧ offset kN = offset k
    ∧ ctrl m' = ctrl m ∧ counters m' = counters m
    ∧ (∀ g' s', (g', s') ≠ (g, s) →
                get2 (groups m') g' s' = get2 (groups m) g' s')
    ∧ length (groups m') = length (groups m)
    ∧ (∀ lo hi,
         hi ≤ KV.tail (kvHolder m) →
         hi ≤ offset k * 4 + 16 ∨ offset k * 4 + 20 ≤ lo →
         (valType k = 0 →
          hi ≤ Z.land vh IdxOffsetMask * 4
          ∨ Z.land vh IdxOffsetMask * 4 + capOrBigSize k * 4 ≤ lo) →
         slice (KV.data (kvHolder m')) lo hi
         = slice (KV.data (kvHolder m)) lo hi)
    ∧ readValue P (kvHolder m') kN = Some value.

(** The room of every short value ends below the tail of the arena. *)
Definition roomsBelowTail (m : LFUMap) : Prop :=
  ∀ g s c k vh,
    get2 (ctrl m) g s = Some c → 0 ≤ c → get2 (groups m) g s = Some k →
    valType k = 0 →
    loadAt (KV.data (kvHolder m)) (offset k * 4 + 16) = Some vh →
    Z.land vh IdxOffsetMask * 4 + capOrBigSize k * 4
    ≤ KV.tail (kvHolder m).

(** The table under construction, seen as a shard. *)
Definition tableOf (r : rebuild) : LFUMap :=
  mkLFUMap (r_kv r) (r_ctrl r) (r_counters r) (r_groups r) (r_resident r)
    0 0 0 0 false.



(** No two occupied slots of the shard hold the same key. *)
Definition distinctKeys (P : Package) (m : LFUMap) : Prop :=
  ∀ g s g' s' key v cnt v' cnt',
    holds P m g s key v cnt → holds P m g' s' key v' cnt' →
    (g, s) = (g', s').

(** The pair [(key, v)] is present in the shard: the probe of [Get], from
    the group the key's hash selects, stops at a slot that reads [v] and
    whose counter is [cnt]. *)
Definition present (P : Package) (m : LFUMap) (key v : list byte) (cnt : Z)
  : Prop :=
  ∃ g s, probeWith m (getTest m key) (MD5L P key) = Some (Found g s)
         ∧ readSlot P m g s = Some v
         ∧ get2 (counters m) g s = Some cnt.

(** In the table under construction the probe of [Get] for [key] stops
    at a slot that holds [(key, v)] with counter [cnt], whatever is
    written above the tail of the new arena later. *)
Definition placed (P : Package) (r : rebuild) (key v : list byte) (cnt : Z)
  : Prop :=
  ∃ g s k,
    probeWith (tableOf r) (getTest (tableOf r) key) (MD5L P key)
    = Some (Found g s)
    ∧ get2 (r_groups r) g s = Some k
    ∧ get2 (r_counters r) g s = Some cnt
    ∧ ∀ h2, agreeBelow (KV.tail (r_kv r)) (KV.data (r_kv r)) (KV.data h2) →
            getKVUnlock P h2 k = Some (key, v).

(** Every tagged slot of the table under construction holds the key of
    an occupied slot of the old table that the loop has visited ([D] is
    the set of visited slots). *)
Definition movedOnly (P : Package) (m : LFUMap) (r : rebuild)
    (D : nat → nat → Prop) : Prop :=
  ∀ g' s' c k', get2 (r_ctrl r) g' s' = Some c → 0 ≤ c →
                get2 (r_groups r) g' s' = Some k' →
                ∃ g s key v cnt, D g s ∧ holds P m g s key v cnt
                                 ∧ getKey (r_kv r) k' = Some key.

(** The pair of every visited occupied slot is placed. *)
Definition allPlaced (P : Package) (m : LFUMap) (r : rebuild)
    (D : nat → nat → Prop) : Prop :=
  ∀ g s key v cnt, D g s → holds P m g s key v cnt → placed P r key v cnt.

(** What the double loop of [rehash] keeps true of the table under
    construction. *)
Record placing (P : Package) (m : LFUMap) (r : rebuild)
    (D : nat → nat → Prop) : Prop := mkPlacing {
  pl_arena : arena_ok (r_kv r);
  pl_ctrl : rows16 (r_ctrl r);
  pl_groups : rows16 (r_groups r);
  pl_len : length (r_groups r) = length (r_ctrl r);
  pl_wf : wfSlots (tableOf r);
  pl_rooms : roomsBelowTail (tableOf r);
  pl_moved : movedOnly P m r D;
  pl_placed : allPlaced P m r D
}.

(** Successive [RePut]s of one-byte values, from the first key on. *)
Fixpoint rePutAll (m : LFUMap) (keys : list (list byte)) : option LFUMap :=
  match keys with
  | [] => Some m
  | k :: rest =>
      '(m', _) ← RePut demoPackage m (demoHash k) k [Byte.x76];
      rePutAll m' rest
  end.

Definition demoKeys : list (list byte) :=
  map (replicate 16)
    [Byte.x61; Byte.x62; Byte.x63; Byte.x64; Byte.x65; Byte.x66; Byte.x67;
     Byte.x68; Byte.x69; Byte.x6a; Byte.x6b; Byte.x6c; Byte.x6d; Byte.x6e].

(** A one-group shard over a 512-byte arena that is full: it holds 14
    keys, which is its load limit. *)
Definition demoShardFull : LFUMap :=
  Eval vm_compute in
    match rePutAll (newInnerLFUMap demoPackage 1 512) demoKeys with
    | Some m => m
    | None => newInnerLFUMap demoPackage 1 512
    end.

Definition keyO : list byte := replicate 16 Byte.x6f.

(** * Proofs *)

Set Warnings "-clear-no-such-hyp".

(** ** Bit masks *)

Lemma lor_b2z_double b a :
  Z.lor (Z.b2z b) (Z.shiftl a 1) = 2 * a + Z.b2z b.
Proof.
  apply Z.bits_inj'. intros n Hn.
  rewrite Z.lor_spec, Z.shiftl_spec by lia.
  destruct (Z.eq_dec n 0) as [->|Hne].
  - rewrite Z.testbit_0_r, (Z.testbit_neg_r a) by lia.
    rewrite orb_false_r. destruct b; reflexivity.
  - replace n with (Z.succ (n - 1)) at 3 by lia.
    rewrite Z.testbit_succ_r by lia.
    replace (Z.testbit (Z.b2z b) n) with false; [done|].
    destruct b; simpl; [|by rewrite Z.bits_0].
    symmetry. apply Z.bits_above_log2; simpl; lia.
Qed.

Lemma MatchMetadata_range md c :
  0 ≤ MatchMetadata md c < 2 ^ Z.of_nat (length md).
Proof.
  induction md as [|x t IH]; simpl length; [simpl; lia|].
  cbn [MatchMetadata]. rewrite lor_b2z_double.
  rewrite Nat2Z.inj_succ, Z.pow_succ_r by lia.
  destruct (x =? c); simpl Z.b2z; lia.
Qed.

Lemma MatchMetadata_testbit md c i :
  Z.testbit (MatchMetadata md c) (Z.of_nat i) = bool_decide (md !! i = Some c).
Proof.
  revert i. induction md as [|x t IH]; intros i.
  - simpl. rewrite Z.bits_0. by destruct i.
  - cbn [MatchMetadata]. rewrite lor_b2z_double. destruct i as [|i].
    + simpl Z.of_nat. rewrite Z.testbit_0_r. simpl.
      destruct (Z.eqb_spec x c) as [->|Hne].
      * by rewrite bool_decide_eq_true_2.
      * rewrite bool_decide_eq_false_2; [done|congruence].
    + rewrite Nat2Z.inj_succ, Z.testbit_succ_r by lia. apply IH.
Qed.

Lemma tzFrom_hit n k x :
  Z.testbit x (Z.of_nat k) = true → tzFrom (S n) k x = k.
Proof. intros H. simpl. by rewrite H. Qed.

Lemma u16_small x : 0 ≤ x < 2 ^ 16 → u16 x = x.
Proof. intros. unfold u16. by apply Z.mod_small. Qed.

Lemma testbit_high x i : 0 ≤ x < 2 ^ 16 → 16 ≤ i → Z.testbit x i = false.
Proof.
  intros Hx Hi. destruct (Z.eq_dec x 0) as [->|Hne]; [apply Z.bits_0|].
  apply Z.bits_above_log2; [lia|].
  apply Z.log2_lt_pow2; [lia|].
  eapply Z.lt_le_trans; [apply Hx|]. apply Z.pow_le_mono_r; lia.
Qed.

(** [nextMatch] on a mask whose lowest set bit is [k]. *)
Lemma nextMatch_at x k n :
  0 ≤ x < 2 ^ 16 → (k < 16)%nat →
  Z.testbit x (Z.of_nat k) = true →
  tzFrom (S n) k x = k ∧
  let rest := Z.land x (Z.lxor 0xffff (u16 (Z.shiftl 1 (Z.of_nat k)))) in
  0 ≤ rest < 2 ^ 16 ∧
  ∀ i, Z.testbit rest (Z.of_nat i)
       = if decide (i = k) then false else Z.testbit x (Z.of_nat i).
Proof.
  intros Hx Hk Hb. split; [by apply tzFrom_hit|].
  assert (Hs : u16 (Z.shiftl 1 (Z.of_nat k)) = 2 ^ Z.of_nat k).
  { rewrite Z.shiftl_1_l. apply u16_small. split; [apply Z.pow_nonneg; lia|].
    apply Z.pow_lt_mono_r; lia. }
  cbv zeta. rewrite Hs.
  assert (Hbit : ∀ i, 0 ≤ i → Z.testbit
            (Z.land x (Z.lxor 65535 (2 ^ Z.of_nat k))) i
          = if Z.eq_dec i (Z.of_nat k) then false else Z.testbit x i).
  { intros i Hi. rewrite Z.land_spec, Z.lxor_spec.
    rewrite (Z.pow2_bits_eqb (Z.of_nat k)) by lia.
    destruct (Z.eq_dec i (Z.of_nat k)) as [->|Hne].
    - rewrite Z.eqb_refl.
      change 65535 with (Z.ones 16). rewrite Z.ones_spec_low by lia.
      simpl. apply andb_false_r.
    - replace (Z.of_nat k =? i) with false by (symmetry; apply Z.eqb_neq; lia).
      rewrite xorb_false_r.
      destruct (Z_lt_dec i 16).
      + change 65535 with (Z.ones 16). rewrite Z.ones_spec_low by lia.
        apply andb_true_r.
      + rewrite (testbit_high x i) by lia. reflexivity. }
  set (r := Z.land x (Z.lxor 65535 (2 ^ Z.of_nat k))) in *.
  assert (Hnn : 0 ≤ r) by (apply Z.land_nonneg; left; lia).
  split.
  - split; [done|].
    destruct (Z.eq_dec r 0) as [->|Hne]; [lia|].
    apply Z.log2_lt_cancel. change (Z.log2 (2 ^ 16)) with 16.
    destruct (Z_lt_dec (Z.log2 r) 16) as [|Hge]; [done|exfalso].
    assert (Hl : Z.testbit r (Z.log2 r) = true) by (apply Z.bit_log2; lia).
    rewrite Hbit in Hl by apply Z.log2_nonneg.
    destruct (Z.eq_dec _ _); [done|].
    rewrite testbit_high in Hl; [done|lia|lia].
  - intros i. rewrite Hbit by lia.
    destruct (Z.eq_dec _ _), (decide _); try done; lia.
Qed.

Lemma tzFrom_skip n k x :
  Z.testbit x (Z.of_nat k) = false → tzFrom (S n) k x = tzFrom n (S k) x.
Proof. intros H. simpl. by rewrite H. Qed.

Lemma bitsFrom_ext x y k n :
  (∀ i, (k ≤ i)%nat → Z.testbit x (Z.of_nat i) = Z.testbit y (Z.of_nat i)) →
  bitsFrom x k n = bitsFrom y k n.
Proof.
  revert k. induction n as [|n IH]; intros k H; [done|].
  unfold bitsFrom in *. simpl seq. rewrite !filter_cons.
  rewrite (H k) by lia. rewrite (IH (S k)); [done|]. intros; apply H; lia.
Qed.

(** The inner loop visits the set bits of the mask from the lowest up, and
    [TrailingZeros16] is the first of them. *)
Lemma scan_from test n : ∀ k fuel x,
  0 ≤ x < 2 ^ 16 → (k + n = 16)%nat → (n ≤ fuel)%nat →
  (∀ i, (i < k)%nat → Z.testbit x (Z.of_nat i) = false) →
  scanMatches test fuel x = firstHit test (bitsFrom x k n)
  ∧ (x ≠ 0 → TrailingZeros16 x = hd 16%nat (bitsFrom x k n)).
Proof.
  induction n as [|n IH]; intros k fuel x Hx Hk Hf Hlow.
  - assert (x = 0) as ->.
    { apply Z.bits_inj'. intros i Hi. rewrite Z.bits_0.
      destruct (Z_lt_dec i 16).
      - rewrite <- (Z2Nat.id i) by lia. apply Hlow. lia.
      - apply testbit_high; lia. }
    split; [by destruct fuel|done].
  - destruct (Z.testbit x (Z.of_nat k)) eqn:Hb.
    + destruct (nextMatch_at x k n Hx ltac:(lia) Hb) as (Htz & Hr & Hbits).
      assert (Hx0 : x ≠ 0) by (intros ->; by rewrite Z.bits_0 in Hb).
      assert (Htz16 : TrailingZeros16 x = k).
      { unfold TrailingZeros16.
        assert (∀ m j, (j + m = k)%nat → tzFrom (16 - j) j x = k) as Hj.
        { induction m as [|m IHm]; intros j Hj.
          - replace j with k by lia. replace (16 - k)%nat with (S n) by lia.
            done.
          - replace (16 - j)%nat with (S (16 - S j)) by lia.
            rewrite tzFrom_skip by (apply Hlow; lia). apply IHm. lia. }
        apply (Hj k 0%nat). lia. }
      split.
      * destruct fuel as [|fuel]; [lia|].
        cbn [scanMatches]. replace (x =? 0) with false
          by (symmetry; by apply Z.eqb_neq).
        unfold nextMatch. rewrite Htz16.
        unfold bitsFrom. simpl seq. rewrite filter_cons_True by done.
        cbn [firstHit]. destruct (test k) as [[|]|]; try done. simpl.
        destruct (IH (S k) fuel _ Hr ltac:(lia) ltac:(lia)) as [-> _].
        { intros i Hi. rewrite Hbits. case_decide; [done|]. apply Hlow. lia. }
        f_equal. apply bitsFrom_ext. intros i Hi. rewrite Hbits.
        case_decide; [lia|done].
      * intros _. rewrite Htz16. unfold bitsFrom. simpl seq.
        by rewrite filter_cons_True.
    + destruct (IH (S k) fuel x Hx ltac:(lia) ltac:(lia)) as [IH1 IH2].
      { intros i Hi. destruct (decide (i = k)) as [->|]; [done|].
        apply Hlow. lia. }
      split.
      * rewrite IH1. unfold bitsFrom. simpl seq.
        rewrite filter_cons_False; [done|]. by rewrite Hb.
      * intros Hx0. rewrite IH2 by done.
        unfold bitsFrom. simpl seq.
        rewrite filter_cons_False; [done|]. by rewrite Hb.
Qed.

Lemma bitsFrom_MatchMetadata md c :
  bitsFrom (MatchMetadata md c) 0 16 = matchSlots md c.
Proof.
  unfold bitsFrom, matchSlots. apply list_filter_iff. intros s.
  rewrite MatchMetadata_testbit. apply bool_decide_eq_true.
Qed.

Lemma MatchMetadata_u16 md c :
  (length md ≤ 16)%nat → u16 (MatchMetadata md c) = MatchMetadata md c
                          ∧ 0 ≤ MatchMetadata md c < 2 ^ 16.
Proof.
  intros Hl. pose proof (MatchMetadata_range md c) as Hr.
  assert (2 ^ Z.of_nat (length md) ≤ 2 ^ 16) by (apply Z.pow_le_mono_r; lia).
  split; [apply u16_small|]; lia.
Qed.

(** The inner loop of a probe tries the slots tagged [c], lowest first. *)
Lemma scan_spec test md c :
  (length md ≤ 16)%nat →
  scanMatches test 16 (metaMatchH2 md c) = firstHit test (matchSlots md c).
Proof.
  intros Hl. unfold metaMatchH2.
  destruct (MatchMetadata_u16 md c Hl) as [-> Hr].
  rewrite <- bitsFrom_MatchMetadata.
  apply (scan_from test 16 0 16); [done|lia|lia|]. intros; lia.
Qed.

Lemma metaMatchEmpty_zero md :
  (length md ≤ 16)%nat →
  metaMatchEmpty md = 0 ↔ matchSlots md empty = [].
Proof.
  intros Hl. unfold metaMatchEmpty.
  destruct (MatchMetadata_u16 md empty Hl) as [-> Hr].
  rewrite <- bitsFrom_MatchMetadata. split.
  - intros ->. unfold bitsFrom. induction (seq 0 16) as [|x l IH]; [done|].
    rewrite filter_cons_False; [done|]. by rewrite Z.bits_0.
  - intros Hnil. apply Z.bits_inj'. intros i Hi. rewrite Z.bits_0.
    destruct (Z_lt_dec i 16); [|apply testbit_high; lia].
    destruct (Z.testbit _ i) eqn:Hb; [exfalso|done].
    assert (Hin : Z.to_nat i ∈ bitsFrom (MatchMetadata md empty) 0 16).
    { apply list_elem_of_filter. split; [by rewrite Z2Nat.id by lia|].
      apply elem_of_seq. lia. }
    rewrite Hnil in Hin. by apply not_elem_of_nil in Hin.
Qed.

(** On a group with an empty slot [nextMatch] yields the first of them. *)
Lemma nextMatch_empty md :
  (length md ≤ 16)%nat → metaMatchEmpty md ≠ 0 →
  matchSlots md empty
  = fst (nextMatch (metaMatchEmpty md)) :: tl (matchSlots md empty).
Proof.
  intros Hl Hne.
  assert (Hnn : matchSlots md empty ≠ []).
  { intros Hnil. by apply (metaMatchEmpty_zero md Hl) in Hnil. }
  unfold metaMatchEmpty in *.
  destruct (MatchMetadata_u16 md empty Hl) as [Hu Hr]. rewrite Hu in *.
  destruct (scan_from (λ _, None) 16 0 16 _ Hr) as [_ Htz]; [lia|lia| |].
  { intros; lia. }
  simpl. rewrite (Htz Hne), bitsFrom_MatchMetadata.
  by destruct (matchSlots md empty).
Qed.

Lemma elem_of_matchSlots md c s :
  s ∈ matchSlots md c ↔ (s < 16)%nat ∧ md !! s = Some c.
Proof.
  unfold matchSlots. rewrite list_elem_of_filter, elem_of_seq.
  split; intros [? ?]; split; auto; lia.
Qed.

(** ** The probe loops *)

Lemma firstHit_Some test ss s :
  firstHit test ss = Some (Some s) → s ∈ ss ∧ test s = Some true.
Proof.
  induction ss as [|x l IH]; [done|]. cbn [firstHit].
  destruct (test x) as [[|]|] eqn:Hx; simpl; [|intros H|done].
  - intros [= <-]. split; [left|done].
  - destruct (IH H). split; [by right|done].
Qed.

Lemma firstHit_None test ss :
  firstHit test ss = Some None → ∀ s, s ∈ ss → test s = Some false.
Proof.
  induction ss as [|x l IH]; [by intros _ s ?%not_elem_of_nil|].
  cbn [firstHit]. destruct (test x) as [[|]|] eqn:Hx; simpl; [done| |done].
  intros H s [->|Hin]%elem_of_cons; auto.
Qed.

Lemma firstHit_all_false test ss :
  (∀ s, s ∈ ss → test s = Some false) → firstHit test ss = Some None.
Proof.
  induction ss as [|x l IH]; [done|]. intros H. cbn [firstHit].
  rewrite (H x) by left. simpl. apply IH. intros; apply H; by right.
Qed.

Lemma firstHit_ext test test' ss :
  (∀ s, s ∈ ss → test s = test' s) → firstHit test ss = firstHit test' ss.
Proof.
  induction ss as [|x l IH]; [done|]. intros H. cbn [firstHit].
  rewrite (H x) by left. rewrite IH; [done|]. intros; apply H; by right.
Qed.

(** A slot that passes the test, behind slots that all fail it. *)
Lemma firstHit_filter test (Q : nat → Prop) `{∀ x, Decision (Q x)} ss s :
  NoDup ss → s ∈ ss → Q s → test s = Some true →
  (∀ x, x ∈ ss → Q x → x ≠ s → test x = Some false) →
  firstHit test (filter Q ss) = Some (Some s).
Proof.
  induction ss as [|x l IH]; intros Hnd Hin HQ Ht Hoth;
    [by apply not_elem_of_nil in Hin|].
  apply NoDup_cons in Hnd as [Hx Hnd].
  destruct (decide (x = s)) as [->|Hne].
  - rewrite filter_cons_True by done. cbn [firstHit]. by rewrite Ht.
  - apply elem_of_cons in Hin as [->|Hin]; [done|].
    assert (IH' : firstHit test (filter Q l) = Some (Some s)).
    { apply IH; auto. intros; apply Hoth; auto. by right. }
    destruct (decide (Q x)).
    + rewrite filter_cons_True by done. cbn [firstHit].
      rewrite (Hoth x) by (auto; left). done.
    + by rewrite filter_cons_False.
Qed.

Lemma rows16_lookup {A} (t : list (list A)) g row :
  rows16 t → t !! g = Some row → length row = 16%nat.
Proof. intros Hr Hg. eapply (Forall_lookup_1 _ _ _ _ Hr Hg). Qed.

Lemma get2_matchSlots (ct : list metadata) g md s c :
  ct !! g = Some md → s ∈ matchSlots md c → get2 ct g s = Some c.
Proof.
  intros Hg [_ Hs]%elem_of_matchSlots. unfold get2. by rewrite Hg.
Qed.

Lemma probeLoop_ext ct G lo test test' fuel : ∀ g,
  rows16 ct →
  (∀ g s, get2 ct g s = Some lo → test g s = test' g s) →
  probeLoop ct G lo test fuel g = probeLoop ct G lo test' fuel g.
Proof.
  induction fuel as [|fuel IH]; intros g Hr Hext; [done|].
  cbn [probeLoop]. destruct (ct !! g) as [md|] eqn:Hg; [|done]. cbn [mbind option_bind].
  assert (Hl : (length md ≤ 16)%nat) by (rewrite (rows16_lookup ct g md); auto).
  rewrite !scan_spec by done.
  rewrite (firstHit_ext (test g) (test' g)).
  2:{ intros s Hs. apply Hext. eapply get2_matchSlots; eauto. }
  destruct (firstHit _ _) as [[s|]|]; cbn [mbind option_bind]; try done.
  destruct (negb _); [done|]. by apply IH.
Qed.

Lemma probeLoop_Found ct G lo test fuel : ∀ g g' s,
  rows16 ct →
  probeLoop ct G lo test fuel g = Some (Found g' s) →
  get2 ct g' s = Some lo ∧ test g' s = Some true ∧ (s < 16)%nat.
Proof.
  induction fuel as [|fuel IH]; intros g g' s Hr; [done|].
  cbn [probeLoop]. destruct (ct !! g) as [md|] eqn:Hg; [|done]. cbn [mbind option_bind].
  assert (Hl : (length md ≤ 16)%nat) by (rewrite (rows16_lookup ct g md); auto).
  rewrite scan_spec by done.
  destruct (firstHit _ _) as [[s'|]|] eqn:Hf; cbn [mbind option_bind]; try done.
  - intros [= <- <-]. apply firstHit_Some in Hf as [Hin Ht].
    split; [by eapply get2_matchSlots|]. split; [done|].
    by apply elem_of_matchSlots in Hin as [? _].
  - destruct (negb _); [done|]. by apply IH.
Qed.

Lemma probeLoop_AtEmpty ct G lo test fuel : ∀ g g' e,
  probeLoop ct G lo test fuel g = Some (AtEmpty g' e) →
  ∃ md, ct !! g' = Some md ∧ e = metaMatchEmpty md ∧ e ≠ 0.
Proof.
  induction fuel as [|fuel IH]; intros g g' e; [done|].
  cbn [probeLoop]. destruct (ct !! g) as [md|] eqn:Hg; [|done]. cbn [mbind option_bind].
  destruct (scanMatches _ _ _) as [[s'|]|]; cbn [mbind option_bind]; try done.
  destruct (metaMatchEmpty md =? 0) eqn:He; simpl.
  - apply IH.
  - intros [= <- <-]. exists md. apply Z.eqb_neq in He. done.
Qed.

(** A probe for a key that no tagged slot holds ends at the first group
    with an empty slot, provided there is one. *)
Lemma probeLoop_miss_up ct G lo test : ∀ n g fuel ge,
  rows16 ct →
  (∀ g s, get2 ct g s = Some lo → test g s = Some false) →
  (g + n = ge)%nat → (ge < G)%nat → (n < fuel)%nat →
  (∃ s, get2 ct ge s = Some empty) →
  ∃ g' e, probeLoop ct G lo test fuel g = Some (AtEmpty g' e).
Proof.
  induction n as [|n IH]; intros g fuel ge Hr Hall Hn Hge Hf [s Hs];
    (destruct fuel as [|fuel]; [lia|]); cbn [probeLoop].
  - replace ge with g in * by lia.
    unfold get2 in Hs. destruct (ct !! g) as [md|] eqn:Hg; [|done]. cbn [mbind option_bind] in *.
    pose proof (rows16_lookup ct g md Hr Hg) as Hl.
    rewrite scan_spec by lia.
    rewrite firstHit_all_false.
    2:{ intros; apply Hall. eapply get2_matchSlots; eauto. }
    cbn [mbind option_bind]. destruct (metaMatchEmpty md =? 0) eqn:He; simpl; [|eauto].
    apply Z.eqb_eq, metaMatchEmpty_zero in He; [|lia].
    assert (s ∈ matchSlots md empty).
    { apply elem_of_matchSlots. split; [|done].
      apply lookup_lt_Some in Hs. lia. }
    rewrite He in H. by apply not_elem_of_nil in H.
  - assert (Hs' := Hs). unfold get2 in Hs'.
    destruct (ct !! ge) as [mde|] eqn:Hgee; [|done].
    assert (is_Some (ct !! g)) as [md Hg].
    { apply lookup_lt_is_Some. apply lookup_lt_Some in Hgee. lia. }
    rewrite Hg. cbn [mbind option_bind].
    pose proof (rows16_lookup ct g md Hr Hg) as Hl.
    rewrite scan_spec by lia.
    rewrite firstHit_all_false.
    2:{ intros; apply Hall. eapply get2_matchSlots; eauto. }
    cbn [mbind option_bind]. destruct (metaMatchEmpty md =? 0) eqn:He; simpl; [|eauto].
    rewrite decide_False by lia.
    apply (IH (S g) fuel ge); auto; try lia. eauto.
Qed.

Lemma probeLoop_miss ct lo test g0 :
  rows16 ct →
  (∀ g s, get2 ct g s = Some lo → test g s = Some false) →
  (g0 < length ct)%nat →
  (∃ g s, get2 ct g s = Some empty) →
  ∃ g' e, probeLoop ct (length ct) lo test (length ct) g0 = Some (AtEmpty g' e).
Proof.
  intros Hr Hall Hg0 (ge & s & Hs).
  assert (Hge : (ge < length ct)%nat).
  { unfold get2 in Hs. destruct (ct !! ge) eqn:E; [|done].
    by apply lookup_lt_Some in E. }
  destruct (decide (g0 ≤ ge)%nat) as [Hle|Hgt].
  { apply (probeLoop_miss_up ct _ lo test (ge - g0) g0 _ ge); eauto; lia. }
  (* the probe runs to the last group, wraps, and goes up to [ge] *)
  assert (Hwrap : ∀ n g fuel, (g + n = length ct - 1)%nat →
            (n + 1 + ge < fuel)%nat →
            ∃ g' e, probeLoop ct (length ct) lo test fuel g
                    = Some (AtEmpty g' e)).
  { induction n as [|n IH]; intros g fuel Hn Hf;
      (destruct fuel as [|fuel]; [lia|]); cbn [probeLoop];
      (assert (is_Some (ct !! g)) as [md Hg]
         by (apply lookup_lt_is_Some; lia));
      rewrite Hg; cbn [mbind option_bind];
      pose proof (rows16_lookup ct g md Hr Hg) as Hl;
      rewrite scan_spec by lia;
      (rewrite firstHit_all_false;
       [|intros; apply Hall; eapply get2_matchSlots; eauto]);
      cbn [mbind option_bind]; (destruct (metaMatchEmpty md =? 0) eqn:He; simpl; [|eauto]).
    - rewrite decide_True by lia.
      apply (probeLoop_miss_up ct _ lo test ge 0%nat _ ge); eauto; lia.
    - rewrite decide_False by lia. apply IH; lia. }
  apply (Hwrap (length ct - 1 - g0)%nat); lia.
Qed.

(** ** Two-dimensional tables *)

Lemma get2_Some {A} (t : list (list A)) g s x :
  get2 t g s = Some x ↔ ∃ row, t !! g = Some row ∧ row !! s = Some x.
Proof.
  unfold get2. destruct (t !! g) as [row|]; cbn [mbind option_bind];
    naive_solver.
Qed.

Lemma set2_Some {A} (t t' : list (list A)) g s x :
  set2 t g s x = Some t' ↔
  ∃ row, t !! g = Some row ∧ (s < length row)%nat ∧ t' = <[g := <[s := x]> row]> t.
Proof.
  unfold set2. destruct (t !! g) as [row|]; cbn [mbind option_bind];
    [|naive_solver].
  case_decide; naive_solver.
Qed.

Lemma set2_is_Some {A} (t : list (list A)) g s x y :
  get2 t g s = Some y → is_Some (set2 t g s x).
Proof.
  intros (row & Hg & Hs)%get2_Some. unfold set2. rewrite Hg.
  cbn [mbind option_bind]. apply lookup_lt_Some in Hs.
  rewrite decide_True by done. eauto.
Qed.

Lemma get2_set2_eq {A} (t t' : list (list A)) g s x :
  set2 t g s x = Some t' → get2 t' g s = Some x.
Proof.
  intros (row & Hg & Hs & ->)%set2_Some. apply get2_Some.
  exists (<[s := x]> row). split.
  - apply list_lookup_insert_eq. by apply lookup_lt_Some in Hg.
  - by apply list_lookup_insert_eq.
Qed.

Lemma get2_set2_ne {A} (t t' : list (list A)) g s x g' s' :
  set2 t g s x = Some t' → (g', s') ≠ (g, s) → get2 t' g' s' = get2 t g' s'.
Proof.
  intros (row & Hg & Hs & ->)%set2_Some Hne. unfold get2.
  destruct (decide (g' = g)) as [->|Hg'].
  - rewrite list_lookup_insert_eq by (by apply lookup_lt_Some in Hg).
    rewrite Hg. cbn [mbind option_bind].
    apply list_lookup_insert_ne. congruence.
  - by rewrite list_lookup_insert_ne.
Qed.

Lemma set2_length {A} (t t' : list (list A)) g s x :
  set2 t g s x = Some t' → length t' = length t.
Proof. intros (row & Hg & Hs & ->)%set2_Some. apply length_insert. Qed.

Lemma set2_rows16 {A} (t t' : list (list A)) g s x :
  set2 t g s x = Some t' → rows16 t → rows16 t'.
Proof.
  intros (row & Hg & Hs & ->)%set2_Some Hr. unfold rows16 in *.
  apply Forall_insert; [done|]. rewrite length_insert.
  eapply (Forall_lookup_1 _ _ _ _ Hr Hg).
Qed.

Lemma set2_lookup_ne {A} (t t' : list (list A)) g s x g' :
  set2 t g s x = Some t' → g' ≠ g → t' !! g' = t !! g'.
Proof.
  intros (row & Hg & Hs & ->)%set2_Some Hne. by apply list_lookup_insert_ne.
Qed.

Lemma set2_lookup_eq {A} (t t' : list (list A)) g s x row :
  set2 t g s x = Some t' → t !! g = Some row → t' !! g = Some (<[s := x]> row).
Proof.
  intros (row' & Hg & Hs & ->)%set2_Some Hrow.
  rewrite list_lookup_insert_eq by (by apply lookup_lt_Some in Hg). congruence.
Qed.

(** ** Counting control bytes *)

Lemma countRow_range f row : 0 ≤ countRow f row ≤ len row.
Proof.
  unfold len. induction row as [|c t IH]; simpl; [lia|].
  destruct (f c); simpl Z.b2z; lia.
Qed.

Lemma countRow_disjoint f1 f2 row :
  (∀ c, f1 c = true → f2 c = false) →
  countRow f1 row + countRow f2 row ≤ len row.
Proof.
  intros Hd. unfold len. induction row as [|c t IH]; simpl; [lia|].
  specialize (Hd c). destruct (f1 c), (f2 c); simpl Z.b2z; try lia.
  all: by specialize (Hd eq_refl).
Qed.

Lemma countTable_disjoint f1 f2 t :
  (∀ c, f1 c = true → f2 c = false) → rows16 t →
  0 ≤ countTable f1 t ∧ 0 ≤ countTable f2 t
  ∧ countTable f1 t + countTable f2 t ≤ 16 * len t.
Proof.
  intros Hd Hr. unfold len. induction Hr as [|row t Hrow Hr IH]; simpl; [lia|].
  pose proof (countRow_disjoint f1 f2 row Hd) as H1.
  pose proof (countRow_range f1 row). pose proof (countRow_range f2 row).
  unfold len in *. rewrite Hrow in *. lia.
Qed.

Lemma countRow_insert f row s old x :
  row !! s = Some old →
  countRow f (<[s := x]> row) = countRow f row - Z.b2z (f old) + Z.b2z (f x).
Proof.
  revert s. induction row as [|c t IH]; intros s Hs; [done|].
  destruct s as [|s]; simpl in *.
  - injection Hs as ->. lia.
  - rewrite (IH s Hs). lia.
Qed.

Lemma countTable_set2 f t t' g s old x :
  get2 t g s = Some old → set2 t g s x = Some t' →
  countTable f t' = countTable f t - Z.b2z (f old) + Z.b2z (f x).
Proof.
  intros (row & Hg & Hold)%get2_Some (row' & Hg' & Hs & ->)%set2_Some.
  assert (row' = row) as -> by congruence. clear Hg' Hs.
  revert g Hg. induction t as [|r t IH]; intros g Hg; [done|].
  destruct g as [|g]; simpl in *.
  - injection Hg as ->. rewrite (countRow_insert f row s old x Hold). lia.
  - rewrite (IH g Hg). lia.
Qed.

Lemma isLive_tag c : 0 ≤ c → isLive c = true.
Proof.
  intros Hc. unfold isLive, empty, tombstone.
  destruct (Z.eqb_spec c (-128)), (Z.eqb_spec c (-2)); simpl; lia.
Qed.

Lemma isLive_not_dead c : isLive c = true → isDead c = false.
Proof. unfold isLive, isDead. destruct (c =? empty), (c =? tombstone); done. Qed.

Lemma Inv_bounds m :
  Inv m →
  0 ≤ KV.items (kvHolder m) ∧ 0 ≤ dead m
  ∧ KV.items (kvHolder m) + dead m = resident m
  ∧ resident m ≤ 16 * len (ctrl m) ∧ resident m < 2 ^ 32.
Proof.
  intros [Hc _ _ _ _ Hsz Hi Hd Hr].
  pose proof (countTable_disjoint isLive isDead (ctrl m) isLive_not_dead Hc).
  lia.
Qed.

Lemma u32_small x : 0 ≤ x < 2 ^ 32 → u32 x = x.
Proof. intros. unfold u32. by apply Z.mod_small. Qed.

(** ** A tactic that runs a successful call backwards *)

Ltac unbind H :=
  repeat
    (cbn [mbind option_bind] in H;
     match type of H with
     | (?x ≫= _) = Some _ =>
         let E := fresh "E" in
         destruct x eqn:E; [|discriminate H]
     | (if ?b then _ else _) = Some _ =>
         let E := fresh "E" in destruct b eqn:E
     | (let '(_, _) := ?p in _) = Some _ =>
         tryif is_var p then destruct p
         else (let E := fresh "E" in destruct p eqn:E)
     | None = Some _ => discriminate H
     end).

(** Record projections and setters, and nothing else. *)
Ltac fields :=
  cbn [kvHolder ctrl counters groups resident dead limit queryCnt missCnt
       rehashing setKV setCtrl setCounters setGroups setResident setDead
       setQueryCnt setMissCnt setRehashing KV.cap KV.limit KV.tail KV.items
       KV.valUsed KV.data KV.setTail KV.setItems KV.setValUsed KV.setData] in *.

Ltac open_summaries :=
  repeat match goal with
    | H : tombstoned _ _ _ _ |- _ =>
        destruct H as (?&?&?&?&?&?&?&?&?&?&?&?&?&?)
    | H : keepsCounts _ _ |- _ =>
        destruct H as (?&?&?&?&?&?&?&?&?&?&?&?)
    end.

Section Summaries.

Variable P : Package.

Lemma releaseOld_frame h k vh h1 :
  releaseOld P h k vh = Some h1 →
  KV.cap h1 = KV.cap h ∧ KV.limit h1 = KV.limit h ∧ KV.tail h1 = KV.tail h
  ∧ KV.items h1 = KV.items h ∧ KV.data h1 = KV.data h.
Proof.
  unfold releaseOld. intros H. unbind H; injection H as <-; done.
Qed.

Lemma tombstoneSlot_spec m g s m1 :
  tombstoneSlot m g s = Some m1 → tombstoned m g s m1 ∧ groups m1 = groups m
  ∧ KV.valUsed (kvHolder m1) = KV.valUsed (kvHolder m).
Proof.
  unfold tombstoneSlot. intros H. unbind H. injection H as <-.
  unfold tombstoned; fields. auto 20.
Qed.

Ltac use_frames :=
  repeat match goal with
    | E : releaseOld _ _ _ _ = Some _ |- _ =>
        apply releaseOld_frame in E; destruct E as (?&?&?&?&?)
    | E : tombstoneSlot _ _ _ = Some _ |- _ =>
        apply tombstoneSlot_spec in E; destruct E as (E&?&?)
    end.

Ltac summary_goal :=
  first
    [ right; split; [done|]; open_summaries; unfold tombstoned; fields;
      repeat split;
      first [congruence | by left | by right | right; congruence | eauto; fail]
    | left; split; [done|]; unfold keepsCounts; fields;
      repeat split; first [congruence | by left | right; eauto; fail] ].

Lemma putFound_summary m g s value m' b :
  putFound P m g s value = Some (m', b) →
  (b = true ∧ keepsCounts m m') ∨ (b = false ∧ tombstoned m g s m').
Proof.
  unfold putFound. intros H. unbind H.
  all: injection H as <- <-; use_frames; fields; summary_goal.
Qed.

Lemma rePutFound_summary m g s value m' b :
  rePutFound P m g s value = Some (m', b) →
  (b = true ∧ keepsCounts m m') ∨ (b = false ∧ tombstoned m g s m').
Proof.
  unfold rePutFound. intros H. unbind H.
  all: injection H as <- <-; use_frames; fields; summary_goal.
Qed.

Lemma putMultiFound_summary m g s vlen vals m' b :
  putMultiFound P m g s vlen vals = Some (m', b) →
  (b = true ∧ keepsCounts m m') ∨ (b = false ∧ tombstoned m g s m').
Proof.
  unfold putMultiFound. intros H. unbind H.
  all: injection H as <- <-; use_frames; fields; summary_goal.
Qed.

End Summaries.

(** ** Preservation of the counting invariant by updates *)

Lemma keepsCounts_Inv m m' : Inv m → keepsCounts m m' → Inv m'.
Proof.
  intros [Hc Hn Hg Hlc Hlg Hsz Hi Hd Hr] K. open_summaries.
  assert (rows16 (groups m') ∧ length (groups m') = length (groups m))
    as [? ?].
  { match goal with
    | H : groups m' = groups m ∨ _ |- _ =>
        destruct H as [->|(g & s & k & Hs)]; [done|]
    end.
    split; [by eapply set2_rows16|by eapply set2_length]. }
  constructor; congruence.
Qed.

Lemma tombstoned_Inv m g s c m' :
  Inv m → get2 (ctrl m) g s = Some c → isLive c = true →
  tombstoned m g s m' →
  Inv m' ∧ dead m' = dead m + 1
  ∧ KV.items (kvHolder m') = KV.items (kvHolder m) - 1
  ∧ get2 (ctrl m') g s = Some tombstone
  ∧ get2 (counters m') g s = Some 0.
Proof.
  intros I Hc Hlive T.
  pose proof (Inv_bounds m I) as (Hi0 & Hd0 & Hsum & Hres & Hres32).
  destruct I as [Hrc Hn Hg Hlc Hlg Hsz Hi Hd Hr].
  destruct T as (Tc & Tn & Td & Ti & Tr & Tl & Tq & Tm & Th & Tcap & Tlim
                 & Ttail & Tdata & Tg).
  pose proof (countTable_set2 isLive _ _ _ _ _ tombstone Hc Tc) as HL.
  pose proof (countTable_set2 isDead _ _ _ _ _ tombstone Hc Tc) as HD.
  rewrite Hlive in HL. rewrite (isLive_not_dead c Hlive) in HD.
  change (isLive tombstone) with false in HL.
  change (isDead tombstone) with true in HD. simpl Z.b2z in *.
  pose proof (countTable_disjoint isLive isDead (ctrl m') isLive_not_dead
                ltac:(by eapply set2_rows16)) as (? & ? & ?).
  assert (Hd' : dead m' = dead m + 1) by (rewrite Td; apply u32_small; lia).
  assert (Hi' : KV.items (kvHolder m') = KV.items (kvHolder m) - 1)
    by (rewrite Ti; apply u32_small; lia).
  split; [|split; [done|split; [done|split]]].
  - assert (rows16 (groups m') ∧ length (groups m') = length (groups m))
      as [? ?].
    { destruct Tg as [->|Hs]; [done|].
      split; [by eapply set2_rows16|by eapply set2_length]. }
    pose proof (set2_length _ _ _ _ _ Tc). pose proof (set2_length _ _ _ _ _ Tn).
    constructor; try (by eapply set2_rows16); try congruence; try lia.
    unfold len in *. congruence.
  - by eapply get2_set2_eq.
  - by eapply get2_set2_eq.
Qed.

Lemma splitHash_lo l : 0 ≤ snd (splitHash l) < 128.
Proof.
  unfold splitHash; simpl. change 127 with (Z.ones 7).
  rewrite Z.land_ones by lia. apply Z.mod_pos_bound. lia.
Qed.

Lemma probeWith_Found m test l g s :
  rows16 (ctrl m) → probeWith m test l = Some (Found g s) →
  get2 (ctrl m) g s = Some (snd (splitHash l)) ∧ test g s = Some true
  ∧ (s < 16)%nat.
Proof.
  unfold probeWith. intros Hr H. destruct (splitHash l) as [hi lo] eqn:E.
  unbind H. simpl. by eapply probeLoop_Found.
Qed.

Lemma probeWith_Found_live m test l g s :
  rows16 (ctrl m) → probeWith m test l = Some (Found g s) →
  ∃ c, get2 (ctrl m) g s = Some c ∧ isLive c = true.
Proof.
  intros Hr H. destruct (probeWith_Found m test l g s Hr H) as (Hc & _ & _).
  eexists; split; [done|]. apply isLive_tag. apply splitHash_lo.
Qed.

Lemma probeWith_AtEmpty m test l g e :
  probeWith m test l = Some (AtEmpty g e) →
  ∃ md, ctrl m !! g = Some md ∧ e = metaMatchEmpty md ∧ e ≠ 0.
Proof.
  unfold probeWith. intros H. destruct (splitHash l) as [hi lo].
  unbind H. by eapply probeLoop_AtEmpty.
Qed.

Section Updates.

Variable P : Package.

Lemma Put_Inv m l key value m' b :
  Inv m → Put P m l key value = Some (m', b) → Inv m'.
Proof.
  intros I H. unfold Put in H. unbind H. destruct p as [g s|g e].
  - destruct (probeWith_Found_live _ _ _ _ _ (inv_ctrl m I) E) as (c & Hc & Hl).
    apply putFound_summary in H as [[_ K]|[_ T]].
    + by eapply keepsCounts_Inv.
    + by eapply tombstoned_Inv.
  - by injection H as <- <-.
Qed.

Lemma PutMultiValue_Inv m l key vlen vals m' b :
  Inv m → PutMultiValue P m l key vlen vals = Some (m', b) → Inv m'.
Proof.
  intros I H. unfold PutMultiValue in H. unbind H. destruct p as [g s|g e].
  - destruct (probeWith_Found_live _ _ _ _ _ (inv_ctrl m I) E) as (c & Hc & Hl).
    apply putMultiFound_summary in H as [[_ K]|[_ T]].
    + by eapply keepsCounts_Inv.
    + by eapply tombstoned_Inv.
  - by injection H as <- <-.
Qed.

(** C2: when Put's probe ends at a group with an empty slot without
    having matched the key, Put returns false and the shard is left
    exactly as it was. *)
Theorem Put_missing_key_is_noop m l key value g e :
  probeWith m (keyTest m key) l = Some (AtEmpty g e) →
  Put P m l key value = Some (m, false).
Proof. intros H. unfold Put. by rewrite H. Qed.



End Updates.

Lemma rowHasEmpty_match md :
  length md = 16%nat → rowHasEmpty md ↔ metaMatchEmpty md ≠ 0.
Proof.
  intros Hl. rewrite (metaMatchEmpty_zero md) by lia. split.
  - intros [s Hs] Hnil.
    assert (s ∈ matchSlots md empty).
    { apply elem_of_matchSlots. split; [|done].
      apply lookup_lt_Some in Hs. lia. }
    rewrite Hnil in H. by apply not_elem_of_nil in H.
  - intros Hne. destruct (matchSlots md empty) as [|s ?] eqn:E; [done|].
    assert (s ∈ matchSlots md empty) by (rewrite E; left).
    apply elem_of_matchSlots in H as [_ ?]. by exists s.
Qed.

Lemma probeWith_miss m test l :
  rows16 (ctrl m) → length (groups m) = length (ctrl m) →
  hasEmptySlot m →
  (∀ g s, get2 (ctrl m) g s = Some (snd (splitHash l)) →
          test g s = Some false) →
  ∃ g e, probeWith m test l = Some (AtEmpty g e).
Proof.
  intros Hr Hlen (ge & se & He) Hall. unfold probeWith.
  destruct (splitHash l) as [hi lo] eqn:E. simpl in Hall.
  assert (Hpos : (0 < length (ctrl m))%nat).
  { apply get2_Some in He as (row & Hg & _). apply lookup_lt_Some in Hg. lia. }
  unfold probeStart. rewrite decide_False by lia. cbn [mbind option_bind].
  rewrite Hlen. apply probeLoop_miss; eauto.
  rewrite <- Hlen.
  pose proof (Z.mod_pos_bound hi (Z.of_nat (length (groups m)))). lia.
Qed.

Section DeleteProofs.

Variable P : Package.

(** C10: Delete of a key that no slot holds returns false and leaves the
    shard exactly as it was. *)
Theorem Delete_absent_is_noop m l key :
  rows16 (ctrl m) → length (groups m) = length (ctrl m) →
  hasEmptySlot m → absent m key →
  Delete P m l key = Some (m, false).
Proof.
  intros Hr Hlen He Ha.
  destruct (probeWith_miss m (keyTest m key) l Hr Hlen He) as (g & e & Hp).
  { intros g s Hc. apply (Ha g s _ Hc). apply splitHash_lo. }
  unfold Delete. by rewrite Hp.
Qed.

Lemma del_items h k h' :
  del P h k = Some h' →
  KV.items h' = u32 (KV.items h - 1) ∧ KV.cap h' = KV.cap h
  ∧ KV.limit h' = KV.limit h ∧ KV.tail h' = KV.tail h
  ∧ KV.data h' = KV.data h.
Proof.
  unfold del. intros H. unbind H. injection H as <-.
  apply releaseOld_frame in E0 as (?&?&?&?&?). fields. repeat split; congruence.
Qed.

Lemma getKVUnlock_del h k :
  is_Some (getKVUnlock P h k) → is_Some (del P h k).
Proof.
  intros [kv H]. unfold getKVUnlock in H. unbind H.
  unfold del. rewrite E0. cbn [mbind option_bind].
  unfold decodeValue in E1. unfold releaseOld.
  destruct (valType k =? 0); [eauto|].
  destruct (_ =? overLongSize P); [|eauto].
  unbind E1. eauto.
Qed.

(** C6: Delete of a key that the probe finds returns true; the arena
    slot is marked dead, which takes one off [items]; the control byte
    becomes EMPTY and [resident] shrinks by one when the group has an
    EMPTY byte, and becomes TOMBSTONE with [dead] growing by one
    otherwise; the counter of the slot is set to 0. *)
Theorem Delete_present m l key g s k md :
  Inv m →
  probeWith m (keyTest m key) l = Some (Found g s) →
  get2 (groups m) g s = Some k →
  is_Some (getKVUnlock P (kvHolder m) k) →
  ctrl m !! g = Some md →
  ∃ m' h,
    Delete P m l key = Some (m', true)
    ∧ del P (kvHolder m) k = Some h ∧ kvHolder m' = h
    ∧ KV.items (kvHolder m') = KV.items (kvHolder m) - 1
    ∧ get2 (counters m') g s = Some 0
    ∧ ((rowHasEmpty md ∧ get2 (ctrl m') g s = Some empty
        ∧ resident m' = resident m - 1 ∧ dead m' = dead m)
       ∨ (¬ rowHasEmpty md ∧ get2 (ctrl m') g s = Some tombstone
          ∧ dead m' = dead m + 1 ∧ resident m' = resident m)).
Proof.
  intros I Hp Hk Hread Hmd.
  destruct (probeWith_Found_live _ _ _ _ _ (inv_ctrl m I) Hp) as (c & Hc & Hl).
  pose proof (Inv_bounds m I) as (Hi0 & Hd0 & Hsum & Hres & Hres32).
  assert (Hlive1 : 1 ≤ countTable isLive (ctrl m)).
  { destruct (set2_is_Some (ctrl m) g s empty c Hc) as [t' Ht'].
    pose proof (countTable_set2 isLive _ _ _ _ _ empty Hc Ht') as HL.
    rewrite Hl in HL. change (isLive empty) with false in HL.
    simpl Z.b2z in HL.
    pose proof (countTable_disjoint isLive isDead t' isLive_not_dead
                ltac:(eapply set2_rows16; [done|apply I])) as (? & ? & ?).
    lia. }
  destruct I as [Hrc Hn Hg Hlc Hlg Hsz Hi Hd Hr].
  destruct (getKVUnlock_del _ _ Hread) as [h Hh].
  destruct (del_items _ _ _ Hh) as (Hit & _).
  assert (Hs16 : (s < 16)%nat).
  { apply get2_Some in Hc as (row & Hg' & Hs).
    apply lookup_lt_Some in Hs. rewrite (rows16_lookup _ _ _ Hrc Hg') in Hs. lia. }
  assert (Hcn : is_Some (get2 (counters m) g s)).
  { apply get2_Some in Hc as (row & Hg' & Hs).
    assert (is_Some (counters m !! g)) as [rn Hrn].
    { apply lookup_lt_is_Some. rewrite Hlc. by apply lookup_lt_Some in Hg'. }
    assert (is_Some (rn !! s)) as [x Hx].
    { apply lookup_lt_is_Some. rewrite (rows16_lookup _ _ _ Hn Hrn). lia. }
    exists x. apply get2_Some. eauto. }
  destruct Hcn as [cn0 Hcn0].
  destruct (set2_is_Some (counters m) g s 0 cn0 Hcn0) as [cn' Hcn'].
  pose proof (rows16_lookup _ _ _ Hrc Hmd) as Hl16.
  unfold Delete. rewrite Hp. cbn [mbind option_bind].
  unfold deleteFound. rewrite Hk. cbn [mbind option_bind].
  rewrite Hh. cbn [mbind option_bind]. fields. rewrite Hmd.
  cbn [mbind option_bind].
  destruct (metaMatchEmpty md =? 0) eqn:He; cbn [negb].
  - destruct (set2_is_Some (ctrl m) g s tombstone c Hc) as [ct' Hct'].
    rewrite Hct'. cbn [mbind option_bind]. fields. rewrite Hcn'.
    cbn [mbind option_bind].
    eexists _, h. split; [done|]. fields.
    split; [done|]. split; [done|].
    split; [rewrite Hit; apply u32_small; lia|].
    split; [by eapply get2_set2_eq|]. right.
    split. { rewrite rowHasEmpty_match by done. apply Z.eqb_eq in He. lia. }
    split; [by eapply get2_set2_eq|].
    split; [apply u32_small; lia|done].
  - destruct (set2_is_Some (ctrl m) g s empty c Hc) as [ct' Hct'].
    rewrite Hct'. cbn [mbind option_bind]. fields. rewrite Hcn'.
    cbn [mbind option_bind].
    eexists _, h. split; [done|]. fields.
    split; [done|]. split; [done|].
    split; [rewrite Hit; apply u32_small; lia|].
    split; [by eapply get2_set2_eq|]. left.
    split. { rewrite rowHasEmpty_match by done. by apply Z.eqb_neq in He. }
    split; [by eapply get2_set2_eq|].
    split; [apply u32_small; lia|done].
Qed.

(** C9: when one of the three guards of Eliminate fires, it returns a
    deletion count of 0 with the skip code of that guard and leaves the
    shard exactly as it was. *)
Theorem Eliminate_skips m :
  let guard1 := (0 <? queryCnt m) && missRateBelow P (missCnt m) (queryCnt m) in
  let guard2 := usageBelowStart P (kvHolder m) in
  let guard3 := dropCount P (KV.items (kvHolder m)) =? 0 in
  (guard1 = true → Eliminate P m = Some (m, (0, skipReason1 P)))
  ∧ (guard1 = false → guard2 = true →
     Eliminate P m = Some (m, (0, skipReason2 P)))
  ∧ (guard1 = false → guard2 = false → guard3 = true →
     Eliminate P m = Some (m, (0, skipReason3 P))).
Proof.
  cbv zeta. unfold Eliminate. repeat split.
  - by intros ->.
  - by intros -> ->.
  - by intros -> -> ->.
Qed.

End DeleteProofs.

(** ** Reads and writes on the arena *)

Lemma storeAt_Some data off v d :
  storeAt data off v = Some d →
  0 ≤ off ∧ off + 4 ≤ len data
  ∧ d = take (Z.to_nat off) data ++ le_split 4 v
          ++ drop (Z.to_nat off + 4) data.
Proof.
  unfold storeAt. intros H. unbind H. injection H as <-.
  apply andb_true_iff in E as [?%Z.leb_le ?%Z.leb_le]. done.
Qed.

Lemma storeAt_is_Some data off v :
  0 ≤ off → off + 4 ≤ len data → is_Some (storeAt data off v).
Proof.
  intros H1 H2. unfold storeAt.
  rewrite (proj2 (Z.leb_le 0 off)), (proj2 (Z.leb_le _ _) H2) by done.
  simpl. eauto.
Qed.

Lemma copyAt_Some data off src d :
  copyAt data off src = Some d →
  0 ≤ off ∧ off ≤ len data
  ∧ d = take (Z.to_nat off) data
          ++ take (Nat.min (length data - Z.to_nat off) (length src)) src
          ++ drop (Z.to_nat off
                   + Nat.min (length data - Z.to_nat off) (length src)) data.
Proof.
  unfold copyAt. intros H. unbind H. injection H as <-.
  apply andb_true_iff in E as [?%Z.leb_le ?%Z.leb_le]. done.
Qed.

Lemma copyAt_is_Some data off src :
  0 ≤ off → off ≤ len data → is_Some (copyAt data off src).
Proof.
  intros H1 H2. unfold copyAt.
  rewrite (proj2 (Z.leb_le 0 off)), (proj2 (Z.leb_le _ _) H2) by done.
  simpl. eauto.
Qed.

Lemma storeAt_length data off v d :
  storeAt data off v = Some d → length d = length data.
Proof.
  intros (H0 & H1 & ->)%storeAt_Some. unfold len in *.
  rewrite !length_app, length_take, length_drop, length_le_split. lia.
Qed.

Lemma copyAt_length data off src d :
  copyAt data off src = Some d → length d = length data.
Proof.
  intros (H0 & H1 & ->)%copyAt_Some. unfold len in *.
  rewrite !length_app, !length_take, length_drop. lia.
Qed.

(** A write leaves every byte outside its range alone. *)
Lemma storeAt_lookup_out data off v d (i : nat) :
  storeAt data off v = Some d →
  Z.of_nat i < off ∨ off + 4 ≤ Z.of_nat i → d !! i = data !! i.
Proof.
  intros (H0 & H1 & ->)%storeAt_Some Hi. unfold len in *.
  destruct (decide (Z.of_nat i < off)).
  - rewrite lookup_app_l by (rewrite length_take; lia).
    rewrite lookup_take. by rewrite decide_True by lia.
  - rewrite lookup_app_r by (rewrite length_take; lia).
    rewrite length_take.
    rewrite lookup_app_r by (rewrite length_le_split; lia).
    rewrite length_le_split, lookup_drop. f_equal. lia.
Qed.

Lemma copyAt_lookup_out data off src d (i : nat) :
  copyAt data off src = Some d →
  Z.of_nat i < off ∨ off + len src ≤ Z.of_nat i → d !! i = data !! i.
Proof.
  intros (H0 & H1 & ->)%copyAt_Some Hi. unfold len in *.
  destruct (decide (Z.of_nat i < off)).
  - rewrite lookup_app_l by (rewrite length_take; lia).
    rewrite lookup_take. by rewrite decide_True by lia.
  - destruct (decide (i < length data)%nat).
    + rewrite lookup_app_r by (rewrite length_take; lia).
      rewrite length_take.
      rewrite lookup_app_r by (rewrite length_take; lia).
      rewrite length_take, lookup_drop. f_equal. lia.
    + rewrite (lookup_ge_None_2 data) by lia.
      apply lookup_ge_None_2.
      rewrite !length_app, !length_take, length_drop. lia.
Qed.

(** What a write puts down can be read back. *)
Lemma storeAt_lookup_in data off v d (i : nat) :
  storeAt data off v = Some d → (i < 4)%nat →
  d !! (Z.to_nat off + i)%nat = le_split 4 v !! i.
Proof.
  intros (H0 & H1 & ->)%storeAt_Some Hi. unfold len in *.
  rewrite lookup_app_r by (rewrite length_take; lia).
  rewrite length_take.
  rewrite lookup_app_l by (rewrite length_le_split; lia).
  f_equal. lia.
Qed.

Lemma copyAt_lookup_in data off src d (i : nat) :
  copyAt data off src = Some d → off + len src ≤ len data →
  (i < length src)%nat →
  d !! (Z.to_nat off + i)%nat = src !! i.
Proof.
  intros (H0 & H1 & ->)%copyAt_Some Hfit Hi. unfold len in *.
  rewrite lookup_app_r by (rewrite length_take; lia).
  rewrite length_take.
  rewrite lookup_app_l by (rewrite length_take; lia).
  rewrite lookup_take. rewrite decide_True by lia. f_equal. lia.
Qed.

Lemma slice_Some data lo hi b :
  slice data lo hi = Some b ↔
  0 ≤ lo ∧ lo ≤ hi ∧ hi ≤ len data
  ∧ b = take (Z.to_nat (hi - lo)) (drop (Z.to_nat lo) data).
Proof.
  unfold slice. destruct ((0 <=? lo) && (lo <=? hi) && (hi <=? len data)) eqn:E.
  - apply andb_true_iff in E as [[?%Z.leb_le ?%Z.leb_le]%andb_true_iff ?%Z.leb_le].
    split; [intros [= <-]; done|]. intros (_&_&_&->). done.
  - split; [done|]. intros (?%Z.leb_le & ?%Z.leb_le & ?%Z.leb_le & _).
    rewrite H, H0, H1 in E. done.
Qed.

(** Two arenas that agree on a range give the same slice of it. *)
Lemma slice_agree data data' lo hi :
  length data' = length data →
  (∀ i : nat, lo ≤ Z.of_nat i < hi → data' !! i = data !! i) →
  slice data' lo hi = slice data lo hi.
Proof.
  intros Hlen Hag. unfold slice, len. rewrite Hlen.
  destruct (_ && _) eqn:E; [|done].
  apply andb_true_iff in E as [[?%Z.leb_le ?%Z.leb_le]%andb_true_iff ?%Z.leb_le].
  f_equal. apply list_eq. intros i. rewrite !lookup_take.
  case_decide; [|done]. rewrite !lookup_drop. apply Hag. lia.
Qed.

Lemma loadAt_Some data off v :
  loadAt data off = Some v ↔
  0 ≤ off ∧ off + 4 ≤ len data
  ∧ v = le_combine (take 4 (drop (Z.to_nat off) data)).
Proof.
  unfold loadAt, sliceFrom, LoadUint32, len.
  destruct ((0 <=? off) && (off <=? Z.of_nat (length data))) eqn:E;
    cbn [mbind option_bind].
  - apply andb_true_iff in E as [?%Z.leb_le ?%Z.leb_le].
    rewrite length_drop. destruct (4 <=? _) eqn:E4.
    + apply Z.leb_le in E4. split; [intros [= <-]; split; [done|split; [lia|done]]|].
      intros (_&_&->). done.
    + apply Z.leb_gt in E4. split; [done|]. intros (?&?&_). lia.
  - split; [done|]. intros (?&?&_).
    apply andb_false_iff in E as [?%Z.leb_gt| ?%Z.leb_gt]; lia.
Qed.

Lemma loadAt_agree data data' off :
  length data' = length data →
  (∀ i : nat, off ≤ Z.of_nat i < off + 4 → data' !! i = data !! i) →
  loadAt data' off = loadAt data off.
Proof.
  intros Hlen Hag.
  destruct (loadAt data off) as [v|] eqn:E.
  - apply loadAt_Some in E as (H0 & H1 & ->). apply loadAt_Some.
    unfold len in *. rewrite Hlen. split; [done|split; [done|]]. f_equal.
    apply list_eq. intros i. rewrite !lookup_take.
    case_decide; [|done]. rewrite !lookup_drop. symmetry. apply Hag. lia.
  - destruct (loadAt data' off) as [v|] eqn:E'; [|done].
    apply loadAt_Some in E' as (H0 & H1 & _).
    assert (is_Some (loadAt data off)) as [? ?]; [|congruence].
    eexists. apply loadAt_Some. unfold len in *. rewrite <- Hlen. done.
Qed.

Lemma loadAt_storeAt data off v d :
  storeAt data off v = Some d → loadAt d off = Some (u32 v).
Proof.
  intros Hs. pose proof (storeAt_length _ _ _ _ Hs) as Hlen.
  pose proof Hs as (H0 & H1 & _)%storeAt_Some.
  apply loadAt_Some. unfold len in *. rewrite Hlen.
  split; [done|split; [done|]].
  replace (take 4 (drop (Z.to_nat off) d)) with (le_split 4 v).
  { by rewrite le_combine_split. }
  apply list_eq. intros i. rewrite lookup_take, lookup_drop.
  case_decide.
  - symmetry. by apply (storeAt_lookup_in data off v d i Hs).
  - apply lookup_ge_None_2. rewrite length_le_split. lia.
Qed.

Lemma slice_copyAt data off src d :
  copyAt data off src = Some d → off + len src ≤ len data →
  slice d off (off + len src) = Some src.
Proof.
  intros Hc Hfit. pose proof (copyAt_length _ _ _ _ Hc) as Hlen.
  pose proof Hc as (H0 & H1 & _)%copyAt_Some.
  apply slice_Some. unfold len in *. rewrite Hlen.
  split; [done|split; [lia|split; [done|]]].
  apply list_eq. intros i. rewrite lookup_take, lookup_drop.
  case_decide.
  - symmetry. apply (copyAt_lookup_in data off src d i Hc); [done|lia].
  - apply lookup_ge_None_2. lia.
Qed.

(** ** Descriptor fields as quotients and remainders *)

Lemma offset_mod k : offset k = k mod 2 ^ 24.
Proof.
  unfold offset, IdxOffsetMask. change 16777215 with (Z.ones 24).
  by rewrite Z.land_ones.
Qed.

Lemma capOrBigSize_mod k : capOrBigSize k = (k / 2 ^ 24) mod 2 ^ 7.
Proof.
  unfold capOrBigSize, IdxCapMask. rewrite Z.shiftr_land.
  change (Z.shiftr 2130706432 24) with (Z.ones 7).
  rewrite Z.land_ones, Z.shiftr_div_pow2 by lia. done.
Qed.

Lemma valType_div k : valType k = k / 2 ^ 31.
Proof. unfold valType. by rewrite Z.shiftr_div_pow2. Qed.

Lemma smallSize_mod h :
  Z.shiftr (Z.land h IdxSmallSizeMask) 24 = (h / 2 ^ 24) mod 2 ^ 8.
Proof.
  unfold IdxSmallSizeMask. rewrite Z.shiftr_land.
  change (Z.shiftr 4278190080 24) with (Z.ones 8).
  rewrite Z.land_ones, Z.shiftr_div_pow2 by lia. done.
Qed.

Lemma headerOffset_mod h : Z.land h IdxOffsetMask = h mod 2 ^ 24.
Proof.
  unfold IdxOffsetMask. change 16777215 with (Z.ones 24).
  by rewrite Z.land_ones.
Qed.

Lemma capOrBigSize_range k : 0 ≤ capOrBigSize k < 128.
Proof. rewrite capOrBigSize_mod. apply Z.mod_pos_bound. lia. Qed.

Section InPlace.

Variable P : Package.

(** C8: Put of a value shorter than [overShortSize] that fits the spare
    capacity of a type-0 slot succeeds in place: it returns true, the
    tail (so [UsedMem]) and [valUsed] stay as they were, and the arena
    changes only inside Word B and the value bytes.  These are
    rewritten: the value bytes read back the new value, and Word B reads
    back the old offset with the new length in its top byte (the value
    is copied last, so Word B is read back when the value lies clear of
    it). *)
Theorem Put_in_place m l key value g s k vHeader :
  overShortSize P ≤ overLongSize P → overLongSize P ≤ limitSize P →
  probeWith m (keyTest m key) l = Some (Found g s) →
  get2 (groups m) g s = Some k →
  valType k = 0 →
  len value < overShortSize P →
  len value ≤ capOrBigSize k * 4 →
  let data := KV.data (kvHolder m) in
  let kEnd := u32 (u32 (offset k * 4) + 16) in
  let vOff := u32 (Z.land vHeader IdxOffsetMask * 4) in
  loadAt data kEnd = Some vHeader →
  vOff ≤ len data →
  ∃ m' d,
    Put P m l key value = Some (m', true)
    ∧ m' = setKV m (KV.setData (kvHolder m) d)
    ∧ KV.tail (kvHolder m') = KV.tail (kvHolder m)
    ∧ UsedMem m' = UsedMem m
    ∧ KV.valUsed (kvHolder m') = KV.valUsed (kvHolder m)
    ∧ length d = length data
    ∧ (∀ i : nat, ¬ (kEnd ≤ Z.of_nat i < kEnd + 4) →
                  ¬ (vOff ≤ Z.of_nat i < vOff + len value) →
                  d !! i = data !! i)
    ∧ (vOff + len value ≤ len data →
       slice d vOff (vOff + len value) = Some value)
    ∧ (kEnd + 4 ≤ vOff ∨ vOff + len value ≤ kEnd →
       loadAt d kEnd
       = Some (u32 (Z.land vHeader IdxOffsetMask
                    + u32 (Z.shiftl (len value) 24)))).
Proof.
  intros Hsl Hll Hp Hk Hty Hshort Hfit data kEnd vOff Hload Hoff.
  pose proof (capOrBigSize_range k) as Hcap.
  assert (Hlv : u32 (len value) = len value)
    by (apply u32_small; unfold len in *; lia).
  assert (Hc4 : u32 (capOrBigSize k * 4) = capOrBigSize k * 4)
    by (apply u32_small; lia).
  pose proof Hload as (Hk0 & Hk4 & _)%loadAt_Some.
  destruct (storeAt_is_Some data kEnd
              (u32 (Z.land vHeader IdxOffsetMask
                    + u32 (Z.shiftl (len value) 24))) Hk0 Hk4) as [d1 Hd1].
  pose proof (storeAt_length _ _ _ _ Hd1) as Hl1.
  destruct (copyAt_is_Some d1 vOff value) as [d2 Hd2].
  { unfold vOff, u32. apply Z.mod_pos_bound. lia. }
  { unfold len in *. rewrite Hl1. done. }
  pose proof (copyAt_length _ _ _ _ Hd2) as Hl2.
  exists (setKV m (KV.setData (kvHolder m) d2)), d2.
  split.
  - unfold Put. rewrite Hp. cbn [mbind option_bind].
    unfold putFound. rewrite Hk. cbn [mbind option_bind].
    fold data kEnd. rewrite Hload. cbn [mbind option_bind].
    rewrite Hlv, Hty, Hc4.
    rewrite (proj2 (Z.leb_gt (limitSize P) _)) by lia.
    rewrite (proj2 (Z.leb_gt (overLongSize P) _)) by lia.
    rewrite (proj2 (Z.leb_gt (overShortSize P) _)) by lia.
    rewrite Z.eqb_refl, (proj2 (Z.leb_le _ _) Hfit),
      (proj2 (Z.ltb_lt _ _) Hshort).
    cbn [andb]. rewrite Hd1. cbn [mbind option_bind].
    fold vOff. rewrite Hd2. done.
  - split; [done|]. split; [done|]. split; [done|]. split; [done|].
    split; [congruence|]. split; [|split].
    + intros i Hi1 Hi2.
      rewrite (copyAt_lookup_out _ _ _ _ i Hd2) by lia.
      apply (storeAt_lookup_out _ _ _ _ i Hd1). lia.
    + intros Hin. apply (slice_copyAt d1); [done|].
      unfold len in *. rewrite Hl1. done.
    + intros Hclear.
      transitivity (loadAt d1 kEnd).
      * apply loadAt_agree; [done|].
        intros i Hi. apply (copyAt_lookup_out _ _ _ _ i Hd2). lia.
      * rewrite (loadAt_storeAt _ _ _ _ Hd1). f_equal.
        unfold u32 at 1. apply Z.mod_mod. lia.
Qed.

(** C3, as amended: on an existing key and for a value below the long
    layout, RePut behaves as Put does once its three gates are passed
    (tail below the arena limit, no rehash running, [resident] below the
    load limit): same result, same post-state. *)
Theorem RePut_as_Put_below_long m l key value g s :
  overLongSize P ≤ limitSize P →
  u32 (len value) < overLongSize P →
  KV.tail (kvHolder m) < KV.limit (kvHolder m) →
  rehashing m = false →
  resident m < limit m →
  probeWith m (keyTest m key) l = Some (Found g s) →
  RePut P m l key value = Put P m l key value.
Proof.
  intros Hll Hlv Htail Hre Hres Hp. unfold RePut, Put.
  rewrite (proj2 (Z.leb_gt _ _) Htail), Hre, (proj2 (Z.leb_gt _ _) Hres).
  cbn [mbind option_bind]. rewrite Hp. cbn [mbind option_bind].
  unfold rePutFound, putFound.
  destruct (get2 (groups m) g s) as [k|]; [|done]. cbn [mbind option_bind].
  destruct (loadAt _ _) as [vHeader|]; [|done]. cbn [mbind option_bind].
  rewrite (proj2 (Z.leb_gt (limitSize P) _)) by lia.
  rewrite (proj2 (Z.leb_gt (overLongSize P) _)) by lia.
  done.
Qed.

End InPlace.

(** C3, as stated, fails: on the shard that holds key A, RePut and Put of
    the same 32768-byte value end with different arena tails (the long
    branch of Put reserves 20 bytes more than the long branch of RePut). *)
Lemma RePut_long_update_differs_from_Put :
  let v := replicate (Z.to_nat 32768) Byte.x00 in
  let h := demoHash keyA in
  ('(m, _) ← shardWithA 40000; probeWith m (keyTest m keyA) h)
    = Some (Found 0 0)
  ∧ ('(m, _) ← shardWithA 40000; RePut demoPackage m h keyA v)
    ≠ ('(m, _) ← shardWithA 40000; Put demoPackage m h keyA v).
Proof.
  split; [by vm_compute|].
  intros H.
  apply (f_equal (fmap (λ r : LFUMap * bool, KV.tail (kvHolder r.1)))) in H.
  vm_compute in H. discriminate H.
Qed.

(** ** The counting invariant through rehash and GCCopy *)

Lemma countRow_replicate f n c :
  f c = false → countRow f (replicate n c) = 0.
Proof. intros Hf. induction n as [|n IH]; simpl; [done|]. rewrite Hf, IH. done. Qed.

Lemma countTable_replicate f n row :
  countRow f row = 0 → countTable f (replicate n row) = 0.
Proof. intros Hf. induction n as [|n IH]; simpl; [done|]. rewrite Hf, IH. done. Qed.

Lemma rows16_replicate {A} n (x : A) : rows16 (replicate n (replicate 16 x)).
Proof. apply Forall_replicate. apply length_replicate. Qed.

Lemma findEmpty_spec ct G fuel : ∀ g gN sN,
  rows16 ct → findEmpty ct G fuel g = Some (gN, sN) →
  get2 ct gN sN = Some empty.
Proof.
  induction fuel as [|fuel IH]; intros g gN sN Hr H; [done|].
  cbn [findEmpty] in H. unbind H.
  - injection H as <- <-.
    pose proof (rows16_lookup _ _ _ Hr E) as Hl.
    apply negb_true_iff, Z.eqb_neq in E0.
    pose proof (nextMatch_empty l ltac:(lia) E0) as Hm.
    assert (Hin : fst (nextMatch (metaMatchEmpty l)) ∈ matchSlots l empty)
      by (rewrite Hm; left).
    apply elem_of_matchSlots in Hin as [_ Hin].
    apply get2_Some. eauto.
  - by eapply IH.
Qed.

Section Rebuild.

Variable P : Package.

Lemma gcSet_frame h key v h' kN :
  gcSet P h key v = Some (h', kN) →
  KV.items h' = u32 (KV.items h + 1) ∧ KV.cap h' = KV.cap h
  ∧ KV.limit h' = KV.limit h
  ∧ length (KV.data h') = length (KV.data h).
Proof.
  unfold gcSet. intros H. unbind H; injection H as <- <-; fields.
  all: repeat match goal with
         | E : storeAt _ _ _ = Some _ |- _ => apply storeAt_length in E
         | E : copyAt _ _ _ = Some _ |- _ => apply copyAt_length in E
         end.
  all: repeat split; congruence.
Qed.

Lemma freshTable_InvR n cap :
  16 * Z.of_nat n < 2 ^ 32 → InvR (freshTable P n cap).
Proof.
  intros Hn. unfold freshTable, newEmptyMetadata.
  constructor; cbn [r_ctrl r_counters r_groups r_kv r_resident];
    try apply rows16_replicate;
    rewrite ?length_replicate; try done.
  - unfold len. by rewrite length_replicate.
  - symmetry. by apply countTable_replicate.
  - by apply countTable_replicate.
  - symmetry. by apply countTable_replicate.
Qed.

Lemma moveSlot_length m r g s r' :
  moveSlot P m r g s = Some r' → length (r_ctrl r') = length (r_ctrl r).
Proof.
  unfold moveSlot. intros H. unbind H.
  all: injection H as <-; simpl; first [done | by eapply set2_length].
Qed.

Lemma moveRow_length m g ss : ∀ r r',
  moveRow P m r g ss = Some r' → length (r_ctrl r') = length (r_ctrl r).
Proof.
  induction ss as [|s ss IH]; intros r r' H; [by injection H as <-|].
  cbn [moveRow] in H. unbind H. apply IH in H. apply moveSlot_length in E.
  congruence.
Qed.

Lemma moveRows_length m gs : ∀ r r',
  moveRows P m r gs = Some r' → length (r_ctrl r') = length (r_ctrl r).
Proof.
  induction gs as [|g gs IH]; intros r r' H; [by injection H as <-|].
  cbn [moveRows] in H. unbind H. apply IH in H. apply moveRow_length in E0.
  congruence.
Qed.

Lemma moveSlot_InvR m r g s c r' :
  InvR r → get2 (ctrl m) g s = Some c →
  moveSlot P m r g s = Some r' →
  InvR r'
  ∧ countTable isLive (r_ctrl r')
    = countTable isLive (r_ctrl r) + Z.b2z (isLive c)
  ∧ length (r_ctrl r') = length (r_ctrl r).
Proof.
  intros I Hc H. unfold moveSlot in H. rewrite Hc in H.
  cbn [mbind option_bind] in H.
  destruct ((c =? empty) || (c =? tombstone)) eqn:Ec.
  { injection H as <-. unfold isLive. rewrite Ec. simpl.
    split; [done|]. split; [lia|done]. }
  assert (Hlive : isLive c = true) by (unfold isLive; by rewrite Ec).
  rewrite Hlive. simpl Z.b2z.
  unbind H. injection H as <-.
  all: cbn [r_ctrl r_counters r_groups r_kv r_resident].
  all: destruct I as [Hrc Hn Hg Hlc Hlg Hsz Hi Hd Hr].
  all: match goal with
       | E : findEmpty _ _ _ _ = Some (?gN, ?sN) |- _ =>
           pose proof (findEmpty_spec _ _ _ _ _ _ Hrc E) as Hemp
       end.
  all: match goal with
       | E : set2 (r_ctrl _) _ _ ?lo = Some ?ct |- _ =>
           pose proof (countTable_set2 isLive _ _ _ _ _ lo Hemp E) as HL;
           pose proof (countTable_set2 isDead _ _ _ _ _ lo Hemp E) as HD;
           pose proof (set2_length _ _ _ _ _ E) as Hlen;
           pose proof (set2_rows16 _ _ _ _ _ E Hrc) as Hrc'
       end.
  all: match goal with
       | E : gcSet _ _ _ _ = Some _ |- _ =>
           apply gcSet_frame in E as (Hit & _)
       end.
  all: match goal with
       | E : splitHash ?l = (_, ?lo) |- _ =>
           pose proof (splitHash_lo l) as Hlo; rewrite E in Hlo; simpl in Hlo
       end.
  all: rewrite (isLive_tag _ (proj1 Hlo)) in HL;
       rewrite (isLive_not_dead _ (isLive_tag _ (proj1 Hlo))) in HD;
       change (isLive empty) with false in HL;
       change (isDead empty) with false in HD; simpl Z.b2z in *.
  all: pose proof (countTable_disjoint isLive isDead _ isLive_not_dead Hrc')
         as (? & ? & ?).
  all: split; [|split; [lia|done]].
  all: constructor; cbn [r_ctrl r_counters r_groups r_kv r_resident];
       try (by eapply set2_rows16);
       repeat match goal with
         | E : set2 _ _ _ _ = Some _ |- _ => apply set2_length in E
         end;
       unfold len in *; try congruence; try lia.
  all: try (rewrite Hit, u32_small by lia; lia).
  all: try (rewrite u32_small by lia; lia).
Qed.

Lemma moveRow_InvR m g row : ∀ n j r r',
  ctrl m !! g = Some row → (j + n = length row)%nat →
  InvR r → moveRow P m r g (seq j n) = Some r' →
  InvR r'
  ∧ countTable isLive (r_ctrl r')
    = countTable isLive (r_ctrl r) + countRow isLive (drop j row)
  ∧ length (r_ctrl r') = length (r_ctrl r).
Proof.
  induction n as [|n IH]; intros j r r' Hrow Hj I H.
  - injection H as <-. rewrite drop_ge by lia. simpl. split; [done|]. lia.
  - cbn [seq moveRow] in H. unbind H.
    assert (is_Some (row !! j)) as [c Hc] by (apply lookup_lt_is_Some; lia).
    assert (Hget : get2 (ctrl m) g j = Some c) by (apply get2_Some; eauto).
    destruct (moveSlot_InvR m r g j c _ I Hget E) as (I1 & HL1 & Hlen1).
    destruct (IH (S j) _ r' Hrow ltac:(lia) I1 H) as (I2 & HL2 & Hlen2).
    split; [done|]. split; [|congruence].
    rewrite (drop_S row c j Hc). simpl. lia.
Qed.

Lemma moveRows_InvR m : ∀ n i r r',
  (i + n = length (ctrl m))%nat →
  InvR r → moveRows P m r (seq i n) = Some r' →
  InvR r'
  ∧ countTable isLive (r_ctrl r')
    = countTable isLive (r_ctrl r) + countTable isLive (drop i (ctrl m))
  ∧ length (r_ctrl r') = length (r_ctrl r).
Proof.
  induction n as [|n IH]; intros i r r' Hi I H.
  - injection H as <-. rewrite drop_ge by lia. simpl. split; [done|]. lia.
  - cbn [seq moveRows] in H. unbind H.
    destruct (moveRow_InvR m i l (length l) 0 r _ E ltac:(lia) I E0)
      as (I1 & HL1 & Hlen1).
    destruct (IH (S i) _ r' ltac:(lia) I1 H) as (I2 & HL2 & Hlen2).
    split; [done|]. split; [|congruence].
    rewrite (drop_S (ctrl m) l i E). simpl. rewrite drop_0 in HL1. lia.
Qed.

Lemma rebuilt_counts m n r :
  Inv m → 16 * Z.of_nat n < 2 ^ 32 →
  moveRows P m (freshTable P n (KV.cap (kvHolder m)))
    (seq 0 (length (ctrl m))) = Some r →
  InvR r ∧ countTable isLive (r_ctrl r) = countTable isLive (ctrl m)
  ∧ length (r_ctrl r) = n.
Proof.
  intros I Hn H.
  destruct (moveRows_InvR m (length (ctrl m)) 0 _ r ltac:(lia)
              (freshTable_InvR n _ Hn) H) as (IR & HL & Hlen).
  split; [done|]. rewrite drop_0 in HL.
  destruct (freshTable_InvR n (KV.cap (kvHolder m)) Hn)
    as [_ _ _ _ _ _ Hi _ Hr].
  split.
  - rewrite HL, <- Hr. done.
  - rewrite Hlen. simpl. by rewrite length_replicate.
Qed.

Lemma rehash_Inv m m' :
  Inv m → rehash P m = Some m' →
  16 * len (ctrl m') < 2 ^ 32 → Inv m'.
Proof.
  intros I H Hsz. unfold rehash in H. unbind H. injection H as <-.
  fields.
  assert (Hn : 16 * Z.of_nat (nextSize m) < 2 ^ 32).
  { apply moveRows_length in E. unfold len in Hsz. rewrite E in Hsz.
    simpl in Hsz. by rewrite length_replicate in Hsz. }
  destruct (rebuilt_counts m _ r I Hn E) as ([] & HL & Hlen).
  constructor; fields; try done. lia.
Qed.

Lemma GCCopy_Inv m m' res :
  Inv m → GCCopy P m = Some (m', res) → Inv m'.
Proof.
  intros I H. unfold GCCopy in H. unbind H; try (by injection H as <- <-).
  injection H as <- <-. fields.
  pose proof (Inv_bounds m I) as (Hi0 & Hd0 & Hsum & Hres & Hres32).
  assert (Hn : 16 * Z.of_nat (length (groups m)) < 2 ^ 32).
  { destruct I. unfold len in *. congruence. }
  assert (I' : Inv (setRehashing m true)) by (destruct I; by constructor).
  destruct (rebuilt_counts (setRehashing m true) _ r I' Hn E1)
    as ([] & HL & Hlen).
  fields. destruct I.
  constructor; fields; try done; try lia.
  rewrite u32_small by lia. lia.
Qed.

End Rebuild.

(** ** The counting invariant holds on every reachable shard *)

Lemma countRow_map_const f row c :
  f c = false → countRow f (map (λ _ : Z, c) row) = 0.
Proof. intros Hf. induction row as [|x t IH]; simpl; [done|]. by rewrite Hf, IH. Qed.

Lemma countTable_map_const f t c :
  f c = false → countTable f (map (map (λ _ : Z, c)) t) = 0.
Proof.
  intros Hf. induction t as [|x t IH]; simpl; [done|].
  by rewrite countRow_map_const, IH.
Qed.

Lemma rows16_map {A B} (f : A → B) t : rows16 t → rows16 (map (map f) t).
Proof.
  unfold rows16. intros H. apply Forall_fmap. eapply Forall_impl; [done|].
  intros row Hr. simpl. by rewrite length_map.
Qed.

Lemma add_Inv m g s m' : Inv m → add m g s = Some m' → Inv m'.
Proof.
  intros [] H. unfold add in H. unbind H; injection H as <-; [|done].
  constructor; fields; try done.
  - by eapply set2_rows16.
  - apply set2_length in E1. congruence.
Qed.

Section Reachable.

Variable P : Package.

Lemma newInnerLFUMap_Inv n memMax :
  16 * Z.of_nat n < 2 ^ 32 → Inv (newInnerLFUMap P n memMax).
Proof.
  intros Hn. unfold newInnerLFUMap, newEmptyMetadata.
  constructor; fields; try apply rows16_replicate;
    rewrite ?length_replicate; try done.
  - unfold len. by rewrite length_replicate.
  - symmetry. by apply countTable_replicate.
  - symmetry. by apply countTable_replicate.
  - symmetry. rewrite !countTable_replicate; done.
Qed.

Lemma Clear_Inv m : Inv m → Inv (Clear P m).
Proof.
  intros []. unfold Clear.
  constructor; fields; try (by apply rows16_map);
    rewrite ?length_map; try done.
  - unfold len in *. by rewrite length_map.
  - by rewrite countTable_map_const.
  - by rewrite countTable_map_const.
  - by rewrite !countTable_map_const.
Qed.

Lemma Has_Inv m l key m' b : Inv m → Has m l key = Some (m', b) → Inv m'.
Proof.
  intros I H. unfold Has in H. unbind H. destruct p.
  - unbind H. injection H as <- <-. eapply add_Inv; [|done].
    destruct I; by constructor.
  - injection H as <- <-. destruct I; by constructor.
Qed.

Lemma Get_Inv m l key m' res : Inv m → Get P m l key = Some (m', res) → Inv m'.
Proof.
  intros I H. unfold Get in H. unbind H. destruct p.
  - unbind H. injection H as <- <-. eapply add_Inv; [|done].
    destruct I; by constructor.
  - injection H as <- <-. destruct I; by constructor.
Qed.

(** What [del] and a new control byte do to the counts of a live slot. *)
Lemma retire_Inv m g s c h ct x m' :
  Inv m → get2 (ctrl m) g s = Some c → isLive c = true →
  KV.items h = u32 (KV.items (kvHolder m) - 1) →
  set2 (ctrl m) g s x = Some ct →
  isLive x = false →
  kvHolder m' = h → ctrl m' = ct →
  rows16 (counters m') → length (counters m') = length (counters m) →
  rows16 (groups m') → length (groups m') = length (groups m) →
  (if isDead x
   then dead m' = u32 (dead m + 1) ∧ resident m' = resident m
   else dead m' = dead m ∧ resident m' = u32 (resident m - 1)) →
  Inv m'.
Proof.
  intros I Hc Hl Hit Hct Hx Hkv Hctrl Hrn Hln Hrg Hlg Hdr.
  pose proof (Inv_bounds m I) as (Hi0 & Hd0 & Hsum & Hres & Hres32).
  destruct I as [Hrc Hn Hg Hlc Hlgs Hsz Hi Hdd Hrr].
  pose proof (countTable_set2 isLive _ _ _ _ _ x Hc Hct) as HL.
  pose proof (countTable_set2 isDead _ _ _ _ _ x Hc Hct) as HD.
  rewrite Hl, Hx in HL. rewrite (isLive_not_dead c Hl) in HD.
  simpl Z.b2z in HL, HD.
  pose proof (set2_rows16 _ _ _ _ _ Hct Hrc) as Hrc'.
  pose proof (set2_length _ _ _ _ _ Hct) as Hlen.
  pose proof (countTable_disjoint isLive isDead ct isLive_not_dead Hrc')
    as (? & ? & ?).
  constructor; rewrite ?Hkv, ?Hctrl; try done; try congruence.
  - unfold len in *. congruence.
  - rewrite Hit, u32_small by lia. lia.
  - destruct (isDead x); simpl Z.b2z in *; destruct Hdr as [Hd' Hr'];
      rewrite ?Hd', ?Hr', ?u32_small by lia; lia.
  - destruct (isDead x); simpl Z.b2z in *; destruct Hdr as [Hd' Hr'];
      rewrite ?Hd', ?Hr', ?u32_small by lia; lia.
Qed.

Lemma Delete_Inv m l key m' b :
  Inv m → Delete P m l key = Some (m', b) → Inv m'.
Proof.
  intros I H. unfold Delete in H. unbind H. destruct p as [g s|g e].
  2:{ by injection H as <- <-. }
  destruct (probeWith_Found_live _ _ _ _ _ (inv_ctrl m I) E) as (c & Hc & Hl).
  unbind H. injection H as <- <-. unfold deleteFound in E0. unbind E0.
  injection E0 as <-.
  match goal with
  | E : (if _ then _ else _) = Some _ |- _ => unbind E; injection E as <-
  end.
  all: fields.
  all: match goal with
       | E : del _ _ _ = Some _ |- _ => apply del_items in E as (Hit & _)
       end.
  all: eapply (retire_Inv m g s c); eauto; fields; try done.
  all: try (by eapply set2_rows16; [done|apply I]).
  all: try (by eapply set2_length).
  all: apply I.
Qed.

Lemma dropSlot_Inv m n gs m' n' :
  Inv m → dropSlot P (m, n) gs = Some (m', n') → Inv m'.
Proof.
  intros I H. unfold dropSlot in H. destruct gs as [g s].
  unbind H; injection H as <- <-; [done|].
  match goal with
  | E : (?c =? tombstone) || (?c =? empty) = false |- _ =>
      assert (Hl : isLive c = true)
        by (unfold isLive; apply orb_false_iff in E as [-> ->]; done)
  end.
  match goal with
  | E : del _ _ _ = Some _ |- _ => apply del_items in E as (Hit & _)
  end.
  eapply (retire_Inv m g s); eauto; fields; try done; try apply I.
  - by eapply set2_rows16; [done|apply I].
  - by eapply set2_length.
Qed.

Lemma dropSlots_Inv item : ∀ m n m' n',
  Inv m → dropSlots P (m, n) item = Some (m', n') → Inv m'.
Proof.
  induction item as [|gs item IH]; intros m n m' n' I H.
  - by injection H as <- <-.
  - cbn [dropSlots] in H. unbind H. destruct p as [m1 n1].
    eapply IH; [|done]. by eapply dropSlot_Inv.
Qed.

Lemma ageCounters_Inv m x m' : Inv m → ageCounters m x = Some m' → Inv m'.
Proof.
  intros [Hrc Hn Hg Hlc Hlgs Hsz Hi Hdd Hrr] H. unfold ageCounters in H.
  unbind H. injection H as <-.
  constructor; fields; try done.
  - rewrite <- Hlc, take_ge, drop_ge, app_nil_r by lia.
    unfold rows16, subs in *. apply Forall_fmap.
    eapply Forall_impl; [done|]. intros row Hr. simpl. by rewrite length_map.
  - rewrite length_app, length_map, length_take, length_drop. lia.
Qed.

Lemma Eliminate_Inv m m' res :
  Inv m → Eliminate P m = Some (m', res) → Inv m'.
Proof.
  intros I H. unfold Eliminate in H. unbind H; try (by injection H as <- <-).
  injection H as <- <-. eapply ageCounters_Inv; [|done].
  by eapply dropSlots_Inv.
Qed.

Lemma rePutInsert_Inv m g md lo key value m' b :
  Inv m → ctrl m !! g = Some md → metaMatchEmpty md ≠ 0 → 0 ≤ lo →
  rePutInsert P m g (metaMatchEmpty md) lo key value = Some (m', b) →
  Inv m'.
Proof.
  intros I Hmd Hne Hlo H.
  pose proof (Inv_bounds m I) as (Hi0 & Hd0 & Hsum & Hres & Hres32).
  destruct I as [Hrc Hn Hg Hlc Hlgs Hsz Hi Hdd Hrr].
  pose proof (rows16_lookup _ _ _ Hrc Hmd) as Hl16.
  pose proof (nextMatch_empty md ltac:(lia) Hne) as Hm.
  assert (Hin : fst (nextMatch (metaMatchEmpty md)) ∈ matchSlots md empty)
    by (rewrite Hm; left).
  apply elem_of_matchSlots in Hin as [_ Hin].
  assert (Hemp : get2 (ctrl m) g (fst (nextMatch (metaMatchEmpty md)))
                 = Some empty) by (apply get2_Some; eauto).
  unfold rePutInsert in H. unbind H.
  { injection H as <- <-. by constructor. }
  injection H as <- <-. fields.
  match goal with
  | E : set2 (ctrl m) _ _ lo = Some ?ct |- _ =>
      pose proof (countTable_set2 isLive _ _ _ _ _ lo Hemp E) as HL;
      pose proof (countTable_set2 isDead _ _ _ _ _ lo Hemp E) as HD;
      pose proof (set2_length _ _ _ _ _ E) as Hlen;
      pose proof (set2_rows16 _ _ _ _ _ E Hrc) as Hrc'
  end.
  rewrite (isLive_tag _ Hlo) in HL.
  rewrite (isLive_not_dead _ (isLive_tag _ Hlo)) in HD.
  change (isLive empty) with false in HL.
  change (isDead empty) with false in HD. simpl Z.b2z in *.
  pose proof (countTable_disjoint isLive isDead _ isLive_not_dead Hrc')
    as (? & ? & ?).
  constructor; fields; try (by eapply set2_rows16);
    repeat match goal with
      | E : set2 _ _ _ _ = Some _ |- _ => apply set2_length in E
      end;
    unfold len in *; try congruence; try lia.
  all: rewrite u32_small by lia; lia.
Qed.

Lemma RePut_Inv m l key value m' b :
  Inv m → RePut P m l key value = Some (m', b) →
  16 * len (ctrl m') < 2 ^ 32 → Inv m'.
Proof.
  intros I H Hsz. unfold RePut in H.
  destruct (KV.limit (kvHolder m) <=? KV.tail (kvHolder m));
    [by injection H as <- <-|].
  destruct (rehashing m); [by injection H as <- <-|].
  cbn [mbind option_bind] in H.
  match type of H with (?x ≫= _) = _ => destruct x as [m0|] eqn:E0 end;
    [|done].
  cbn [mbind option_bind] in H.
  destruct (probeWith m0 _ l) as [[g s|g e]|] eqn:Ep; [| |done];
    cbn [mbind option_bind] in H.
  - (* update of an existing key *)
    assert (Hlen : length (ctrl m') = length (ctrl m0)).
    { apply rePutFound_summary in H as [[_ K]|[_ T]]; open_summaries.
      - congruence.
      - by eapply set2_length. }
    assert (I0 : Inv m0).
    { destruct (limit m <=? resident m).
      - unbind E0. injection E0 as <-.
        assert (Inv l0); [|destruct H0; by constructor].
        eapply rehash_Inv; [|done|].
        + destruct I; by constructor.
        + unfold len in *. simpl in Hlen. congruence.
      - by injection E0 as <-. }
    destruct (probeWith_Found_live _ _ _ _ _ (inv_ctrl m0 I0) Ep)
      as (c & Hc & Hl).
    apply rePutFound_summary in H as [[_ K]|[_ T]].
    + by eapply keepsCounts_Inv.
    + by eapply tombstoned_Inv.
  - (* insertion at the first empty slot *)
    destruct (probeWith_AtEmpty _ _ _ _ _ Ep) as (md & Hmd & -> & Hne).
    assert (Hlen : length (ctrl m') = length (ctrl m0)).
    { unfold rePutInsert in H. unbind H; injection H as <- <-; [done|].
      fields. by eapply set2_length. }
    assert (I0 : Inv m0).
    { destruct (limit m <=? resident m).
      - unbind E0. injection E0 as <-.
        assert (Inv l0); [|destruct H0; by constructor].
        eapply rehash_Inv; [|done|].
        + destruct I; by constructor.
        + unfold len in *. simpl in Hlen. congruence.
      - by injection E0 as <-. }
    eapply rePutInsert_Inv; eauto. apply splitHash_lo.
Qed.

Lemma run_Inv m o m' :
  Inv m → run P m o = Some m' → 16 * len (ctrl m') < 2 ^ 32 → Inv m'.
Proof.
  intros I H Hsz. destruct o; simpl in H.
  all: try (destruct (fmap_Some_1 _ _ _ H) as ([m1 b] & H1 & ->); simpl).
  - by eapply Has_Inv.
  - by eapply Get_Inv.
  - by eapply Put_Inv.
  - by eapply PutMultiValue_Inv.
  - by eapply RePut_Inv.
  - by eapply Delete_Inv.
  - injection H as <-. by apply Clear_Inv.
  - by eapply rehash_Inv.
  - by eapply Eliminate_Inv.
  - by eapply GCCopy_Inv.
Qed.

Lemma reachable_Inv m : reachable P m → Inv m.
Proof.
  induction 1 as [n memMax Hn|m o m' _ IH Hrun Hsz].
  - by apply newInnerLFUMap_Inv.
  - by eapply run_Inv.
Qed.

(** C5: after any sequence of shard calls, [Count()] equals [Items()]
    and [items + dead = resident]. *)
Theorem count_consistency m :
  reachable P m →
  Count m = Items m ∧ Items m + dead m = resident m.
Proof.
  intros I%reachable_Inv.
  pose proof (Inv_bounds m I) as (Hi0 & Hd0 & Hsum & Hres & Hres32).
  unfold Count, Items. split; [|done].
  rewrite u32_small by lia. lia.
Qed.

End Reachable.

(** ** Encoding and decoding descriptors *)

Section Fields.

Variables off hi ty sz : Z.
Hypothesis Hoff : 0 ≤ off < 2 ^ 24.
Hypothesis Hhi : 0 ≤ hi < 128.
Hypothesis Hty : 0 ≤ ty < 2.
Hypothesis Hsz : 0 ≤ sz < 256.

Lemma mkIdx_range : 0 ≤ mkIdx off hi ty < 2 ^ 32.
Proof. unfold mkIdx. lia. Qed.

Lemma mkHeader_range : 0 ≤ mkHeader off sz < 2 ^ 32.
Proof. unfold mkHeader. lia. Qed.

Lemma offset_mkIdx : offset (mkIdx off hi ty) = off.
Proof.
  rewrite offset_mod. unfold mkIdx.
  replace (off + hi * 2 ^ 24 + ty * 2 ^ 31)
    with (off + (hi + ty * 128) * 2 ^ 24) by lia.
  rewrite Z.mod_add by lia. by apply Z.mod_small.
Qed.

Lemma capOrBigSize_mkIdx : capOrBigSize (mkIdx off hi ty) = hi.
Proof.
  rewrite capOrBigSize_mod. unfold mkIdx.
  replace (off + hi * 2 ^ 24 + ty * 2 ^ 31)
    with (off + (hi + ty * 2 ^ 7) * 2 ^ 24) by lia.
  rewrite Z.div_add, Z.div_small, Z.add_0_l by lia.
  rewrite Z.mod_add by lia. apply Z.mod_small. lia.
Qed.

Lemma valType_mkIdx : valType (mkIdx off hi ty) = ty.
Proof.
  rewrite valType_div. unfold mkIdx.
  rewrite Z.div_add by lia. rewrite Z.div_small; lia.
Qed.

Lemma headerOffset_mkHeader :
  Z.land (mkHeader off sz) IdxOffsetMask = off.
Proof.
  rewrite headerOffset_mod. unfold mkHeader.
  rewrite Z.mod_add by lia. by apply Z.mod_small.
Qed.

Lemma smallSize_mkHeader :
  Z.shiftr (Z.land (mkHeader off sz) IdxSmallSizeMask) 24 = sz.
Proof.
  rewrite smallSize_mod. unfold mkHeader.
  rewrite Z.div_add, Z.div_small, Z.add_0_l by lia. apply Z.mod_small. lia.
Qed.

End Fields.

Lemma mkIdx_nonzero off hi ty :
  0 < off → 0 ≤ hi → 0 ≤ ty → mkIdx off hi ty ≠ 0.
Proof. unfold mkIdx. lia. Qed.

Lemma shiftl24 x : Z.shiftl x 24 = x * 2 ^ 24.
Proof. by rewrite Z.shiftl_mul_pow2. Qed.

Lemma shiftl8 x : Z.shiftl x 8 = x * 256.
Proof. by rewrite Z.shiftl_mul_pow2. Qed.

Lemma Cap4Size_spec n :
  0 ≤ n < 2 ^ 32 - 4 →
  n ≤ Cap4Size n < n + 4 ∧ Cap4Size n mod 4 = 0
  ∧ Cap4Size n = (n + 3) / 4 * 4.
Proof.
  intros Hn. unfold Cap4Size.
  assert (H : 0 ≤ (n + 3) / 4 * 4 < 2 ^ 32)
    by (split; Z.div_mod_to_equations; lia).
  rewrite u32_small by done. split; [|split; [|done]].
  - Z.div_mod_to_equations; lia.
  - apply Z.mod_mul. lia.
Qed.

(** The size bits of a medium value. *)
Lemma medium_bits lv :
  0 ≤ lv < 2 ^ 15 →
  Z.shiftr lv 8 = lv / 256 ∧ Z.shiftr (Z.land lv 0x7f00) 8 = lv / 256
  ∧ Z.land lv 0xff = lv mod 256 ∧ 0 ≤ lv / 256 < 128
  ∧ 0 ≤ lv mod 256 < 256.
Proof.
  intros Hlv.
  assert (H1 : Z.shiftr lv 8 = lv / 256) by (by rewrite Z.shiftr_div_pow2).
  split; [done|]. split.
  - rewrite Z.shiftr_land, H1. change (Z.shiftr 32512 8) with (Z.ones 7).
    rewrite Z.land_ones by lia. apply Z.mod_small.
    Z.div_mod_to_equations; lia.
  - split.
    + change 255 with (Z.ones 8). by rewrite Z.land_ones.
    + Z.div_mod_to_equations; lia.
Qed.

(** ** Reading back what was appended to the arena *)

Lemma slice_storeAt_out d off v d' lo hi :
  storeAt d off v = Some d' → hi ≤ off ∨ off + 4 ≤ lo →
  slice d' lo hi = slice d lo hi.
Proof.
  intros Hs Hd. apply slice_agree; [by eapply storeAt_length|].
  intros i Hi. apply (storeAt_lookup_out _ _ _ _ i Hs). lia.
Qed.

Lemma slice_copyAt_out d off src d' lo hi :
  copyAt d off src = Some d' → hi ≤ off ∨ off + len src ≤ lo →
  slice d' lo hi = slice d lo hi.
Proof.
  intros Hs Hd. apply slice_agree; [by eapply copyAt_length|].
  intros i Hi. apply (copyAt_lookup_out _ _ _ _ i Hs). lia.
Qed.

Lemma loadAt_storeAt_out d off v d' lo :
  storeAt d off v = Some d' → lo + 4 ≤ off ∨ off + 4 ≤ lo →
  loadAt d' lo = loadAt d lo.
Proof.
  intros Hs Hd. apply loadAt_agree; [by eapply storeAt_length|].
  intros i Hi. apply (storeAt_lookup_out _ _ _ _ i Hs). lia.
Qed.

Lemma loadAt_copyAt_out d off src d' lo :
  copyAt d off src = Some d' → lo + 4 ≤ off ∨ off + len src ≤ lo →
  loadAt d' lo = loadAt d lo.
Proof.
  intros Hs Hd. apply loadAt_agree; [by eapply copyAt_length|].
  intros i Hi. apply (copyAt_lookup_out _ _ _ _ i Hs). lia.
Qed.

Lemma agreeBelow_refl t d : agreeBelow t d d.
Proof. by split. Qed.

Lemma agreeBelow_trans t t' d1 d2 d3 :
  t ≤ t' → agreeBelow t d1 d2 → agreeBelow t' d2 d3 → agreeBelow t d1 d3.
Proof.
  intros Ht [Hl1 H1] [Hl2 H2]. split; [congruence|].
  intros i Hi. rewrite H2 by lia. by apply H1.
Qed.

Lemma agreeBelow_storeAt t d off v d' :
  storeAt d off v = Some d' → t ≤ off → agreeBelow t d d'.
Proof.
  intros Hs Ht. split; [by eapply storeAt_length|].
  intros i Hi. apply (storeAt_lookup_out _ _ _ _ i Hs). lia.
Qed.

Lemma agreeBelow_copyAt t d off src d' :
  copyAt d off src = Some d' → t ≤ off → agreeBelow t d d'.
Proof.
  intros Hs Ht. split; [by eapply copyAt_length|].
  intros i Hi. apply (copyAt_lookup_out _ _ _ _ i Hs). lia.
Qed.

Lemma slice_agreeBelow t d d' lo hi :
  agreeBelow t d d' → hi ≤ t → slice d' lo hi = slice d lo hi.
Proof. intros [Hl H] Hhi. apply slice_agree; [done|]. intros; apply H; lia. Qed.

Lemma loadAt_agreeBelow t d d' lo :
  agreeBelow t d d' → lo + 4 ≤ t → loadAt d' lo = loadAt d lo.
Proof. intros [Hl H] Hhi. apply loadAt_agree; [done|]. intros; apply H; lia. Qed.

Lemma u32_idem x : u32 (u32 x) = u32 x.
Proof. unfold u32. apply Z.mod_mod. lia. Qed.

Lemma valueCap_spec P lv :
  0 ≤ lv < 2 ^ 31 →
  lv ≤ valueCap P lv ≤ lv + 8 ∧ valueCap P lv mod 4 = 0
  ∧ (overLongSize P ≤ lv → lv + 4 ≤ valueCap P lv).
Proof.
  intros Hlv. unfold valueCap.
  destruct (Cap4Size_spec lv ltac:(lia)) as (H1 & H2 & _).
  destruct (Z.leb_spec (overLongSize P) lv).
  - split; [lia|]. split; [|lia].
    rewrite Z.add_mod, H2 by lia. done.
  - split; [lia|]. split; [done|lia].
Qed.

Section Append.

Variable P : Package.
Hypothesis LO : layout_ok P.

(** Reading an entry that was laid out at [t]: 16 bytes of key, Word B,
    then the value (after a length word when it is long). *)
Lemma read_small d t key v lv cap4 :
  0 ≤ t → t mod 4 = 0 → t + 20 + lv ≤ len d → len d < 2 ^ 26 →
  0 ≤ lv < 256 → 0 ≤ cap4 < 128 →
  slice d t (t + 16) = Some key →
  loadAt d (t + 16) = Some (mkHeader (t / 4 + 5) lv) →
  slice d (t + 20) (t + 20 + lv) = Some v →
  ∀ h, KV.data h = d →
  getKVUnlock P h (mkIdx (t / 4) cap4 0) = Some (key, v).
Proof.
  intros Ht Hal Hfit Hsz Hlv Hc Hk Hh Hv h <-.
  assert (Ho : 0 ≤ t / 4 < 2 ^ 24) by (Z.div_mod_to_equations; lia).
  assert (Ho5 : 0 ≤ t / 4 + 5 < 2 ^ 24) by (Z.div_mod_to_equations; lia).
  assert (Ha : t / 4 * 4 = t) by (Z.div_mod_to_equations; lia).
  unfold getKVUnlock, getKey. rewrite offset_mkIdx, Ha by lia.
  rewrite (u32_small t), (u32_small (t + 16)) by lia.
  rewrite Hk. cbn [mbind option_bind]. rewrite Hh. cbn [mbind option_bind].
  unfold decodeValue. rewrite valType_mkIdx by lia. cbn [Z.eqb].
  rewrite headerOffset_mkHeader, smallSize_mkHeader by lia.
  cbn [mbind option_bind]. unfold getValue.
  replace ((t / 4 + 5) * 4) with (t + 20) by lia.
  rewrite (u32_small (t + 20)), (u32_small (t + 20 + lv)) by lia.
  by rewrite Hv.
Qed.

Lemma read_medium d t key v lv :
  0 ≤ t → t mod 4 = 0 → t + 20 + lv ≤ len d → len d < 2 ^ 26 →
  0 ≤ lv < overLongSize P →
  slice d t (t + 16) = Some key →
  loadAt d (t + 16) = Some (mkHeader (t / 4 + 5) (lv mod 256)) →
  slice d (t + 20) (t + 20 + lv) = Some v →
  ∀ h, KV.data h = d →
  getKVUnlock P h (mkIdx (t / 4) (lv / 256) 1) = Some (key, v).
Proof.
  intros Ht Hal Hfit Hsz Hlv Hk Hh Hv h <-.
  destruct LO as [Hshort (hb & lb & Hhb & Hlb & HH & HL & Hlong) _].
  assert (Ho : 0 ≤ t / 4 < 2 ^ 24) by (Z.div_mod_to_equations; lia).
  assert (Ho5 : 0 ≤ t / 4 + 5 < 2 ^ 24) by (Z.div_mod_to_equations; lia).
  assert (Ha : t / 4 * 4 = t) by (Z.div_mod_to_equations; lia).
  assert (Hb : 0 ≤ lv / 256 < 128) by (Z.div_mod_to_equations; lia).
  assert (Hs : 0 ≤ lv mod 256 < 256) by (Z.div_mod_to_equations; lia).
  unfold getKVUnlock, getKey. rewrite offset_mkIdx, Ha by lia.
  rewrite (u32_small t), (u32_small (t + 16)) by lia.
  rewrite Hk. cbn [mbind option_bind]. rewrite Hh. cbn [mbind option_bind].
  unfold decodeValue. rewrite valType_mkIdx by lia. cbn [Z.eqb].
  rewrite headerOffset_mkHeader, smallSize_mkHeader, capOrBigSize_mkIdx by lia.
  rewrite shiftl8, (u32_small (_ * 256)) by lia.
  replace (lv mod 256 + lv / 256 * 256) with lv
    by (Z.div_mod_to_equations; lia).
  rewrite (u32_small lv) by lia.
  rewrite (proj2 (Z.eqb_neq lv (overLongSize P))) by lia.
  cbn [mbind option_bind]. unfold getValue.
  replace ((t / 4 + 5) * 4) with (t + 20) by lia.
  rewrite (u32_small (t + 20)), (u32_small (t + 20 + lv)) by lia.
  by rewrite Hv.
Qed.

Lemma read_long d t vo key v lv :
  0 ≤ t → t mod 4 = 0 → t + 20 ≤ len d →
  0 ≤ vo → vo mod 4 = 0 → vo + 4 + lv ≤ len d → len d < 2 ^ 26 →
  0 ≤ lv < 2 ^ 31 →
  slice d t (t + 16) = Some key →
  loadAt d (t + 16) = Some (u32 (vo / 4 + overLongStoreHeaderL P)) →
  loadAt d vo = Some lv →
  slice d (vo + 4) (vo + 4 + lv) = Some v →
  ∀ h, KV.data h = d →
  getKVUnlock P h
    (u32 (u32 (t / 4 + overLongStoreHeaderH P) + mapTypeHeader))
  = Some (key, v).
Proof.
  intros Ht Hal Hfit Hvo Hval Hvfit Hsz Hlv Hk Hh Hp Hv h <-.
  destruct LO as [Hshort (hb & lb & Hhb & Hlb & HH & HL & Hlong) _].
  assert (Ho : 0 ≤ t / 4 < 2 ^ 24) by (Z.div_mod_to_equations; lia).
  assert (Hov : 0 ≤ vo / 4 < 2 ^ 24) by (Z.div_mod_to_equations; lia).
  assert (Ha : t / 4 * 4 = t) by (Z.div_mod_to_equations; lia).
  assert (Hav : vo / 4 * 4 = vo) by (Z.div_mod_to_equations; lia).
  assert (HkN : u32 (u32 (t / 4 + overLongStoreHeaderH P) + mapTypeHeader)
                = mkIdx (t / 4) hb 1).
  { rewrite HH. unfold mkIdx, mapTypeHeader.
    rewrite (u32_small (_ + _ * _)) by lia. rewrite u32_small by lia. lia. }
  assert (Hhd : u32 (vo / 4 + overLongStoreHeaderL P) = mkHeader (vo / 4) lb).
  { rewrite HL. unfold mkHeader. by rewrite u32_small by lia. }
  rewrite HkN. rewrite Hhd in Hh.
  unfold getKVUnlock, getKey. rewrite offset_mkIdx, Ha by lia.
  rewrite (u32_small t), (u32_small (t + 16)) by lia.
  rewrite Hk. cbn [mbind option_bind]. rewrite Hh. cbn [mbind option_bind].
  unfold decodeValue. rewrite valType_mkIdx by lia. cbn [Z.eqb].
  rewrite headerOffset_mkHeader, smallSize_mkHeader, capOrBigSize_mkIdx by lia.
  rewrite shiftl8, (u32_small (_ * 256)) by lia.
  rewrite (u32_small (lb + _)) by lia. rewrite <- Hlong, Z.eqb_refl.
  rewrite Hav, (u32_small vo) by lia. rewrite Hp.
  cbn [mbind option_bind]. unfold getValue.
  rewrite (u32_small (vo + 4)), (u32_small (vo + 4 + lv)) by lia.
  by rewrite Hv.
Qed.

(** [gcSet] appends one entry at the tail; the entry reads back, also
    after later writes above the new tail, and the arena below the old
    tail is as it was. *)
Lemma gcSet_readback h key v h' kN :
  arena_ok h → length key = 16%nat → len v < 2 ^ 31 →
  gcSet P h key v = Some (h', kN) →
  KV.tail h' ≤ len (KV.data h) →
  KV.tail h' = KV.tail h + 20 + valueCap P (len v)
  ∧ agreeBelow (KV.tail h) (KV.data h) (KV.data h')
  ∧ KV.cap h' = KV.cap h ∧ KV.limit h' = KV.limit h
  ∧ KV.items h' = u32 (KV.items h + 1)
  ∧ 0 ≤ kN < 2 ^ 32 ∧ offset kN * 4 = KV.tail h
  ∧ ∀ h2, agreeBelow (KV.tail h') (KV.data h') (KV.data h2) →
      getKVUnlock P h2 kN = Some (key, v)
      ∧ (valType kN = 0 →
         ∃ vh, loadAt (KV.data h2) (KV.tail h + 16) = Some vh
               ∧ Z.land vh IdxOffsetMask * 4 = KV.tail h + 20
               ∧ capOrBigSize kN * 4 = valueCap P (len v)).
Proof.
  intros [Ht4 Hal Hthi Hcap Hsz] Hkey Hlv H Hfit.
  assert (Hlv0 : 0 ≤ len v) by (unfold len; lia).
  assert (Hu : u32 (len v) = len v) by (apply u32_small; lia).
  destruct (valueCap_spec P (len v) ltac:(lia)) as (Hvc1 & Hvc2 & Hvc3).
  destruct (Cap4Size_spec (len v) ltac:(lia)) as (Hc1 & Hc2 & Hc3).
  set (tail := KV.tail h) in *.
  assert (Ha : tail / 4 * 4 = tail) by (Z.div_mod_to_equations; lia).
  assert (Ha5 : (tail + 20) / 4 = tail / 4 + 5)
    by (Z.div_mod_to_equations; lia).
  assert (Ho : 0 ≤ tail / 4 < 2 ^ 24) by (Z.div_mod_to_equations; lia).
  assert (Hlenkey : len key = 16) by (unfold len; lia).
  pose proof LO as [Hshort (hb & lb & Hhb & Hlb & HH & HL & Hlong) _].
  unfold gcSet in H. fold tail in H. rewrite Hu in H.
  assert (Hk16 : u32 (tail + 16) = tail + 16) by (apply u32_small; lia).
  assert (Hk20 : u32 (tail + 20) = tail + 20) by (apply u32_small; lia).
  assert (Hk24 : u32 (tail + 20 + 4) = tail + 24) by (rewrite u32_small; lia).
  assert (Hk164 : u32 (tail + 16 + 4) = tail + 20) by (rewrite u32_small; lia).
  rewrite Hk16, Hk164 in H. rewrite ?Hk20, ?Hk24, ?Ha5 in H.
  assert (Hntail : ∀ vc, vc = valueCap P (len v) →
            KV.tail h' = u32 (tail + 20 + vc) → KV.tail h' = tail + 20 + vc).
  { intros vc -> Ht. rewrite Ht in Hfit |- *.
    unfold u32 in *.
    assert (0 ≤ tail + 20 + valueCap P (len v) < 2 ^ 32) by lia.
    by rewrite Z.mod_small in * by done. }
  unfold valueCap in *.
  destruct (Z.leb_spec (overLongSize P) (len v)) as [Hlong'|Hnlong].
  - (* long *)
    unbind H. injection H as <- <-. fields.
    match goal with
    | E0 : copyAt (KV.data h) _ key = Some ?d0,
      E1 : storeAt ?d0 _ _ = Some ?d1,
      E2 : copyAt ?d1 _ v = Some ?d2,
      E3 : storeAt ?d2 _ _ = Some ?d3 |- _ =>
        rename E0 into Hd0, E1 into Hd1, E2 into Hd2, E3 into Hd3;
        rename d0 into d0', d1 into d1', d2 into d2', d3 into d3'
    end.
    pose proof (copyAt_length _ _ _ _ Hd0) as L0.
    pose proof (storeAt_length _ _ _ _ Hd1) as L1.
    pose proof (copyAt_length _ _ _ _ Hd2) as L2.
    pose proof (storeAt_length _ _ _ _ Hd3) as L3.
    rewrite (u32_small (Cap4Size (len v) + 4)) in * by lia.
    specialize (Hntail _ eq_refl eq_refl). fields.
    rewrite Hntail in Hfit |- *.
    unfold storeUintBytes in *. rewrite ?Ha5 in *.
    assert (HkN : u32 (u32 (tail / 4 + overLongStoreHeaderH P) + mapTypeHeader)
                  = mkIdx (tail / 4) hb 1).
    { rewrite HH. unfold mkIdx, mapTypeHeader.
      rewrite (u32_small (_ + _ * _)) by lia. rewrite u32_small by lia. lia. }
    split; [done|]. split.
    { eapply agreeBelow_trans; [reflexivity|
        by eapply (agreeBelow_copyAt tail _ _ _ _ Hd0)|].
      eapply agreeBelow_trans; [reflexivity|
        eapply (agreeBelow_storeAt tail _ _ _ _ Hd1); lia|].
      eapply agreeBelow_trans; [reflexivity|
        eapply (agreeBelow_copyAt tail _ _ _ _ Hd2); lia|].
      eapply (agreeBelow_storeAt tail _ _ _ _ Hd3); lia. }
    split; [done|]. split; [done|]. split; [done|].
    split; [rewrite HkN; apply mkIdx_range; lia|].
    split; [rewrite HkN, offset_mkIdx by lia; lia|].
    intros h2 Hag. pose proof Hag as [Lg _]. split.
    + apply (read_long (KV.data h2) tail (tail + 20) key v (len v));
        unfold len in *; try lia.
      * rewrite Z.add_mod, Hal by lia. done.
      * rewrite (slice_agreeBelow _ _ _ _ _ Hag) by lia.
        rewrite (slice_storeAt_out _ _ _ _ _ _ Hd3) by lia.
        rewrite (slice_copyAt_out _ _ _ _ _ _ Hd2) by lia.
        rewrite (slice_storeAt_out _ _ _ _ _ _ Hd1) by lia.
        replace (tail + 16) with (tail + len key) by (unfold len; lia).
        apply (slice_copyAt _ _ _ _ Hd0). unfold len. lia.
      * rewrite (loadAt_agreeBelow _ _ _ _ Hag) by lia.
        by rewrite (loadAt_storeAt _ _ _ _ Hd3), u32_idem, Ha5.
      * rewrite (loadAt_agreeBelow _ _ _ _ Hag) by lia.
        rewrite (loadAt_storeAt_out _ _ _ _ _ Hd3) by lia.
        rewrite (loadAt_copyAt_out _ _ _ _ _ Hd2) by lia.
        rewrite (loadAt_storeAt _ _ _ _ Hd1). f_equal. apply u32_small.
        unfold len. lia.
      * rewrite (slice_agreeBelow _ _ _ _ _ Hag) by (unfold len; lia).
        rewrite (slice_storeAt_out _ _ _ _ _ _ Hd3) by lia.
        replace (tail + 20 + 4) with (tail + 24) by lia.
        replace (tail + 24 + Z.of_nat (length v)) with (tail + 24 + len v)
          by done.
        apply (slice_copyAt _ _ _ _ Hd2). unfold len in *. lia.
      * done.
    + rewrite HkN, valType_mkIdx by lia. done.
  - destruct (Z.leb_spec (overShortSize P) (len v)) as [Hmed|Hsmall].
    + (* medium *)
      unbind H. injection H as <- <-. fields.
      match goal with
      | E0 : copyAt (KV.data h) _ key = Some ?d0,
        E1 : copyAt ?d0 _ v = Some ?d1,
        E2 : storeAt ?d1 _ _ = Some ?d2 |- _ =>
          rename E0 into Hd0, E1 into Hd1, E2 into Hd2;
          rename d0 into d0', d1 into d1', d2 into d2'
      end.
      pose proof (copyAt_length _ _ _ _ Hd0) as L0.
      pose proof (copyAt_length _ _ _ _ Hd1) as L1.
      pose proof (storeAt_length _ _ _ _ Hd2) as L2.
      specialize (Hntail _ eq_refl eq_refl). fields.
      rewrite Hntail in Hfit |- *.
      destruct (medium_bits (len v) ltac:(lia)) as (Hb1 & _ & Hb3 & Hb4 & Hb5).
      rewrite Hb1, Hb3 in *. rewrite shiftl24 in *.
      assert (HkN : u32 (u32 (tail / 4 + u32 (len v / 256 * 2 ^ 24))
                         + mapTypeHeader)
                    = mkIdx (tail / 4) (len v / 256) 1).
      { unfold mkIdx, mapTypeHeader. rewrite (u32_small (_ * _)) by lia.
        rewrite (u32_small (_ + _ * _)) by lia. rewrite u32_small by lia. lia. }
      assert (Hhd : u32 (tail / 4 + 5 + u32 (len v mod 256 * 2 ^ 24))
                    = mkHeader (tail / 4 + 5) (len v mod 256)).
      { unfold mkHeader. rewrite (u32_small (_ * _)) by lia.
        rewrite u32_small by lia. done. }
      rewrite Hhd in Hd2. rewrite HkN.
      split; [done|]. split.
      { eapply agreeBelow_trans; [reflexivity|
          by eapply (agreeBelow_copyAt tail _ _ _ _ Hd0)|].
        eapply agreeBelow_trans; [reflexivity|
          eapply (agreeBelow_copyAt tail _ _ _ _ Hd1); lia|].
        eapply (agreeBelow_storeAt tail _ _ _ _ Hd2); lia. }
      split; [done|]. split; [done|]. split; [done|].
      split; [apply mkIdx_range; lia|].
      split; [rewrite offset_mkIdx by lia; lia|].
      intros h2 Hag. pose proof Hag as [Lg _]. split.
      * apply (read_medium (KV.data h2) tail key v (len v));
          unfold len in *; try lia.
        -- rewrite (slice_agreeBelow _ _ _ _ _ Hag) by lia.
           rewrite (slice_storeAt_out _ _ _ _ _ _ Hd2) by lia.
           rewrite (slice_copyAt_out _ _ _ _ _ _ Hd1) by lia.
           replace (tail + 16) with (tail + len key) by (unfold len; lia).
           apply (slice_copyAt _ _ _ _ Hd0). unfold len. lia.
        -- rewrite (loadAt_agreeBelow _ _ _ _ Hag) by lia.
           rewrite (loadAt_storeAt _ _ _ _ Hd2). f_equal.
           apply u32_small. apply mkHeader_range; lia.
        -- rewrite (slice_agreeBelow _ _ _ _ _ Hag) by (unfold len; lia).
           rewrite (slice_storeAt_out _ _ _ _ _ _ Hd2) by lia.
           apply (slice_copyAt _ _ _ _ Hd1). unfold len in *. lia.
        -- done.
      * rewrite valType_mkIdx by lia. done.
    + (* small *)
      unbind H. injection H as <- <-. fields.
      match goal with
      | E0 : copyAt (KV.data h) _ key = Some ?d0,
        E1 : copyAt ?d0 _ v = Some ?d1,
        E2 : storeAt ?d1 _ _ = Some ?d2 |- _ =>
          rename E0 into Hd0, E1 into Hd1, E2 into Hd2;
          rename d0 into d0', d1 into d1', d2 into d2'
      end.
      pose proof (copyAt_length _ _ _ _ Hd0) as L0.
      pose proof (copyAt_length _ _ _ _ Hd1) as L1.
      pose proof (storeAt_length _ _ _ _ Hd2) as L2.
      specialize (Hntail _ eq_refl eq_refl). fields.
      rewrite Hntail in Hfit |- *. rewrite shiftl24 in *.
      assert (Hc : 0 ≤ Cap4Size (len v) / 4 < 128)
        by (Z.div_mod_to_equations; lia).
      assert (HkN : u32 (tail / 4 + u32 (Cap4Size (len v) / 4 * 2 ^ 24))
                    = mkIdx (tail / 4) (Cap4Size (len v) / 4) 0).
      { unfold mkIdx. rewrite (u32_small (_ * _)) by lia.
        rewrite u32_small by lia. lia. }
      assert (Hhd : u32 (tail / 4 + 5 + u32 (len v * 2 ^ 24))
                    = mkHeader (tail / 4 + 5) (len v)).
      { unfold mkHeader. rewrite (u32_small (_ * _)) by lia.
        rewrite u32_small by lia. done. }
      rewrite Hhd in Hd2. rewrite HkN.
      split; [done|]. split.
      { eapply agreeBelow_trans; [reflexivity|
          by eapply (agreeBelow_copyAt tail _ _ _ _ Hd0)|].
        eapply agreeBelow_trans; [reflexivity|
          eapply (agreeBelow_copyAt tail _ _ _ _ Hd1); lia|].
        eapply (agreeBelow_storeAt tail _ _ _ _ Hd2); lia. }
      split; [done|]. split; [done|]. split; [done|].
      split; [apply mkIdx_range; lia|].
      split; [rewrite offset_mkIdx by lia; lia|].
      intros h2 Hag. pose proof Hag as [Lg _].
      assert (Hload : loadAt (KV.data h2) (tail + 16)
                      = Some (mkHeader (tail / 4 + 5) (len v))).
      { rewrite (loadAt_agreeBelow _ _ _ _ Hag) by lia.
        rewrite (loadAt_storeAt _ _ _ _ Hd2). f_equal.
        apply u32_small. apply mkHeader_range; lia. }
      split.
      * apply (read_small (KV.data h2) tail key v (len v));
          unfold len in *; try lia.
        -- rewrite (slice_agreeBelow _ _ _ _ _ Hag) by lia.
           rewrite (slice_storeAt_out _ _ _ _ _ _ Hd2) by lia.
           rewrite (slice_copyAt_out _ _ _ _ _ _ Hd1) by lia.
           replace (tail + 16) with (tail + len key) by (unfold len; lia).
           apply (slice_copyAt _ _ _ _ Hd0). unfold len. lia.
        -- done.
        -- rewrite (slice_agreeBelow _ _ _ _ _ Hag) by (unfold len; lia).
           rewrite (slice_storeAt_out _ _ _ _ _ _ Hd2) by lia.
           apply (slice_copyAt _ _ _ _ Hd1). unfold len in *. lia.
        -- done.
      * intros _. eexists. split; [exact Hload|].
        rewrite headerOffset_mkHeader, capOrBigSize_mkIdx by lia.
        split; Z.div_mod_to_equations; lia.
Qed.

End Append.

(** ** rehash keeps every pair *)

Lemma slice_length d lo hi b :
  slice d lo hi = Some b → len b = hi - lo ∧ hi ≤ len d ∧ 0 ≤ lo.
Proof.
  intros (H0 & H1 & H2 & ->)%slice_Some. unfold len in *.
  rewrite length_take, length_drop. lia.
Qed.

Section Rehash.

Variable P : Package.
Hypothesis LO : layout_ok P.

Lemma getKVUnlock_lengths h k key v :
  getKVUnlock P h k = Some (key, v) →
  length key = 16%nat ∧ len v ≤ len (KV.data h).
Proof.
  unfold getKVUnlock, getKey, getValue. intros H.
  destruct (slice _ _ _) as [kb|] eqn:Ek in H; [|done].
  cbn [mbind option_bind] in H. unbind H. injection H as -> <-.
  apply slice_length in Ek as (Hk & Hk1 & Hk0).
  match goal with
  | E : slice _ _ _ = Some _ |- _ => apply slice_length in E as (Hv & Hv1 & Hv0)
  end.
  pose proof (offset_mod k) as Ho.
  assert (0 ≤ offset k < 2 ^ 24) by (rewrite Ho; apply Z.mod_pos_bound; lia).
  rewrite (u32_small (offset k * 4)) in * by lia.
  rewrite (u32_small (offset k * 4 + 16)) in * by lia.
  unfold len in *. split; lia.
Qed.

Lemma moveSlot_kv m r g s r' :
  moveSlot P m r g s = Some r' →
  r_kv r' = r_kv r
  ∨ ∃ key v kN, gcSet P (r_kv r) key v = Some (r_kv r', kN).
Proof.
  unfold moveSlot. intros H. unbind H; injection H as <-; [by left|].
  right. simpl. eauto.
Qed.

Lemma gcSet_data_length h key v h' kN :
  gcSet P h key v = Some (h', kN) →
  length (KV.data h') = length (KV.data h) ∧ KV.tail h ≤ len (KV.data h).
Proof.
  intros H. split; [by apply gcSet_frame in H as (_&_&_&?)|].
  unfold gcSet in H. cbn [mbind option_bind] in H.
  destruct (copyAt _ _ key) eqn:E; [|done].
  by apply copyAt_Some in E as (_ & ? & _).
Qed.

(** A later step that returns keeps the tail of the new arena inside
    its buffer at every earlier step. *)
Lemma moveRow_tail m g ss : ∀ r r',
  moveRow P m r g ss = Some r' →
  length (KV.data (r_kv r')) = length (KV.data (r_kv r))
  ∧ (KV.tail (r_kv r') ≤ len (KV.data (r_kv r)) →
     KV.tail (r_kv r) ≤ len (KV.data (r_kv r))).
Proof.
  induction ss as [|s ss IH]; intros r r' H; [by injection H as <-|].
  cbn [moveRow] in H. unbind H. destruct (IH _ _ H) as [Hl Ht].
  destruct (moveSlot_kv _ _ _ _ _ E) as [Heq|(key & v & kN & Hg)].
  - rewrite Heq in *. done.
  - destruct (gcSet_data_length _ _ _ _ _ Hg) as [Hl' Ht']. split; [congruence|].
    done.
Qed.

Lemma moveRows_tail m gs : ∀ r r',
  moveRows P m r gs = Some r' →
  length (KV.data (r_kv r')) = length (KV.data (r_kv r))
  ∧ (KV.tail (r_kv r') ≤ len (KV.data (r_kv r)) →
     KV.tail (r_kv r) ≤ len (KV.data (r_kv r))).
Proof.
  induction gs as [|g gs IH]; intros r r' H; [by injection H as <-|].
  cbn [moveRows] in H. unbind H. destruct (IH _ _ H) as [Hl Ht].
  destruct (moveRow_tail _ _ _ _ _ E0) as [Hl' Ht'].
  split; [congruence|]. intros Hfit. apply Ht'. unfold len in *.
  rewrite <- Hl'. apply Ht. by rewrite Hl'.
Qed.

(** One step of the double loop: what was stored stays stored, and the
    pair of the old slot, when it is occupied, is stored. *)
Lemma moveSlot_stored m r g s r' :
  len (KV.data (kvHolder m)) < 2 ^ 31 →
  arena_ok (r_kv r) → rows16 (r_ctrl r) →
  moveSlot P m r g s = Some r' →
  KV.tail (r_kv r') ≤ len (KV.data (r_kv r)) →
  arena_ok (r_kv r') ∧ rows16 (r_ctrl r')
  ∧ KV.cap (r_kv r') = KV.cap (r_kv r)
  ∧ (∀ key v cnt, storedR P r key v cnt → storedR P r' key v cnt)
  ∧ (∀ key v cnt, holds P m g s key v cnt → storedR P r' key v cnt).
Proof.
  intros Hold A Hrc H Hfit. unfold moveSlot in H.
  destruct (get2 (ctrl m) g s) as [c|] eqn:Hc; [|done].
  cbn [mbind option_bind] in H.
  destruct ((c =? empty) || (c =? tombstone)) eqn:Ec.
  { injection H as <-. split; [done|]. split; [done|]. split; [done|].
    split; [done|]. intros key v cnt (c' & k & Hc' & Hl & _).
    rewrite Hc in Hc'. injection Hc' as <-. unfold isLive in Hl.
    by rewrite Ec in Hl. }
  unbind H. injection H as <-.
  match goal with
  | E1 : get2 (groups m) g s = Some ?k,
    E2 : getKVUnlock P (kvHolder m) ?k = Some (?key, ?v),
    E3 : splitHash _ = (?hi, ?lo),
    E4 : findEmpty _ _ _ _ = Some (?gN, ?sN),
    E5 : gcSet _ _ _ _ = Some (?h', ?kN),
    E6 : set2 (r_groups r) _ _ _ = Some ?gs,
    E7 : set2 (r_ctrl r) _ _ _ = Some ?ct,
    E8 : get2 (counters m) g s = Some ?cnt,
    E9 : set2 (r_counters r) _ _ _ = Some ?cn |- _ =>
      rename E1 into Hk, E2 into Hkv, E3 into Hsp, E4 into Hfe, E5 into Hgc,
        E6 into Hgs, E7 into Hct, E8 into Hcnt, E9 into Hcn;
      rename k into k0, key into key0, v into v0, lo into lo0, gN into gN0,
        sN into sN0, h' into h0, kN into kN0, cnt into cnt0
  end.
  cbn [r_ctrl r_counters r_groups r_kv r_resident] in *.
  destruct (getKVUnlock_lengths _ _ _ _ Hkv) as [Hk16 Hlv].
  pose proof (findEmpty_spec _ _ _ _ _ _ Hrc Hfe) as Hemp.
  assert (Hlv31 : len v0 < 2 ^ 31) by lia.
  assert (Hlv0 : 0 ≤ len v0) by (unfold len; lia).
  destruct (gcSet_readback P LO _ _ _ _ _ A Hk16 Hlv31 Hgc Hfit)
    as (Htail & Hag & Hcap & Hlim & Hit & HkN & Hoff & Hread).
  destruct (valueCap_spec P (len v0) (conj Hlv0 Hlv31)) as (Hvc1 & Hvc2 & _).
  pose proof Hag as [Hlen _].
  assert (A' : arena_ok h0).
  { destruct A as [At Aal Ahi Acap Asz].
    constructor; unfold len in *; rewrite ?Hlen, ?Hcap; try lia.
    rewrite Htail. rewrite Z.add_mod, Hvc2, Z.add_0_r, Z.mod_mod by lia.
    rewrite Z.add_mod, Aal by lia. done. }
  split; [done|]. split; [by eapply set2_rows16|]. split; [done|].
  assert (Hlo : snd (splitHash (MD5L P key0)) = lo0) by (by rewrite Hsp).
  split.
  - intros key v cnt (g1 & s1 & k1 & H1 & H2 & H3 & H4).
    assert (Hne : (g1, s1) ≠ (gN0, sN0)).
    { intros [= -> ->]. rewrite Hemp in H1.
      pose proof (splitHash_lo (MD5L P key)) as Hb.
      assert (Heq : empty = snd (splitHash (MD5L P key))) by congruence.
      rewrite <- Heq in Hb. unfold empty in Hb. lia. }
    exists g1, s1, k1. unfold storedR; cbn [r_ctrl r_counters r_groups r_kv].
    rewrite (get2_set2_ne _ _ _ _ _ _ _ Hct Hne).
    rewrite (get2_set2_ne _ _ _ _ _ _ _ Hgs Hne).
    rewrite (get2_set2_ne _ _ _ _ _ _ _ Hcn Hne).
    split; [done|]. split; [done|]. split; [done|].
    intros h2 Hag2. apply H4.
    eapply agreeBelow_trans; [|exact Hag|exact Hag2]. lia.
  - intros key v cnt (c' & k & Hc' & Hl & Hk' & Hkv' & Hcnt').
    assert (k = k0) as -> by congruence.
    assert (key = key0 ∧ v = v0) as [-> ->] by (split; congruence).
    assert (cnt = cnt0) as -> by congruence.
    exists gN0, sN0, kN0. unfold storedR; cbn [r_ctrl r_counters r_groups r_kv].
    rewrite (get2_set2_eq _ _ _ _ _ Hct), (get2_set2_eq _ _ _ _ _ Hgs),
      (get2_set2_eq _ _ _ _ _ Hcn), Hlo.
    split; [done|]. split; [done|]. split; [done|].
    intros h2 Hag2. by apply Hread.
Qed.

Lemma moveRow_stored m g : ∀ ss r r',
  len (KV.data (kvHolder m)) < 2 ^ 31 →
  arena_ok (r_kv r) → rows16 (r_ctrl r) →
  moveRow P m r g ss = Some r' →
  KV.tail (r_kv r') ≤ len (KV.data (r_kv r)) →
  arena_ok (r_kv r') ∧ rows16 (r_ctrl r')
  ∧ KV.cap (r_kv r') = KV.cap (r_kv r)
  ∧ (∀ key v cnt, storedR P r key v cnt → storedR P r' key v cnt)
  ∧ (∀ s key v cnt, s ∈ ss → holds P m g s key v cnt →
                    storedR P r' key v cnt).
Proof.
  induction ss as [|s ss IH]; intros r r' Hold A Hrc H Hfit.
  { injection H as <-. do 4 (split; [done|]).
    intros ???? Hin. by apply not_elem_of_nil in Hin. }
  cbn [moveRow] in H. unbind H.
  destruct (moveRow_tail _ _ _ _ _ H) as [Hl Ht].
  destruct (moveSlot_kv _ _ _ _ _ E) as [Heq|(key & v & kN & Hg)].
  - destruct (moveSlot_stored m r g s _ Hold A Hrc E) as (A1 & R1 & C1 & S1 & N1).
    { rewrite Heq. apply A. }
    destruct (IH _ _ Hold A1 R1 H) as (A2 & R2 & C2 & S2 & N2).
    { by rewrite Heq. }
    split; [done|]. split; [done|]. split; [congruence|]. split; [auto|].
    intros s' key' v' cnt' [->|Hin]%elem_of_cons Hh; eauto.
  - destruct (gcSet_data_length _ _ _ _ _ Hg) as [Hl' _].
    assert (Hfit1 : KV.tail (r_kv r0) ≤ len (KV.data (r_kv r))).
    { unfold len in *. rewrite <- Hl'. apply Ht. rewrite Hl'. done. }
    destruct (moveSlot_stored m r g s _ Hold A Hrc E Hfit1)
      as (A1 & R1 & C1 & S1 & N1).
    destruct (IH _ _ Hold A1 R1 H) as (A2 & R2 & C2 & S2 & N2).
    { unfold len in *. by rewrite Hl'. }
    split; [done|]. split; [done|]. split; [congruence|]. split; [auto|].
    intros s' key' v' cnt' [->|Hin]%elem_of_cons Hh; eauto.
Qed.

Lemma moveRows_stored m : ∀ gs r r',
  len (KV.data (kvHolder m)) < 2 ^ 31 →
  arena_ok (r_kv r) → rows16 (r_ctrl r) →
  moveRows P m r gs = Some r' →
  KV.tail (r_kv r') ≤ len (KV.data (r_kv r)) →
  arena_ok (r_kv r') ∧ rows16 (r_ctrl r')
  ∧ KV.cap (r_kv r') = KV.cap (r_kv r)
  ∧ length (KV.data (r_kv r')) = length (KV.data (r_kv r))
  ∧ (∀ key v cnt, storedR P r key v cnt → storedR P r' key v cnt)
  ∧ (∀ g s key v cnt, g ∈ gs → holds P m g s key v cnt →
                      storedR P r' key v cnt).
Proof.
  induction gs as [|g gs IH]; intros r r' Hold A Hrc H Hfit.
  { injection H as <-. do 5 (split; [done|]).
    intros ????? Hin. by apply not_elem_of_nil in Hin. }
  cbn [moveRows] in H. unbind H.
  destruct (moveRows_tail _ _ _ _ H) as [Hl Ht].
  destruct (moveRow_tail _ _ _ _ _ E0) as [Hl' Ht'].
  assert (Hfit1 : KV.tail (r_kv r0) ≤ len (KV.data (r_kv r))).
  { unfold len in *. rewrite <- Hl'. apply Ht. rewrite Hl'. done. }
  destruct (moveRow_stored m g _ r r0 Hold A Hrc E0 Hfit1)
    as (A1 & R1 & C1 & S1 & N1).
  destruct (IH _ _ Hold A1 R1 H) as (A2 & R2 & C2 & L2 & S2 & N2).
  { unfold len in *. by rewrite Hl'. }
  split; [done|]. split; [done|]. split; [congruence|]. split; [congruence|].
  split; [auto|].
  intros g' s' key' v' cnt' [->|Hin]%elem_of_cons Hh; [|eauto].
  apply S2. apply (N1 s'); [|done].
  destruct Hh as (c & k & (row & Hrow & Hs)%get2_Some & _).
  apply elem_of_seq. apply lookup_lt_Some in Hs.
  assert (row = l) as -> by congruence. lia.
Qed.

End Rehash.

(** ** rehash returns *)

Lemma countRow_partition row :
  countRow isLive row + countRow isDead row + countRow isEmpty row = len row.
Proof.
  unfold len. induction row as [|c t IH]; [done|]. cbn [countRow length].
  rewrite Nat2Z.inj_succ.
  assert (Z.b2z (isLive c) + Z.b2z (isDead c) + Z.b2z (isEmpty c) = 1).
  { unfold isLive, isDead, isEmpty, empty, tombstone.
    destruct (Z.eqb_spec c (-128)), (Z.eqb_spec c (-2)); simpl; lia. }
  lia.
Qed.

Lemma countTable_partition t :
  rows16 t →
  countTable isLive t + countTable isDead t + countTable isEmpty t
  = 16 * len t.
Proof.
  unfold len. induction 1 as [|row t Hrow Hr IH]; [done|].
  cbn [countTable length]. rewrite Nat2Z.inj_succ.
  pose proof (countRow_partition row) as Hp. unfold len in Hp.
  rewrite Hrow in Hp. lia.
Qed.

Lemma countRow_pos f row :
  0 < countRow f row → ∃ s c, row !! s = Some c ∧ f c = true.
Proof.
  induction row as [|c t IH]; simpl; [lia|]. intros H.
  destruct (f c) eqn:E.
  - by exists 0%nat, c.
  - destruct IH as (s & c' & ? & ?); [simpl in H; lia|]. by exists (S s), c'.
Qed.

Lemma countTable_pos f t :
  0 < countTable f t → ∃ g s c, get2 t g s = Some c ∧ f c = true.
Proof.
  induction t as [|row t IH]; simpl; [lia|]. intros H.
  pose proof (countRow_range f row).
  destruct (decide (0 < countRow f row)) as [Hr|Hr].
  - destruct (countRow_pos f row Hr) as (s & c & ? & ?).
    exists 0%nat, s, c. split; [|done]. apply get2_Some. by exists row.
  - destruct IH as (g & s & c & Hg & ?); [lia|].
    exists (S g), s, c. split; [|done]. done.
Qed.

Lemma exists_empty_slot ct :
  rows16 ct → countTable isLive ct + countTable isDead ct < 16 * len ct →
  ∃ g s, get2 ct g s = Some empty.
Proof.
  intros Hr Hlt. pose proof (countTable_partition ct Hr).
  destruct (countTable_pos isEmpty ct ltac:(lia)) as (g & s & c & Hg & Hc).
  apply Z.eqb_eq in Hc as ->. eauto.
Qed.

(** The inner loop of rehash is a probe that matches nothing. *)
Lemma findEmpty_probeLoop ct G lo fuel : ∀ g,
  rows16 ct →
  findEmpty ct G fuel g
  = (r ← probeLoop ct G lo (λ _ _, Some false) fuel g;
     match r with
     | AtEmpty g' e => Some (g', fst (nextMatch e))
     | Found _ _ => None
     end).
Proof.
  induction fuel as [|fuel IH]; intros g Hr; [done|].
  cbn [findEmpty probeLoop]. destruct (ct !! g) as [md|] eqn:Hg; [|done].
  cbn [mbind option_bind].
  rewrite scan_spec by (rewrite (rows16_lookup _ _ _ Hr Hg); lia).
  rewrite firstHit_all_false by done. cbn [mbind option_bind].
  destruct (negb _); [done|]. by apply IH.
Qed.

Lemma findEmpty_total ct g0 :
  rows16 ct → (g0 < length ct)%nat →
  (∃ g s, get2 ct g s = Some empty) →
  is_Some (findEmpty ct (length ct) (length ct) g0).
Proof.
  intros Hr Hg0 He. rewrite (findEmpty_probeLoop ct _ 0) by done.
  destruct (probeLoop_miss ct 0 (λ _ _, Some false) g0 Hr) as (g & e & ->);
    [done..|].
  cbn [mbind option_bind]. eauto.
Qed.

Section RehashReturns.

Variable P : Package.
Hypothesis LO : layout_ok P.

Lemma gcSet_total h key v :
  arena_ok h → length key = 16%nat → len v < 2 ^ 31 →
  KV.tail h + 20 + valueCap P (len v) ≤ len (KV.data h) →
  is_Some (gcSet P h key v).
Proof.
  intros [At Aal Ahi Acap Asz] Hkey Hlv Hfit.
  assert (Hlv0 : 0 ≤ len v) by (unfold len; lia).
  destruct (valueCap_spec P (len v) ltac:(lia)) as (Hvc1 & Hvc2 & Hvc3).
  unfold gcSet. rewrite (u32_small (len v)) by lia.
  rewrite (u32_small (KV.tail h + 16)) by lia.
  rewrite (u32_small (KV.tail h + 16 + 4)) by lia.
  destruct (copyAt_is_Some (KV.data h) (KV.tail h) key) as [d0 Hd0]; [lia..|].
  rewrite Hd0. cbn [mbind option_bind].
  pose proof (copyAt_length _ _ _ _ Hd0) as L0.
  unfold valueCap in *.
  destruct (overLongSize P <=? len v) eqn:Elong.
  all: rewrite ?Elong in Hfit, Hvc1, Hvc2, Hvc3.
  all: destruct (Cap4Size_spec (len v) ltac:(lia)) as (Hc1 & _).
  - destruct (storeAt_is_Some d0 (KV.tail h + 16 + 4) (len v)) as [d1 Hd1];
      [unfold len in *; lia..|].
    rewrite Hd1. cbn [mbind option_bind].
    pose proof (storeAt_length _ _ _ _ Hd1) as L1.
    rewrite (u32_small (KV.tail h + 16 + 4 + 4)) by lia.
    destruct (copyAt_is_Some d1 (KV.tail h + 16 + 4 + 4) v) as [d2 Hd2];
      [unfold len in *; lia..|].
    rewrite Hd2. cbn [mbind option_bind].
    pose proof (copyAt_length _ _ _ _ Hd2) as L2.
    destruct (storeAt_is_Some d2 (KV.tail h + 16)
                (u32 ((KV.tail h + 16 + 4) / storeUintBytes
                      + overLongStoreHeaderL P))) as [d3 Hd3];
      [unfold len in *; lia..|].
    rewrite Hd3. cbn [mbind option_bind]. eauto.
  - assert (∀ hd kN ntail,
      is_Some (d1 ← copyAt d0 (KV.tail h + 16 + 4) v;
               d2 ← storeAt d1 (KV.tail h + 16) hd;
               Some (KV.mk (KV.cap h) (KV.limit h) ntail
                       (u32 (KV.items h + 1))
                       (u32 (KV.valUsed h + Cap4Size (len v))) d2, kN : Z)))
      as Hboth.
    { intros hd kN ntail.
      destruct (copyAt_is_Some d0 (KV.tail h + 16 + 4) v) as [d1 Hd1];
        [unfold len in *; lia..|].
      rewrite Hd1. cbn [mbind option_bind].
      pose proof (copyAt_length _ _ _ _ Hd1) as L1.
      destruct (storeAt_is_Some d1 (KV.tail h + 16) hd) as [d2 Hd2];
        [unfold len in *; lia..|].
      rewrite Hd2. cbn [mbind option_bind]. eauto. }
    destruct (overShortSize P <=? len v); apply Hboth.
Qed.

Lemma gcSet_tail h key v h' kN :
  len v < 2 ^ 31 → arena_ok h →
  gcSet P h key v = Some (h', kN) →
  KV.tail h' = KV.tail h + 20 + valueCap P (len v).
Proof.
  intros Hlv [At Aal Ahi Acap Asz] H.
  assert (Hlv0 : 0 ≤ len v) by (unfold len; lia).
  destruct (Cap4Size_spec (len v) ltac:(lia)) as (Hc1 & _).
  assert (KV.tail h' = u32 (u32 (KV.tail h + 20) + valueCap P (len v))) as ->.
  { unfold gcSet, valueCap in *. rewrite (u32_small (len v)) in H by lia.
    rewrite (u32_small (Cap4Size (len v) + 4)) in H by lia.
    unbind H; by injection H as <- <-. }
  destruct (valueCap_spec P (len v) ltac:(lia)) as (Hvc1 & _).
  rewrite (u32_small (_ + 20)) by lia. apply u32_small. lia.
Qed.

(** One step of the double loop returns, and moves the tail of the new
    arena by what the slot needs. *)
Lemma moveSlot_total m r g s c :
  Inv m → readable P m → len (KV.data (kvHolder m)) < 2 ^ 31 →
  get2 (ctrl m) g s = Some c →
  InvR r → arena_ok (r_kv r) → (0 < length (r_ctrl r))%nat →
  countTable isLive (r_ctrl r) + Z.b2z (isLive c) ≤ 16 * len (r_ctrl r) - 1 →
  KV.tail (r_kv r) + slotNeed P m g s ≤ len (KV.data (r_kv r)) →
  ∃ r', moveSlot P m r g s = Some r'
        ∧ KV.tail (r_kv r') = KV.tail (r_kv r) + slotNeed P m g s.
Proof.
  intros I Hrd Hold Hc IR A Hpos Hroom Hfit.
  unfold moveSlot, slotNeed in *. rewrite Hc in *. cbn [mbind option_bind].
  destruct ((c =? empty) || (c =? tombstone)) eqn:Ec.
  { exists r. unfold isLive. rewrite Ec. simpl. split; [done|lia]. }
  assert (Hl : isLive c = true) by (unfold isLive; by rewrite Ec).
  rewrite Hl in *. simpl Z.b2z in *.
  destruct I as [Hrc Hn Hg Hlc Hlg Hsz Hi Hd Hr].
  destruct IR as [Rrc Rn Rg Rlc Rlg Rsz Ri Rd Rr].
  (* the old slot *)
  pose proof Hc as (row & Hrow & Hs)%get2_Some.
  pose proof (rows16_lookup _ _ _ Hrc Hrow) as Hrow16.
  assert (Hs16 : (s < 16)%nat) by (apply lookup_lt_Some in Hs; lia).
  assert (Hg' : (g < length (ctrl m))%nat) by (by apply lookup_lt_Some in Hrow).
  assert (Hlookup : ∀ t : list (list Z), rows16 t → length t = length (ctrl m) →
                    is_Some (get2 t g s)).
  { intros t Ht Hlen.
    assert (is_Some (t !! g)) as [rw Hrw] by (apply lookup_lt_is_Some; lia).
    assert (is_Some (rw !! s)) as [x Hx].
    { apply lookup_lt_is_Some. rewrite (rows16_lookup _ _ _ Ht Hrw). lia. }
    exists x. apply get2_Some. eauto. }
  destruct (Hlookup _ Hg Hlg) as [k Hk].
  destruct (Hlookup _ Hn Hlc) as [cnt Hcnt].
  destruct (Hrd g s c k Hc Hl Hk) as [[key v] Hkv].
  rewrite Hk in *. cbn [mbind option_bind] in *. rewrite Hkv in *.
  cbn [mbind option_bind].
  destruct (getKVUnlock_lengths P _ _ _ _ Hkv) as [Hk16 Hlv].
  destruct (splitHash (MD5L P key)) as [hi lo] eqn:Hsp.
  (* the new slot *)
  unfold probeStart. rewrite Rlg. rewrite decide_False by lia.
  cbn [mbind option_bind].
  destruct (findEmpty_total (r_ctrl r)
              (Z.to_nat (hi mod Z.of_nat (length (r_ctrl r)))) Rrc)
    as [[gN sN] Hfe].
  { pose proof (Z.mod_pos_bound hi (Z.of_nat (length (r_ctrl r)))). lia. }
  { apply exists_empty_slot; [done|]. unfold len in *. lia. }
  rewrite Hfe. cbn [mbind option_bind].
  pose proof (findEmpty_spec _ _ _ _ _ _ Rrc Hfe) as Hemp.
  assert (Hlv31 : len v < 2 ^ 31) by lia.
  destruct (gcSet_total (r_kv r) key v A Hk16 Hlv31 ltac:(lia))
    as [[h' kN] Hgc].
  rewrite Hgc. cbn [mbind option_bind].
  pose proof Hemp as (rowN & HrowN & HsN)%get2_Some.
  assert (Hset : ∀ (t : list (list Z)) x, rows16 t →
            length t = length (r_ctrl r) → is_Some (set2 t gN sN x)).
  { intros t x Ht Hlen.
    assert (is_Some (t !! gN)) as [rw Hrw].
    { apply lookup_lt_is_Some. apply lookup_lt_Some in HrowN. lia. }
    assert (is_Some (rw !! sN)) as [y Hy].
    { apply lookup_lt_is_Some. rewrite (rows16_lookup _ _ _ Ht Hrw).
      apply lookup_lt_Some in HsN. rewrite (rows16_lookup _ _ _ Rrc HrowN) in HsN.
      lia. }
    apply (set2_is_Some t gN sN x y). apply get2_Some. eauto. }
  destruct (Hset (r_groups r) kN Rg Rlg) as [gs' ->].
  cbn [mbind option_bind].
  destruct (Hset (r_ctrl r) lo Rrc eq_refl) as [ct' ->].
  cbn [mbind option_bind]. rewrite Hcnt. cbn [mbind option_bind].
  destruct (Hset (r_counters r) cnt Rn Rlc) as [cn' ->].
  cbn [mbind option_bind]. eexists. split; [done|]. simpl.
  assert (Hfit' : KV.tail h' ≤ len (KV.data (r_kv r))).
  { rewrite (gcSet_tail _ _ _ _ _ Hlv31 A Hgc). lia. }
  destruct (gcSet_readback P LO _ _ _ _ _ A Hk16 Hlv31 Hgc Hfit')
    as (-> & _). lia.
Qed.

End RehashReturns.

Section RehashLoops.

Variable P : Package.
Hypothesis LO : layout_ok P.

Lemma slotNeed_nonneg m g s :
  len (KV.data (kvHolder m)) < 2 ^ 31 → 0 ≤ slotNeed P m g s.
Proof.
  intros Hold. unfold slotNeed.
  destruct (get2 (ctrl m) g s) as [c|]; [|done].
  destruct (isLive c); [|done].
  destruct (get2 (groups m) g s) as [k|]; cbn [mbind option_bind]; [|done].
  destruct (getKVUnlock P (kvHolder m) k) as [[key v]|] eqn:E; [|done].
  destruct (getKVUnlock_lengths P _ _ _ _ E) as [_ Hlv].
  destruct (valueCap_spec P (len v) ltac:(unfold len in *; lia)) as (? & _).
  unfold len in *. lia.
Qed.

Lemma rowNeed_nonneg m g ss :
  len (KV.data (kvHolder m)) < 2 ^ 31 → 0 ≤ rowNeed P m g ss.
Proof.
  intros Hold. induction ss as [|s ss IH]; simpl; [done|].
  pose proof (slotNeed_nonneg m g s Hold). lia.
Qed.

Lemma tableNeed_nonneg m gs :
  len (KV.data (kvHolder m)) < 2 ^ 31 → 0 ≤ tableNeed P m gs.
Proof.
  intros Hold. induction gs as [|g gs IH]; simpl; [done|].
  destruct (ctrl m !! g); [|lia].
  pose proof (rowNeed_nonneg m g (seq 0 (length l)) Hold). lia.
Qed.

Lemma moveSlot_data_length m r g s r' :
  moveSlot P m r g s = Some r' →
  length (KV.data (r_kv r')) = length (KV.data (r_kv r)).
Proof.
  intros H. destruct (moveSlot_kv P _ _ _ _ _ H) as [->|(key & v & kN & Hg)];
    [done|]. by apply gcSet_data_length in Hg as [? _].
Qed.

Lemma moveRow_total m g row : ∀ n j r,
  Inv m → readable P m → len (KV.data (kvHolder m)) < 2 ^ 31 →
  ctrl m !! g = Some row → (j + n = length row)%nat →
  InvR r → arena_ok (r_kv r) → (0 < length (r_ctrl r))%nat →
  countTable isLive (r_ctrl r) + countRow isLive (drop j row)
    ≤ 16 * len (r_ctrl r) - 1 →
  KV.tail (r_kv r) + rowNeed P m g (seq j n) ≤ len (KV.data (r_kv r)) →
  ∃ r', moveRow P m r g (seq j n) = Some r'
        ∧ InvR r' ∧ arena_ok (r_kv r')
        ∧ length (r_ctrl r') = length (r_ctrl r)
        ∧ length (KV.data (r_kv r')) = length (KV.data (r_kv r))
        ∧ countTable isLive (r_ctrl r')
          = countTable isLive (r_ctrl r) + countRow isLive (drop j row)
        ∧ KV.tail (r_kv r')
          = KV.tail (r_kv r) + rowNeed P m g (seq j n).
Proof.
  induction n as [|n IH]; intros j r I Hrd Hold Hrow Hj IR A Hpos Hroom Hfit.
  { exists r. rewrite drop_ge by lia. simpl.
    do 5 (split; [done|]). split; lia. }
  assert (is_Some (row !! j)) as [c Hc] by (apply lookup_lt_is_Some; lia).
  assert (Hget : get2 (ctrl m) g j = Some c) by (apply get2_Some; eauto).
  rewrite (drop_S row c j Hc) in *. cbn [countRow seq rowNeed moveRow] in *.
  pose proof (countRow_range isLive (drop (S j) row)).
  pose proof (rowNeed_nonneg m g (seq (S j) n) Hold).
  destruct (moveSlot_total P LO m r g j c I Hrd Hold Hget IR A Hpos)
    as (r1 & H1 & Htail1); [lia..|].
  rewrite H1. cbn [mbind option_bind].
  destruct (moveSlot_InvR P m r g j c r1 IR Hget H1) as (IR1 & HL1 & Hlen1).
  pose proof (moveSlot_data_length _ _ _ _ _ H1) as Hd1.
  destruct (moveSlot_stored P LO m r g j r1 Hold A (invr_ctrl r IR) H1)
    as (A1 & _); [lia|].
  destruct (IH (S j) r1 I Hrd Hold Hrow ltac:(lia) IR1 A1)
    as (r' & H' & IR' & A' & Hlen' & Hd' & HL' & Htail');
    unfold len in *; rewrite ?Hlen1, ?Hd1; try lia.
  exists r'. split; [done|]. split; [done|]. split; [done|].
  split; [congruence|]. split; [congruence|]. split; lia.
Qed.

Lemma moveRows_total m : ∀ n i r,
  Inv m → readable P m → len (KV.data (kvHolder m)) < 2 ^ 31 →
  (i + n = length (ctrl m))%nat →
  InvR r → arena_ok (r_kv r) → (0 < length (r_ctrl r))%nat →
  countTable isLive (r_ctrl r) + countTable isLive (drop i (ctrl m))
    ≤ 16 * len (r_ctrl r) - 1 →
  KV.tail (r_kv r) + tableNeed P m (seq i n) ≤ len (KV.data (r_kv r)) →
  ∃ r', moveRows P m r (seq i n) = Some r'
        ∧ KV.tail (r_kv r') = KV.tail (r_kv r) + tableNeed P m (seq i n).
Proof.
  induction n as [|n IH]; intros i r I Hrd Hold Hi IR A Hpos Hroom Hfit.
  { exists r. simpl. split; [done|lia]. }
  assert (is_Some (ctrl m !! i)) as [row Hrow] by (apply lookup_lt_is_Some; lia).
  rewrite (drop_S (ctrl m) row i Hrow) in *.
  cbn [countTable seq tableNeed moveRows] in *. rewrite Hrow in *.
  cbn [mbind option_bind].
  pose proof (tableNeed_nonneg m (seq (S i) n) Hold).
  assert (0 ≤ countTable isLive (drop (S i) (ctrl m))).
  { apply (countTable_disjoint isLive isDead _ isLive_not_dead).
    apply Forall_drop. apply I. }
  destruct (moveRow_total m i row (length row) 0 r I Hrd Hold Hrow eq_refl
              IR A Hpos)
    as (r1 & H1 & IR1 & A1 & Hlen1 & Hd1 & HL1 & Htail1);
    rewrite ?drop_0; [lia..|].
  rewrite H1. cbn [mbind option_bind]. rewrite drop_0 in HL1.
  destruct (IH (S i) r1 I Hrd Hold ltac:(lia) IR1 A1)
    as (r' & H' & Htail');
    unfold len in *; rewrite ?Hlen1, ?Hd1; try lia.
  exists r'. split; [done|]. lia.
Qed.

Lemma newKVHolder_ok cap :
  4 ≤ cap < 2 ^ 26 → arena_ok (newKVHolder P cap).
Proof.
  intros Hc. unfold newKVHolder.
  constructor; simpl; unfold len; rewrite ?length_replicate; try lia. done.
Qed.

(** What [rehash] returns: the size of the new table, its counts, and
    where the old pairs are stored. *)
Lemma rehash_rebuilds m :
  Inv m → (0 < length (ctrl m))%nat → len (groups m) < 2 ^ 27 →
  arena_ok (kvHolder m) → 4 ≤ KV.cap (kvHolder m) →
  readable P m → compactSize P m ≤ KV.cap (kvHolder m) →
  ∃ m', rehash P m = Some m'
    ∧ length (ctrl m') = length (groups m')
    ∧ length (counters m') = length (groups m')
    ∧ (if resident m / 2 <=? dead m
       then length (groups m') = length (groups m)
       else 6 * len (groups m) ≤ 5 * len (groups m')
            ∧ 5 * len (groups m') < 6 * len (groups m) + 5)
    ∧ dead m' = 0
    ∧ limit m' = len (groups m') * 14
    ∧ ∀ g s key v cnt, holds P m g s key v cnt → stored P m' key v cnt.
Proof.
  intros I Hpos HG A Hcap4 Hrd Hfit.
  pose proof (Inv_bounds m I) as (Hi0 & Hd0 & Hsum & Hres & Hres32).
  pose proof A as [At Aal Ahi Acap Asz].
  assert (Hold : len (KV.data (kvHolder m)) < 2 ^ 31) by lia.
  pose proof I as [Hrc Hn Hg Hlc Hlg Hsz Hi Hd Hr].
  set (n := nextSize m).
  assert (Hn1 : (if resident m / 2 <=? dead m
                 then n = length (groups m)
                 else 6 * len (groups m) ≤ 5 * Z.of_nat n
                      ∧ 5 * Z.of_nat n < 6 * len (groups m) + 5)).
  { unfold n, nextSize. destruct (resident m / 2 <=? dead m); [done|].
    rewrite u32_small by (unfold len in *; Z.div_mod_to_equations; lia).
    rewrite Z2Nat.id by (unfold len; Z.div_mod_to_equations; lia).
    unfold len. Z.div_mod_to_equations; lia. }
  assert (Hroom : countTable isLive (ctrl m) ≤ 16 * Z.of_nat n - 1
                  ∧ (0 < n)%nat ∧ Z.of_nat n < 2 ^ 28).
  { unfold len in *. destruct (Z.leb_spec (resident m / 2) (dead m)).
    - rewrite Hn1, Hlg. split; [|lia]. Z.div_mod_to_equations; lia.
    - lia. }
  destruct Hroom as (Hroom & Hn0 & Hn28).
  assert (IR : InvR (freshTable P n (KV.cap (kvHolder m))))
    by (apply freshTable_InvR; lia).
  assert (AR : arena_ok (newKVHolder P (KV.cap (kvHolder m))))
    by (apply newKVHolder_ok; unfold len in *; lia).
  assert (Hlen0 : length (r_ctrl (freshTable P n (KV.cap (kvHolder m)))) = n)
    by (simpl; apply length_replicate).
  assert (Hlive0 : countTable isLive
                     (r_ctrl (freshTable P n (KV.cap (kvHolder m)))) = 0).
  { destruct IR as [_ _ _ _ _ _ Hi' _ _]. by rewrite <- Hi'. }
  assert (Hdata0 : len (KV.data (newKVHolder P (KV.cap (kvHolder m))))
                   = KV.cap (kvHolder m)).
  { unfold len; simpl. rewrite length_replicate. lia. }
  destruct (moveRows_total m (length (ctrl m)) 0 _ I Hrd Hold eq_refl IR AR)
    as (r & Hmv & Htail);
    rewrite ?drop_0, ?Hlen0, ?Hlive0; unfold len; rewrite ?Hlen0;
    unfold len in *; try lia.
  { cbn [freshTable r_kv]. unfold len in Hdata0. rewrite Hdata0.
    unfold compactSize in Hfit. simpl KV.tail. lia. }
  unfold rehash. fold n. rewrite Hmv. cbn [mbind option_bind].
  eexists. split; [done|]. fields.
  destruct (rebuilt_counts P m n r I ltac:(lia) Hmv) as (IR' & HL & Hlen).
  destruct (moveRows_stored P LO m _ (freshTable P n (KV.cap (kvHolder m)))
              r Hold AR (invr_ctrl _ IR) Hmv)
    as (A' & _ & _ & _ & _ & Hst).
  { cbn [freshTable r_kv] in *. unfold len in *. rewrite Hdata0.
    rewrite Htail. unfold compactSize in Hfit. simpl KV.tail. lia. }
  destruct IR' as [Rrc Rn Rg Rlc Rlg Rsz Ri Rd Rr].
  split; [congruence|]. split; [congruence|]. rewrite Rlg, Hlen.
  split; [exact Hn1|]. split; [done|].
  split; [unfold maxAvgGroupLoad; apply u32_small; lia|].
  intros g s key v cnt Hh. apply (Hst g s key v cnt); [|done].
  destruct Hh as (c & k & (row & Hrow & _)%get2_Some & _).
  apply elem_of_seq. apply lookup_lt_Some in Hrow. lia.
Qed.

End RehashLoops.

(** * Examples: the theorems at concrete shards *)

Lemma demoShard_reachable : reachable demoPackage demoShard.
Proof.
  apply (reach_step demoPackage (newInnerLFUMap demoPackage 1 64)
           (OpRePut (demoHash keyA) keyA hello)).
  - apply reach_new. by vm_compute.
  - by vm_compute.
  - by vm_compute.
Defined.

Lemma demoShard_Inv : Inv demoShard.
Proof. apply (reachable_Inv demoPackage). exact demoShard_reachable. Defined.

Lemma demoShard_absent_B : absent demoShard keyB.
Proof.
  intros g s c H Hc.
  destruct g as [|g]; [|by destruct g].
  destruct s as [|s]; [by vm_compute|].
  do 15 (destruct s as [|s]; [injection H as <-; by vm_compute in Hc|]).
  by vm_compute in H.
Defined.

Lemma Put_missing_key_is_noop_witness :
  Put demoPackage demoShard (demoHash keyB) keyB hello
  = Some (demoShard, false).
Proof.
  apply (Put_missing_key_is_noop demoPackage demoShard (demoHash keyB) keyB
           hello 0%nat 65534).
  by vm_compute.
Defined.


Lemma count_consistency_witness :
  Count demoShard = Items demoShard
  ∧ Items demoShard + dead demoShard = resident demoShard.
Proof. apply (count_consistency demoPackage). exact demoShard_reachable. Defined.

Lemma Delete_present_witness :
  ∃ k md m' h,
    get2 (groups demoShard) 0 0 = Some k ∧ ctrl demoShard !! 0%nat = Some md
    ∧ Delete demoPackage demoShard (demoHash keyA) keyA = Some (m', true)
    ∧ del demoPackage (kvHolder demoShard) k = Some h ∧ kvHolder m' = h
    ∧ KV.items (kvHolder m') = KV.items (kvHolder demoShard) - 1
    ∧ get2 (counters m') 0 0 = Some 0
    ∧ ((rowHasEmpty md ∧ get2 (ctrl m') 0 0 = Some empty
        ∧ resident m' = resident demoShard - 1 ∧ dead m' = dead demoShard)
       ∨ (¬ rowHasEmpty md ∧ get2 (ctrl m') 0 0 = Some tombstone
          ∧ dead m' = dead demoShard + 1 ∧ resident m' = resident demoShard)).
Proof.
  eexists _, _.
  assert (Hk : get2 (groups demoShard) 0 0 = Some _) by reflexivity.
  assert (Hmd : ctrl demoShard !! 0%nat = Some _) by reflexivity.
  destruct (Delete_present demoPackage demoShard (demoHash keyA) keyA
              0%nat 0%nat _ _ demoShard_Inv ltac:(by vm_compute) Hk
              ltac:(eexists; by vm_compute) Hmd) as (m' & h & H).
  exists m', h. split; [exact Hk|]. split; [exact Hmd|]. exact H.
Defined.

Lemma Put_in_place_witness :
  ∃ m' d,
    Put demoPackage demoShard (demoHash keyA) keyA [Byte.x79; Byte.x79]
    = Some (m', true)
    ∧ m' = setKV demoShard (KV.setData (kvHolder demoShard) d)
    ∧ UsedMem m' = UsedMem demoShard
    ∧ slice d 24 26 = Some [Byte.x79; Byte.x79]
    ∧ loadAt d 20 = Some (6 + 2 * 2 ^ 24).
Proof.
  destruct (Put_in_place demoPackage demoShard (demoHash keyA) keyA
              [Byte.x79; Byte.x79] 0%nat 0%nat 33554433 83886086
              ltac:(by vm_compute) ltac:(by vm_compute)
              ltac:(by vm_compute) ltac:(by vm_compute)
              ltac:(by vm_compute) ltac:(by vm_compute)
              ltac:(by vm_compute) ltac:(by vm_compute)
              ltac:(by vm_compute))
    as (m' & d & H1 & H2 & _ & H3 & _ & _ & _ & H4 & H5).
  exists m', d. split; [exact H1|]. split; [exact H2|]. split; [exact H3|].
  split; [apply H4; by vm_compute|apply H5; left; by vm_compute].
Defined.

Lemma Eliminate_skips_witness :
  Eliminate demoPackage (newInnerLFUMap demoPackage 1 64)
  = Some (newInnerLFUMap demoPackage 1 64, (0, 2))
  ∧ Eliminate demoPackage demoShard = Some (demoShard, (0, 2)).
Proof.
  split.
  - apply (proj1 (proj2 (Eliminate_skips demoPackage _))); by vm_compute.
  - apply (proj1 (proj2 (Eliminate_skips demoPackage _))); by vm_compute.
Defined.

Lemma Delete_absent_is_noop_witness :
  Delete demoPackage demoShard (demoHash keyB) keyB = Some (demoShard, false).
Proof.
  apply (Delete_absent_is_noop demoPackage demoShard (demoHash keyB) keyB).
  - by repeat constructor.
  - reflexivity.
  - by exists 0%nat, 1%nat.
  - exact demoShard_absent_B.
Defined.

Lemma RePut_as_Put_below_long_witness :
  RePut demoPackage demoShard (demoHash keyA) keyA [Byte.x79; Byte.x79]
  = Put demoPackage demoShard (demoHash keyA) keyA [Byte.x79; Byte.x79].
Proof.
  apply (RePut_as_Put_below_long demoPackage demoShard (demoHash keyA) keyA
           [Byte.x79; Byte.x79] 0%nat 0%nat); by vm_compute.
Defined.

Lemma demoPackage_layout : layout_ok demoPackage.
Proof.
  constructor; [by vm_compute| |by vm_compute].
  exists 127, 255. by vm_compute.
Defined.

Lemma demoShard_arena : arena_ok (kvHolder demoShard).
Proof. constructor; by vm_compute. Defined.

Lemma demoShard_readable : readable demoPackage demoShard.
Proof.
  intros g s c k Hc Hl Hk.
  destruct g as [|g]; [|by destruct g].
  destruct s as [|s]; [injection Hk as <-; eexists; by vm_compute|].
  do 15 (destruct s as [|s];
         [injection Hc as <-; by vm_compute in Hl|]).
  by vm_compute in Hc.
Defined.

(** * Further properties of the shard *)

(** ** The bit set of a group *)

Lemma tzFrom_lowest x : ∀ n k,
  (k + n = 16)%nat →
  (∀ i, (i < k)%nat → Z.testbit x (Z.of_nat i) = false) →
  (∃ i, (i < 16)%nat ∧ Z.testbit x (Z.of_nat i) = true) →
  let s := tzFrom n k x in
  (s < 16)%nat ∧ Z.testbit x (Z.of_nat s) = true
  ∧ ∀ i, (i < s)%nat → Z.testbit x (Z.of_nat i) = false.
Proof.
  induction n as [|n IH]; intros k Hk Hlow (i & Hi & Hb).
  - rewrite Hlow in Hb by lia. done.
  - cbn [tzFrom]. destruct (Z.testbit x (Z.of_nat k)) eqn:E.
    + split; [lia|]. split; [done|]. exact Hlow.
    + apply IH; [lia| |by exists i].
      intros j Hj. destruct (decide (j = k)) as [->|]; [done|].
      apply Hlow. lia.
Qed.

(** [nextMatch] on a non-empty bit set returns the lowest slot of the
    set and takes that slot, and no other, out of the set. *)
Theorem nextMatch_lowest_slot b :
  0 < b < 2 ^ 16 →
  (fst (nextMatch b) < 16)%nat
  ∧ Z.testbit b (Z.of_nat (fst (nextMatch b))) = true
  ∧ (∀ i, (i < fst (nextMatch b))%nat → Z.testbit b (Z.of_nat i) = false)
  ∧ 0 ≤ snd (nextMatch b) < 2 ^ 16
  ∧ ∀ i, Z.testbit (snd (nextMatch b)) (Z.of_nat i)
         = if decide (i = fst (nextMatch b)) then false
           else Z.testbit b (Z.of_nat i).
Proof.
  intros Hb.
  assert (Hex : ∃ i, (i < 16)%nat ∧ Z.testbit b (Z.of_nat i) = true).
  { destruct (Z.bits_inj_iff' b 0) as [_ _].
    assert (Hl : 0 ≤ Z.log2 b < 16).
    { split; [apply Z.log2_nonneg|]. apply Z.log2_lt_pow2; lia. }
    exists (Z.to_nat (Z.log2 b)). split; [lia|].
    rewrite Z2Nat.id by lia. apply Z.bit_log2. lia. }
  destruct (tzFrom_lowest b 16 0 eq_refl ltac:(lia) Hex) as (Hs & Hbit & Hlow).
  fold (TrailingZeros16 b) in Hs, Hbit, Hlow.
  cbn [nextMatch fst snd].
  destruct (nextMatch_at b (TrailingZeros16 b) 0 ltac:(lia) Hs Hbit)
    as (_ & Hr & Hbits).
  done.
Qed.

Lemma nextMatch_lowest_slot_witness :
  (fst (nextMatch 12) < 16)%nat
  ∧ Z.testbit 12 (Z.of_nat (fst (nextMatch 12))) = true
  ∧ (∀ i, (i < fst (nextMatch 12))%nat → Z.testbit 12 (Z.of_nat i) = false)
  ∧ 0 ≤ snd (nextMatch 12) < 2 ^ 16
  ∧ ∀ i, Z.testbit (snd (nextMatch 12)) (Z.of_nat i)
         = if decide (i = fst (nextMatch 12)) then false
           else Z.testbit 12 (Z.of_nat i).
Proof. apply (nextMatch_lowest_slot 12). lia. Defined.

(** The inner loop of a probe, run on the bit set [metaMatchH2] gives for
    tag [h], tests the slots of the group whose control byte is [h], and
    only those, from the lowest up, and stops at the first slot whose test
    succeeds. *)
Theorem scan_visits_tagged_slots test md h :
  (length md ≤ 16)%nat →
  scanMatches test 16 (metaMatchH2 md h)
  = firstHit test (filter (λ s, md !! s = Some h) (seq 0 16)).
Proof. intros Hmd. by rewrite scan_spec. Qed.

Lemma scan_visits_tagged_slots_witness :
  scanMatches (λ s, Some (Nat.eqb s 3)) 16 (metaMatchH2 [7; 5; 7; 7; -128] 7)
  = firstHit (λ s, Some (Nat.eqb s 3))
      (filter (λ s, [7; 5; 7; 7; -128] !! s = Some 7) (seq 0 16)).
Proof. apply (scan_visits_tagged_slots _ [7; 5; 7; 7; -128] 7). simpl. lia. Defined.

(** ** Lookups *)

Section Lookups.

Variable P : Package.



End Lookups.


Section LookupsAgree.

Variable P : Package.

Lemma getTest_keyTest m key g s :
  get2 (groups m) g s ≠ Some 0 → getTest m key g s = keyTest m key g s.
Proof.
  intros Hnz. unfold getTest, keyTest, getKey.
  destruct (get2 (groups m) g s) as [k|]; [|done]. cbn [mbind option_bind].
  destruct (Z.eqb_spec k 0) as [->|]; done.
Qed.

Lemma probe_getTest_keyTest m key l :
  rows16 (ctrl m) → taggedNonzero m →
  probeWith m (getTest m key) l = probeWith m (keyTest m key) l.
Proof.
  intros Hr Hnz. unfold probeWith.
  destruct (splitHash l) as [hi lo] eqn:Hs.
  destruct (probeStart hi (length (groups m))) as [g0|]; [|done].
  cbn [mbind option_bind]. apply probeLoop_ext; [done|].
  intros g s Hc. apply getTest_keyTest. apply (Hnz g s lo Hc).
  pose proof (splitHash_lo l). rewrite Hs in *. simpl in *. lia.
Qed.

(** [Has] and [Get] give the same verdict and leave the same shard: when
    no tagged slot holds the zero descriptor (the one case in which [Get]
    skips a slot that [Has] reads), a [Get] that returns [(v, ok)]
    leaves the shard as [Has] does, and [Has] returns [ok]; a [Has] that
    misses is a [Get] that misses; and a [Has] that hits is a [Get] that
    hits, once every occupied slot can be read. *)
Theorem Has_agrees_with_Get m l key :
  rows16 (ctrl m) → taggedNonzero m →
  (∀ m' v ok, Get P m l key = Some (m', (v, ok)) →
              Has m l key = Some (m', ok))
  ∧ (∀ m', Has m l key = Some (m', false) →
           Get P m l key = Some (m', ([], false)))
  ∧ (readable P m →
     ∀ m', Has m l key = Some (m', true) →
           ∃ v, Get P m l key = Some (m', (v, true))).
Proof.
  intros Hr Hnz.
  set (m1 := setQueryCnt m (u64 (queryCnt m + 1))).
  assert (Hp : probeWith m1 (getTest m1 key) l
               = probeWith m1 (keyTest m1 key) l)
    by (by apply probe_getTest_keyTest).
  split; [|split].
  - intros m' v ok H. unfold Get in H. fold m1 in H. unfold Has. fold m1.
    rewrite <- Hp. unbind H. destruct p as [g s|g e]; unbind H.
    + injection H as <- <- <-. cbn [mbind option_bind].
      match goal with E : add _ _ _ = Some _ |- _ => rewrite E end. done.
    + by injection H as <- <- <-.
  - intros m' H. unfold Has in H. fold m1 in H. unfold Get. fold m1.
    rewrite Hp. unbind H. destruct p as [g s|g e]; unbind H.
    + by injection H.
    + by injection H as <-.
  - intros Hrd m' H. unfold Has in H. fold m1 in H. unfold Get. fold m1.
    rewrite Hp. unbind H. destruct p as [g s|g e]; unbind H; [|by injection H].
    injection H as <-. cbn [mbind option_bind].
    match goal with E : probeWith _ _ _ = Some _ |- _ =>
      destruct (probeWith_Found_live _ _ _ _ _ Hr E) as (c & Hc & Hl);
      apply (probeWith_Found _ _ _ _ _ Hr) in E;
      destruct E as (_ & Ht & _) end.
    assert (∃ k, get2 (groups m) g s = Some k) as [k Hk].
    { unfold getTest, keyTest in Ht. subst m1. fields.
      destruct (get2 (groups m) g s); [by eexists|by cbn in Ht]. }
    subst m1. fields. rewrite Hk.
    destruct (Hrd g s c k Hc Hl Hk) as [[key' v] Hkv].
    unfold getKVUnlock in Hkv. unbind Hkv. injection Hkv as <- <-.
    cbn [mbind option_bind]. fields.
    repeat (match goal with E : _ = Some _ |- _ => rewrite E; clear E end;
            cbn [mbind option_bind]).
    by eexists.
Qed.

End LookupsAgree.

Lemma demoShard_taggedNonzero : taggedNonzero demoShard.
Proof.
  intros g s c Hc Hl.
  destruct g as [|g]; [|by destruct g].
  destruct s as [|s]; [by vm_compute|].
  do 15 (destruct s as [|s]; [injection Hc as <-; by vm_compute in Hl|]).
  by vm_compute in Hc.
Defined.

Lemma Has_agrees_with_Get_witness :
  (∀ m' v ok, Get demoPackage demoShard (demoHash keyA) keyA
              = Some (m', (v, ok)) →
              Has demoShard (demoHash keyA) keyA = Some (m', ok))
  ∧ (∀ m', Has demoShard (demoHash keyA) keyA = Some (m', false) →
           Get demoPackage demoShard (demoHash keyA) keyA
           = Some (m', ([], false)))
  ∧ (readable demoPackage demoShard →
     ∀ m', Has demoShard (demoHash keyA) keyA = Some (m', true) →
           ∃ v, Get demoPackage demoShard (demoHash keyA) keyA
                = Some (m', (v, true))).
Proof.
  apply (Has_agrees_with_Get demoPackage demoShard (demoHash keyA) keyA).
  - by repeat constructor.
  - exact demoShard_taggedNonzero.
Defined.

(** ** Empty tables *)

Section EmptyTables.

Variable P : Package.

Lemma get2_map_const {A B} (t : list (list A)) (c : B) g s x :
  get2 (map (map (λ _, c)) t) g s = Some x → x = c.
Proof.
  intros (row & Hrow & Hx)%get2_Some.
  rewrite list_lookup_fmap in Hrow.
  destruct (t !! g) as [r|]; [|done]. injection Hrow as <-.
  rewrite list_lookup_fmap in Hx. destruct (r !! s); [|done].
  by injection Hx.
Qed.

Lemma get2_replicate {A} n (c : A) g s x :
  get2 (replicate n (replicate 16 c)) g s = Some x → x = c.
Proof.
  intros (row & Hrow & Hx)%get2_Some.
  apply lookup_replicate in Hrow as [-> _].
  by apply lookup_replicate in Hx as [-> _].
Qed.

(** A table whose control bytes are all [empty] answers every lookup
    with a miss at the first group of the probe. *)
Lemma all_empty_misses m test l :
  rows16 (ctrl m) → length (groups m) = length (ctrl m) →
  (0 < length (ctrl m))%nat →
  (∀ g s c, get2 (ctrl m) g s = Some c → c = empty) →
  ∃ g e, probeWith m test l = Some (AtEmpty g e).
Proof.
  intros Hr Hlen Hpos Hall. apply probeWith_miss; try done.
  - destruct (ctrl m) as [|row ct] eqn:Hct; [simpl in Hpos; lia|].
    assert (Hrow : length row = 16%nat) by (by inversion Hr).
    destruct row as [|c row]; [done|].
    assert (c = empty) as -> by (by apply (Hall 0%nat 0%nat)).
    exists 0%nat, 0%nat. by rewrite Hct.
  - intros g s Hc. apply Hall in Hc. pose proof (splitHash_lo l).
    unfold empty in Hc. lia.
Qed.

(** After [Clear] the table is empty and fully reusable: every control
    byte is [empty], every counter and descriptor is 0, [resident] and
    [dead] are 0, [Count] is 0, the group count and [limit] are kept, and
    every [Has] and [Get] is a miss. *)
Theorem Clear_empties m l key :
  rows16 (ctrl m) → length (groups m) = length (ctrl m) →
  (0 < length (ctrl m))%nat →
  let m0 := Clear P m in
  (∀ g s c, get2 (ctrl m0) g s = Some c → c = empty)
  ∧ (∀ g s c, get2 (counters m0) g s = Some c → c = 0)
  ∧ (∀ g s k, get2 (groups m0) g s = Some k → k = 0)
  ∧ length (ctrl m0) = length (ctrl m)
  ∧ length (groups m0) = length (groups m)
  ∧ resident m0 = 0 ∧ dead m0 = 0 ∧ Count m0 = 0 ∧ limit m0 = limit m
  ∧ (∃ m1, Has m0 l key = Some (m1, false))
  ∧ (∃ m1, Get P m0 l key = Some (m1, ([], false))).
Proof.
  intros Hr Hlen Hpos m0.
  assert (Hall : ∀ g s c, get2 (ctrl m0) g s = Some c → c = empty)
    by (intros g s c; apply get2_map_const).
  split; [done|]. split; [intros g s c; apply get2_map_const|].
  split; [intros g s c; apply get2_map_const|].
  split; [apply length_map|]. split; [apply length_map|].
  do 4 (split; [done|]).
  set (m1 := setQueryCnt m0 (u64 (queryCnt m0 + 1))).
  assert (Hmiss : ∀ test, ∃ g e, probeWith m1 test l = Some (AtEmpty g e)).
  { intros test. apply all_empty_misses; subst m1 m0; unfold Clear; fields.
    - by apply rows16_map.
    - by rewrite !length_map.
    - by rewrite length_map.
    - exact Hall. }
  split.
  - destruct (Hmiss (keyTest m1 key)) as (g & e & Hp).
    eexists. unfold Has. fold m1. by rewrite Hp.
  - destruct (Hmiss (getTest m1 key)) as (g & e & Hp).
    eexists. unfold Get. fold m1. by rewrite Hp.
Qed.

(** A new shard is empty: [resident], [dead] and [Count] are 0,
    [Capacity] is 14 slots for each group, and every [Has] and [Get] is a
    miss. *)
Theorem newInnerLFUMap_is_empty nGroups memMax l key :
  (0 < nGroups)%nat → 14 * Z.of_nat nGroups < 2 ^ 32 →
  let m0 := newInnerLFUMap P nGroups memMax in
  length (groups m0) = nGroups
  ∧ (∀ g s c, get2 (ctrl m0) g s = Some c → c = empty)
  ∧ resident m0 = 0 ∧ dead m0 = 0 ∧ Count m0 = 0
  ∧ Capacity m0 = 14 * Z.of_nat nGroups
  ∧ (∃ m1, Has m0 l key = Some (m1, false))
  ∧ (∃ m1, Get P m0 l key = Some (m1, ([], false))).
Proof.
  intros Hpos Hsz m0.
  assert (Hall : ∀ g s c, get2 (ctrl m0) g s = Some c → c = empty)
    by (intros g s c; apply get2_replicate).
  split; [apply length_replicate|]. split; [done|]. do 3 (split; [done|]).
  split.
  { unfold Capacity, m0, newInnerLFUMap, maxAvgGroupLoad. fields.
    rewrite Z.sub_0_r, u32_idem, u32_small; lia. }
  set (m1 := setQueryCnt m0 (u64 (queryCnt m0 + 1))).
  assert (Hmiss : ∀ test, ∃ g e, probeWith m1 test l = Some (AtEmpty g e)).
  { intros test.
    apply all_empty_misses; subst m1 m0; unfold newInnerLFUMap; fields.
    - apply rows16_replicate.
    - by rewrite !length_replicate.
    - by rewrite length_replicate.
    - exact Hall. }
  split.
  - destruct (Hmiss (keyTest m1 key)) as (g & e & Hp).
    eexists. unfold Has. fold m1. by rewrite Hp.
  - destruct (Hmiss (getTest m1 key)) as (g & e & Hp).
    eexists. unfold Get. fold m1. by rewrite Hp.
Qed.

End EmptyTables.

Lemma Clear_empties_witness :
  let m0 := Clear demoPackage demoShard in
  (∀ g s c, get2 (ctrl m0) g s = Some c → c = empty)
  ∧ (∀ g s c, get2 (counters m0) g s = Some c → c = 0)
  ∧ (∀ g s k, get2 (groups m0) g s = Some k → k = 0)
  ∧ length (ctrl m0) = length (ctrl demoShard)
  ∧ length (groups m0) = length (groups demoShard)
  ∧ resident m0 = 0 ∧ dead m0 = 0 ∧ Count m0 = 0
  ∧ limit m0 = limit demoShard
  ∧ (∃ m1, Has m0 (demoHash keyA) keyA = Some (m1, false))
  ∧ (∃ m1, Get demoPackage m0 (demoHash keyA) keyA = Some (m1, ([], false))).
Proof.
  apply (Clear_empties demoPackage demoShard (demoHash keyA) keyA).
  - by repeat constructor.
  - reflexivity.
  - simpl. lia.
Defined.

Lemma newInnerLFUMap_is_empty_witness :
  let m0 := newInnerLFUMap demoPackage 2 64 in
  length (groups m0) = 2%nat
  ∧ (∀ g s c, get2 (ctrl m0) g s = Some c → c = empty)
  ∧ resident m0 = 0 ∧ dead m0 = 0 ∧ Count m0 = 0
  ∧ Capacity m0 = 14 * Z.of_nat 2
  ∧ (∃ m1, Has m0 (demoHash keyA) keyA = Some (m1, false))
  ∧ (∃ m1, Get demoPackage m0 (demoHash keyA) keyA = Some (m1, ([], false))).
Proof.
  apply (newInnerLFUMap_is_empty demoPackage 2 64 (demoHash keyA) keyA); lia.
Defined.

(** ** Lookups after a slot has been retired *)

Lemma firstHit_skip test test' (Q Q' : nat → Prop)
    `{∀ x, Decision (Q x)} `{∀ x, Decision (Q' x)} s0 ss :
  (∀ s, s ≠ s0 → Q s ↔ Q' s) → ¬ Q' s0 →
  (Q s0 → test s0 = Some false) →
  (∀ s, s ≠ s0 → Q s → test' s = test s) →
  firstHit test' (filter Q' ss) = firstHit test (filter Q ss).
Proof.
  intros Hiff Hn0 Hf Hext. induction ss as [|s ss IH]; [done|].
  rewrite !filter_cons. destruct (decide (s = s0)) as [->|Hne].
  - rewrite (decide_False (P := Q' s0)) by done.
    destruct (decide (Q s0)) as [Hq|]; [|done].
    cbn [firstHit]. rewrite (Hf Hq). done.
  - destruct (decide (Q s)) as [Hq|Hq].
    + rewrite decide_True by (by apply Hiff). cbn [firstHit].
      rewrite (Hext s Hne Hq). destruct (test s) as [[|]|]; try done.
    + rewrite decide_False by (by rewrite <- Hiff). done.
Qed.

Lemma matchSlots_insert_other md s0 x c :
  x ≠ c → md !! s0 ≠ Some c → matchSlots (<[s0 := x]> md) c = matchSlots md c.
Proof.
  intros Hx Hs0. unfold matchSlots. apply list_filter_iff. intros s.
  destruct (decide (s = s0)) as [->|Hne].
  - split; [|done]. intros H. apply list_lookup_insert_Some in H.
    destruct H as [(_ & ? & _)|(? & _)]; congruence.
  - by rewrite list_lookup_insert_ne.
Qed.

Lemma probeLoop_retire ct ct' G lo test test' g0 s0 x fuel : ∀ g,
  rows16 ct → set2 ct g0 s0 x = Some ct' → x ≠ lo →
  (∀ g s, (g, s) ≠ (g0, s0) → get2 ct g s = Some lo →
          test' g s = test g s) →
  (get2 ct g0 s0 = Some lo → test g0 s0 = Some false) →
  (∀ md, ct !! g0 = Some md →
         metaMatchEmpty (<[s0 := x]> md) = 0 ↔ metaMatchEmpty md = 0) →
  verdict <$> probeLoop ct' G lo test' fuel g
  = verdict <$> probeLoop ct G lo test fuel g.
Proof.
  induction fuel as [|fuel IH]; intros g Hr Hset Hx Hext Hf He; [done|].
  cbn [probeLoop].
  pose proof (set2_rows16 _ _ _ _ _ Hset Hr) as Hr'.
  destruct (decide (g = g0)) as [->|Hg].
  - destruct (ct !! g0) as [md|] eqn:Hmd.
    2:{ apply set2_Some in Hset as (row & ? & _). congruence. }
    rewrite (set2_lookup_eq _ _ _ _ _ md Hset Hmd).
    cbn [mbind option_bind].
    pose proof (rows16_lookup _ _ _ Hr Hmd) as Hl.
    rewrite !scan_spec by (rewrite ?length_insert; lia).
    unfold matchSlots.
    rewrite (firstHit_skip (test g0) (test' g0)
               (λ s, md !! s = Some lo) (λ s, <[s0 := x]> md !! s = Some lo)
               s0).
    + destruct (firstHit _ _) as [[s|]|]; cbn [mbind option_bind]; try done.
      pose proof (He md eq_refl) as He'.
      destruct (Z.eqb_spec (metaMatchEmpty (<[s0 := x]> md)) 0) as [E|E];
        destruct (Z.eqb_spec (metaMatchEmpty md) 0) as [E'|E'];
        cbn [negb]; [by apply IH|tauto|tauto|reflexivity].
    + intros s Hs. by rewrite list_lookup_insert_ne.
    + intros H. apply list_lookup_insert_Some in H.
      destruct H as [(_ & ? & _)|(? & _)]; congruence.
    + intros Hq. apply Hf. apply get2_Some. eauto.
    + intros s Hs Hq. apply Hext; [congruence|]. apply get2_Some. eauto.
  - rewrite (set2_lookup_ne _ _ _ _ _ g Hset Hg).
    destruct (ct !! g) as [md|] eqn:Hmd; [|done]. cbn [mbind option_bind].
    pose proof (rows16_lookup _ _ _ Hr Hmd) as Hl.
    rewrite !scan_spec by lia.
    rewrite (firstHit_ext (test' g) (test g)).
    2:{ intros s Hs. apply Hext; [congruence|].
        eapply get2_matchSlots; eauto. }
    destruct (firstHit _ _) as [[s|]|]; cbn [mbind option_bind]; try done.
    destruct (negb _); [done|]. by apply IH.
Qed.

Lemma keyTest_other m key key' g s :
  keyTest m key g s = Some true → key' ≠ key →
  keyTest m key' g s = Some false ∧ getTest m key' g s = Some false.
Proof.
  unfold keyTest, getTest, getKey. intros H Hne. unbind H.
  injection H as H. apply bool_decide_eq_true in H. subst.
  cbn [mbind option_bind]. unfold bytesEqual.
  match goal with E : slice _ _ _ = Some _ |- _ => rewrite E end.
  cbn [mbind option_bind]. rewrite bool_decide_eq_false_2 by done.
  split; [done|]. by destruct (z =? 0).
Qed.

Lemma keyTest_false_getTest m key g s :
  keyTest m key g s = Some false → getTest m key g s = Some false.
Proof.
  unfold keyTest, getTest, getKey. intros H. unbind H.
  cbn [mbind option_bind].
  match goal with E : slice _ _ _ = Some _ |- _ => rewrite E end.
  cbn [mbind option_bind] in *. rewrite H. by destruct (z =? 0).
Qed.

Lemma add_is_Some m g s :
  is_Some (get2 (counters m) g s) → is_Some (add m g s).
Proof.
  intros [c Hc]. unfold add. rewrite Hc. cbn [mbind option_bind].
  destruct (c <? maxCount); [|done].
  destruct (set2_is_Some (counters m) g s (c + 1) c Hc) as [cn ->]. done.
Qed.

Lemma get2_is_Some_set2 {A} (t t' : list (list A)) g s x g' s' :
  set2 t g s x = Some t' →
  is_Some (get2 t' g' s') ↔ is_Some (get2 t g' s').
Proof.
  intros Hset. destruct (decide ((g', s') = (g, s))) as [[= -> ->]|Hne].
  - rewrite (get2_set2_eq _ _ _ _ _ Hset).
    apply set2_Some in Hset as (row & Hrow & Hs & _).
    split; [|by eexists]. intros _.
    apply lookup_lt_is_Some in Hs as [y Hy]. exists y.
    apply get2_Some. eauto.
  - by rewrite (get2_set2_ne _ _ _ _ _ g' s' Hset Hne).
Qed.

Section AfterRetire.

Variable P : Package.

Lemma add_get2 m g s :
  snd <$> (m' ← add m g s; Some (m', true))
  = (λ _, true) <$> get2 (counters m) g s.
Proof.
  unfold add. destruct (get2 (counters m) g s) as [c|] eqn:Hc; [|done].
  cbn [mbind option_bind fmap option_fmap option_map].
  destruct (c <? maxCount); [|done].
  destruct (set2_is_Some (counters m) g s (c + 1) c Hc) as [cn ->]. done.
Qed.

Lemma Has_answer m l key :
  snd <$> Has m l key
  = (r ← probeWith m (keyTest m key) l; hasAnswer m (verdict r)).
Proof.
  unfold Has.
  change (probeWith (setQueryCnt m _) (keyTest (setQueryCnt m _) key) l)
    with (probeWith m (keyTest m key) l).
  destruct (probeWith m (keyTest m key) l) as [[g s|g e]|]; try done.
  cbn [mbind option_bind verdict hasAnswer].
  apply (add_get2 (setQueryCnt m (u64 (queryCnt m + 1)))).
Qed.

Lemma Get_answer m l key :
  snd <$> Get P m l key
  = (r ← probeWith m (getTest m key) l; getAnswer P m (verdict r)).
Proof.
  unfold Get.
  change (probeWith (setQueryCnt m _) (getTest (setQueryCnt m _) key) l)
    with (probeWith m (getTest m key) l).
  destruct (probeWith m (getTest m key) l) as [[g s|g e]|]; try done.
  cbn [mbind option_bind verdict getAnswer]. unfold readSlot. fields.
  destruct (get2 (groups m) g s) as [k|]; [|done]. cbn [mbind option_bind].
  destruct (loadAt _ _) as [vh|]; [|done]. cbn [mbind option_bind].
  destruct (decodeValue _ _ _ _) as [[vo vs]|]; [|done].
  cbn [mbind option_bind].
  destruct (getValue _ _ _) as [v|]; [|done]. cbn [mbind option_bind].
  unfold add. fields.
  destruct (get2 (counters m) g s) as [c|] eqn:Hc; [|done].
  cbn [mbind option_bind fmap option_fmap option_map].
  destruct (c <? maxCount); [|done].
  destruct (set2_is_Some (counters m) g s (c + 1) c Hc) as [cn ->]. done.
Qed.

Lemma decodeValue_data h h' k vh :
  KV.data h' = KV.data h → decodeValue P h' k vh = decodeValue P h k vh.
Proof. intros Hd. unfold decodeValue. by rewrite Hd. Qed.

Lemma readSlot_data m m' g s :
  groups m' = groups m → KV.data (kvHolder m') = KV.data (kvHolder m) →
  readSlot P m' g s = readSlot P m g s.
Proof.
  intros Hg Hd. unfold readSlot, getValue. rewrite Hg, Hd.
  destruct (get2 (groups m) g s) as [k|]; [|done]. cbn [mbind option_bind].
  destruct (loadAt _ _) as [vh|]; [|done]. cbn [mbind option_bind].
  by rewrite (decodeValue_data (kvHolder m) (kvHolder m')).
Qed.

Lemma keyTest_data m m' key g s :
  groups m' = groups m → KV.data (kvHolder m') = KV.data (kvHolder m) →
  keyTest m' key g s = keyTest m key g s
  ∧ getTest m' key g s = getTest m key g s.
Proof.
  intros Hg Hd. unfold keyTest, getTest, getKey. by rewrite Hg, Hd.
Qed.

(** What [Delete] does to the table when it finds the key. *)
Lemma deleteFound_shape m g s m' :
  deleteFound P m g s = Some m' →
  ∃ x md, ctrl m !! g = Some md
    ∧ set2 (ctrl m) g s x = Some (ctrl m')
    ∧ (x = empty ∧ metaMatchEmpty md ≠ 0
       ∨ x = tombstone ∧ metaMatchEmpty md = 0)
    ∧ set2 (counters m) g s 0 = Some (counters m')
    ∧ groups m' = groups m
    ∧ KV.data (kvHolder m') = KV.data (kvHolder m).
Proof.
  unfold deleteFound. intros H. unbind H.
  match goal with E : del _ _ _ = Some _ |- _ =>
    apply del_items in E; destruct E as (_ & _ & _ & _ & Hd) end.
  match goal with E : (if _ then _ else _) = Some _ |- _ => unbind E end.
  - injection H as <-.
    match goal with E : (Some _ ≫= _) = Some _ |- _ =>
      cbn [mbind option_bind] in E; injection E as <- end.
    fields. exists empty, l. split; [done|]. split; [done|].
    split; [left; split; [done|]|done].
    match goal with E : negb _ = true |- _ =>
      apply negb_true_iff, Z.eqb_neq in E end. done.
  - injection H as <-.
    match goal with E : (Some _ ≫= _) = Some _ |- _ =>
      cbn [mbind option_bind] in E; injection E as <- end.
    fields. exists tombstone, l. split; [done|]. split; [done|].
    split; [right; split; [done|]|done].
    match goal with E : negb _ = false |- _ =>
      apply negb_false_iff, Z.eqb_eq in E end. done.
Qed.

(** A probe for another key, after slot [(g0, s0)] has been retired by
    [Delete]. *)
Lemma probe_after_retire m m' test test' l g0 s0 x md :
  rows16 (ctrl m) → length (groups m') = length (groups m) →
  ctrl m !! g0 = Some md → (∃ c, md !! s0 = Some c ∧ 0 ≤ c) →
  set2 (ctrl m) g0 s0 x = Some (ctrl m') →
  (x = empty ∧ metaMatchEmpty md ≠ 0 ∨ x = tombstone ∧ metaMatchEmpty md = 0) →
  (∀ g s, test' g s = test g s) →
  test g0 s0 = Some false →
  verdict <$> probeWith m' test' l = verdict <$> probeWith m test l.
Proof.
  intros Hr Hlen Hmd (c & Hc & Hc0) Hset Hx Hext Hf. unfold probeWith.
  destruct (splitHash l) as [hi lo] eqn:Hs. rewrite Hlen.
  destruct (probeStart hi (length (groups m))) as [g|]; [|done].
  cbn [mbind option_bind].
  pose proof (splitHash_lo l) as Hlo. rewrite Hs in Hlo. simpl in Hlo.
  pose proof (rows16_lookup _ _ _ Hr Hmd) as Hl16.
  apply (probeLoop_retire _ _ _ _ _ _ g0 s0 x); try done.
  - unfold empty, tombstone in Hx. lia.
  - intros md0 Hmd0. assert (md0 = md) as -> by congruence.
    destruct Hx as [(-> & He)|(-> & He)].
    + split; [|done]. intros Hz. exfalso.
      apply (rowHasEmpty_match (<[s0 := empty]> md)) in Hz; [done| |].
      * by rewrite length_insert.
      * exists s0. apply list_lookup_insert_eq.
        apply lookup_lt_Some in Hc. lia.
    + rewrite !metaMatchEmpty_zero by (rewrite ?length_insert; lia).
      rewrite matchSlots_insert_other; [done|done|].
      rewrite Hc. unfold empty. intros [= ->]. lia.
Qed.

(** [Delete] of one key leaves the answers for every other key as they
    were: [Has] and [Get] of a key different from the deleted one return
    after the call what they returned before it. *)
Theorem Delete_keeps_other_keys m l key m' l' key' :
  rows16 (ctrl m) →
  Delete P m l key = Some (m', true) → key' ≠ key →
  (snd <$> Has m' l' key' = snd <$> Has m l' key')
  ∧ (snd <$> Get P m' l' key' = snd <$> Get P m l' key').
Proof.
  intros Hr H Hne. unfold Delete in H. unbind H.
  destruct p as [g s|g e]; [|by injection H]. unbind H. injection H as <-.
  match goal with E : probeWith _ _ _ = Some _ |- _ =>
    apply (probeWith_Found _ _ _ _ _ Hr) in E;
    destruct E as (Hc & Ht & Hs16) end.
  destruct (keyTest_other _ _ _ _ _ Ht Hne) as (Hk' & Hg').
  match goal with E : deleteFound _ _ _ _ = Some _ |- _ =>
    apply deleteFound_shape in E;
    destruct E as (x & md & Hmd & Hct & Hx & Hcn & Hgr & Hd) end.
  assert (Htag : ∃ c, md !! s = Some c ∧ 0 ≤ c).
  { apply get2_Some in Hc as (row & Hrow & Hcs).
    assert (row = md) as -> by congruence.
    eexists. split; [done|]. pose proof (splitHash_lo l). lia. }
  assert (Hlen : length (groups l0) = length (groups m)) by (by rewrite Hgr).
  rewrite !Has_answer, !Get_answer.
  pose proof (probe_after_retire m l0 (keyTest m key') (keyTest l0 key') l'
                g s x md Hr Hlen Hmd Htag Hct Hx
                (λ g s, proj1 (keyTest_data m l0 key' g s Hgr Hd)) Hk') as Hp1.
  pose proof (probe_after_retire m l0 (getTest m key') (getTest l0 key') l'
                g s x md Hr Hlen Hmd Htag Hct Hx
                (λ g s, proj2 (keyTest_data m l0 key' g s Hgr Hd)) Hg') as Hp2.
  assert (Hcnt : ∀ {A} (f : Z → A) g' s',
             f <$> get2 (counters l0) g' s' = f <$> get2 (counters m) g' s'
             ∨ ∃ a b, get2 (counters l0) g' s' = Some a
                      ∧ get2 (counters m) g' s' = Some b).
  { intros A f g' s'.
    pose proof (get2_is_Some_set2 _ _ _ _ _ g' s' Hcn) as Hi.
    destruct (get2 (counters l0) g' s') as [a|];
      destruct (get2 (counters m) g' s') as [b|]; eauto.
    - destruct (proj1 Hi ltac:(eauto)) as [? [=]].
    - destruct (proj2 Hi ltac:(eauto)) as [? [=]]. }
  split.
  - clear Hp2. destruct (probeWith l0 (keyTest l0 key') l') as [r'|];
      destruct (probeWith m (keyTest m key') l') as [r|];
      simpl in Hp1; try done.
    injection Hp1 as Hp1. cbn [mbind option_bind]. rewrite Hp1.
    destruct (verdict r) as [[g' s']|]; [|done]. cbn [hasAnswer].
    destruct (Hcnt bool (λ _, true) g' s') as [->|(a & b & -> & ->)]; done.
  - clear Hp1. destruct (probeWith l0 (getTest l0 key') l') as [r'|];
      destruct (probeWith m (getTest m key') l') as [r|];
      simpl in Hp2; try done.
    injection Hp2 as Hp2. cbn [mbind option_bind]. rewrite Hp2.
    destruct (verdict r) as [[g' s']|]; [|done]. cbn [getAnswer].
    rewrite (readSlot_data m l0) by done.
    destruct (readSlot P m g' s') as [v|]; [|done]. cbn [mbind option_bind].
    destruct (Hcnt _ (λ _ : Z, (v, true)) g' s') as [->|(a & b & -> & ->)];
      done.
Qed.

(** Once [Delete] has removed a key that no other slot on its probe path
    holds, the key is gone: [Has] and [Get] miss it, and a second
    [Delete] returns false and leaves the shard as it is. *)
Theorem Delete_then_miss m l key g s m' :
  rows16 (ctrl m) → length (groups m) = length (ctrl m) → hasEmptySlot m →
  probeWith m (keyTest m key) l = Some (Found g s) →
  (∀ g' s', (g', s') ≠ (g, s) →
            get2 (ctrl m) g' s' = Some (snd (splitHash l)) →
            keyTest m key g' s' = Some false) →
  Delete P m l key = Some (m', true) →
  (∃ m1, Has m' l key = Some (m1, false))
  ∧ (∃ m1, Get P m' l key = Some (m1, ([], false)))
  ∧ Delete P m' l key = Some (m', false).
Proof.
  intros Hr Hlen (ge & se & He) Hp Huniq H.
  unfold Delete in H. rewrite Hp in H. unbind H. injection H as <-.
  destruct (probeWith_Found _ _ _ _ _ Hr Hp) as (Hc & Ht & Hs16).
  match goal with E : deleteFound _ _ _ _ = Some _ |- _ =>
    apply deleteFound_shape in E;
    destruct E as (x & md & Hmd & Hct & Hx & Hcn & Hgr & Hd) end.
  pose proof (splitHash_lo l) as Hlo.
  assert (Hxlo : x ≠ snd (splitHash l))
    by (unfold empty, tombstone in Hx; lia).
  assert (Hr' : rows16 (ctrl l0)) by (by eapply set2_rows16).
  assert (Hlen' : length (groups l0) = length (ctrl l0)).
  { rewrite Hgr, Hlen. symmetry. by eapply set2_length. }
  assert (He' : hasEmptySlot l0).
  { exists ge, se. rewrite (get2_set2_ne _ _ _ _ _ ge se Hct); [done|].
    intros [= -> ->].
    assert (Heq : empty = snd (splitHash l)) by congruence.
    unfold empty in Heq. lia. }
  assert (Habs : ∀ g' s', get2 (ctrl l0) g' s' = Some (snd (splitHash l)) →
                          keyTest l0 key g' s' = Some false).
  { intros g' s' Hc'. destruct (decide ((g', s') = (g, s))) as [[= -> ->]|Hne].
    - rewrite (get2_set2_eq _ _ _ _ _ Hct) in Hc'. congruence.
    - rewrite (get2_set2_ne _ _ _ _ _ g' s' Hct Hne) in Hc'.
      rewrite (proj1 (keyTest_data m l0 key g' s' Hgr Hd)). by apply Huniq. }
  destruct (probeWith_miss l0 (keyTest l0 key) l Hr' Hlen' He' Habs)
    as (g1 & e1 & Hp1).
  destruct (probeWith_miss l0 (getTest l0 key) l Hr' Hlen' He'
              (λ g' s' Hc', keyTest_false_getTest _ _ _ _ (Habs g' s' Hc')))
    as (g2 & e2 & Hp2).
  split; [|split].
  - eexists. unfold Has.
    change (probeWith (setQueryCnt l0 _) (keyTest (setQueryCnt l0 _) key) l)
      with (probeWith l0 (keyTest l0 key) l).
    by rewrite Hp1.
  - eexists. unfold Get.
    change (probeWith (setQueryCnt l0 _) (getTest (setQueryCnt l0 _) key) l)
      with (probeWith l0 (getTest l0 key) l).
    by rewrite Hp2.
  - unfold Delete. by rewrite Hp1.
Qed.

End AfterRetire.

Lemma Delete_keeps_other_keys_witness :
  ∃ m', Delete demoPackage demoShardAB (demoHash keyA) keyA = Some (m', true)
        ∧ snd <$> Has m' (demoHash keyB) keyB
          = snd <$> Has demoShardAB (demoHash keyB) keyB
        ∧ snd <$> Get demoPackage m' (demoHash keyB) keyB
          = snd <$> Get demoPackage demoShardAB (demoHash keyB) keyB.
Proof.
  eexists. split; [reflexivity|].
  apply (Delete_keeps_other_keys demoPackage demoShardAB (demoHash keyA) keyA
           _ (demoHash keyB) keyB).
  - by repeat constructor.
  - reflexivity.
  - discriminate.
Defined.

Lemma Delete_then_miss_witness :
  ∃ m', Delete demoPackage demoShardAB (demoHash keyA) keyA = Some (m', true)
        ∧ (∃ m1, Has m' (demoHash keyA) keyA = Some (m1, false))
        ∧ (∃ m1, Get demoPackage m' (demoHash keyA) keyA
                 = Some (m1, ([], false)))
        ∧ Delete demoPackage m' (demoHash keyA) keyA = Some (m', false).
Proof.
  eexists. split; [reflexivity|].
  apply (Delete_then_miss demoPackage demoShardAB (demoHash keyA) keyA
           0%nat 0%nat).
  - by repeat constructor.
  - reflexivity.
  - by exists 0%nat, 2%nat.
  - by vm_compute.
  - intros g' s' Hne Hc.
    destruct g' as [|g']; [|by destruct g'].
    destruct s' as [|s']; [done|].
    do 15 (destruct s' as [|s']; [by vm_compute in Hc|]).
    by vm_compute in Hc.
  - reflexivity.
Defined.

(** ** PutMultiValue *)

Lemma copyAt_nil d off : 0 ≤ off → off ≤ len d → copyAt d off [] = Some d.
Proof.
  intros H0 H1. unfold copyAt.
  destruct (Z.leb_spec 0 off); [|lia].
  destruct (Z.leb_spec off (len d)); [|lia]. cbn [andb].
  rewrite Nat.min_0_r, Nat.add_0_r. cbn [take app]. by rewrite take_drop.
Qed.

Lemma copyAt_app d off a b d1 :
  0 ≤ off → off + len a + len b ≤ len d →
  copyAt d off a = Some d1 →
  copyAt d1 (off + len a) b = copyAt d off (a ++ b).
Proof.
  intros H0 Hfit Ha. unfold len in *.
  pose proof (copyAt_length _ _ _ _ Ha) as Hl1.
  destruct (copyAt_is_Some d1 (off + Z.of_nat (length a)) b
              ltac:(lia) ltac:(unfold len; lia)) as [d2 Hb].
  destruct (copyAt_is_Some d off (a ++ b) H0 ltac:(unfold len; lia))
    as [d3 Hab].
  rewrite Hb, Hab. f_equal.
  pose proof (copyAt_length _ _ _ _ Hb) as Hl2.
  pose proof (copyAt_length _ _ _ _ Hab) as Hl3.
  apply list_eq. intros i.
  destruct (decide (Z.of_nat i < off)) as [Hi|Hi].
  { rewrite (copyAt_lookup_out _ _ _ _ i Hb) by lia.
    rewrite (copyAt_lookup_out _ _ _ _ i Ha) by lia.
    by rewrite (copyAt_lookup_out _ _ _ _ i Hab) by lia. }
  destruct (decide (Z.of_nat i < off + Z.of_nat (length a))) as [Hi1|Hi1].
  { rewrite (copyAt_lookup_out _ _ _ _ i Hb) by lia.
    replace i with (Z.to_nat off + (i - Z.to_nat off))%nat by lia.
    rewrite (copyAt_lookup_in _ _ _ _ _ Ha) by (unfold len; lia).
    rewrite (copyAt_lookup_in _ _ _ _ _ Hab)
      by (unfold len; rewrite ?length_app; lia).
    by rewrite lookup_app_l by lia. }
  destruct (decide (Z.of_nat i
                    < off + Z.of_nat (length a) + Z.of_nat (length b)))
    as [Hi2|Hi2].
  { replace i with (Z.to_nat (off + Z.of_nat (length a))
                    + (i - Z.to_nat off - length a))%nat at 1 by lia.
    rewrite (copyAt_lookup_in _ _ _ _ _ Hb) by (unfold len; lia).
    replace i with (Z.to_nat off + (i - Z.to_nat off))%nat at 2 by lia.
    rewrite (copyAt_lookup_in _ _ _ _ _ Hab)
      by (unfold len; rewrite ?length_app; lia).
    rewrite lookup_app_r by lia. f_equal. }
  rewrite (copyAt_lookup_out _ _ _ _ i Hb) by (unfold len; lia).
  rewrite (copyAt_lookup_out _ _ _ _ i Ha) by (unfold len; lia).
  by rewrite (copyAt_lookup_out _ _ _ _ i Hab)
    by (unfold len; rewrite length_app; lia).
Qed.

(** The copy loop of [PutMultiValue] writes what one [copy] of the
    concatenated pieces writes, as long as the pieces fit the arena. *)
Lemma copyVals_concat : ∀ vals d off,
  0 ≤ off → off + len (concat vals) ≤ len d → len d < 2 ^ 32 →
  fst <$> copyVals d off vals = copyAt d off (concat vals).
Proof.
  induction vals as [|v vals IH]; intros d off H0 Hfit Hd.
  - cbn [copyVals concat]. rewrite copyAt_nil; [done|lia|].
    unfold len in *. simpl in Hfit. lia.
  - cbn [copyVals concat] in *. unfold len in *. rewrite length_app in Hfit.
    destruct (copyAt_is_Some d off v H0 ltac:(unfold len; lia)) as [d1 Hv].
    rewrite Hv. cbn [mbind option_bind].
    pose proof (copyAt_length _ _ _ _ Hv) as Hl1.
    rewrite u32_small by (unfold len; lia).
    rewrite IH by (unfold len in *; lia).
    apply copyAt_app; unfold len; try lia. done.
Qed.

Lemma copyVals_bind {A} vals d off (f : list byte → option A) :
  0 ≤ off → off + len (concat vals) ≤ len d → len d < 2 ^ 32 →
  ('(d2, _) ← copyVals d off vals; f d2) = (d2 ← copyAt d off (concat vals); f d2).
Proof.
  intros H0 Hfit Hd. rewrite <- (copyVals_concat vals d off H0 Hfit Hd).
  by destruct (copyVals d off vals) as [[d2 i]|].
Qed.

Section MultiValue.

Variable P : Package.

(** [PutMultiValue] is [Put] of the concatenated pieces: called with the
    total length of the pieces, it returns what [Put] returns for their
    concatenation and leaves the same shard, whenever the arena is well
    formed and the value the slot holds lies inside it. *)
Theorem PutMultiValue_as_Put m l key vals :
  arena_ok (kvHolder m) →
  len (concat vals) < 2 ^ 31 →
  (∀ g s k vh,
     probeWith m (keyTest m key) l = Some (Found g s) →
     get2 (groups m) g s = Some k →
     loadAt (KV.data (kvHolder m)) (u32 (u32 (offset k * 4) + 16)) = Some vh →
     valType k = 0 →
     Z.land vh IdxOffsetMask * 4 + capOrBigSize k * 4
     ≤ len (KV.data (kvHolder m))) →
  PutMultiValue P m l key (len (concat vals)) vals
  = Put P m l key (concat vals).
Proof.
  intros [At Aal Ahi Acap Asz] Hlv Hreg. unfold PutMultiValue, Put.
  destruct (probeWith m (keyTest m key) l) as [[g s|g e]|] eqn:Hp; try done.
  cbn [mbind option_bind]. unfold putMultiFound, putFound.
  destruct (get2 (groups m) g s) as [k|] eqn:Hk; [|done].
  cbn [mbind option_bind].
  destruct (loadAt _ _) as [vh|] eqn:Hvh; [|done]. cbn [mbind option_bind].
  specialize (Hreg g s k vh eq_refl Hk Hvh).
  assert (Hlv0 : 0 ≤ len (concat vals)) by (unfold len; lia).
  rewrite (u32_small (len (concat vals))) by lia.
  set (lv := len (concat vals)) in *.
  destruct (Cap4Size_spec lv ltac:(lia)) as (Hc1 & Hc2 & _).
  pose proof (capOrBigSize_range k) as Hcr.
  assert (Hvo : 0 ≤ Z.land vh IdxOffsetMask < 2 ^ 24).
  { rewrite headerOffset_mod. apply Z.mod_pos_bound. lia. }
  destruct (limitSize P <=? lv); [done|].
  destruct (overLongSize P <=? lv).
  { destruct (releaseOld P (kvHolder m) k vh) as [h1|] eqn:Hrel; [|done].
    cbn [mbind option_bind].
    apply releaseOld_frame in Hrel as (Hcap & _ & Htl & _ & Hdt).
    rewrite Hcap, Htl, Hdt.
    destruct (Z.ltb_spec (KV.cap (kvHolder m))
                (u32 (u32 (KV.tail (kvHolder m) + 20)
                      + u32 (Cap4Size lv + 4)))) as [|Hfit]; [done|].
    rewrite !u32_small in Hfit by (rewrite ?u32_small; lia).
    destruct (storeAt _ _ _) as [d1|] eqn:Hd1; [|done].
    cbn [mbind option_bind].
    apply copyVals_bind; rewrite ?u32_small by lia;
      unfold len in *; rewrite ?(storeAt_length _ _ _ _ Hd1); lia. }
  destruct (overShortSize P <=? lv).
  { destruct (releaseOld P (kvHolder m) k vh) as [h1|] eqn:Hrel; [|done].
    cbn [mbind option_bind].
    apply releaseOld_frame in Hrel as (Hcap & _ & Htl & _ & Hdt).
    rewrite Hcap, Htl, Hdt.
    destruct (Z.ltb_spec (KV.cap (kvHolder m))
                (u32 (KV.tail (kvHolder m) + Cap4Size lv))) as [|Hfit];
      [done|].
    rewrite !u32_small in Hfit by lia.
    apply copyVals_bind; unfold len in *; lia. }
  destruct ((valType k =? 0) && (lv <=? u32 (capOrBigSize k * 4))
            && (lv <? overShortSize P)) eqn:Hin.
  { apply andb_prop in Hin as [Hin _]. apply andb_prop in Hin as [Hty Hle].
    apply Z.eqb_eq in Hty. apply Z.leb_le in Hle.
    rewrite u32_small in Hle by lia. specialize (Hreg Hty).
    destruct (storeAt _ _ _) as [d1|] eqn:Hd1; [|done].
    cbn [mbind option_bind].
    apply copyVals_bind; rewrite ?u32_small by lia;
      unfold len in *; rewrite ?(storeAt_length _ _ _ _ Hd1); lia. }
  destruct (releaseOld P (kvHolder m) k vh) as [h1|] eqn:Hrel; [|done].
  cbn [mbind option_bind].
  apply releaseOld_frame in Hrel as (Hcap & _ & Htl & _ & Hdt).
  rewrite Hcap, Htl, Hdt.
  destruct (Z.ltb_spec (KV.cap (kvHolder m))
              (u32 (KV.tail (kvHolder m) + Cap4Size lv))) as [|Hfit];
    [done|].
  rewrite !u32_small in Hfit by lia.
  apply copyVals_bind; unfold len in *; lia.
Qed.

End MultiValue.

Lemma PutMultiValue_as_Put_witness :
  PutMultiValue demoPackage demoShard (demoHash keyA) keyA
    (len (concat [[Byte.x79]; [Byte.x7a; Byte.x79]]))
    [[Byte.x79]; [Byte.x7a; Byte.x79]]
  = Put demoPackage demoShard (demoHash keyA) keyA
      (concat [[Byte.x79]; [Byte.x7a; Byte.x79]]).
Proof.
  apply (PutMultiValue_as_Put demoPackage demoShard (demoHash keyA) keyA
           [[Byte.x79]; [Byte.x7a; Byte.x79]]).
  - exact demoShard_arena.
  - by vm_compute.
  - intros g s k vh Hp Hk Hvh _.
    assert (g = 0%nat ∧ s = 0%nat) as [-> ->]
      by (vm_compute in Hp; by injection Hp as <- <-).
    injection Hk as <-. vm_compute in Hvh. injection Hvh as <-.
    by vm_compute.
Defined.

(** ** Insertion by RePut *)

Lemma probeLoop_insert ct ct' G lo test test' g0 s0 fuel : ∀ g e,
  rows16 ct → get2 ct g0 s0 = Some empty → set2 ct g0 s0 lo = Some ct' →
  lo ≠ empty →
  (∀ g s, (g, s) ≠ (g0, s0) → get2 ct g s = Some lo →
          test g s = Some false → test' g s = Some false) →
  test' g0 s0 = Some true →
  probeLoop ct G lo test fuel g = Some (AtEmpty g0 e) →
  probeLoop ct' G lo test' fuel g = Some (Found g0 s0).
Proof.
  induction fuel as [|fuel IH]; intros g e Hr He0 Hset Hlo Hext Ht H; [done|].
  cbn [probeLoop] in *.
  destruct (ct !! g) as [md|] eqn:Hmd; [|done]. cbn [mbind option_bind] in H.
  pose proof (rows16_lookup _ _ _ Hr Hmd) as Hl.
  rewrite scan_spec in H by lia.
  destruct (firstHit (test g) (matchSlots md lo)) as [[s|]|] eqn:Hfh;
    cbn [mbind option_bind] in H; try done.
  pose proof (firstHit_None _ _ Hfh) as Hall.
  destruct (decide (g = g0)) as [->|Hg].
  - rewrite (set2_lookup_eq _ _ _ _ _ md Hset Hmd). cbn [mbind option_bind].
    rewrite scan_spec by (rewrite length_insert; lia).
    apply get2_Some in He0 as (md0 & Hmd0 & Hs0).
    assert (md0 = md) as -> by congruence.
    assert (Hs16 : (s0 < 16)%nat) by (apply lookup_lt_Some in Hs0; lia).
    unfold matchSlots.
    rewrite (firstHit_filter (test' g0) _ (seq 0 16) s0); [done|..].
    + apply NoDup_seq.
    + apply elem_of_seq. lia.
    + apply list_lookup_insert_eq. lia.
    + done.
    + intros x Hx Hq Hne. rewrite list_lookup_insert_ne in Hq by done.
      apply Hext; [congruence|apply get2_Some; eauto|].
      apply Hall. apply elem_of_matchSlots. split; [|done].
      apply elem_of_seq in Hx. lia.
  - rewrite (set2_lookup_ne _ _ _ _ _ g Hset Hg), Hmd.
    cbn [mbind option_bind]. rewrite scan_spec by lia.
    rewrite (firstHit_all_false (test' g)).
    2:{ intros s Hs. apply Hext; [congruence| |by apply Hall].
        eapply get2_matchSlots; eauto. }
    cbn [mbind option_bind].
    destruct (negb (metaMatchEmpty md =? 0)); [injection H; congruence|].
    by apply (IH _ e).
Qed.

Section Insert.

Variable P : Package.

(** The insert path of [RePut] appends the pair as [gcSet] does. *)
Lemma rePutInsert_gcSet m g matches lo key value :
  rePutInsert P m g matches lo key value
  = let s := fst (nextMatch matches) in
    let h := kvHolder m in
    let ntail := u32 (u32 (KV.tail h + 20)
                      + (if overLongSize P <=? u32 (len value)
                         then u32 (Cap4Size (u32 (len value)) + 4)
                         else Cap4Size (u32 (len value)))) in
    if KV.cap h <? ntail then Some (m, false)
    else
      '(h', kN) ← gcSet P h key value;
      gs ← set2 (groups m) g s kN;
      ct ← set2 (ctrl m) g s lo;
      cn ← set2 (counters m) g s 1;
      Some (setResident (setCounters (setCtrl (setKV (setGroups m gs) h') ct) cn)
              (u32 (resident m + 1)), true).
Proof.
  unfold rePutInsert, gcSet. cbn zeta.
  destruct (KV.cap (kvHolder m) <? _); [done|].
  destruct (copyAt _ _ key) as [d0|]; [|done]. cbn [mbind option_bind].
  destruct (overLongSize P <=? u32 (len value)).
  - destruct (storeAt d0 _ _) as [d1|]; [|done]. cbn [mbind option_bind].
    destruct (copyAt d1 _ _) as [d2|]; [|done]. cbn [mbind option_bind].
    destruct (storeAt d2 _ _) as [d3|]; [|done]. done.
  - destruct (overShortSize P <=? u32 (len value)).
    + destruct (copyAt d0 _ _) as [d1|]; [|done]. cbn [mbind option_bind].
      destruct (storeAt d1 _ _) as [d2|]; [|done]. done.
    + destruct (copyAt d0 _ _) as [d1|]; [|done]. cbn [mbind option_bind].
      destruct (storeAt d1 _ _) as [d2|]; [|done]. done.
Qed.

Lemma get2_is_Some_rows {A B} (t : list (list A)) (t' : list (list B)) g s :
  rows16 t → rows16 t' → length t' = length t →
  is_Some (get2 t g s) → is_Some (get2 t' g s).
Proof.
  intros Hr Hr' Hlen [x (row & Hrow & Hx)%get2_Some].
  assert (is_Some (t' !! g)) as [row' Hrow'].
  { apply lookup_lt_is_Some. rewrite Hlen. by apply lookup_lt_Some in Hrow. }
  assert (is_Some (row' !! s)) as [y Hy].
  { apply lookup_lt_is_Some. rewrite (rows16_lookup _ _ _ Hr' Hrow').
    rewrite <- (rows16_lookup _ _ _ Hr Hrow). by apply lookup_lt_Some in Hx. }
  exists y. apply get2_Some. eauto.
Qed.

Lemma valueCap_u32 lv :
  0 ≤ lv < 2 ^ 31 →
  (if overLongSize P <=? u32 lv then u32 (Cap4Size (u32 lv) + 4)
   else Cap4Size (u32 lv)) = valueCap P lv.
Proof.
  intros Hlv. rewrite (u32_small lv) by lia. unfold valueCap.
  destruct (overLongSize P <=? lv); [|done].
  destruct (Cap4Size_spec lv ltac:(lia)) as (? & ? & _).
  apply u32_small. lia.
Qed.

(** The insert path of [RePut], when the three gates are open, the key
    is not on its probe path and the pair fits the arena. *)
Lemma RePut_insert_core m l key value g e :
  Inv m → arena_ok (kvHolder m) →
  length key = 16%nat → len value < 2 ^ 31 →
  KV.tail (kvHolder m) < KV.limit (kvHolder m) →
  rehashing m = false → resident m < limit m →
  probeWith m (keyTest m key) l = Some (AtEmpty g e) →
  KV.tail (kvHolder m) + 20 + valueCap P (len value) ≤ KV.cap (kvHolder m) →
  ∃ h' kN gs ct cn,
    gcSet P (kvHolder m) key value = Some (h', kN)
    ∧ get2 (ctrl m) g (fst (nextMatch e)) = Some empty
    ∧ set2 (groups m) g (fst (nextMatch e)) kN = Some gs
    ∧ set2 (ctrl m) g (fst (nextMatch e)) (snd (splitHash l)) = Some ct
    ∧ set2 (counters m) g (fst (nextMatch e)) 1 = Some cn
    ∧ RePut P m l key value
      = Some (setResident
                (setCounters (setCtrl (setKV (setGroups m gs) h') ct) cn)
                (u32 (resident m + 1)), true).
Proof.
  intros I A Hkey Hlv Hgate1 Hgate2 Hgate3 Hp Hfit.
  pose proof A as [At Aal Ahi Acap Asz].
  assert (Hlv0 : 0 ≤ len value) by (unfold len; lia).
  destruct (valueCap_spec P (len value) ltac:(lia)) as (Hv1 & Hv2 & _).
  destruct (probeWith_AtEmpty _ _ _ _ _ Hp) as (md & Hmd & -> & Hne).
  pose proof (rows16_lookup _ _ _ (inv_ctrl m I) Hmd) as Hl16.
  assert (He : get2 (ctrl m) g (fst (nextMatch (metaMatchEmpty md)))
               = Some empty).
  { eapply get2_matchSlots; [done|].
    rewrite (nextMatch_empty md) by (done || lia). left. }
  destruct (gcSet_total P (kvHolder m) key value A Hkey Hlv
              ltac:(lia)) as [[h' kN] Hgc].
  destruct (set2_is_Some (ctrl m) g _ (snd (splitHash l)) _ He) as [ct Hct].
  destruct (get2_is_Some_rows (ctrl m) (groups m) g
              (fst (nextMatch (metaMatchEmpty md)))
              (inv_ctrl m I) (inv_groups m I) (inv_len_groups m I)
              ltac:(eauto)) as [k0 Hk0].
  destruct (get2_is_Some_rows (ctrl m) (counters m) g
              (fst (nextMatch (metaMatchEmpty md)))
              (inv_ctrl m I) (inv_counters m I) (inv_len_counters m I)
              ltac:(eauto)) as [c0 Hc0].
  destruct (set2_is_Some (groups m) g _ kN _ Hk0) as [gs Hgs].
  destruct (set2_is_Some (counters m) g _ 1 _ Hc0) as [cn Hcn].
  exists h', kN, gs, ct, cn. do 5 (split; [done|]).
  unfold RePut.
  destruct (Z.leb_spec (KV.limit (kvHolder m)) (KV.tail (kvHolder m)));
    [lia|].
  rewrite Hgate2.
  destruct (Z.leb_spec (limit m) (resident m)); [lia|].
  cbn [mbind option_bind]. rewrite Hp. cbn [mbind option_bind].
  rewrite rePutInsert_gcSet. cbn zeta.
  rewrite valueCap_u32 by lia.
  rewrite !u32_small by (rewrite ?u32_small; lia).
  destruct (Z.ltb_spec (KV.cap (kvHolder m))
              (KV.tail (kvHolder m) + 20 + valueCap P (len value))); [lia|].
  rewrite Hgc. cbn [mbind option_bind]. rewrite Hgs. cbn [mbind option_bind].
  rewrite Hct. cbn [mbind option_bind]. rewrite Hcn. done.
Qed.

Lemma RePut_insert_nofit m l key value g e :
  arena_ok (kvHolder m) → len value < 2 ^ 31 →
  KV.tail (kvHolder m) < KV.limit (kvHolder m) →
  rehashing m = false → resident m < limit m →
  probeWith m (keyTest m key) l = Some (AtEmpty g e) →
  KV.cap (kvHolder m) < KV.tail (kvHolder m) + 20 + valueCap P (len value) →
  RePut P m l key value = Some (m, false).
Proof.
  intros [At Aal Ahi Acap Asz] Hlv Hgate1 Hgate2 Hgate3 Hp Hno.
  assert (Hlv0 : 0 ≤ len value) by (unfold len; lia).
  destruct (valueCap_spec P (len value) ltac:(lia)) as (Hv1 & Hv2 & _).
  unfold RePut.
  destruct (Z.leb_spec (KV.limit (kvHolder m)) (KV.tail (kvHolder m)));
    [lia|].
  rewrite Hgate2.
  destruct (Z.leb_spec (limit m) (resident m)); [lia|].
  cbn [mbind option_bind]. rewrite Hp. cbn [mbind option_bind].
  rewrite rePutInsert_gcSet. cbn zeta.
  rewrite valueCap_u32 by lia.
  destruct (Z.ltb_spec (KV.cap (kvHolder m))
              (u32 (u32 (KV.tail (kvHolder m) + 20)
                    + valueCap P (len value)))) as [|Hge]; [done|].
  rewrite !u32_small in Hge by (rewrite ?u32_small; lia). lia.
Qed.

(** What an insertion by [RePut] does to the counts: with the three
    gates open and the key not on its probe path, [RePut] returns false
    and changes nothing when the pair does not fit the arena; when it
    fits, [RePut] returns true, the first empty slot of the group the
    probe stopped at takes the tag of the key and counter 1, no other
    slot changes, [resident], [Items] and [Count] grow by one, and the
    tail of the arena advances by the 20 bytes of key and header and the
    padded size of the value. *)
Theorem RePut_insert_effects m l key value g e :
  Inv m → arena_ok (kvHolder m) →
  length key = 16%nat → len value < 2 ^ 31 →
  KV.tail (kvHolder m) < KV.limit (kvHolder m) →
  rehashing m = false → resident m < limit m →
  probeWith m (keyTest m key) l = Some (AtEmpty g e) →
  let need := KV.tail (kvHolder m) + 20 + valueCap P (len value) in
  let s := fst (nextMatch e) in
  (KV.cap (kvHolder m) < need → RePut P m l key value = Some (m, false))
  ∧ (need ≤ KV.cap (kvHolder m) →
     ∃ m', RePut P m l key value = Some (m', true)
       ∧ get2 (ctrl m) g s = Some empty
       ∧ get2 (ctrl m') g s = Some (snd (splitHash l))
       ∧ get2 (counters m') g s = Some 1
       ∧ (∀ g' s', (g', s') ≠ (g, s) →
            get2 (ctrl m') g' s' = get2 (ctrl m) g' s'
            ∧ get2 (counters m') g' s' = get2 (counters m) g' s'
            ∧ get2 (groups m') g' s' = get2 (groups m) g' s')
       ∧ resident m' = resident m + 1 ∧ dead m' = dead m
       ∧ Items m' = Items m + 1 ∧ Count m' = Count m + 1
       ∧ UsedMem m' = need).
Proof.
  intros I A Hkey Hlv Hgate1 Hgate2 Hgate3 Hp need s.
  pose proof A as [At Aal Ahi Acap Asz].
  assert (Hlv0 : 0 ≤ len value) by (unfold len; lia).
  destruct (valueCap_spec P (len value) ltac:(lia)) as (Hv1 & Hv2 & _).
  split.
  - intros Hno. by eapply RePut_insert_nofit.
  - intros Hfit.
    destruct (RePut_insert_core m l key value g e I A Hkey Hlv Hgate1 Hgate2
                Hgate3 Hp Hfit)
      as (h' & kN & gs & ct & cn & Hgc & He & Hgs & Hct & Hcn & HR).
    eexists. split; [exact HR|]. fields.
    split; [done|]. split; [by eapply get2_set2_eq|].
    split; [by eapply get2_set2_eq|].
    split.
    { intros g' s' Hne.
      by rewrite (get2_set2_ne _ _ _ _ _ g' s' Hct Hne),
           (get2_set2_ne _ _ _ _ _ g' s' Hcn Hne),
           (get2_set2_ne _ _ _ _ _ g' s' Hgs Hne). }
    pose proof (Inv_bounds m I) as (Hi0 & Hd0 & Hsum & Hres & Hres32).
    assert (Hroom : resident m < 16 * len (ctrl m)).
    { destruct I as [Hrc _ _ _ _ _ Hi Hd Hr].
      pose proof (countTable_partition (ctrl m) Hrc) as Hpart.
      assert (0 < countTable isEmpty (ctrl m)); [|lia].
      destruct (set2_is_Some (ctrl m) g s 0 empty He) as [t' Ht'].
      pose proof (countTable_set2 isEmpty _ _ _ _ _ 0 He Ht') as HE.
      change (isEmpty empty) with true in HE.
      change (isEmpty 0) with false in HE. simpl Z.b2z in HE.
      pose proof (countTable_partition t'
                    ltac:(by eapply set2_rows16)) as Hpart'.
      pose proof (countTable_disjoint isLive isDead t' isLive_not_dead
                    ltac:(by eapply set2_rows16)) as (? & ? & Hd').
      pose proof (set2_length _ _ _ _ _ Ht') as Hlen'.
      unfold len in *. rewrite Hlen' in Hpart', Hd'. lia. }
    pose proof (inv_size m I) as Hsz.
    destruct (gcSet_frame P _ _ _ _ _ Hgc) as (Hit & _).
    pose proof (gcSet_tail P _ _ _ _ _ Hlv A Hgc) as Htl.
    split; [apply u32_small; lia|]. split; [done|].
    unfold Items, Count, UsedMem. fields.
    split; [rewrite Hit; apply u32_small; lia|].
    split; [|done].
    rewrite !u32_small by (rewrite ?u32_small; lia). lia.
Qed.

Hypothesis LO : layout_ok P.

(** Round trip through the insert path: with the three gates open and
    the key not on its probe path, a [RePut] that returns true is
    followed by a [Get] of the key that returns the value just written,
    whatever its layout (short, medium or long). *)
Theorem RePut_insert_then_Get m l key value g e m' :
  Inv m → arena_ok (kvHolder m) → belowTail m →
  length key = 16%nat → len value < 2 ^ 31 →
  KV.tail (kvHolder m) < KV.limit (kvHolder m) →
  rehashing m = false → resident m < limit m →
  probeWith m (keyTest m key) l = Some (AtEmpty g e) →
  RePut P m l key value = Some (m', true) →
  ∃ m'', Get P m' l key = Some (m'', (value, true)).
Proof.
  intros I A Hbt Hkey Hlv Hgate1 Hgate2 Hgate3 Hp HR.
  pose proof A as [At Aal Ahi Acap Asz].
  assert (Hfit : KV.tail (kvHolder m) + 20 + valueCap P (len value)
                 ≤ KV.cap (kvHolder m)).
  { destruct (Z.le_gt_cases (KV.tail (kvHolder m) + 20
                             + valueCap P (len value))
                (KV.cap (kvHolder m))) as [|Hno]; [done|].
    rewrite (RePut_insert_nofit m l key value g e A Hlv Hgate1 Hgate2 Hgate3
               Hp ltac:(lia)) in HR. done. }
  destruct (RePut_insert_core m l key value g e I A Hkey Hlv Hgate1 Hgate2
              Hgate3 Hp Hfit)
    as (h' & kN & gs & ct & cn & Hgc & He & Hgs & Hct & Hcn & HR').
  rewrite HR' in HR. injection HR as <-. clear HR'.
  set (s := fst (nextMatch e)) in *.
  pose proof (gcSet_tail P _ _ _ _ _ Hlv A Hgc) as Htl.
  destruct (gcSet_readback P LO _ _ _ _ _ A Hkey Hlv Hgc ltac:(lia))
    as (_ & Hag & _ & _ & _ & HkN & Hoff & Hread).
  destruct (Hread h' (agreeBelow_refl _ _)) as (Hkv & _).
  assert (HkN0 : kN ≠ 0).
  { intros ->. change (offset 0) with 0 in Hoff. lia. }
  unfold getKVUnlock in Hkv.
  destruct (getKey h' kN) as [kb|] eqn:Hkb; [|done].
  cbn [mbind option_bind] in Hkv.
  destruct (loadAt (KV.data h') _) as [vh|] eqn:Hvh; [|done].
  cbn [mbind option_bind] in Hkv.
  destruct (decodeValue P h' kN vh) as [[vo vs]|] eqn:Hdv; [|done].
  cbn [mbind option_bind] in Hkv.
  destruct (getValue h' vo vs) as [v|] eqn:Hgv; [|done].
  cbn [mbind option_bind] in Hkv. injection Hkv as -> ->.
  pose proof (splitHash_lo l) as Hlo.
  unfold Get. fields.
  set (m1 := setQueryCnt _ _).
  assert (Hprobe : probeWith m1 (getTest m1 key) l = Some (Found g s)).
  { unfold probeWith in *. destruct (splitHash l) as [hi lo] eqn:Hs.
    subst m1. fields. rewrite (set2_length _ _ _ _ _ Hgs).
    destruct (probeStart hi (length (groups m))) as [g0|]; [|done].
    cbn [mbind option_bind] in *. simpl in Hct, Hlo.
    apply (probeLoop_insert (ctrl m) ct _ lo (keyTest m key) _ g s _ g0 e);
      try done.
    - apply I.
    - unfold empty. lia.
    - intros g' s' Hne Hc' Ht'. unfold getTest. fields.
      rewrite (get2_set2_ne _ _ _ _ _ g' s' Hgs Hne).
      unfold keyTest, getKey in Ht'.
      destruct (get2 (groups m) g' s') as [k|] eqn:Hk; [|done].
      cbn [mbind option_bind] in *.
      destruct (Z.eqb_spec k 0) as [|Hk0]; [done|].
      pose proof (Hbt g' s' lo k Hc' ltac:(lia) Hk Hk0) as Hb.
      assert (0 ≤ offset k).
      { rewrite offset_mod. apply Z.mod_pos_bound. lia. }
      rewrite !u32_small in * by (rewrite ?u32_small; lia).
      rewrite (slice_agreeBelow _ _ _ _ _ Hag) by lia. done.
    - unfold getTest. fields. rewrite (get2_set2_eq _ _ _ _ _ Hgs).
      cbn [mbind option_bind].
      destruct (Z.eqb_spec kN 0) as [|_]; [done|].
      unfold getKey in Hkb. rewrite Hkb. cbn [mbind option_bind].
      unfold bytesEqual. by rewrite bool_decide_eq_true_2. }
  rewrite Hprobe. cbn [mbind option_bind]. subst m1. fields.
  rewrite (get2_set2_eq _ _ _ _ _ Hgs). cbn [mbind option_bind].
  rewrite Hvh. cbn [mbind option_bind]. rewrite Hdv.
  cbn [mbind option_bind]. rewrite Hgv. cbn [mbind option_bind].
  unfold add. fields. rewrite (get2_set2_eq _ _ _ _ _ Hcn).
  cbn [mbind option_bind]. change (1 <? maxCount) with true. cbn iota.
  destruct (set2_is_Some cn g s (1 + 1) 1 (get2_set2_eq _ _ _ _ _ Hcn))
    as [cn' ->].
  cbn [mbind option_bind]. by eexists.
Qed.

End Insert.

Lemma demoShard_belowTail : belowTail demoShard.
Proof.
  intros g s c k Hc Hl Hk Hk0.
  destruct g as [|g]; [|by destruct g].
  destruct s as [|s]; [injection Hk as <-; by vm_compute|].
  do 15 (destruct s as [|s]; [injection Hc as <-; by vm_compute in Hl|]).
  by vm_compute in Hc.
Defined.

Lemma RePut_insert_effects_witness :
  ∃ m', RePut demoPackage demoShard (demoHash keyB) keyB hello
        = Some (m', true)
        ∧ get2 (ctrl m') 0 1 = Some (snd (splitHash (demoHash keyB)))
        ∧ get2 (counters m') 0 1 = Some 1
        ∧ resident m' = resident demoShard + 1
        ∧ Items m' = Items demoShard + 1
        ∧ UsedMem m' = 60.
Proof.
  destruct (proj2 (RePut_insert_effects demoPackage demoShard (demoHash keyB)
                     keyB hello 0%nat 65534 demoShard_Inv demoShard_arena
                     eq_refl ltac:(by vm_compute) ltac:(by vm_compute)
                     eq_refl ltac:(by vm_compute) ltac:(by vm_compute))
              ltac:(by vm_compute))
    as (m' & HR & _ & Hc & Hn & _ & Hres & _ & Hit & _ & Hu).
  exists m'. split; [exact HR|]. split; [exact Hc|]. split; [exact Hn|].
  split; [exact Hres|]. split; [exact Hit|]. exact Hu.
Defined.

Lemma RePut_insert_then_Get_witness :
  ∃ m'', RePut demoPackage demoShard (demoHash keyB) keyB hello
         = Some (demoShardAB, true)
         ∧ Get demoPackage demoShardAB (demoHash keyB) keyB
           = Some (m'', (hello, true)).
Proof.
  destruct (RePut_insert_then_Get demoPackage demoPackage_layout demoShard
              (demoHash keyB) keyB hello 0%nat 65534 demoShardAB
              demoShard_Inv demoShard_arena demoShard_belowTail eq_refl
              ltac:(by vm_compute) ltac:(by vm_compute) eq_refl
              ltac:(by vm_compute) ltac:(by vm_compute) eq_refl)
    as [m'' H].
  exists m''. split; [reflexivity|exact H].
Defined.

(** ** Rebuilding and evicting *)

Section Maintenance.

Variable P : Package.

Lemma Inv_Count m : Inv m → Count m = Items m.
Proof.
  intros I. pose proof (Inv_bounds m I) as (Hi0 & Hd0 & Hsum & Hres & Hres32).
  unfold Count, Items. rewrite u32_small; lia.
Qed.

Lemma nextSize_bound m :
  len (groups m) < 2 ^ 27 → 16 * Z.of_nat (nextSize m) < 2 ^ 32.
Proof.
  intros HG. unfold nextSize, len in *.
  destruct (resident m / 2 <=? dead m); [lia|].
  rewrite u32_small by (Z.div_mod_to_equations; lia).
  rewrite Z2Nat.id by (Z.div_mod_to_equations; lia).
  Z.div_mod_to_equations; lia.
Qed.

(** [rehash] neither loses nor duplicates an entry: the rebuilt table
    has as many items as the old one, [Count] is unchanged, no slot is a
    tombstone, so [resident] equals the number of items, and the query
    statistics are kept. *)
Theorem rehash_keeps_items m m' :
  Inv m → len (groups m) < 2 ^ 27 → rehash P m = Some m' →
  Inv m' ∧ Items m' = Items m ∧ Count m' = Count m
  ∧ resident m' = Items m ∧ dead m' = 0
  ∧ queryCnt m' = queryCnt m ∧ missCnt m' = missCnt m.
Proof.
  intros I HG H. pose proof (nextSize_bound m HG) as Hn.
  assert (I' : Inv m').
  { apply (rehash_Inv P m m' I H). unfold rehash in H. unbind H.
    injection H as <-. fields.
    match goal with E : moveRows _ _ _ _ = Some _ |- _ =>
      apply moveRows_length in E; unfold len; rewrite E end.
    simpl. by rewrite length_replicate. }
  split; [done|]. rewrite (Inv_Count m' I'), (Inv_Count m I).
  unfold rehash in H. unbind H. injection H as <-. unfold Items. fields.
  match goal with E : moveRows _ _ _ _ = Some _ |- _ =>
    destruct (rebuilt_counts P m _ r I Hn E) as ([] & HL & Hlen) end.
  destruct I. repeat split; congruence.
Qed.

Lemma dropSlot_count m n gs m' n' :
  Inv m → dropSlot P (m, n) gs = Some (m', n') →
  Inv m' ∧ n ≤ n' ∧ Items m' = Items m - (n' - n)
  ∧ dead m' = dead m + (n' - n) ∧ resident m' = resident m
  ∧ limit m' = limit m ∧ length (groups m') = length (groups m)
  ∧ queryCnt m' = queryCnt m ∧ missCnt m' = missCnt m.
Proof.
  intros I H. pose proof (dropSlot_Inv P m n gs m' n' I H) as I'.
  split; [done|]. unfold dropSlot in H. destruct gs as [g s].
  unbind H; injection H as <- <-.
  { unfold Items. repeat split; lia. }
  match goal with
  | E : (?c =? tombstone) || (?c =? empty) = false |- _ =>
      assert (Hl : isLive c = true)
        by (unfold isLive; apply orb_false_iff in E as [-> ->]; done)
  end.
  destruct I' as [_ _ _ _ _ _ Hi' Hd' _]. destruct I as [_ _ _ _ _ _ Hi Hd _].
  unfold Items. fields. rewrite Hi', Hd', Hi, Hd.
  match goal with
  | Hc : get2 (ctrl m) g s = Some _, Hs : set2 (ctrl m) g s _ = Some _ |- _ =>
      rewrite (countTable_set2 isLive _ _ _ _ _ _ Hc Hs),
        (countTable_set2 isDead _ _ _ _ _ _ Hc Hs)
  end.
  rewrite Hl, (isLive_not_dead _ Hl).
  change (isLive tombstone) with false. change (isDead tombstone) with true.
  simpl Z.b2z.
  match goal with
  | Hs : set2 (groups m) g s _ = Some _ |- _ =>
      rewrite (set2_length _ _ _ _ _ Hs)
  end.
  repeat split; lia.
Qed.

Lemma dropSlots_count item : ∀ m n m' n',
  Inv m → dropSlots P (m, n) item = Some (m', n') →
  Inv m' ∧ n ≤ n' ∧ Items m' = Items m - (n' - n)
  ∧ dead m' = dead m + (n' - n) ∧ resident m' = resident m
  ∧ limit m' = limit m ∧ length (groups m') = length (groups m)
  ∧ queryCnt m' = queryCnt m ∧ missCnt m' = missCnt m.
Proof.
  induction item as [|gs item IH]; intros m n m' n' I H.
  - injection H as <- <-. unfold Items. split; [done|]. repeat split; lia.
  - cbn [dropSlots] in H. unbind H. destruct p as [m1 n1].
    match goal with E : dropSlot _ _ _ = Some _ |- _ =>
      destruct (dropSlot_count _ _ _ _ _ I E)
        as (I1 & ? & ? & ? & ? & ? & ? & ? & ?) end.
    destruct (IH _ _ _ _ I1 H) as (I2 & ? & ? & ? & ? & ? & ? & ? & ?).
    split; [done|]. repeat split; (congruence || lia).
Qed.

(** [Eliminate] keeps the books: whatever it returns, the count
    [delCount] it reports is the number of entries it evicted; [Items]
    and [Count] fall by it, [dead] grows by it, and [resident], [limit],
    the group count and the query statistics are unchanged. *)
Theorem Eliminate_accounting m m' d r :
  Inv m → Eliminate P m = Some (m', (d, r)) →
  Inv m' ∧ 0 ≤ d ∧ Items m' = Items m - d ∧ Count m' = Count m - d
  ∧ dead m' = dead m + d ∧ resident m' = resident m
  ∧ limit m' = limit m ∧ length (groups m') = length (groups m)
  ∧ queryCnt m' = queryCnt m ∧ missCnt m' = missCnt m.
Proof.
  intros I H.
  assert (Hskip : Inv m ∧ 0 ≤ 0 ∧ Items m = Items m - 0
            ∧ Count m = Count m - 0 ∧ dead m = dead m + 0
            ∧ resident m = resident m ∧ limit m = limit m
            ∧ length (groups m) = length (groups m)
            ∧ queryCnt m = queryCnt m ∧ missCnt m = missCnt m)
    by (split; [done|]; repeat split; lia).
  unfold Eliminate in H. unbind H; try (by injection H as <- <- <-).
  injection H as <- <- <-.
  match goal with E : dropSlots _ _ _ = Some _ |- _ =>
    destruct (dropSlots_count _ _ _ _ _ I E)
      as (I1 & ? & ? & ? & ? & ? & ? & ? & ?) end.
  match goal with E : ageCounters _ _ = Some _ |- _ =>
    pose proof (ageCounters_Inv _ _ _ I1 E) as I2;
    unfold ageCounters in E; unbind E; injection E as <- end.
  split; [done|]. rewrite (Inv_Count _ I2), (Inv_Count _ I).
  unfold Items in *. fields. repeat split; (congruence || lia).
Qed.

(** [Put] and [PutMultiValue] never add an entry: whatever they return,
    [resident], [limit] and the group count are unchanged and [Items]
    does not grow; when they return true the control bytes, the counters
    and [dead] are unchanged too, and [Items] is what it was. *)
Theorem Put_never_inserts m l key value vlen vals :
  (∀ m' b, Put P m l key value = Some (m', b) →
     resident m' = resident m ∧ limit m' = limit m
     ∧ length (groups m') = length (groups m)
     ∧ (b = true → ctrl m' = ctrl m ∧ counters m' = counters m
                   ∧ dead m' = dead m ∧ Items m' = Items m)
     ∧ (Inv m → Items m' ≤ Items m))
  ∧ (∀ m' b, PutMultiValue P m l key vlen vals = Some (m', b) →
     resident m' = resident m ∧ limit m' = limit m
     ∧ length (groups m') = length (groups m)
     ∧ (b = true → ctrl m' = ctrl m ∧ counters m' = counters m
                   ∧ dead m' = dead m ∧ Items m' = Items m)
     ∧ (Inv m → Items m' ≤ Items m)).
Proof.
  assert (Hsum : ∀ g s m' b,
    probeWith m (keyTest m key) l = Some (Found g s) →
    (b = true ∧ keepsCounts m m') ∨ (b = false ∧ tombstoned m g s m') →
    resident m' = resident m ∧ limit m' = limit m
    ∧ length (groups m') = length (groups m)
    ∧ (b = true → ctrl m' = ctrl m ∧ counters m' = counters m
                  ∧ dead m' = dead m ∧ Items m' = Items m)
    ∧ (Inv m → Items m' ≤ Items m)).
  { intros g s m' b Hp [(-> & Hk)|(-> & Ht)].
    - open_summaries. unfold Items.
      split; [done|]. split; [done|].
      split.
      { match goal with H : _ ∨ _ |- _ =>
          destruct H as [->|(g' & s' & k & Hs)]; [done|] end.
        by eapply set2_length. }
      split; [done|]. intros _. lia.
    - assert (Hit : Inv m → Items m' ≤ Items m).
      { intros I.
        destruct (probeWith_Found_live _ _ _ _ _ (inv_ctrl m I) Hp)
          as (c & Hc & Hl).
        destruct (tombstoned_Inv m g s c m' I Hc Hl Ht)
          as (_ & _ & Hi & _).
        unfold Items. lia. }
      open_summaries. unfold Items.
      split; [done|]. split; [done|].
      split.
      { match goal with H : _ ∨ _ |- _ =>
          destruct H as [->|Hs]; [done|] end.
        by eapply set2_length. }
      split; [done|]. exact Hit. }
  split.
  - intros m' b H. unfold Put in H. unbind H.
    destruct p as [g s|g e]; [|injection H as <- <-; by repeat split].
    eapply Hsum; [done|]. by eapply putFound_summary.
  - intros m' b H. unfold PutMultiValue in H. unbind H.
    destruct p as [g s|g e]; [|injection H as <- <-; by repeat split].
    eapply Hsum; [done|]. by eapply putMultiFound_summary.
Qed.

Lemma setRehashing_Inv m b : Inv m → Inv (setRehashing m b).
Proof. intros []. by constructor. Qed.

Lemma tableNeed_setRehashing m b gs :
  tableNeed P (setRehashing m b) gs = tableNeed P m gs.
Proof.
  induction gs as [|g gs IH]; [done|]. cbn [tableNeed]. rewrite IH. f_equal.
  change (ctrl (setRehashing m b)) with (ctrl m).
  destruct (ctrl m !! g) as [row|]; [|done].
  induction (seq 0 (length row)) as [|s ss IHs]; [done|].
  cbn [rowNeed]. rewrite IHs. f_equal.
Qed.

Hypothesis LO : layout_ok P.

(** [GCCopy], when it does not skip, compacts the arena and keeps the
    table: it returns the number of tombstones it dropped, the bytes it
    gained and skip code 0; the group count, [limit] and the number of
    items are unchanged, no tombstone is left, the arena is exactly as
    long as the pairs need, and every pair of an occupied slot is stored
    in the new table with its counter. *)
Theorem GCCopy_compacts m :
  Inv m → (0 < length (ctrl m))%nat →
  arena_ok (kvHolder m) → 4 ≤ KV.cap (kvHolder m) →
  readable P m → compactSize P m ≤ KV.cap (kvHolder m) →
  Items m < 16 * len (groups m) →
  garbageBelowRate P (kvHolder m) = false → rehashing m = false →
  ∃ m', GCCopy P m
        = Some (m', (dead m,
                     u32 (KV.tail (kvHolder m) - compactSize P m), 0))
    ∧ length (groups m') = length (groups m)
    ∧ length (ctrl m') = length (groups m)
    ∧ length (counters m') = length (groups m)
    ∧ dead m' = 0 ∧ resident m' = resident m - dead m
    ∧ Items m' = Items m ∧ limit m' = limit m ∧ rehashing m' = false
    ∧ UsedMem m' = compactSize P m
    ∧ ∀ g s key v cnt, holds P m g s key v cnt → stored P m' key v cnt.
Proof.
  intros I Hpos A Hcap4 Hrd Hfit Hroom Hgb Hrh.
  pose proof (Inv_bounds m I) as (Hi0 & Hd0 & Hsum & Hres & Hres32).
  pose proof A as [At Aal Ahi Acap Asz].
  set (m1 := setRehashing m true).
  assert (I1 : Inv m1) by (by apply setRehashing_Inv).
  assert (Hold : len (KV.data (kvHolder m1)) < 2 ^ 31) by (simpl; lia).
  pose proof I as [Hrc Hn Hg Hlc Hlg Hsz Hi Hd Hr].
  set (n := length (groups m)).
  assert (Hn32 : 16 * Z.of_nat n < 2 ^ 32)
    by (unfold n, len in *; rewrite Hlg; lia).
  assert (IR : InvR (freshTable P n (KV.cap (kvHolder m))))
    by (by apply freshTable_InvR).
  assert (AR : arena_ok (newKVHolder P (KV.cap (kvHolder m))))
    by (apply newKVHolder_ok; unfold len in *; lia).
  assert (Hlen0 : length (r_ctrl (freshTable P n (KV.cap (kvHolder m)))) = n)
    by (simpl; apply length_replicate).
  assert (Hlive0 : countTable isLive
                     (r_ctrl (freshTable P n (KV.cap (kvHolder m)))) = 0).
  { destruct IR as [_ _ _ _ _ _ Hi' _ _]. by rewrite <- Hi'. }
  assert (Hdata0 : len (KV.data (newKVHolder P (KV.cap (kvHolder m))))
                   = KV.cap (kvHolder m)).
  { unfold len; simpl. rewrite length_replicate. lia. }
  destruct (moveRows_total P LO m1 (length (ctrl m)) 0
              (freshTable P n (KV.cap (kvHolder m))) I1 Hrd Hold eq_refl
              IR AR)
    as (r & Hmv & Htail);
    rewrite ?drop_0, ?Hlen0, ?Hlive0; unfold len; rewrite ?Hlen0;
    unfold len in *; try (unfold Items, n in *; simpl; lia).
  { cbn [freshTable r_kv]. unfold len in Hdata0. rewrite Hdata0.
    unfold compactSize in Hfit. simpl KV.tail.
    unfold m1. rewrite tableNeed_setRehashing. lia. }
  unfold GCCopy. rewrite Hgb, Hrh. cbn zeta. fields. fold n.
  subst m1. rewrite Hmv. cbn [mbind option_bind].
  destruct (rebuilt_counts P (setRehashing m true) n r I1 ltac:(lia) Hmv) as (IR' & HL & Hlen).
  destruct (moveRows_stored P LO (setRehashing m true) _ (freshTable P n (KV.cap (kvHolder m)))
              r Hold AR (invr_ctrl _ IR) Hmv)
    as (A' & _ & _ & _ & _ & Hst).
  { cbn [freshTable r_kv] in *. unfold len in *. rewrite Hdata0.
    rewrite Htail. unfold compactSize in Hfit. simpl KV.tail.
    rewrite tableNeed_setRehashing. lia. }
  destruct IR' as [Rrc Rn Rg Rlc Rlg Rsz Ri Rd Rr].
  assert (Htl : KV.tail (r_kv r) = compactSize P m).
  { rewrite Htail. unfold compactSize.
    by rewrite tableNeed_setRehashing. }
  eexists. split.
  { fields. rewrite Htl. reflexivity. }
  unfold Items, UsedMem. fields.
  split; [congruence|]. split; [congruence|]. split; [congruence|].
  split; [done|]. split; [apply u32_small; lia|].
  split; [simpl in HL; congruence|]. do 2 (split; [done|]).
  split; [done|].
  intros g s key v cnt Hh. apply (Hst g s key v cnt); [|done].
  destruct Hh as (c & k & (row & Hrow & _)%get2_Some & _).
  apply elem_of_seq. apply lookup_lt_Some in Hrow. simpl. lia.
Qed.

End Maintenance.

Lemma rehash_keeps_items_witness :
  ∃ m', rehash demoPackage demoShard = Some m'
        ∧ Inv m' ∧ Items m' = Items demoShard ∧ Count m' = Count demoShard
        ∧ resident m' = Items demoShard ∧ dead m' = 0
        ∧ queryCnt m' = queryCnt demoShard ∧ missCnt m' = missCnt demoShard.
Proof.
  eexists. split; [by vm_compute|].
  apply (rehash_keeps_items demoPackage demoShard _ demoShard_Inv);
    by vm_compute.
Defined.

Lemma demoShardGC_Inv : Inv demoShardGC.
Proof. constructor; try (by repeat constructor); by vm_compute. Defined.

Lemma demoShardGC_readable : readable demoPackage demoShardGC.
Proof.
  intros g s c k Hc Hl Hk.
  destruct g as [|g]; [|by destruct g].
  do 2 (destruct s as [|s]; [injection Hc as <-; by vm_compute in Hl|]).
  destruct s as [|s]; [injection Hk as <-; eexists; by vm_compute|].
  do 13 (destruct s as [|s]; [injection Hc as <-; by vm_compute in Hl|]).
  by vm_compute in Hc.
Defined.

Lemma GCCopy_compacts_witness :
  ∃ m', GCCopy demoPackage demoShardGC
        = Some (m', (dead demoShardGC,
                     u32 (KV.tail (kvHolder demoShardGC)
                          - compactSize demoPackage demoShardGC), 0))
    ∧ length (groups m') = length (groups demoShardGC)
    ∧ length (ctrl m') = length (groups demoShardGC)
    ∧ length (counters m') = length (groups demoShardGC)
    ∧ dead m' = 0 ∧ resident m' = resident demoShardGC - dead demoShardGC
    ∧ Items m' = Items demoShardGC ∧ limit m' = limit demoShardGC
    ∧ rehashing m' = false
    ∧ UsedMem m' = compactSize demoPackage demoShardGC
    ∧ ∀ g s key v cnt, holds demoPackage demoShardGC g s key v cnt →
                       stored demoPackage m' key v cnt.
Proof.
  apply (GCCopy_compacts demoPackage demoPackage_layout demoShardGC).
  - exact demoShardGC_Inv.
  - simpl. lia.
  - constructor; by vm_compute.
  - by vm_compute.
  - exact demoShardGC_readable.
  - by vm_compute.
  - by vm_compute.
  - by vm_compute.
  - reflexivity.
Defined.

Lemma Eliminate_accounting_witness :
  ∃ m', Eliminate demoPackageEvict demoShardAB = Some (m', (1, 0))
        ∧ Inv m' ∧ 0 ≤ 1 ∧ Items m' = Items demoShardAB - 1
        ∧ Count m' = Count demoShardAB - 1
        ∧ dead m' = dead demoShardAB + 1
        ∧ resident m' = resident demoShardAB
        ∧ limit m' = limit demoShardAB
        ∧ length (groups m') = length (groups demoShardAB)
        ∧ queryCnt m' = queryCnt demoShardAB
        ∧ missCnt m' = missCnt demoShardAB.
Proof.
  eexists. split; [by vm_compute|].
  apply (Eliminate_accounting demoPackageEvict demoShardAB _ 1 0).
  - constructor; try (by repeat constructor); by vm_compute.
  - by vm_compute.
Defined.

Lemma Put_never_inserts_witness :
  ∃ m', Put demoPackage demoShard (demoHash keyA) keyA
          (replicate 40 Byte.x00) = Some (m', false)
        ∧ resident m' = resident demoShard ∧ limit m' = limit demoShard
        ∧ length (groups m') = length (groups demoShard)
        ∧ Items m' ≤ Items demoShard.
Proof.
  eexists. split; [by vm_compute|].
  destruct (proj1 (Put_never_inserts demoPackage demoShard (demoHash keyA)
                     keyA (replicate 40 Byte.x00) 0 []) _ false
              ltac:(by vm_compute))
    as (H1 & H2 & H3 & _ & H4).
  split; [exact H1|]. split; [exact H2|]. split; [exact H3|].
  exact (H4 demoShard_Inv).
Defined.

(** ** Rejected updates *)

Section Rejected.

Variable P : Package.

Lemma keyTest_slot m m' key g s :
  get2 (groups m') g s = get2 (groups m) g s →
  KV.data (kvHolder m') = KV.data (kvHolder m) →
  keyTest m' key g s = keyTest m key g s
  ∧ getTest m' key g s = getTest m key g s
  ∧ readSlot P m' g s = readSlot P m g s.
Proof.
  intros Hg Hd. unfold keyTest, getTest, getKey, readSlot, getValue.
  rewrite Hg, Hd. split; [done|]. split; [done|].
  destruct (get2 (groups m) g s) as [k|]; [|done]. cbn [mbind option_bind].
  destruct (loadAt _ _) as [vh|]; [|done]. cbn [mbind option_bind].
  by rewrite (decodeValue_data P (kvHolder m) (kvHolder m')).
Qed.

(** A probe after slot [(g0, s0)], which held a tag, has been turned
    into a tombstone. *)
Lemma probe_after_tombstone m m' test test' l g0 s0 c :
  rows16 (ctrl m) → length (groups m') = length (groups m) →
  get2 (ctrl m) g0 s0 = Some c → 0 ≤ c →
  set2 (ctrl m) g0 s0 tombstone = Some (ctrl m') →
  (∀ g s, (g, s) ≠ (g0, s0) → test' g s = test g s) →
  (c = snd (splitHash l) → test g0 s0 = Some false) →
  verdict <$> probeWith m' test' l = verdict <$> probeWith m test l.
Proof.
  intros Hr Hlen Hc Hc0 Hset Hext Hf. unfold probeWith.
  destruct (splitHash l) as [hi lo] eqn:Hs. rewrite Hlen.
  destruct (probeStart hi (length (groups m))) as [g|]; [|done].
  cbn [mbind option_bind].
  pose proof (splitHash_lo l) as Hlo. rewrite Hs in Hlo. simpl in Hlo, Hf.
  apply (probeLoop_retire _ _ _ _ _ _ g0 s0 tombstone); try done.
  - unfold tombstone. lia.
  - intros g' s' Hne _. by apply Hext.
  - intros Hc'. apply Hf. congruence.
  - intros md Hmd.
    pose proof (rows16_lookup _ _ _ Hr Hmd) as Hl16.
    rewrite !metaMatchEmpty_zero by (rewrite ?length_insert; lia).
    rewrite matchSlots_insert_other; [done|done|].
    apply get2_Some in Hc as (md' & Hmd' & Hcs).
    assert (md' = md) as -> by congruence.
    rewrite Hcs. unfold empty. intros [= ->]. lia.
Qed.

(** A [Put] that finds the key and returns false has dropped the key and
    nothing else: [Has] and [Get] of every other key return what they
    returned before, and, when no other slot holds the key and the table
    has an empty slot, [Has] and [Get] of the key itself miss. *)
Theorem Put_failure_drops_key m l key value g s m' :
  rows16 (ctrl m) → length (groups m) = length (ctrl m) →
  probeWith m (keyTest m key) l = Some (Found g s) →
  Put P m l key value = Some (m', false) →
  (∀ l' key', key' ≠ key →
     snd <$> Has m' l' key' = snd <$> Has m l' key'
     ∧ snd <$> Get P m' l' key' = snd <$> Get P m l' key')
  ∧ (hasEmptySlot m →
     (∀ g' s', (g', s') ≠ (g, s) →
               get2 (ctrl m) g' s' = Some (snd (splitHash l)) →
               keyTest m key g' s' = Some false) →
     (∃ m1, Has m' l key = Some (m1, false))
     ∧ (∃ m1, Get P m' l key = Some (m1, ([], false)))).
Proof.
  intros Hr Hlen Hp H.
  unfold Put in H. rewrite Hp in H. cbn [mbind option_bind] in H.
  destruct (putFound_summary P _ _ _ _ _ _ H) as [(? & _)|(_ & Ht)]; [done|].
  destruct (probeWith_Found _ _ _ _ _ Hr Hp) as (Hc & Htest & Hs16).
  pose proof (splitHash_lo l) as Hlo.
  destruct Ht as (Hct & Hcn & _ & _ & _ & _ & _ & _ & _ & _ & _ & _ & Hd & Hgr).
  assert (Hgl : length (groups m') = length (groups m)).
  { destruct Hgr as [->|Hs]; [done|]. by eapply set2_length. }
  assert (Hgne : ∀ g' s', (g', s') ≠ (g, s) →
                          get2 (groups m') g' s' = get2 (groups m) g' s').
  { intros g' s' Hne. destruct Hgr as [->|Hs]; [done|].
    by eapply get2_set2_ne. }
  split.
  - intros l' key' Hne.
    destruct (keyTest_other _ _ _ _ _ Htest Hne) as (Hk' & Hg').
    rewrite !Has_answer, !Get_answer.
    pose proof (probe_after_tombstone m m' (keyTest m key') (keyTest m' key')
                  l' g s _ Hr Hgl Hc ltac:(lia) Hct
                  (λ g' s' Hn, proj1 (keyTest_slot m m' key' g' s'
                                        (Hgne g' s' Hn) Hd))
                  (λ _, Hk')) as Hp1.
    pose proof (probe_after_tombstone m m' (getTest m key') (getTest m' key')
                  l' g s _ Hr Hgl Hc ltac:(lia) Hct
                  (λ g' s' Hn, proj1 (proj2 (keyTest_slot m m' key' g' s'
                                               (Hgne g' s' Hn) Hd)))
                  (λ _, Hg')) as Hp2.
    assert (Hcnt : ∀ {A} (f : Z → A) g' s',
               f <$> get2 (counters m') g' s' = f <$> get2 (counters m) g' s'
               ∨ ∃ a b, get2 (counters m') g' s' = Some a
                        ∧ get2 (counters m) g' s' = Some b).
    { intros A f g' s'.
      pose proof (get2_is_Some_set2 _ _ _ _ _ g' s' Hcn) as Hi.
      destruct (get2 (counters m') g' s') as [a|];
        destruct (get2 (counters m) g' s') as [b|]; eauto.
      - destruct (proj1 Hi ltac:(eauto)) as [? [=]].
      - destruct (proj2 Hi ltac:(eauto)) as [? [=]]. }
    assert (Hfound : ∀ test r, probeWith m test l' = Some r →
               ∀ g' s', verdict r = Some (g', s') →
               test g s = Some false → (g', s') ≠ (g, s)).
    { intros test r Hpr g' s' Hv Hfalse [= -> ->].
      destruct r as [g1 s1|]; [|done]. injection Hv as -> ->.
      destruct (probeWith_Found _ _ _ _ _ Hr Hpr) as (_ & Ht1 & _).
      congruence. }
    split.
    + clear Hp2. destruct (probeWith m' (keyTest m' key') l') as [r'|];
        destruct (probeWith m (keyTest m key') l') as [r|] eqn:Hpr;
        simpl in Hp1; try done.
      injection Hp1 as Hp1. cbn [mbind option_bind]. rewrite Hp1.
      destruct (verdict r) as [[g' s']|]; [|done]. cbn [hasAnswer].
      destruct (Hcnt bool (λ _, true) g' s') as [->|(a & b & -> & ->)]; done.
    + clear Hp1. destruct (probeWith m' (getTest m' key') l') as [r'|];
        destruct (probeWith m (getTest m key') l') as [r|] eqn:Hpr;
        simpl in Hp2; try done.
      injection Hp2 as Hp2. cbn [mbind option_bind]. rewrite Hp2.
      destruct (verdict r) as [[g' s']|] eqn:Hv; [|done]. cbn [getAnswer].
      pose proof (Hfound _ _ Hpr g' s' Hv Hg') as Hn.
      rewrite (proj2 (proj2 (keyTest_slot m m' key' g' s' (Hgne g' s' Hn) Hd))).
      destruct (readSlot P m g' s') as [v|]; [|done].
      cbn [mbind option_bind].
      destruct (Hcnt _ (λ _ : Z, (v, true)) g' s') as [->|(a & b & -> & ->)];
        done.
  - intros (ge & se & He) Huniq.
    assert (Hr' : rows16 (ctrl m')) by (by eapply set2_rows16).
    assert (Hlen' : length (groups m') = length (ctrl m')).
    { rewrite Hgl, Hlen. symmetry. by eapply set2_length. }
    assert (He' : hasEmptySlot m').
    { exists ge, se. rewrite (get2_set2_ne _ _ _ _ _ ge se Hct); [done|].
      intros [= -> ->].
      assert (Heq : empty = snd (splitHash l)) by congruence.
      unfold empty in Heq. lia. }
    assert (Habs : ∀ g' s', get2 (ctrl m') g' s' = Some (snd (splitHash l)) →
                            keyTest m' key g' s' = Some false).
    { intros g' s' Hc'.
      destruct (decide ((g', s') = (g, s))) as [[= -> ->]|Hne].
      - rewrite (get2_set2_eq _ _ _ _ _ Hct) in Hc'.
        assert (Heq : tombstone = snd (splitHash l)) by congruence.
        unfold tombstone in Heq. lia.
      - rewrite (get2_set2_ne _ _ _ _ _ g' s' Hct Hne) in Hc'.
        rewrite (proj1 (keyTest_slot m m' key g' s' (Hgne g' s' Hne) Hd)).
        by apply Huniq. }
    destruct (probeWith_miss m' (keyTest m' key) l Hr' Hlen' He' Habs)
      as (g1 & e1 & Hp1).
    destruct (probeWith_miss m' (getTest m' key) l Hr' Hlen' He'
                (λ g' s' Hc', keyTest_false_getTest _ _ _ _ (Habs g' s' Hc')))
      as (g2 & e2 & Hp2).
    split.
    + eexists. unfold Has.
      change (probeWith (setQueryCnt m' _) (keyTest (setQueryCnt m' _) key) l)
        with (probeWith m' (keyTest m' key) l).
      by rewrite Hp1.
    + eexists. unfold Get.
      change (probeWith (setQueryCnt m' _) (getTest (setQueryCnt m' _) key) l)
        with (probeWith m' (getTest m' key) l).
      by rewrite Hp2.
Qed.

End Rejected.

Lemma Put_failure_drops_key_witness :
  ∃ m', Put demoPackage demoShardAB (demoHash keyA) keyA
          (replicate 40 Byte.x00) = Some (m', false)
        ∧ snd <$> Get demoPackage m' (demoHash keyB) keyB
          = snd <$> Get demoPackage demoShardAB (demoHash keyB) keyB
        ∧ ∃ m1, Get demoPackage m' (demoHash keyA) keyA
                = Some (m1, ([], false)).
Proof.
  eexists. split; [by vm_compute|].
  destruct (Put_failure_drops_key demoPackage demoShardAB (demoHash keyA) keyA
              (replicate 40 Byte.x00) 0%nat 0%nat _
              ltac:(by repeat constructor) eq_refl ltac:(by vm_compute)
              ltac:(by vm_compute))
    as (Hother & Hgone).
  split.
  - apply (Hother (demoHash keyB) keyB). discriminate.
  - apply Hgone.
    + by exists 0%nat, 2%nat.
    + intros g' s' Hne Hc.
      destruct g' as [|g']; [|by destruct g'].
      destruct s' as [|s']; [done|].
      do 15 (destruct s' as [|s']; [by vm_compute in Hc|]).
      by vm_compute in Hc.
Defined.

(** ** Reading back what an update wrote *)

Section Decode.

Variable P : Package.
Hypothesis LO : layout_ok P.

Lemma readSlot_readValue m g s k :
  get2 (groups m) g s = Some k →
  readSlot P m g s = readValue P (kvHolder m) k.
Proof. intros Hk. unfold readSlot, readValue. by rewrite Hk. Qed.

Lemma decode_short h k ko vo lv v :
  valType k = 0 → offset k * 4 = ko →
  0 ≤ vo → vo mod 4 = 0 → vo + lv ≤ len (KV.data h) →
  len (KV.data h) < 2 ^ 26 → 0 ≤ lv < 256 →
  loadAt (KV.data h) (ko + 16) = Some (mkHeader (vo / 4) lv) →
  slice (KV.data h) vo (vo + lv) = Some v →
  readValue P h k = Some v.
Proof.
  intros Hty Hko Hvo Hal Hfit Hsz Hlv Hh Hv.
  assert (Hov : 0 ≤ vo / 4 < 2 ^ 24) by (Z.div_mod_to_equations; lia).
  assert (Hav : vo / 4 * 4 = vo) by (Z.div_mod_to_equations; lia).
  assert (Ho : 0 ≤ offset k < 2 ^ 24).
  { rewrite offset_mod. apply Z.mod_pos_bound. lia. }
  unfold readValue. rewrite Hko.
  rewrite (u32_small ko), (u32_small (ko + 16)) by lia.
  rewrite Hh. cbn [mbind option_bind].
  unfold decodeValue. rewrite Hty. cbn [Z.eqb].
  rewrite headerOffset_mkHeader, smallSize_mkHeader by lia.
  cbn [mbind option_bind]. unfold getValue.
  rewrite Hav, (u32_small vo), (u32_small (vo + lv)) by lia.
  done.
Qed.

Lemma decode_medium h ko vo lv v :
  0 ≤ ko → ko mod 4 = 0 → ko < 2 ^ 26 →
  0 ≤ vo → vo mod 4 = 0 → vo + lv ≤ len (KV.data h) →
  len (KV.data h) < 2 ^ 26 → 0 ≤ lv < overLongSize P →
  loadAt (KV.data h) (ko + 16) = Some (mkHeader (vo / 4) (lv mod 256)) →
  slice (KV.data h) vo (vo + lv) = Some v →
  readValue P h (mkIdx (ko / 4) (lv / 256) 1) = Some v.
Proof.
  intros Hko Hkal Hk26 Hvo Hal Hfit Hsz Hlv Hh Hv.
  destruct LO as [Hshort (hb & lb & Hhb & Hlb & HH & HL & Hlong) _].
  assert (Ho : 0 ≤ ko / 4 < 2 ^ 24) by (Z.div_mod_to_equations; lia).
  assert (Ha : ko / 4 * 4 = ko) by (Z.div_mod_to_equations; lia).
  assert (Hov : 0 ≤ vo / 4 < 2 ^ 24) by (Z.div_mod_to_equations; lia).
  assert (Hav : vo / 4 * 4 = vo) by (Z.div_mod_to_equations; lia).
  assert (Hb : 0 ≤ lv / 256 < 128) by (Z.div_mod_to_equations; lia).
  assert (Hs : 0 ≤ lv mod 256 < 256) by (Z.div_mod_to_equations; lia).
  unfold readValue. rewrite offset_mkIdx, Ha by lia.
  rewrite (u32_small ko), (u32_small (ko + 16)) by lia.
  rewrite Hh. cbn [mbind option_bind].
  unfold decodeValue. rewrite valType_mkIdx by lia. cbn [Z.eqb].
  rewrite headerOffset_mkHeader, smallSize_mkHeader, capOrBigSize_mkIdx by lia.
  rewrite shiftl8, (u32_small (_ * 256)) by lia.
  replace (lv mod 256 + lv / 256 * 256) with lv
    by (Z.div_mod_to_equations; lia).
  rewrite (u32_small lv) by lia.
  rewrite (proj2 (Z.eqb_neq lv (overLongSize P))) by lia.
  cbn [mbind option_bind]. unfold getValue.
  rewrite Hav, (u32_small vo), (u32_small (vo + lv)) by lia.
  done.
Qed.

Lemma decode_long h ko vo lv v :
  0 ≤ ko → ko mod 4 = 0 → ko < 2 ^ 26 →
  0 ≤ vo → vo mod 4 = 0 → vo + 4 + lv ≤ len (KV.data h) →
  len (KV.data h) < 2 ^ 26 → 0 ≤ lv < 2 ^ 31 →
  loadAt (KV.data h) (ko + 16)
  = Some (u32 (vo / 4 + overLongStoreHeaderL P)) →
  loadAt (KV.data h) vo = Some lv →
  slice (KV.data h) (vo + 4) (vo + 4 + lv) = Some v →
  readValue P h (u32 (u32 (ko / 4 + overLongStoreHeaderH P) + mapTypeHeader))
  = Some v.
Proof.
  intros Hko Hkal Hk26 Hvo Hval Hvfit Hsz Hlv Hh Hp Hv.
  destruct LO as [Hshort (hb & lb & Hhb & Hlb & HH & HL & Hlong) _].
  assert (Ho : 0 ≤ ko / 4 < 2 ^ 24) by (Z.div_mod_to_equations; lia).
  assert (Hov : 0 ≤ vo / 4 < 2 ^ 24) by (Z.div_mod_to_equations; lia).
  assert (Ha : ko / 4 * 4 = ko) by (Z.div_mod_to_equations; lia).
  assert (Hav : vo / 4 * 4 = vo) by (Z.div_mod_to_equations; lia).
  assert (HkN : u32 (u32 (ko / 4 + overLongStoreHeaderH P) + mapTypeHeader)
                = mkIdx (ko / 4) hb 1).
  { rewrite HH. unfold mkIdx, mapTypeHeader.
    rewrite (u32_small (_ + _ * _)) by lia. rewrite u32_small by lia. lia. }
  assert (Hhd : u32 (vo / 4 + overLongStoreHeaderL P) = mkHeader (vo / 4) lb).
  { rewrite HL. unfold mkHeader. by rewrite u32_small by lia. }
  rewrite HkN. rewrite Hhd in Hh.
  unfold readValue. rewrite offset_mkIdx, Ha by lia.
  rewrite (u32_small ko), (u32_small (ko + 16)) by lia.
  rewrite Hh. cbn [mbind option_bind].
  unfold decodeValue. rewrite valType_mkIdx by lia. cbn [Z.eqb].
  rewrite headerOffset_mkHeader, smallSize_mkHeader, capOrBigSize_mkIdx by lia.
  rewrite shiftl8, (u32_small (_ * 256)) by lia.
  rewrite (u32_small (lb + _)) by lia. rewrite <- Hlong, Z.eqb_refl.
  rewrite Hav, (u32_small vo) by lia. rewrite Hp.
  cbn [mbind option_bind]. unfold getValue.
  rewrite (u32_small (vo + 4)), (u32_small (vo + 4 + lv)) by lia.
  done.
Qed.

Lemma long_idx ko :
  0 ≤ ko → ko mod 4 = 0 → ko < 2 ^ 26 →
  ∃ hb, 0 ≤ hb < 128
    ∧ u32 (u32 (ko / 4 + overLongStoreHeaderH P) + mapTypeHeader)
      = mkIdx (ko / 4) hb 1.
Proof.
  intros Hko Hal Hk26.
  destruct LO as [Hshort (hb & lb & Hhb & Hlb & HH & HL & Hlong) _].
  assert (Ho : 0 ≤ ko / 4 < 2 ^ 24) by (Z.div_mod_to_equations; lia).
  exists hb. split; [done|].
  rewrite HH. unfold mkIdx, mapTypeHeader.
  rewrite (u32_small (_ + _ * _)) by lia. rewrite u32_small by lia. lia.
Qed.

Lemma overLong_bound : 0 ≤ overLongSize P < 2 ^ 15.
Proof.
  destruct LO as [Hshort (hb & lb & Hhb & Hlb & HH & HL & Hlong) _]. lia.
Qed.

(** The facts about slot [(g, s)] that the update branches use. *)
Lemma slot_facts m g s c k :
  arena_ok (kvHolder m) → wfSlots m →
  get2 (ctrl m) g s = Some c → 0 ≤ c → get2 (groups m) g s = Some k →
  let ko := offset k * 4 in
  k ≠ 0 ∧ 4 ≤ ko ∧ ko + 20 ≤ KV.tail (kvHolder m) ∧ ko mod 4 = 0
  ∧ ko < 2 ^ 26 ∧ ko / 4 = offset k
  ∧ u32 ko = ko ∧ u32 (ko + 16) = ko + 16.
Proof.
  intros [At Aal Ahi Acap Asz] W Hc Hc0 Hk ko.
  destruct (wf_rec m W g s c k Hc Hc0 Hk) as (Hk0 & H4 & H20).
  subst ko. split; [done|]. split; [done|]. split; [done|].
  split; [by rewrite Z.mod_mul|]. split; [lia|].
  split; [by rewrite Z.div_mul|]. split; apply u32_small; lia.
Qed.

End Decode.

(** ** Updates read back *)

Section Update.

Variable P : Package.
Hypothesis LO : layout_ok P.

Lemma updated_intro m g s k vh value kN gs d h' m' :
  get2 (groups m) g s = Some k →
  (gs = groups m ∧ kN = k ∨ set2 (groups m) g s kN = Some gs) →
  offset kN = offset k → 4 ≤ offset k * 4 →
  groups m' = gs → ctrl m' = ctrl m → counters m' = counters m →
  kvHolder m' = h' → KV.data h' = d →
  (∀ lo hi,
     hi ≤ KV.tail (kvHolder m) →
     hi ≤ offset k * 4 + 16 ∨ offset k * 4 + 20 ≤ lo →
     (valType k = 0 →
      hi ≤ Z.land vh IdxOffsetMask * 4
      ∨ Z.land vh IdxOffsetMask * 4 + capOrBigSize k * 4 ≤ lo) →
     slice d lo hi = slice (KV.data (kvHolder m)) lo hi) →
  readValue P h' kN = Some value →
  updated P m g s k vh value m'.
Proof.
  unfold updated. intros Hk Hgs Hoff H4 Hg' Hct Hcn <- <- Hsl Hrd.
  rewrite Hg'. exists kN.
  assert (HkN0 : kN ≠ 0).
  { intros ->. rewrite <- Hoff in H4. change (offset 0) with 0 in H4. lia. }
  destruct Hgs as [(-> & ->)|Hset].
  - by repeat split.
  - split; [by eapply get2_set2_eq|]. do 4 (split; [done|]).
    split; [intros g' s' Hne; by eapply get2_set2_ne|].
    split; [by eapply set2_length|]. done.
Qed.

(** The four writes of the long branch of an update. *)
Lemma long_written m g s c k vh value h1 d1 d2 gs d3 h' :
  arena_ok (kvHolder m) → wfSlots m →
  get2 (ctrl m) g s = Some c → 0 ≤ c → get2 (groups m) g s = Some k →
  len value < 2 ^ 31 →
  KV.tail (kvHolder m) + 4 + len value ≤ len (KV.data (kvHolder m)) →
  KV.data h1 = KV.data (kvHolder m) →
  storeAt (KV.data h1) (KV.tail (kvHolder m)) (len value) = Some d1 →
  copyAt d1 (KV.tail (kvHolder m) + 4) value = Some d2 →
  set2 (groups m) g s
    (u32 (u32 (offset k * 4 / 4 + overLongStoreHeaderH P) + mapTypeHeader))
  = Some gs →
  storeAt d2 (offset k * 4 + 16)
    (u32 (KV.tail (kvHolder m) / 4 + overLongStoreHeaderL P)) = Some d3 →
  KV.data h' = d3 →
  updated P m g s k vh value (setKV (setGroups m gs) h').
Proof.
  intros A W Hc Hc0 Hk Hlv Hfit Hdt Hd1 Hd2 Hgs Hd3 Hh'.
  pose proof A as [At Aal Ahi Acap Asz].
  destruct (slot_facts m g s c k A W Hc Hc0 Hk)
    as (Hk0 & H4 & H20 & Hkal & Hk26 & Hdiv & Hu & Hu16).
  assert (Hlv0 : 0 ≤ len value) by (unfold len; lia).
  set (lv := len value) in *.
  assert (Hlen : Z.of_nat (length value) = lv) by reflexivity.
  set (ko := offset k * 4) in *.
  set (t := KV.tail (kvHolder m)) in *.
  rewrite Hdt in Hd1.
  destruct (long_idx P LO ko ltac:(lia) Hkal Hk26) as (hb & Hhb & HkN).
  rewrite HkN in Hgs.
  pose proof (storeAt_length _ _ _ _ Hd1) as L1.
  pose proof (copyAt_length _ _ _ _ Hd2) as L2.
  pose proof (storeAt_length _ _ _ _ Hd3) as L3.
  eapply (updated_intro m g s k vh value (mkIdx (ko / 4) hb 1) gs d3);
    [done|by right| | |reflexivity..|done| |].
  - rewrite offset_mkIdx by (Z.div_mod_to_equations; lia). done.
  - done.
  - intros lo hi Hhi Hrec Hval.
    rewrite (slice_storeAt_out _ _ _ _ lo hi Hd3) by lia.
    rewrite (slice_copyAt_out _ _ _ _ lo hi Hd2) by lia.
    by rewrite (slice_storeAt_out _ _ _ _ lo hi Hd1) by lia.
  - rewrite <- HkN.
    apply (decode_long P LO _ ko t lv); fields; rewrite ?Hh';
      unfold len in *;
      rewrite ?L3, ?L2, ?L1; try lia.
    + rewrite (loadAt_storeAt _ _ _ _ Hd3). by rewrite u32_idem.
    + rewrite (loadAt_storeAt_out _ _ _ _ t Hd3) by lia.
      rewrite (loadAt_copyAt_out _ _ _ _ t Hd2) by lia.
      rewrite (loadAt_storeAt _ _ _ _ Hd1). by rewrite u32_small by lia.
    + rewrite (slice_storeAt_out _ _ _ _ _ _ Hd3) by lia.
      apply (slice_copyAt _ _ _ _ Hd2). unfold len. lia.
Qed.

Lemma rePutFound_updated m g s c k vh value m' :
  arena_ok (kvHolder m) → wfSlots m →
  get2 (ctrl m) g s = Some c → 0 ≤ c → get2 (groups m) g s = Some k →
  loadAt (KV.data (kvHolder m)) (offset k * 4 + 16) = Some vh →
  len value < 2 ^ 31 →
  rePutFound P m g s value = Some (m', true) →
  updated P m g s k vh value m'.
Proof.
  intros A W Hc Hc0 Hk Hvh Hlv H.
  pose proof A as [At Aal Ahi Acap Asz].
  destruct (slot_facts m g s c k A W Hc Hc0 Hk)
    as (Hk0 & H4 & H20 & Hkal & Hk26 & Hdiv & Hu & Hu16).
  assert (Hlv0 : 0 ≤ len value) by (unfold len; lia).
  destruct (Cap4Size_spec (len value) ltac:(lia)) as (Hc1 & Hc2 & _).
  pose proof (overLong_bound P LO) as HoL.
  pose proof (lo_short P LO) as HoS.
  unfold rePutFound in H. rewrite Hk in H. cbn [mbind option_bind] in H.
  rewrite Hu, Hu16, Hvh in H. cbn [mbind option_bind] in H.
  rewrite (u32_small (len value)) in H by lia.
  set (lv := len value) in *.
  assert (Hlen : Z.of_nat (length value) = lv) by reflexivity.
  set (ko := offset k * 4) in *.
  set (t := KV.tail (kvHolder m)) in *.
  destruct (Z.leb_spec (overLongSize P) lv) as [Hlong|Hlong].
  { destruct (releaseOld P (kvHolder m) k vh) as [h1|] eqn:Hrel; [|done].
    cbn [mbind option_bind] in H.
    apply releaseOld_frame in Hrel as (Hcap & _ & Htl & _ & Hdt).
    rewrite Hcap, Htl, Hdt in H. fold t in H.
    rewrite !u32_small in H by (rewrite ?u32_small; lia).
    destruct (Z.ltb_spec (KV.cap (kvHolder m)) (t + 4 + (Cap4Size lv + 4)))
      as [|Hfit]; [unbind H; by injection H|].
    destruct (storeAt _ t lv) as [d1|] eqn:Hd1; [|done].
    cbn [mbind option_bind] in H.
    destruct (copyAt d1 (t + 4) value) as [d2|] eqn:Hd2; [|done].
    cbn [mbind option_bind] in H. unfold storeUintBytes in *.
    destruct (set2 (groups m) g s _) as [gs|] eqn:Hgs; [|done].
    cbn [mbind option_bind] in H.
    destruct (storeAt d2 (ko + 16) _) as [d3|] eqn:Hd3; [|done].
    cbn [mbind option_bind] in H. injection H as <-.
    rewrite <- Hdt in Hd1.
    eapply (long_written m g s c k vh value h1 d1 d2 gs d3); try done.
    unfold len in *. lia. }
  destruct (Z.leb_spec (overShortSize P) lv) as [Hmed|Hshort].
  { destruct (releaseOld P (kvHolder m) k vh) as [h1|] eqn:Hrel; [|done].
    cbn [mbind option_bind] in H.
    apply releaseOld_frame in Hrel as (Hcap & _ & Htl & _ & Hdt).
    rewrite Hcap, Htl, Hdt in H. fold t in H.
    rewrite !u32_small in H by (rewrite ?u32_small; lia).
    destruct (Z.ltb_spec (KV.cap (kvHolder m)) (t + Cap4Size lv))
      as [|Hfit]; [unbind H; by injection H|].
    destruct (medium_bits lv ltac:(lia)) as (_ & Hbig & Hsmall & Hb & Hs).
    rewrite Hbig, Hsmall, !shiftl24 in H.
    destruct (copyAt _ t value) as [d1|] eqn:Hd1; [|done].
    cbn [mbind option_bind] in H.
    assert (HkN : u32 (u32 (ko / 4 + u32 (lv / 256 * 2 ^ 24)) + mapTypeHeader)
                  = mkIdx (ko / 4) (lv / 256) 1).
    { unfold mkIdx, mapTypeHeader.
      rewrite (u32_small (_ * _)) by lia.
      rewrite (u32_small (_ + _ * _)) by (Z.div_mod_to_equations; lia).
      rewrite u32_small by (Z.div_mod_to_equations; lia). lia. }
    assert (Hhd : u32 (t / 4 + u32 (lv mod 256 * 2 ^ 24))
                  = mkHeader (t / 4) (lv mod 256)).
    { unfold mkHeader. rewrite (u32_small (_ * _)) by lia.
      apply u32_small. Z.div_mod_to_equations; lia. }
    rewrite HkN, Hhd in H.
    destruct (set2 (groups m) g s _) as [gs|] eqn:Hgs; [|done].
    cbn [mbind option_bind] in H.
    destruct (storeAt d1 (ko + 16) _) as [d2|] eqn:Hd2; [|done].
    cbn [mbind option_bind] in H. injection H as <-.
    pose proof (copyAt_length _ _ _ _ Hd1) as L1.
    pose proof (storeAt_length _ _ _ _ Hd2) as L2.
    eapply (updated_intro m g s k vh value (mkIdx (ko / 4) (lv / 256) 1) gs d2);
      [done|by right| | |reflexivity..| |].
    - rewrite offset_mkIdx by (Z.div_mod_to_equations; lia). done.
    - done.
    - intros lo hi Hhi Hrec Hval.
      rewrite (slice_storeAt_out _ _ _ _ lo hi Hd2) by lia.
      by rewrite (slice_copyAt_out _ _ _ _ lo hi Hd1) by lia.
    - apply (decode_medium P LO _ ko t lv); fields; unfold len in *;
        rewrite ?L2, ?L1; try lia.
      + rewrite (loadAt_storeAt _ _ _ _ Hd2). f_equal. apply u32_small.
        unfold mkHeader. Z.div_mod_to_equations; lia.
      + rewrite (slice_storeAt_out _ _ _ _ _ _ Hd2) by lia.
        apply (slice_copyAt _ _ _ _ Hd1). unfold len. lia. }
  pose proof (capOrBigSize_range k) as Hcr.
  destruct ((valType k =? 0) && (lv <=? u32 (capOrBigSize k * 4))
            && (lv <? overShortSize P)) eqn:Hin.
  { apply andb_prop in Hin as [Hin _]. apply andb_prop in Hin as [Hty Hle].
    apply Z.eqb_eq in Hty. apply Z.leb_le in Hle.
    rewrite u32_small in Hle by lia.
    destruct (wf_val m W g s c k vh Hc Hc0 Hk Hty Hvh) as (Hvfit & Hvap).
    pose proof (Hvap g s c k Hc Hc0 Hk) as Hown. fold ko in Hown.
    assert (Hvo : 0 ≤ Z.land vh IdxOffsetMask < 2 ^ 24).
    { rewrite headerOffset_mod. apply Z.mod_pos_bound. lia. }
    set (vo := Z.land vh IdxOffsetMask) in *.
    rewrite shiftl24 in H.
    assert (Hhd : u32 (vo + u32 (lv * 2 ^ 24)) = mkHeader vo lv).
    { unfold mkHeader. rewrite (u32_small (_ * _)) by lia.
      apply u32_small. lia. }
    rewrite Hhd, (u32_small (vo * 4)) in H by lia.
    destruct (storeAt _ (ko + 16) _) as [d1|] eqn:Hd1; [|done].
    cbn [mbind option_bind] in H.
    destruct (copyAt d1 (vo * 4) value) as [d2|] eqn:Hd2; [|done].
    cbn [mbind option_bind] in H. injection H as <-.
    pose proof (storeAt_length _ _ _ _ Hd1) as L1.
    pose proof (copyAt_length _ _ _ _ Hd2) as L2.
    eapply (updated_intro m g s k vh value k (groups m) d2);
      [done|by left|done|done|reflexivity..| |].
    - intros lo hi Hhi Hrec Hval. specialize (Hval Hty).
      rewrite (slice_copyAt_out _ _ _ _ lo hi Hd2) by (unfold len; lia).
      by rewrite (slice_storeAt_out _ _ _ _ lo hi Hd1) by lia.
    - apply (decode_short P _ k ko (vo * 4) lv); fields; unfold len in *;
        rewrite ?L2, ?L1; try lia; try done.
      + by rewrite Z.mod_mul.
      + rewrite Z.div_mul by lia.
        rewrite (loadAt_copyAt_out _ _ _ _ _ Hd2) by (unfold len; lia).
        rewrite (loadAt_storeAt _ _ _ _ Hd1). f_equal. apply u32_small.
        unfold mkHeader. lia.
      + apply (slice_copyAt _ _ _ _ Hd2). unfold len. lia. }
  destruct (releaseOld P (kvHolder m) k vh) as [h1|] eqn:Hrel; [|done].
  cbn [mbind option_bind] in H.
  apply releaseOld_frame in Hrel as (Hcap & _ & Htl & _ & Hdt).
  rewrite Hcap, Htl, Hdt in H. fold t in H.
  rewrite !u32_small in H by (rewrite ?u32_small; lia).
  destruct (Z.ltb_spec (KV.cap (kvHolder m)) (t + Cap4Size lv))
    as [|Hfit]; [unbind H; by injection H|].
  rewrite !shiftl24 in H.
  destruct (copyAt _ t value) as [d1|] eqn:Hd1; [|done].
  cbn [mbind option_bind] in H.
  assert (Hc4 : 0 ≤ Cap4Size lv / 4 < 128) by (Z.div_mod_to_equations; lia).
  assert (HkN : u32 (ko / 4 + u32 (Cap4Size lv / 4 * 2 ^ 24))
                = mkIdx (ko / 4) (Cap4Size lv / 4) 0).
  { unfold mkIdx. rewrite (u32_small (_ * _)) by lia.
    rewrite u32_small by (Z.div_mod_to_equations; lia). lia. }
  assert (Hhd : u32 (t / 4 + u32 (lv * 2 ^ 24)) = mkHeader (t / 4) lv).
  { unfold mkHeader. rewrite (u32_small (_ * _)) by lia.
    apply u32_small. Z.div_mod_to_equations; lia. }
  rewrite HkN, Hhd in H.
  destruct (set2 (groups m) g s _) as [gs|] eqn:Hgs; [|done].
  cbn [mbind option_bind] in H.
  destruct (storeAt d1 (ko + 16) _) as [d2|] eqn:Hd2; [|done].
  cbn [mbind option_bind] in H. injection H as <-.
  pose proof (copyAt_length _ _ _ _ Hd1) as L1.
  pose proof (storeAt_length _ _ _ _ Hd2) as L2.
  assert (HoN : offset (mkIdx (ko / 4) (Cap4Size lv / 4) 0) = ko / 4)
    by (rewrite offset_mkIdx by (Z.div_mod_to_equations; lia); done).
  eapply (updated_intro m g s k vh value
            (mkIdx (ko / 4) (Cap4Size lv / 4) 0) gs d2);
    [done|by right| | |reflexivity..| |].
  - by rewrite HoN.
  - done.
  - intros lo hi Hhi Hrec Hval.
    rewrite (slice_storeAt_out _ _ _ _ lo hi Hd2) by lia.
    by rewrite (slice_copyAt_out _ _ _ _ lo hi Hd1) by lia.
  - apply (decode_short P _ (mkIdx (ko / 4) (Cap4Size lv / 4) 0) ko t lv);
      fields; unfold len in *;
      rewrite ?L2, ?L1; try lia.
    + apply valType_mkIdx; Z.div_mod_to_equations; lia.
    + rewrite (loadAt_storeAt _ _ _ _ Hd2). f_equal. apply u32_small.
      unfold mkHeader. Z.div_mod_to_equations; lia.
    + rewrite (slice_storeAt_out _ _ _ _ _ _ Hd2) by lia.
      apply (slice_copyAt _ _ _ _ Hd1). unfold len. lia.
Qed.

Lemma putFound_updated m g s c k vh value m' :
  arena_ok (kvHolder m) → wfSlots m →
  get2 (ctrl m) g s = Some c → 0 ≤ c → get2 (groups m) g s = Some k →
  loadAt (KV.data (kvHolder m)) (offset k * 4 + 16) = Some vh →
  len value < 2 ^ 32 →
  putFound P m g s value = Some (m', true) →
  updated P m g s k vh value m'.
Proof.
  intros A W Hc Hc0 Hk Hvh Hlv H.
  pose proof A as [At Aal Ahi Acap Asz].
  destruct (slot_facts m g s c k A W Hc Hc0 Hk)
    as (Hk0 & H4 & H20 & Hkal & Hk26 & Hdiv & Hu & Hu16).
  assert (Hlv0 : 0 ≤ len value) by (unfold len; lia).
  pose proof (lo_limit P LO) as HoM.
  destruct (Z.leb_spec (limitSize P) (u32 (len value))) as [Hlim|Hlim].
  { unfold putFound in H. rewrite Hk in H. cbn [mbind option_bind] in H.
    rewrite Hu, Hu16, Hvh in H. cbn [mbind option_bind] in H.
    destruct (Z.leb_spec (limitSize P) (u32 (len value))); [|lia].
    unbind H. by injection H. }
  rewrite (u32_small (len value)) in Hlim by lia.
  destruct (Cap4Size_spec (len value) ltac:(lia)) as (Hc1 & Hc2 & _).
  destruct (Z.leb_spec (overLongSize P) (len value)) as [Hlong|Hlong].
  - unfold putFound in H. rewrite Hk in H. cbn [mbind option_bind] in H.
    rewrite Hu, Hu16, Hvh in H. cbn [mbind option_bind] in H.
    rewrite (u32_small (len value)) in H by lia.
    destruct (Z.leb_spec (limitSize P) (len value)); [lia|].
    destruct (Z.leb_spec (overLongSize P) (len value)); [|lia].
    destruct (releaseOld P (kvHolder m) k vh) as [h1|] eqn:Hrel; [|done].
    cbn [mbind option_bind] in H.
    apply releaseOld_frame in Hrel as (Hcap & _ & Htl & _ & Hdt).
    rewrite Hcap, Htl in H.
    rewrite !u32_small in H by (rewrite ?u32_small; lia).
    destruct (Z.ltb_spec (KV.cap (kvHolder m))
                (KV.tail (kvHolder m) + 20 + (Cap4Size (len value) + 4)))
      as [|Hfit]; [unbind H; by injection H|].
    destruct (storeAt _ _ (len value)) as [d1|] eqn:Hd1; [|done].
    cbn [mbind option_bind] in H.
    destruct (copyAt d1 _ value) as [d2|] eqn:Hd2; [|done].
    cbn [mbind option_bind] in H. unfold storeUintBytes in *.
    destruct (set2 (groups m) g s _) as [gs|] eqn:Hgs; [|done].
    cbn [mbind option_bind] in H.
    destruct (storeAt d2 _ _) as [d3|] eqn:Hd3; [|done].
    cbn [mbind option_bind] in H. injection H as <-.
    rewrite ?(u32_small (KV.tail (kvHolder m) + 4)) in Hd2 by lia.
    eapply (long_written m g s c k vh value h1 d1 d2 gs d3); try done;
      unfold len in *; lia.
  - apply (rePutFound_updated m g s c k vh value m' A W Hc Hc0 Hk Hvh);
      [lia|].
    rewrite <- H. unfold putFound, rePutFound.
    rewrite Hk. cbn [mbind option_bind]. rewrite Hu, Hu16, Hvh.
    cbn [mbind option_bind]. rewrite (u32_small (len value)) by lia.
    destruct (Z.leb_spec (limitSize P) (len value)); [lia|].
    destruct (Z.leb_spec (overLongSize P) (len value)); [lia|].
    done.
Qed.

(** A [Get] of the key after an update of its slot. *)
Lemma updated_then_Get m l key g s k vh value m' :
  Inv m → arena_ok (kvHolder m) → wfSlots m →
  probeWith m (keyTest m key) l = Some (Found g s) →
  get2 (groups m) g s = Some k →
  loadAt (KV.data (kvHolder m)) (offset k * 4 + 16) = Some vh →
  updated P m g s k vh value m' →
  ∃ m'', Get P m' l key = Some (m'', (value, true)).
Proof.
  intros I A W Hp Hk Hvh (kN & HkN & HkN0 & Hoff & Hct & Hcn & Hgne & Hgl
                          & Hsl & Hrd).
  pose proof A as [At Aal Ahi Acap Asz].
  destruct (probeWith_Found _ _ _ _ _ (inv_ctrl m I) Hp) as (Hc & Ht & Hs16).
  pose proof (splitHash_lo l) as Hlo.
  destruct (slot_facts m g s _ k A W Hc ltac:(lia) Hk)
    as (Hk0 & H4 & H20 & Hkal & Hk26 & Hdiv & Hu & Hu16).
  assert (Hprobe : probeWith m' (getTest m' key) l = Some (Found g s)).
  { rewrite <- Hp. unfold probeWith.
    destruct (splitHash l) as [hi lo] eqn:Hs. rewrite Hgl, Hct.
    destruct (probeStart hi (length (groups m))) as [g0|]; [|done].
    cbn [mbind option_bind]. apply probeLoop_ext; [apply I|].
    simpl in Hlo, Hc. intros g' s' Hc'.
    destruct (decide ((g', s') = (g, s))) as [[= -> ->]|Hne].
    - rewrite Ht. unfold keyTest, getKey in Ht. rewrite Hk in Ht.
      cbn [mbind option_bind] in Ht. rewrite Hu, Hu16 in Ht.
      unfold getTest. rewrite HkN. cbn [mbind option_bind].
      destruct (Z.eqb_spec kN 0) as [|_]; [done|].
      rewrite Hoff, Hu, Hu16. rewrite Hsl; [done|lia|lia|].
      intros Hty.
      destruct (wf_val m W g s _ k vh Hc ltac:(lia) Hk Hty Hvh) as (_ & Hap).
      specialize (Hap g s _ k Hc ltac:(lia) Hk). lia.
    - unfold getTest, keyTest, getKey. rewrite (Hgne g' s' Hne).
      destruct (get2 (groups m) g' s') as [k'|] eqn:Hk'; [|done].
      cbn [mbind option_bind].
      destruct (slot_facts m g' s' _ k' A W Hc' ltac:(lia) Hk')
        as (Hk0' & H4' & H20' & _ & _ & _ & Hu' & Hu16').
      destruct (Z.eqb_spec k' 0) as [|_]; [done|].
      rewrite Hu', Hu16'.
      pose proof (wf_apart m W g s _ k g' s' _ k' Hc ltac:(lia) Hk
                    Hc' ltac:(lia) Hk' ltac:(congruence)) as Hap.
      rewrite Hsl; [done|lia|lia|].
      intros Hty.
      destruct (wf_val m W g s _ k vh Hc ltac:(lia) Hk Hty Hvh) as (_ & Hv).
      specialize (Hv g' s' _ k' Hc' ltac:(lia) Hk'). lia. }
  assert (Hcnt : is_Some (get2 (counters m') g s)).
  { rewrite Hcn.
    apply (get2_is_Some_rows (ctrl m) (counters m) g s); try apply I.
    eauto. }
  destruct Hcnt as [cn Hcn'].
  pose proof (Get_answer P m' l key) as Hans.
  rewrite Hprobe in Hans. cbn [mbind option_bind verdict getAnswer] in Hans.
  rewrite (readSlot_readValue P m' g s kN HkN), Hrd in Hans.
  cbn [mbind option_bind] in Hans. rewrite Hcn' in Hans.
  destruct (Get P m' l key) as [[m'' r]|]; [|done].
  injection Hans as ->. by exists m''.
Qed.

(** Round trip through [Put]: on a shard whose arena is laid out as
    [wfSlots] says, a [Put] that returns true is followed by a [Get] of
    the key that returns the value just written, in each of the four
    update branches (long, medium, in place, short). *)
Theorem Put_then_Get m l key value m' :
  Inv m → arena_ok (kvHolder m) → wfSlots m → len value < 2 ^ 32 →
  Put P m l key value = Some (m', true) →
  ∃ m'', Get P m' l key = Some (m'', (value, true)).
Proof.
  intros I A W Hlv H. unfold Put in H.
  destruct (probeWith m (keyTest m key) l) as [[g s|g e]|] eqn:Hp;
    [|by injection H|done].
  cbn [mbind option_bind] in H.
  destruct (probeWith_Found _ _ _ _ _ (inv_ctrl m I) Hp) as (Hc & Ht & Hs16).
  pose proof (splitHash_lo l) as Hlo.
  assert (∃ k vh, get2 (groups m) g s = Some k
            ∧ loadAt (KV.data (kvHolder m)) (offset k * 4 + 16) = Some vh)
    as (k & vh & Hk & Hvh).
  { unfold putFound in H.
    destruct (get2 (groups m) g s) as [k|] eqn:Hk; [|done].
    cbn [mbind option_bind] in H.
    destruct (slot_facts m g s _ k A W Hc ltac:(lia) Hk)
      as (_ & _ & _ & _ & _ & _ & Hu & Hu16).
    rewrite Hu, Hu16 in H.
    destruct (loadAt _ _) as [vh|] eqn:Hvh; [|done]. by exists k, vh. }
  eapply updated_then_Get; try done.
  eapply putFound_updated; try done. lia.
Qed.

(** Round trip through the update path of [RePut]: with the three gates
    open and the key found, a [RePut] of a value shorter than [2^31]
    bytes that returns true is followed by a [Get] of the key that
    returns that value. *)
Theorem RePut_update_then_Get m l key value g s m' :
  Inv m → arena_ok (kvHolder m) → wfSlots m → len value < 2 ^ 31 →
  KV.tail (kvHolder m) < KV.limit (kvHolder m) →
  rehashing m = false → resident m < limit m →
  probeWith m (keyTest m key) l = Some (Found g s) →
  RePut P m l key value = Some (m', true) →
  ∃ m'', Get P m' l key = Some (m'', (value, true)).
Proof.
  intros I A W Hlv Hg1 Hg2 Hg3 Hp H. unfold RePut in H.
  destruct (Z.leb_spec (KV.limit (kvHolder m)) (KV.tail (kvHolder m)));
    [lia|].
  rewrite Hg2 in H.
  destruct (Z.leb_spec (limit m) (resident m)); [lia|].
  cbn [mbind option_bind] in H. rewrite Hp in H.
  cbn [mbind option_bind] in H.
  destruct (probeWith_Found _ _ _ _ _ (inv_ctrl m I) Hp) as (Hc & Ht & Hs16).
  pose proof (splitHash_lo l) as Hlo.
  assert (∃ k vh, get2 (groups m) g s = Some k
            ∧ loadAt (KV.data (kvHolder m)) (offset k * 4 + 16) = Some vh)
    as (k & vh & Hk & Hvh).
  { unfold rePutFound in H.
    destruct (get2 (groups m) g s) as [k|] eqn:Hk; [|done].
    cbn [mbind option_bind] in H.
    destruct (slot_facts m g s _ k A W Hc ltac:(lia) Hk)
      as (_ & _ & _ & _ & _ & _ & Hu & Hu16).
    rewrite Hu, Hu16 in H.
    destruct (loadAt _ _) as [vh|] eqn:Hvh; [|done]. by exists k, vh. }
  eapply updated_then_Get; try done.
  eapply rePutFound_updated; try done. lia.
Qed.

End Update.

Tactic Notation "two_slots" ident(g) ident(s) ident(Hc) :=
  destruct g as [|g]; [|by destruct g];
  destruct s as [|s];
  [|destruct s as [|s];
    [|exfalso;
      do 14 (destruct s as [|s];
             [vm_compute in Hc; injection Hc as <-; lia|]);
      by vm_compute in Hc]].

Lemma demoShardAB_wf : wfSlots demoShardAB.
Proof.
  constructor.
  - intros g s c k Hc Hc0 Hk. two_slots g s Hc;
      vm_compute in Hk; injection Hk as <-; by vm_compute.
  - intros g s c k g' s' c' k' Hc Hc0 Hk Hc' Hc0' Hk' Hne.
    two_slots g s Hc; two_slots g' s' Hc'; try done;
      vm_compute in Hk, Hk'; injection Hk as <-; injection Hk' as <-;
      vm_compute; intuition discriminate.
  - intros g s c k vh Hc Hc0 Hk Hty Hvh. two_slots g s Hc;
      vm_compute in Hk; injection Hk as <-;
      vm_compute in Hvh; injection Hvh as <-;
      (split; [by vm_compute|]);
      intros g' s' c' k' Hc' Hc0' Hk'; two_slots g' s' Hc';
      vm_compute in Hk'; injection Hk' as <-;
      vm_compute; intuition discriminate.
Defined.

Lemma demoShardAB_Inv : Inv demoShardAB.
Proof. constructor; try (by repeat constructor); by vm_compute. Defined.

Lemma demoShardAB_arena : arena_ok (kvHolder demoShardAB).
Proof. constructor; by vm_compute. Defined.

Lemma Put_then_Get_witness :
  ∃ m' m'', Put demoPackage demoShardAB (demoHash keyA) keyA
              [Byte.x79; Byte.x79] = Some (m', true)
            ∧ Get demoPackage m' (demoHash keyA) keyA
              = Some (m'', ([Byte.x79; Byte.x79], true)).
Proof.
  eexists.
  assert (HP : Put demoPackage demoShardAB (demoHash keyA) keyA
                 [Byte.x79; Byte.x79] = Some (_, true)) by (by vm_compute).
  destruct (Put_then_Get demoPackage demoPackage_layout demoShardAB
              (demoHash keyA) keyA [Byte.x79; Byte.x79] _ demoShardAB_Inv
              demoShardAB_arena demoShardAB_wf ltac:(by vm_compute) HP)
    as [m'' H].
  exists m''. split; [exact HP|exact H].
Defined.

Lemma RePut_update_then_Get_witness :
  ∃ m' m'', RePut demoPackage demoShardAB (demoHash keyB) keyB
              [Byte.x79; Byte.x79; Byte.x79] = Some (m', true)
            ∧ Get demoPackage m' (demoHash keyB) keyB
              = Some (m'', ([Byte.x79; Byte.x79; Byte.x79], true)).
Proof.
  eexists.
  assert (HP : RePut demoPackage demoShardAB (demoHash keyB) keyB
                 [Byte.x79; Byte.x79; Byte.x79] = Some (_, true))
    by (by vm_compute).
  destruct (RePut_update_then_Get demoPackage demoPackage_layout demoShardAB
              (demoHash keyB) keyB [Byte.x79; Byte.x79; Byte.x79] 0%nat 1%nat
              _ demoShardAB_Inv demoShardAB_arena demoShardAB_wf
              ltac:(by vm_compute) ltac:(by vm_compute) eq_refl
              ltac:(by vm_compute) ltac:(by vm_compute) HP)
    as [m'' H].
  exists m''. split; [exact HP|exact H].
Defined.

(** ** The layout of the arena after an append *)

Section Layout.

Variable P : Package.
Hypothesis LO : layout_ok P.

Lemma appended_wf m m' gN sN lo kN key v :
  arena_ok (kvHolder m) → wfSlots m → roomsBelowTail m →
  get2 (ctrl m) gN sN = Some empty →
  length key = 16%nat → len v < 2 ^ 31 →
  gcSet P (kvHolder m) key v = Some (kvHolder m', kN) →
  KV.tail (kvHolder m') ≤ len (KV.data (kvHolder m)) →
  set2 (ctrl m) gN sN lo = Some (ctrl m') →
  set2 (groups m) gN sN kN = Some (groups m') →
  wfSlots m' ∧ roomsBelowTail m' ∧ arena_ok (kvHolder m').
Proof.
  intros A W Rb Hemp Hk16 Hlv Hgc Hfit Hct Hgs.
  assert (Hlv0 : 0 ≤ len v) by (unfold len; lia).
  destruct (gcSet_readback P LO _ _ _ _ _ A Hk16 Hlv Hgc Hfit)
    as (Htail & Hag & Hcap & Hlim & Hit & HkN & Hoff & Hread).
  destruct (valueCap_spec P (len v) (conj Hlv0 Hlv)) as (Hvc1 & Hvc2 & _).
  pose proof Hag as [Hlen _].
  pose proof A as [At Aal Ahi Acap Asz].
  set (t := KV.tail (kvHolder m)) in *.
  assert (A' : arena_ok (kvHolder m')).
  { constructor; unfold len in *; rewrite ?Hlen, ?Hcap; try lia.
    rewrite Htail. rewrite Z.add_mod, Hvc2, Z.add_0_r, Z.mod_mod by lia.
    rewrite Z.add_mod, Aal by lia. done. }
  destruct (Hread (kvHolder m') (agreeBelow_refl _ _)) as (_ & Hnew).
  assert (HkN0 : kN ≠ 0).
  { intros ->. change (offset 0) with 0 in Hoff. lia. }
  assert (Hold : ∀ g s c, (g, s) ≠ (gN, sN) →
             get2 (ctrl m') g s = Some c →
             get2 (ctrl m) g s = Some c
             ∧ get2 (groups m') g s = get2 (groups m) g s).
  { intros g s c Hne Hc.
    rewrite (get2_set2_ne _ _ _ _ _ g s Hct Hne) in Hc.
    by rewrite (get2_set2_ne _ _ _ _ _ g s Hgs Hne). }
  assert (Hrec : ∀ g s c k,
             get2 (ctrl m') g s = Some c → 0 ≤ c →
             get2 (groups m') g s = Some k →
             (g, s) = (gN, sN) ∧ k = kN ∧ offset k * 4 = t
             ∨ (g, s) ≠ (gN, sN) ∧ get2 (ctrl m) g s = Some c
               ∧ get2 (groups m) g s = Some k ∧ offset k * 4 + 20 ≤ t
               ∧ k ≠ 0 ∧ 4 ≤ offset k * 4).
  { intros g s c k Hc Hc0 Hk.
    destruct (decide ((g, s) = (gN, sN))) as [Heq|Hne].
    - left. injection Heq as -> ->.
      rewrite (get2_set2_eq _ _ _ _ _ Hgs) in Hk. injection Hk as <-.
      done.
    - right. destruct (Hold g s c Hne Hc) as (Hc' & Hg').
      rewrite Hg' in Hk.
      destruct (wf_rec m W g s c k Hc' Hc0 Hk) as (? & ? & ?). done. }
  assert (Hval : ∀ g s c k vh,
             get2 (ctrl m') g s = Some c → 0 ≤ c →
             get2 (groups m') g s = Some k → valType k = 0 →
             loadAt (KV.data (kvHolder m')) (offset k * 4 + 16) = Some vh →
             (g, s) = (gN, sN)
             ∧ Z.land vh IdxOffsetMask * 4 = t + 20
             ∧ capOrBigSize k * 4 = valueCap P (len v)
             ∨ (g, s) ≠ (gN, sN)
               ∧ loadAt (KV.data (kvHolder m)) (offset k * 4 + 16) = Some vh).
  { intros g s c k vh Hc Hc0 Hk Hty Hvh.
    destruct (Hrec g s c k Hc Hc0 Hk)
      as [(Heq & -> & Ho)|(Hne & Hc' & Hk' & Hb & _)].
    - left. split; [done|].
      destruct (Hnew Hty) as (vh0 & Hvh0 & Hvo & Hvc).
      rewrite Ho in Hvh. fold t in Hvh0. rewrite Hvh0 in Hvh.
      injection Hvh as <-. done.
    - right. split; [done|].
      by rewrite (loadAt_agreeBelow _ _ _ _ Hag) in Hvh by (fold t; lia). }
  split; [|split; [|done]].
  - constructor.
    + intros g s c k Hc Hc0 Hk.
      destruct (Hrec g s c k Hc Hc0 Hk)
        as [(_ & -> & Ho)|(_ & _ & _ & Hb & Hk0 & H4)]; rewrite ?Ho, ?Htail;
        repeat split; try done; lia.
    + intros g s c k g' s' c' k' Hc Hc0 Hk Hc' Hc0' Hk' Hne.
      destruct (Hrec g s c k Hc Hc0 Hk)
        as [(E1 & _ & Ho)|(N1 & C1 & K1 & B1 & _)];
        destruct (Hrec g' s' c' k' Hc' Hc0' Hk')
          as [(E2 & _ & Ho')|(N2 & C2 & K2 & B2 & _)]; try lia.
      * congruence.
      * by eapply (wf_apart m W g s c k g' s' c' k').
    + intros g s c k vh Hc Hc0 Hk Hty Hvh.
      destruct (Hval g s c k vh Hc Hc0 Hk Hty Hvh)
        as [(E1 & Hvo & Hvc)|(N1 & Hvh')].
      * rewrite Hvo, Hvc. split; [unfold len in *; rewrite Hlen; lia|].
        intros g' s' c' k' Hc' Hc0' Hk'.
        destruct (Hrec g' s' c' k' Hc' Hc0' Hk')
          as [(_ & _ & Ho')|(_ & _ & _ & B2 & _)]; lia.
      * destruct (Hrec g s c k Hc Hc0 Hk)
          as [(E1 & _)|(_ & C1 & K1 & B1 & _)]; [done|].
        destruct (wf_val m W g s c k vh C1 Hc0 K1 Hty Hvh') as (Hin & Hap).
        pose proof (Rb g s c k vh C1 Hc0 K1 Hty Hvh') as Hbt. fold t in Hbt.
        split; [unfold len in *; rewrite Hlen; lia|].
        intros g' s' c' k' Hc' Hc0' Hk'.
        destruct (Hrec g' s' c' k' Hc' Hc0' Hk')
          as [(_ & _ & Ho')|(_ & C2 & K2 & B2 & _)]; [lia|].
        by eapply Hap.
  - intros g s c k vh Hc Hc0 Hk Hty Hvh.
    destruct (Hval g s c k vh Hc Hc0 Hk Hty Hvh)
      as [(E1 & Hvo & Hvc)|(N1 & Hvh')].
    + rewrite Hvo, Hvc, Htail. lia.
    + destruct (Hrec g s c k Hc Hc0 Hk)
        as [(E1 & _)|(_ & C1 & K1 & B1 & _)]; [done|].
      pose proof (Rb g s c k vh C1 Hc0 K1 Hty Hvh') as Hbt.
      fold t in Hbt. rewrite Htail. lia.
Qed.

Lemma moveSlot_wf m r g s r' :
  len (KV.data (kvHolder m)) < 2 ^ 31 →
  arena_ok (r_kv r) → rows16 (r_ctrl r) →
  wfSlots (tableOf r) → roomsBelowTail (tableOf r) →
  moveSlot P m r g s = Some r' →
  KV.tail (r_kv r') ≤ len (KV.data (r_kv r)) →
  wfSlots (tableOf r') ∧ roomsBelowTail (tableOf r').
Proof.
  intros Hold A Hrc W Rb H Hfit. unfold moveSlot in H.
  destruct (get2 (ctrl m) g s) as [c|] eqn:Hc; [|done].
  cbn [mbind option_bind] in H.
  destruct ((c =? empty) || (c =? tombstone)) eqn:Ec.
  { by injection H as <-. }
  unbind H. injection H as <-.
  match goal with
  | E2 : getKVUnlock P (kvHolder m) _ = Some (?key, ?v),
    E4 : findEmpty _ _ _ _ = Some (?gN, ?sN),
    E5 : gcSet _ _ _ _ = Some (?h', ?kN),
    E6 : set2 (r_groups r) _ _ _ = Some ?gs,
    E7 : set2 (r_ctrl r) _ _ _ = Some ?ct,
    E9 : set2 (r_counters r) _ _ _ = Some ?cn |- _ =>
      rename E2 into Hkv, E4 into Hfe, E5 into Hgc, E6 into Hgs, E7 into Hct;
      rename key into key0, v into v0, gN into gN0, sN into sN0, h' into h0,
        kN into kN0, gs into gs0, ct into ct0, cn into cn0
  end.
  destruct (getKVUnlock_lengths _ _ _ _ _ Hkv) as [Hk16 Hlv].
  pose proof (findEmpty_spec _ _ _ _ _ _ Hrc Hfe) as Hemp.
  assert (Hlv31 : len v0 < 2 ^ 31) by lia.
  destruct (appended_wf (tableOf r)
              (tableOf (mkRebuild gs0 ct0 cn0 h0 (u32 (r_resident r + 1))))
              gN0 sN0 _ kN0 key0 v0 A W Rb Hemp Hk16 Hlv31 Hgc Hfit Hct Hgs)
    as (W' & Rb' & _).
  done.
Qed.

Lemma moveRow_wf m g : ∀ ss r r',
  len (KV.data (kvHolder m)) < 2 ^ 31 →
  arena_ok (r_kv r) → rows16 (r_ctrl r) →
  wfSlots (tableOf r) → roomsBelowTail (tableOf r) →
  moveRow P m r g ss = Some r' →
  KV.tail (r_kv r') ≤ len (KV.data (r_kv r)) →
  wfSlots (tableOf r') ∧ roomsBelowTail (tableOf r').
Proof.
  induction ss as [|s ss IH]; intros r r' Hold A Hrc W Rb H Hfit.
  { by injection H as <-. }
  cbn [moveRow] in H. unbind H.
  destruct (moveRow_tail _ _ _ _ _ _ H) as [Hl Ht].
  pose proof (moveSlot_data_length _ _ _ _ _ _ E) as Hl'.
  assert (Hfit1 : KV.tail (r_kv r0) ≤ len (KV.data (r_kv r))).
  { unfold len in *. rewrite <- Hl'. apply Ht. rewrite Hl'. done. }
  destruct (moveSlot_stored P LO m r g s _ Hold A Hrc E Hfit1)
    as (A1 & R1 & _).
  destruct (moveSlot_wf m r g s _ Hold A Hrc W Rb E Hfit1) as (W1 & B1).
  apply (IH r0 r' Hold A1 R1 W1 B1 H). unfold len in *. by rewrite Hl'.
Qed.

Lemma moveRows_wf m : ∀ gs r r',
  len (KV.data (kvHolder m)) < 2 ^ 31 →
  arena_ok (r_kv r) → rows16 (r_ctrl r) →
  wfSlots (tableOf r) → roomsBelowTail (tableOf r) →
  moveRows P m r gs = Some r' →
  KV.tail (r_kv r') ≤ len (KV.data (r_kv r)) →
  wfSlots (tableOf r') ∧ roomsBelowTail (tableOf r').
Proof.
  induction gs as [|g gs IH]; intros r r' Hold A Hrc W Rb H Hfit.
  { by injection H as <-. }
  cbn [moveRows] in H. unbind H.
  destruct (moveRows_tail _ _ _ _ _ H) as [Hl Ht].
  destruct (moveRow_tail _ _ _ _ _ _ E0) as [Hl' Ht'].
  assert (Hfit1 : KV.tail (r_kv r0) ≤ len (KV.data (r_kv r))).
  { unfold len in *. rewrite <- Hl'. apply Ht. rewrite Hl'. done. }
  destruct (moveRow_stored P LO m g _ r r0 Hold A Hrc E0 Hfit1)
    as (A1 & R1 & _).
  destruct (moveRow_wf m g _ r r0 Hold A Hrc W Rb E0 Hfit1) as (W1 & B1).
  apply (IH r0 r' Hold A1 R1 W1 B1 H). unfold len in *. by rewrite Hl'.
Qed.

Lemma freshTable_wf n cap :
  wfSlots (tableOf (freshTable P n cap))
  ∧ roomsBelowTail (tableOf (freshTable P n cap)).
Proof.
  assert (Hno : ∀ g s c, get2 (ctrl (tableOf (freshTable P n cap))) g s
                         = Some c → 0 ≤ c → False).
  { intros g s c Hc Hc0. simpl in Hc. unfold newEmptyMetadata in Hc.
    apply get2_replicate in Hc. subst. unfold empty in Hc0. lia. }
  split; [constructor|].
  - intros g s c k Hc Hc0 _. destruct (Hno g s c Hc Hc0).
  - intros g s c k g' s' c' k' Hc Hc0 _. destruct (Hno g s c Hc Hc0).
  - intros g s c k vh Hc Hc0 _. destruct (Hno g s c Hc Hc0).
  - intros g s c k vh Hc Hc0 _. destruct (Hno g s c Hc Hc0).
Qed.

Lemma wfSlots_ext m m' :
  ctrl m' = ctrl m → groups m' = groups m → kvHolder m' = kvHolder m →
  wfSlots m ∧ roomsBelowTail m → wfSlots m' ∧ roomsBelowTail m'.
Proof.
  intros Hc Hg Hk [[W1 W2 W3] Rb].
  split; [constructor|]; unfold roomsBelowTail; rewrite ?Hc, ?Hg, ?Hk; done.
Qed.

End Layout.

(** ** RePut, whatever path it takes *)

Section RePutRoundTrip.

Variable P : Package.
Hypothesis LO : layout_ok P.

(** [rehash] lays the arena out afresh. *)
Lemma rehash_layout m :
  Inv m → (0 < length (ctrl m))%nat → len (groups m) < 2 ^ 27 →
  arena_ok (kvHolder m) → 4 ≤ KV.cap (kvHolder m) →
  readable P m → compactSize P m ≤ KV.cap (kvHolder m) →
  ∃ m', rehash P m = Some m'
    ∧ Inv m' ∧ arena_ok (kvHolder m') ∧ wfSlots m' ∧ roomsBelowTail m'
    ∧ rehashing m' = rehashing m.
Proof.
  intros I Hpos HG A Hcap4 Hrd Hfit.
  pose proof (Inv_bounds m I) as (Hi0 & Hd0 & Hsum & Hres & Hres32).
  pose proof A as [At Aal Ahi Acap Asz].
  assert (Hold : len (KV.data (kvHolder m)) < 2 ^ 31) by lia.
  pose proof I as [Hrc Hn Hg Hlc Hlg Hsz Hi Hd Hr].
  set (n := nextSize m).
  assert (Hn1 : (if resident m / 2 <=? dead m
                 then n = length (groups m)
                 else 6 * len (groups m) ≤ 5 * Z.of_nat n
                      ∧ 5 * Z.of_nat n < 6 * len (groups m) + 5)).
  { unfold n, nextSize. destruct (resident m / 2 <=? dead m); [done|].
    rewrite u32_small by (unfold len in *; Z.div_mod_to_equations; lia).
    rewrite Z2Nat.id by (unfold len; Z.div_mod_to_equations; lia).
    unfold len. Z.div_mod_to_equations; lia. }
  assert (Hroom : countTable isLive (ctrl m) ≤ 16 * Z.of_nat n - 1
                  ∧ (0 < n)%nat ∧ Z.of_nat n < 2 ^ 28).
  { unfold len in *. destruct (Z.leb_spec (resident m / 2) (dead m)).
    - rewrite Hn1, Hlg. split; [|lia]. Z.div_mod_to_equations; lia.
    - lia. }
  destruct Hroom as (Hroom & Hn0 & Hn28).
  assert (IR : InvR (freshTable P n (KV.cap (kvHolder m))))
    by (apply freshTable_InvR; lia).
  assert (AR : arena_ok (newKVHolder P (KV.cap (kvHolder m))))
    by (apply newKVHolder_ok; unfold len in *; lia).
  assert (Hlen0 : length (r_ctrl (freshTable P n (KV.cap (kvHolder m)))) = n)
    by (simpl; apply length_replicate).
  assert (Hlive0 : countTable isLive
                     (r_ctrl (freshTable P n (KV.cap (kvHolder m)))) = 0).
  { destruct IR as [_ _ _ _ _ _ Hi' _ _]. by rewrite <- Hi'. }
  assert (Hdata0 : len (KV.data (newKVHolder P (KV.cap (kvHolder m))))
                   = KV.cap (kvHolder m)).
  { unfold len; simpl. rewrite length_replicate. lia. }
  destruct (moveRows_total P LO m (length (ctrl m)) 0 _ I Hrd Hold eq_refl
              IR AR)
    as (r & Hmv & Htail);
    rewrite ?drop_0, ?Hlen0, ?Hlive0; unfold len; rewrite ?Hlen0;
    unfold len in *; try lia.
  { cbn [freshTable r_kv]. unfold len in Hdata0. rewrite Hdata0.
    unfold compactSize in Hfit. simpl KV.tail. lia. }
  assert (Hfit' : KV.tail (r_kv r)
                  ≤ len (KV.data (r_kv (freshTable P n (KV.cap (kvHolder m)))))).
  { cbn [freshTable r_kv] in *. unfold len in *. rewrite Hdata0.
    rewrite Htail. unfold compactSize in Hfit. simpl KV.tail. lia. }
  unfold rehash. fold n. rewrite Hmv. cbn [mbind option_bind].
  eexists. split; [done|].
  destruct (rebuilt_counts P m n r I ltac:(lia) Hmv) as (IR' & HL & Hlen).
  destruct (moveRows_stored P LO m _ (freshTable P n (KV.cap (kvHolder m)))
              r Hold AR (invr_ctrl _ IR) Hmv Hfit') as (A' & _).
  destruct (freshTable_wf P n (KV.cap (kvHolder m))) as (W0 & B0).
  destruct (moveRows_wf P LO m _ (freshTable P n (KV.cap (kvHolder m)))
              r Hold AR (invr_ctrl _ IR) W0 B0 Hmv Hfit') as (W' & B').
  destruct IR' as [Rrc Rn Rg Rlc Rlg Rsz Ri Rd Rr].
  split; [constructor; fields; try done; lia|].
  split; [done|].
  destruct (wfSlots_ext (tableOf r)
              (mkLFUMap (r_kv r) (r_ctrl r) (r_counters r) (r_groups r)
                 (r_resident r) 0 (u32 (Z.of_nat n * maxAvgGroupLoad))
                 (queryCnt m) (missCnt m) (rehashing m))
              eq_refl eq_refl eq_refl (conj W' B')) as (W & B).
  done.
Qed.

Lemma readable_setRehashing m b : readable P m → readable P (setRehashing m b).
Proof. intros H g s c k. apply (H g s c k). Qed.

Lemma compactSize_setRehashing m b :
  compactSize P (setRehashing m b) = compactSize P m.
Proof. unfold compactSize. by rewrite tableNeed_setRehashing. Qed.

(** A [Get] after the insert path of [RePut]. *)
Lemma rePutInsert_then_Get m l key value g e m' :
  Inv m → arena_ok (kvHolder m) → wfSlots m →
  length key = 16%nat → len value < 2 ^ 31 →
  probeWith m (keyTest m key) l = Some (AtEmpty g e) →
  rePutInsert P m g e (snd (splitHash l)) key value = Some (m', true) →
  ∃ m'', Get P m' l key = Some (m'', (value, true)).
Proof.
  intros I A W Hkey Hlv Hp HR.
  pose proof A as [At Aal Ahi Acap Asz].
  assert (Hlv0 : 0 ≤ len value) by (unfold len; lia).
  destruct (valueCap_spec P (len value) ltac:(lia)) as (Hv1 & Hv2 & _).
  rewrite rePutInsert_gcSet in HR. cbn zeta in HR.
  rewrite valueCap_u32 in HR by lia.
  rewrite !u32_small in HR by (rewrite ?u32_small; lia).
  destruct (Z.ltb_spec (KV.cap (kvHolder m))
              (KV.tail (kvHolder m) + 20 + valueCap P (len value)))
    as [|Hfit]; [by injection HR|].
  destruct (gcSet P (kvHolder m) key value) as [[h' kN]|] eqn:Hgc; [|done].
  cbn [mbind option_bind] in HR.
  set (s := fst (nextMatch e)) in *.
  destruct (set2 (groups m) g s kN) as [gs|] eqn:Hgs; [|done].
  cbn [mbind option_bind] in HR.
  destruct (set2 (ctrl m) g s _) as [ct|] eqn:Hct; [|done].
  cbn [mbind option_bind] in HR.
  destruct (set2 (counters m) g s 1) as [cn|] eqn:Hcn; [|done].
  cbn [mbind option_bind] in HR. injection HR as <-.
  destruct (probeWith_AtEmpty _ _ _ _ _ Hp) as (md & Hmd & He' & Hne).
  pose proof (rows16_lookup _ _ _ (inv_ctrl m I) Hmd) as Hl16.
  assert (He : get2 (ctrl m) g s = Some empty).
  { eapply get2_matchSlots; [done|]. subst s e.
    rewrite (nextMatch_empty md) by (done || lia). left. }
  pose proof (gcSet_tail P _ _ _ _ _ Hlv A Hgc) as Htl.
  destruct (gcSet_readback P LO _ _ _ _ _ A Hkey Hlv Hgc ltac:(lia))
    as (_ & Hag & _ & _ & _ & HkN & Hoff & Hread).
  destruct (Hread h' (agreeBelow_refl _ _)) as (Hkv & _).
  assert (HkN0 : kN ≠ 0).
  { intros ->. change (offset 0) with 0 in Hoff. lia. }
  unfold getKVUnlock in Hkv.
  destruct (getKey h' kN) as [kb|] eqn:Hkb; [|done].
  cbn [mbind option_bind] in Hkv.
  destruct (loadAt (KV.data h') _) as [vh|] eqn:Hvh; [|done].
  cbn [mbind option_bind] in Hkv.
  destruct (decodeValue P h' kN vh) as [[vo vs]|] eqn:Hdv; [|done].
  cbn [mbind option_bind] in Hkv.
  destruct (getValue h' vo vs) as [v|] eqn:Hgv; [|done].
  cbn [mbind option_bind] in Hkv. injection Hkv as -> ->.
  pose proof (splitHash_lo l) as Hlo.
  unfold Get. fields.
  set (m1 := setQueryCnt _ _).
  assert (Hprobe : probeWith m1 (getTest m1 key) l = Some (Found g s)).
  { unfold probeWith in *. destruct (splitHash l) as [hi lo] eqn:Hs.
    subst m1. fields. rewrite (set2_length _ _ _ _ _ Hgs).
    destruct (probeStart hi (length (groups m))) as [g0|]; [|done].
    cbn [mbind option_bind] in *. simpl in Hct, Hlo.
    apply (probeLoop_insert (ctrl m) ct _ lo (keyTest m key) _ g s _ g0 e);
      try done.
    - apply I.
    - unfold empty. lia.
    - intros g' s' Hne' Hc' Ht'. unfold getTest. fields.
      rewrite (get2_set2_ne _ _ _ _ _ g' s' Hgs Hne').
      unfold keyTest, getKey in Ht'.
      destruct (get2 (groups m) g' s') as [k|] eqn:Hk; [|done].
      cbn [mbind option_bind] in *.
      destruct (Z.eqb_spec k 0) as [|Hk0]; [done|].
      destruct (wf_rec m W g' s' lo k Hc' ltac:(lia) Hk) as (_ & ? & Hb).
      rewrite !u32_small in * by (rewrite ?u32_small; lia).
      rewrite (slice_agreeBelow _ _ _ _ _ Hag) by lia. done.
    - unfold getTest. fields. rewrite (get2_set2_eq _ _ _ _ _ Hgs).
      cbn [mbind option_bind].
      destruct (Z.eqb_spec kN 0) as [|_]; [done|].
      unfold getKey in Hkb. rewrite Hkb. cbn [mbind option_bind].
      unfold bytesEqual. by rewrite bool_decide_eq_true_2. }
  rewrite Hprobe. cbn [mbind option_bind]. subst m1. fields.
  rewrite (get2_set2_eq _ _ _ _ _ Hgs). cbn [mbind option_bind].
  rewrite Hvh. cbn [mbind option_bind]. rewrite Hdv.
  cbn [mbind option_bind]. rewrite Hgv. cbn [mbind option_bind].
  unfold add. fields. rewrite (get2_set2_eq _ _ _ _ _ Hcn).
  cbn [mbind option_bind]. change (1 <? maxCount) with true. cbn iota.
  destruct (set2_is_Some cn g s (1 + 1) 1 (get2_set2_eq _ _ _ _ _ Hcn))
    as [cn' ->].
  cbn [mbind option_bind]. by eexists.
Qed.

(** A [Get] after [RePut], once the table [RePut] works on is known. *)
Lemma rePut_body_then_Get m0 l key value m' :
  Inv m0 → arena_ok (kvHolder m0) → wfSlots m0 →
  length key = 16%nat → len value < 2 ^ 31 →
  (r ← probeWith m0 (keyTest m0 key) l;
   match r with
   | Found g s => rePutFound P m0 g s value
   | AtEmpty g matches =>
       rePutInsert P m0 g matches (snd (splitHash l)) key value
   end) = Some (m', true) →
  ∃ m'', Get P m' l key = Some (m'', (value, true)).
Proof.
  intros I A W Hkey Hlv H.
  destruct (probeWith m0 (keyTest m0 key) l) as [[g s|g e]|] eqn:Hp;
    [| |done]; cbn [mbind option_bind] in H.
  - destruct (probeWith_Found _ _ _ _ _ (inv_ctrl m0 I) Hp)
      as (Hc & Ht & Hs16).
    pose proof (splitHash_lo l) as Hlo.
    assert (∃ k vh, get2 (groups m0) g s = Some k
              ∧ loadAt (KV.data (kvHolder m0)) (offset k * 4 + 16) = Some vh)
      as (k & vh & Hk & Hvh).
    { unfold rePutFound in H.
      destruct (get2 (groups m0) g s) as [k|] eqn:Hk; [|done].
      cbn [mbind option_bind] in H.
      destruct (slot_facts m0 g s _ k A W Hc ltac:(lia) Hk)
        as (_ & _ & _ & _ & _ & _ & Hu & Hu16).
      rewrite Hu, Hu16 in H.
      destruct (loadAt _ _) as [vh|] eqn:Hvh; [|done]. by exists k, vh. }
    eapply (updated_then_Get P); try done.
    eapply (rePutFound_updated P LO); try done. lia.
  - by eapply rePutInsert_then_Get.
Qed.

(** Round trip through [RePut], whatever path it takes: on a shard whose
    counts are consistent and whose arena is laid out as [wfSlots] says,
    a [RePut] of a 16-byte key and a value shorter than [2^31] bytes that
    returns true is followed by a [Get] of the key that returns that
    value — when the key is new and when it is updated, for every value
    layout, and also when the call first rehashes the table (in which
    case the old pairs must be readable and fit the arena once
    compacted). *)
Theorem RePut_then_Get m l key value m' :
  Inv m → arena_ok (kvHolder m) → wfSlots m →
  length key = 16%nat → len value < 2 ^ 31 →
  (limit m ≤ resident m →
   (0 < length (ctrl m))%nat ∧ len (groups m) < 2 ^ 27
   ∧ 4 ≤ KV.cap (kvHolder m) ∧ readable P m
   ∧ compactSize P m ≤ KV.cap (kvHolder m)) →
  RePut P m l key value = Some (m', true) →
  ∃ m'', Get P m' l key = Some (m'', (value, true)).
Proof.
  intros I A W Hkey Hlv Hre H. unfold RePut in H.
  destruct (KV.limit (kvHolder m) <=? KV.tail (kvHolder m));
    [by injection H|].
  destruct (rehashing m) eqn:Hrh; [by injection H|].
  destruct (Z.leb_spec (limit m) (resident m)) as [Hfull|Hroom].
  - destruct (Hre Hfull) as (Hpos & HG & Hcap4 & Hrd & Hfit).
    destruct (rehash_layout (setRehashing m true)
                (setRehashing_Inv _ _ I) Hpos HG A Hcap4
                (readable_setRehashing _ _ Hrd)
                ltac:(by rewrite compactSize_setRehashing))
      as (m1 & Hm1 & I1 & A1 & W1 & B1 & _).
    rewrite Hm1 in H. cbn [mbind option_bind] in H.
    destruct (wfSlots_ext m1 (setRehashing m1 false) eq_refl eq_refl eq_refl
                (conj W1 B1)) as (W2 & _).
    eapply (rePut_body_then_Get (setRehashing m1 false)); try done.
    by apply setRehashing_Inv.
  - cbn [mbind option_bind] in H.
    by eapply (rePut_body_then_Get m).
Qed.

End RePutRoundTrip.

Lemma demoShard_wf : wfSlots demoShard.
Proof.
  constructor.
  - intros g s c k Hc Hc0 Hk. two_slots g s Hc;
      [vm_compute in Hk; injection Hk as <-; by vm_compute
      |vm_compute in Hc; injection Hc as <-; lia].
  - intros g s c k g' s' c' k' Hc Hc0 Hk Hc' Hc0' Hk' Hne.
    two_slots g s Hc; [|vm_compute in Hc; injection Hc as <-; lia].
    two_slots g' s' Hc'; [|vm_compute in Hc'; injection Hc' as <-; lia].
    done.
  - intros g s c k vh Hc Hc0 Hk Hty Hvh.
    two_slots g s Hc; [|vm_compute in Hc; injection Hc as <-; lia].
    vm_compute in Hk; injection Hk as <-.
    vm_compute in Hvh; injection Hvh as <-.
    split; [by vm_compute|].
    intros g' s' c' k' Hc' Hc0' Hk'.
    two_slots g' s' Hc'; [|vm_compute in Hc'; injection Hc' as <-; lia].
    vm_compute in Hk'; injection Hk' as <-.
    vm_compute; intuition discriminate.
Defined.

Lemma RePut_then_Get_witness :
  ∃ m'', RePut demoPackage demoShard (demoHash keyB) keyB hello
         = Some (demoShardAB, true)
         ∧ Get demoPackage demoShardAB (demoHash keyB) keyB
           = Some (m'', (hello, true)).
Proof.
  assert (HP : RePut demoPackage demoShard (demoHash keyB) keyB hello
               = Some (demoShardAB, true)) by (by vm_compute).
  destruct (RePut_then_Get demoPackage demoPackage_layout demoShard
              (demoHash keyB) keyB hello demoShardAB demoShard_Inv
              demoShard_arena demoShard_wf eq_refl ltac:(by vm_compute)
              ltac:(intros Hfull; exfalso; by vm_compute in Hfull) HP)
    as [m'' H].
  exists m''. split; [exact HP|exact H].
Defined.

(** ** The probe after a slot has been filled *)

(** Filling an empty slot with another key leaves every probe that
    found its key where it was. *)
Lemma probeLoop_fill ct ct' G lo test test' g0 s0 x fuel : ∀ g g1 s1,
  rows16 ct → get2 ct g0 s0 = Some empty → set2 ct g0 s0 x = Some ct' →
  lo ≠ empty →
  (∀ g s, (g, s) ≠ (g0, s0) → get2 ct g s = Some lo →
          test' g s = test g s) →
  (x = lo → test' g0 s0 = Some false) →
  probeLoop ct G lo test fuel g = Some (Found g1 s1) →
  probeLoop ct' G lo test' fuel g = Some (Found g1 s1).
Proof.
  induction fuel as [|fuel IH]; intros g g1 s1 Hr He0 Hset Hlo Hext Hx H;
    [done|].
  cbn [probeLoop] in *.
  destruct (ct !! g) as [md|] eqn:Hmd; [|done]. cbn [mbind option_bind] in H.
  pose proof (rows16_lookup _ _ _ Hr Hmd) as Hl.
  rewrite scan_spec in H by lia.
  destruct (decide (g = g0)) as [->|Hg].
  - rewrite (set2_lookup_eq _ _ _ _ _ md Hset Hmd). cbn [mbind option_bind].
    rewrite scan_spec by (rewrite length_insert; lia).
    apply get2_Some in He0 as (md0 & Hmd0 & Hs0).
    assert (md0 = md) as -> by congruence.
    unfold matchSlots in *.
    rewrite (firstHit_skip (test' g0) (test g0)
                  (λ s, <[s0 := x]> md !! s = Some lo)
                  (λ s, md !! s = Some lo) s0) in H.
    + destruct (firstHit _ _) as [[s|]|]; cbn [mbind option_bind] in *;
        try done.
      assert (Hne : metaMatchEmpty md ≠ 0).
      { apply rowHasEmpty_match; [done|]. by exists s0. }
      destruct (Z.eqb_spec (metaMatchEmpty md) 0); [done|].
      cbn [negb] in H. done.
    + intros s Hs. by rewrite list_lookup_insert_ne.
    + intros Hq. rewrite Hs0 in Hq. congruence.
    + intros Hq. apply list_lookup_insert_Some in Hq.
      destruct Hq as [(_ & ? & _)|(? & _)]; [|done]. apply Hx. congruence.
    + intros s Hs Hq. rewrite list_lookup_insert_ne in Hq by done.
      symmetry. apply Hext; [congruence|]. apply get2_Some. eauto.
  - rewrite (set2_lookup_ne _ _ _ _ _ g Hset Hg), Hmd.
    cbn [mbind option_bind]. rewrite scan_spec by lia.
    rewrite (firstHit_ext (test' g) (test g)).
    2:{ intros s Hs. apply Hext; [congruence|].
        eapply get2_matchSlots; eauto. }
    destruct (firstHit _ _) as [[s|]|]; cbn [mbind option_bind] in *;
      try done.
    destruct (negb _); [done|]. by apply (IH _ g1 s1).
Qed.

(** ** rehash keeps every pair within reach of its probe *)

Section Placement.

Variable P : Package.
Hypothesis LO : layout_ok P.

Lemma getKey_below h h' k t :
  agreeBelow t (KV.data h) (KV.data h') → offset k * 4 + 16 ≤ t →
  getKey h' k = getKey h k.
Proof.
  intros Hag Hb. unfold getKey.
  pose proof (offset_mod k) as Ho.
  assert (0 ≤ offset k < 2 ^ 24) by (rewrite Ho; apply Z.mod_pos_bound; lia).
  rewrite (u32_small (offset k * 4)) by lia.
  rewrite (u32_small (offset k * 4 + 16)) by lia.
  by apply (slice_agreeBelow t).
Qed.

Lemma getTest_getKey m key g s k kb :
  get2 (groups m) g s = Some k → getKey (kvHolder m) k = Some kb →
  getTest m key g s
  = Some (if k =? 0 then false else bool_decide (key = kb)).
Proof.
  intros Hk Hkb. unfold getTest. rewrite Hk. cbn [mbind option_bind].
  destruct (k =? 0); [done|]. unfold getKey in Hkb. by rewrite Hkb.
Qed.

Lemma placed_ext r r' key v cnt :
  r_ctrl r' = r_ctrl r → r_groups r' = r_groups r →
  r_counters r' = r_counters r → r_kv r' = r_kv r →
  placed P r key v cnt → placed P r' key v cnt.
Proof.
  intros Hc Hg Hn Hk (g & s & k & H1 & H2 & H3 & H4).
  exists g, s, k. rewrite Hg, Hn, Hk. split; [|done].
  unfold probeWith, getTest, tableOf in *. fields.
  by rewrite Hc, Hg, Hk.
Qed.

(** One step of the double loop of [rehash]. *)
Lemma moveSlot_placed m r g s r' (D : nat → nat → Prop) :
  len (KV.data (kvHolder m)) < 2 ^ 31 →
  arena_ok (r_kv r) → rows16 (r_ctrl r) → rows16 (r_groups r) →
  length (r_groups r) = length (r_ctrl r) → wfSlots (tableOf r) →
  distinctKeys P m → ¬ D g s →
  movedOnly P m r D → allPlaced P m r D →
  moveSlot P m r g s = Some r' →
  KV.tail (r_kv r') ≤ len (KV.data (r_kv r)) →
  movedOnly P m r' (λ g' s', D g' s' ∨ (g', s') = (g, s))
  ∧ allPlaced P m r' (λ g' s', D g' s' ∨ (g', s') = (g, s)).
Proof.
  intros Hold A Hrc Hrg Hlg W Hdk HnD HM HP H Hfit. unfold moveSlot in H.
  destruct (get2 (ctrl m) g s) as [c|] eqn:Hc; [|done].
  cbn [mbind option_bind] in H.
  destruct ((c =? empty) || (c =? tombstone)) eqn:Ec.
  { injection H as <-. split.
    - intros g' s' c' k' H1 H2 H3.
      destruct (HM g' s' c' k' H1 H2 H3) as (g1 & s1 & key & v & cnt & ?).
      exists g1, s1, key, v, cnt. tauto.
    - intros g1 s1 key v cnt [HD|Heq] Hh; [by eapply HP|].
      injection Heq as -> ->. destruct Hh as (c' & k & Hc' & Hl & _).
      rewrite Hc in Hc'. injection Hc' as <-. unfold isLive in Hl.
      by rewrite Ec in Hl. }
  unbind H. injection H as <-.
  match goal with
  | E1 : get2 (groups m) g s = Some ?k,
    E2 : getKVUnlock P (kvHolder m) ?k = Some (?key, ?v),
    E3 : splitHash _ = (?hi, ?lo),
    E3' : probeStart _ _ = Some ?g0,
    E4 : findEmpty _ _ _ _ = Some (?gN, ?sN),
    E5 : gcSet _ _ _ _ = Some (?h', ?kN),
    E6 : set2 (r_groups r) _ _ _ = Some ?gs,
    E7 : set2 (r_ctrl r) _ _ _ = Some ?ct,
    E8 : get2 (counters m) g s = Some ?cnt,
    E9 : set2 (r_counters r) _ _ _ = Some ?cn |- _ =>
      rename E1 into Hk, E2 into Hkv, E3 into Hsp, E3' into Hps,
        E4 into Hfe, E5 into Hgc,
        E6 into Hgs, E7 into Hct, E8 into Hcnt, E9 into Hcn;
      rename k into k0, key into key0, v into v0, lo into lo0, gN into gN0,
        sN into sN0, h' into h0, kN into kN0, cnt into cnt0, g0 into gS,
        gs into gs0, ct into ct0, cn into cn0
  end.
  assert (Hh0 : holds P m g s key0 v0 cnt0).
  { exists c, k0. unfold isLive. rewrite Ec. done. }
  destruct (getKVUnlock_lengths _ _ _ _ _ Hkv) as [Hk16 Hlv].
  pose proof (findEmpty_spec _ _ _ _ _ _ Hrc Hfe) as Hemp.
  assert (Hlv31 : len v0 < 2 ^ 31) by lia.
  destruct (gcSet_readback P LO _ _ _ _ _ A Hk16 Hlv31 Hgc Hfit)
    as (Htail & Hag & _ & _ & _ & HkN & Hoff & Hread).
  assert (Hlv0 : 0 ≤ len v0) by (unfold len; lia).
  destruct (valueCap_spec P (len v0) (conj Hlv0 Hlv31)) as (Hvc1 & Hvc2 & _).
  destruct (Hread h0 (agreeBelow_refl _ _)) as (Hkv0 & _).
  assert (Hkey0 : getKey h0 kN0 = Some key0).
  { unfold getKVUnlock in Hkv0. destruct (getKey h0 kN0); [|done].
    cbn [mbind option_bind] in Hkv0. unbind Hkv0. by injection Hkv0 as ->. }
  pose proof A as [At Aal Ahi Acap Asz].
  assert (HkN0 : kN0 ≠ 0).
  { intros ->. change (offset 0) with 0 in Hoff. lia. }
  assert (Hlo : snd (splitHash (MD5L P key0)) = lo0) by (by rewrite Hsp).
  pose proof (splitHash_lo (MD5L P key0)) as Hlo0. rewrite Hlo in Hlo0.
  (* the slots that were tagged before the step *)
  assert (Hold' : ∀ g' s' c' k',
             (g', s') ≠ (gN0, sN0) →
             get2 (r_ctrl r) g' s' = Some c' → 0 ≤ c' →
             get2 (r_groups r) g' s' = Some k' →
             getKey h0 k' = getKey (r_kv r) k').
  { intros g' s' c' k' Hne Hc' Hc0 Hk'.
    destruct (wf_rec _ W g' s' c' k' Hc' Hc0 Hk') as (_ & _ & Hb).
    apply (getKey_below _ _ _ _ Hag). unfold tableOf in Hb. fields. lia. }
  assert (Hother : ∀ key g' s' c',
             (g', s') ≠ (gN0, sN0) →
             get2 (r_ctrl r) g' s' = Some c' → 0 ≤ c' →
             getTest (tableOf (mkRebuild gs0 ct0 cn0 h0 (u32 (r_resident r + 1))))
               key g' s'
             = getTest (tableOf r) key g' s').
  { intros key g' s' c' Hne Hc' Hc0. unfold getTest, tableOf. fields.
    cbn [r_ctrl r_counters r_groups r_kv].
    rewrite (get2_set2_ne _ _ _ _ _ g' s' Hgs Hne).
    destruct (get2 (r_groups r) g' s') as [k'|] eqn:Hk'; [|done].
    cbn [mbind option_bind]. destruct (k' =? 0); [done|].
    pose proof (Hold' g' s' c' k' Hne Hc' Hc0 Hk') as Hg.
    unfold getKey in Hg. by rewrite Hg. }
  assert (Hnew : ∀ key,
             getTest (tableOf (mkRebuild gs0 ct0 cn0 h0 (u32 (r_resident r + 1))))
               key gN0 sN0
             = Some (bool_decide (key = key0))).
  { intros key.
    rewrite (getTest_getKey _ key gN0 sN0 kN0 key0).
    - by destruct (Z.eqb_spec kN0 0).
    - unfold tableOf. fields. cbn [r_groups].
      by apply (get2_set2_eq _ _ _ _ _ Hgs).
    - done. }
  split.
  - (* provenance *)
    intros g' s' c' k' Hc' Hc0 Hk'. cbn [r_ctrl r_groups r_kv] in *.
    destruct (decide ((g', s') = (gN0, sN0))) as [Heq|Hne].
    + injection Heq as -> ->.
      rewrite (get2_set2_eq _ _ _ _ _ Hgs) in Hk'. injection Hk' as <-.
      exists g, s, key0, v0, cnt0. split; [by right|]. done.
    + rewrite (get2_set2_ne _ _ _ _ _ g' s' Hct Hne) in Hc'.
      rewrite (get2_set2_ne _ _ _ _ _ g' s' Hgs Hne) in Hk'.
      destruct (HM g' s' c' k' Hc' Hc0 Hk')
        as (g1 & s1 & key & v & cnt & HD & Hh & Hkey).
      exists g1, s1, key, v, cnt. split; [by left|]. split; [done|].
      by rewrite (Hold' g' s' c' k' Hne Hc' Hc0 Hk').
  - (* placement *)
    intros g1 s1 key v cnt HD' Hh.
    destruct (decide ((g1, s1) = (g, s))) as [Heq|Hne].
    + (* the pair that the step moves *)
      injection Heq as -> ->.
      destruct Hh as (c' & k & Hc' & Hl & Hk' & Hkv' & Hcnt').
      assert (k = k0) as -> by congruence.
      assert (key = key0 ∧ v = v0) as [-> ->] by (split; congruence).
      assert (cnt = cnt0) as -> by congruence.
      exists gN0, sN0, kN0. cbn [r_groups r_counters r_kv].
      rewrite (get2_set2_eq _ _ _ _ _ Hgs), (get2_set2_eq _ _ _ _ _ Hcn).
      split; [|split; [done|split; [done|]]].
      2:{ intros h2 Hag2. by apply Hread. }
      unfold probeWith. rewrite Hsp.
      change (groups (tableOf ?x)) with (r_groups x).
      change (ctrl (tableOf ?x)) with (r_ctrl x). cbn [r_ctrl r_groups].
      rewrite (set2_length _ _ _ _ _ Hgs), Hps. cbn [mbind option_bind].
      rewrite (findEmpty_probeLoop _ _ lo0) in Hfe by done.
      destruct (probeLoop (r_ctrl r) (length (r_groups r)) lo0
                  (λ _ _, Some false) (length (r_groups r)) gS)
        as [[?|gE e]|] eqn:Hpl; cbn [mbind option_bind] in Hfe; try done.
      injection Hfe as -> <-.
      rewrite (probeLoop_ext _ _ _ _ (getTest (tableOf r) key0)) in Hpl.
      2:{ done. }
      2:{ intros g' s' Hc'0. symmetry.
          destruct (get2_is_Some_rows (r_ctrl r) (r_groups r) g' s'
                      Hrc Hrg Hlg ltac:(eauto)) as [k' Hk'0].
          destruct (HM g' s' lo0 k' Hc'0 ltac:(lia) Hk'0)
            as (g2 & s2 & key2 & v2 & cnt2 & HD2 & Hh2 & Hkey2).
          rewrite (getTest_getKey _ key0 g' s' k' key2); [|done|done].
          destruct (k' =? 0); [done|].
          rewrite bool_decide_eq_false_2; [done|]. intros <-.
          pose proof (Hdk _ _ _ _ _ _ _ _ _ Hh2 Hh0) as Hsame.
          injection Hsame as -> ->. done. }
      apply (probeLoop_insert (r_ctrl r) ct0 _ lo0 (getTest (tableOf r) key0)
               _ gN0 (fst (nextMatch e)) _ gS e); try done.
      * unfold empty. lia.
      * intros g' s' Hne' Hc'0 Ht'.
        rewrite (Hother key0 g' s' lo0 Hne' Hc'0 ltac:(lia)). done.
      * rewrite Hnew. by rewrite bool_decide_eq_true_2.
    + (* a pair that was moved before *)
      destruct HD' as [HD|Heq]; [|done].
      destruct (HP g1 s1 key v cnt HD Hh) as (g2 & s2 & k2 & Hpr & Hk2 & Hn2 & Hr2).
      assert (Hkk : key ≠ key0).
      { intros ->. pose proof (Hdk _ _ _ _ _ _ _ _ _ Hh Hh0) as Hsame.
        injection Hsame as -> ->. done. }
      pose proof (splitHash_lo (MD5L P key)) as Hlok.
      assert (Htag : get2 (r_ctrl r) g2 s2 = Some (snd (splitHash (MD5L P key)))).
      { by destruct (probeWith_Found (tableOf r) _ _ _ _ Hrc Hpr) as (? & _). }
      assert (Hne2 : (g2, s2) ≠ (gN0, sN0)).
      { intros [= -> ->]. rewrite Hemp in Htag.
        assert (Heq : empty = snd (splitHash (MD5L P key))) by congruence.
        rewrite <- Heq in Hlok. unfold empty in Hlok. lia. }
      exists g2, s2, k2. cbn [r_groups r_counters r_kv].
      rewrite (get2_set2_ne _ _ _ _ _ g2 s2 Hgs Hne2).
      rewrite (get2_set2_ne _ _ _ _ _ g2 s2 Hcn Hne2).
      split; [|split; [done|split; [done|]]].
      2:{ intros h2 Hag2. apply Hr2.
          eapply agreeBelow_trans; [|exact Hag|exact Hag2]. lia. }
      unfold probeWith in *. destruct (splitHash (MD5L P key)) as [hik lok].
      change (groups (tableOf ?x)) with (r_groups x) in *.
      change (ctrl (tableOf ?x)) with (r_ctrl x) in *. cbn [r_ctrl r_groups].
      rewrite (set2_length _ _ _ _ _ Hgs).
      destruct (probeStart hik (length (r_groups r))) as [gK|]; [|done].
      cbn [mbind option_bind] in *. simpl in Hlok.
      apply (probeLoop_fill (r_ctrl r) ct0 _ lok (getTest (tableOf r) key)
               _ gN0 sN0 lo0 _ gK g2 s2); try done.
      * unfold empty. lia.
      * intros g' s' Hne' Hc'0. apply (Hother key g' s' lok); [done|done|lia].
      * intros _. rewrite Hnew. by rewrite bool_decide_eq_false_2.
Qed.

Lemma moveSlot_shape m r g s r' :
  rows16 (r_groups r) → length (r_groups r) = length (r_ctrl r) →
  moveSlot P m r g s = Some r' →
  rows16 (r_groups r') ∧ length (r_groups r') = length (r_ctrl r').
Proof.
  intros Hrg Hlg H. unfold moveSlot in H. unbind H; injection H as <-;
    [done|]. cbn [r_groups r_ctrl].
  match goal with
  | E6 : set2 (r_groups r) _ _ _ = Some ?gs,
    E7 : set2 (r_ctrl r) _ _ _ = Some ?ct |- _ =>
      split; [by eapply set2_rows16|];
      rewrite (set2_length _ _ _ _ _ E6), (set2_length _ _ _ _ _ E7); done
  end.
Qed.

Lemma placing_ext m r (D D' : nat → nat → Prop) :
  (∀ g s, D g s ↔ D' g s) → placing P m r D → placing P m r D'.
Proof.
  intros HD [A Hrc Hrg Hlg W Rb HM HP]. constructor; try done.
  - intros g' s' c k' H1 H2 H3.
    destruct (HM g' s' c k' H1 H2 H3) as (g & s & key & v & cnt & Hd & ?).
    exists g, s, key, v, cnt. split; [by apply HD|done].
  - intros g s key v cnt Hd Hh. apply (HP g s key v cnt); [by apply HD|done].
Qed.

Lemma moveSlot_placing m r g s r' (D : nat → nat → Prop) :
  len (KV.data (kvHolder m)) < 2 ^ 31 → distinctKeys P m → ¬ D g s →
  placing P m r D →
  moveSlot P m r g s = Some r' →
  KV.tail (r_kv r') ≤ len (KV.data (r_kv r)) →
  placing P m r' (λ g' s', D g' s' ∨ (g', s') = (g, s)).
Proof.
  intros Hold Hdk HnD [A Hrc Hrg Hlg W Rb HM HP] H Hfit.
  destruct (moveSlot_stored P LO m r g s r' Hold A Hrc H Hfit)
    as (A1 & R1 & _).
  destruct (moveSlot_wf P LO m r g s r' Hold A Hrc W Rb H Hfit) as (W1 & B1).
  destruct (moveSlot_shape m r g s r' Hrg Hlg H) as (G1 & L1).
  destruct (moveSlot_placed m r g s r' D Hold A Hrc Hrg Hlg W Hdk HnD HM HP
              H Hfit) as (M1 & P1).
  by constructor.
Qed.

Lemma moveRow_placing m g : ∀ ss r r' (D : nat → nat → Prop),
  len (KV.data (kvHolder m)) < 2 ^ 31 → distinctKeys P m →
  NoDup ss → (∀ s, s ∈ ss → ¬ D g s) →
  placing P m r D →
  moveRow P m r g ss = Some r' →
  KV.tail (r_kv r') ≤ len (KV.data (r_kv r)) →
  placing P m r' (λ g' s', D g' s' ∨ (g' = g ∧ s' ∈ ss)).
Proof.
  induction ss as [|s ss IH]; intros r r' D Hold Hdk Hnd HnD Hpl H Hfit.
  { injection H as <-. apply (placing_ext m r D); [|done].
    intros g' s'. split; [by left|]. intros [|[_ Hin]]; [done|].
    by apply not_elem_of_nil in Hin. }
  cbn [moveRow] in H. unbind H.
  apply NoDup_cons in Hnd as [Hs Hnd].
  destruct (moveRow_tail _ _ _ _ _ _ H) as [Hl Ht].
  pose proof (moveSlot_data_length _ _ _ _ _ _ E) as Hl'.
  assert (Hfit1 : KV.tail (r_kv r0) ≤ len (KV.data (r_kv r))).
  { unfold len in *. rewrite <- Hl'. apply Ht. rewrite Hl'. done. }
  pose proof (moveSlot_placing m r g s r0 D Hold Hdk
                (HnD s ltac:(left)) Hpl E Hfit1) as Hpl1.
  cbn [mbind option_bind] in H.
  assert (HnD1 : ∀ s', s' ∈ ss → ¬ (D g s' ∨ (g, s') = (g, s))).
  { intros s' Hin [HD|[= ->]]; [|done]. apply (HnD s'); [by right|done]. }
  assert (Hfit2 : KV.tail (r_kv r') ≤ len (KV.data (r_kv r0)))
    by (unfold len in *; by rewrite Hl').
  pose proof (IH r0 r' _ Hold Hdk Hnd HnD1 Hpl1 H Hfit2) as Hpl2.
  revert Hpl2.
  apply placing_ext. intros g' s'. rewrite elem_of_cons. split.
  - intros [[|[= -> ->]]|[-> ?]]; auto.
  - intros [|[-> [->|]]]; auto.
Qed.

Lemma moveRows_placing m : ∀ gs r r' (D : nat → nat → Prop),
  len (KV.data (kvHolder m)) < 2 ^ 31 → distinctKeys P m →
  NoDup gs → (∀ g s, g ∈ gs → ¬ D g s) →
  placing P m r D →
  moveRows P m r gs = Some r' →
  KV.tail (r_kv r') ≤ len (KV.data (r_kv r)) →
  placing P m r'
    (λ g' s', D g' s'
              ∨ (g' ∈ gs ∧ ∃ row, ctrl m !! g' = Some row
                                  ∧ (s' < length row)%nat)).
Proof.
  induction gs as [|g gs IH]; intros r r' D Hold Hdk Hnd HnD Hpl H Hfit.
  { injection H as <-. apply (placing_ext m r D); [|done].
    intros g' s'. split; [by left|]. intros [|[Hin _]]; [done|].
    by apply not_elem_of_nil in Hin. }
  cbn [moveRows] in H. unbind H.
  apply NoDup_cons in Hnd as [Hg Hnd].
  destruct (moveRows_tail _ _ _ _ _ H) as [Hl Ht].
  destruct (moveRow_tail _ _ _ _ _ _ E0) as [Hl' Ht'].
  assert (Hfit1 : KV.tail (r_kv r0) ≤ len (KV.data (r_kv r))).
  { unfold len in *. rewrite <- Hl'. apply Ht. rewrite Hl'. done. }
  pose proof (moveRow_placing m g _ r r0 D Hold Hdk (NoDup_seq 0 _)
                (λ s _, HnD g s ltac:(left)) Hpl E0 Hfit1) as Hpl1.
  cbn [mbind option_bind] in H.
  assert (HnD1 : ∀ g' s', g' ∈ gs →
                          ¬ (D g' s' ∨ (g' = g ∧ s' ∈ seq 0 (length l)))).
  { intros g' s' Hin [HD|[-> _]]; [|done].
    apply (HnD g' s'); [by right|done]. }
  assert (Hfit2 : KV.tail (r_kv r') ≤ len (KV.data (r_kv r0)))
    by (unfold len in *; by rewrite Hl').
  pose proof (IH r0 r' _ Hold Hdk Hnd HnD1 Hpl1 H Hfit2) as Hpl2.
  revert Hpl2.
  apply placing_ext. intros g' s'. rewrite elem_of_cons. split.
  - intros [[|[-> Hin]]|[? ?]]; auto.
    right. split; [by left|]. exists l. split; [done|].
    apply elem_of_seq in Hin. lia.
  - intros [|[[->|] (row & Hrow & Hlt)]]; eauto.
    left. right. split; [done|]. apply elem_of_seq.
    assert (row = l) as -> by congruence. lia.
Qed.

Lemma freshTable_placing m n cap :
  4 ≤ cap < 2 ^ 26 →
  placing P m (freshTable P n cap) (λ _ _, False).
Proof.
  intros Hcap. destruct (freshTable_wf P n cap) as (W0 & B0).
  constructor; try done.
  - by apply newKVHolder_ok.
  - apply rows16_replicate.
  - apply rows16_replicate.
  - simpl. by rewrite !length_replicate.
  - intros g' s' c k' Hc Hc0 _. simpl in Hc. unfold newEmptyMetadata in Hc.
    apply get2_replicate in Hc. subst. unfold empty in Hc0. lia.
  - intros g s key v cnt [].
Qed.

(** A placed pair is present, and [Get] returns it. *)
Lemma placed_present r m' key v cnt :
  ctrl m' = r_ctrl r → groups m' = r_groups r →
  counters m' = r_counters r → kvHolder m' = r_kv r →
  placed P r key v cnt →
  present P m' key v cnt
  ∧ ∃ m'', Get P m' (MD5L P key) key = Some (m'', (v, true)).
Proof.
  intros Hc Hg Hn Hk (g & s & k & Hpr & Hk2 & Hn2 & Hr2).
  assert (Hpr' : probeWith m' (getTest m' key) (MD5L P key)
                 = Some (Found g s)).
  { unfold probeWith, getTest, tableOf in *. fields.
    by rewrite Hc, Hg, Hk. }
  pose proof (Hr2 (r_kv r) (agreeBelow_refl _ _)) as Hkv.
  assert (Hrs : readSlot P m' g s = Some v).
  { unfold readSlot. rewrite Hg, Hk2, Hk. cbn [mbind option_bind].
    unfold getKVUnlock in Hkv. destruct (getKey (r_kv r) k); [|done].
    cbn [mbind option_bind] in Hkv.
    destruct (loadAt _ _) as [vh|]; [|done]. cbn [mbind option_bind] in *.
    destruct (decodeValue P (r_kv r) k vh) as [[vo vs]|]; [|done].
    cbn [mbind option_bind] in *.
    destruct (getValue (r_kv r) vo vs); [|done].
    cbn [mbind option_bind] in *. by injection Hkv as _ ->. }
  split; [exists g, s; by rewrite Hn|].
  pose proof (Get_answer P m' (MD5L P key) key) as Ha.
  rewrite Hpr' in Ha. cbn [mbind option_bind verdict getAnswer] in Ha.
  rewrite Hrs in Ha. cbn [mbind option_bind] in Ha.
  rewrite Hn, Hn2 in Ha. cbn [fmap option_fmap option_map] in Ha.
  destruct (Get P m' (MD5L P key) key) as [[m'' a]|]; [|done].
  cbn [fmap option_fmap option_map snd] in Ha. injection Ha as ->.
  by exists m''.
Qed.

End Placement.

Section RehashPresent.

Variable P : Package.
Hypothesis LO : layout_ok P.

(** After [rehash] of a shard whose occupied slots hold different keys,
    the probe of [Get] finds every pair. *)
Lemma rehash_present m :
  Inv m → (0 < length (ctrl m))%nat → len (groups m) < 2 ^ 27 →
  arena_ok (kvHolder m) → 4 ≤ KV.cap (kvHolder m) →
  readable P m → compactSize P m ≤ KV.cap (kvHolder m) →
  distinctKeys P m →
  ∃ m', rehash P m = Some m'
    ∧ ∀ g s key v cnt, holds P m g s key v cnt →
        present P m' key v cnt
        ∧ ∃ m'', Get P m' (MD5L P key) key = Some (m'', (v, true)).
Proof.
  intros I Hpos HG A Hcap4 Hrd Hfit Hdk.
  pose proof (Inv_bounds m I) as (Hi0 & Hd0 & Hsum & Hres & Hres32).
  pose proof A as [At Aal Ahi Acap Asz].
  assert (Hold : len (KV.data (kvHolder m)) < 2 ^ 31) by lia.
  pose proof I as [Hrc Hn Hg Hlc Hlg Hsz Hi Hd Hr].
  set (n := nextSize m).
  assert (Hn1 : (if resident m / 2 <=? dead m
                 then n = length (groups m)
                 else 6 * len (groups m) ≤ 5 * Z.of_nat n
                      ∧ 5 * Z.of_nat n < 6 * len (groups m) + 5)).
  { unfold n, nextSize. destruct (resident m / 2 <=? dead m); [done|].
    rewrite u32_small by (unfold len in *; Z.div_mod_to_equations; lia).
    rewrite Z2Nat.id by (unfold len; Z.div_mod_to_equations; lia).
    unfold len. Z.div_mod_to_equations; lia. }
  assert (Hroom : countTable isLive (ctrl m) ≤ 16 * Z.of_nat n - 1
                  ∧ (0 < n)%nat ∧ Z.of_nat n < 2 ^ 28).
  { unfold len in *. destruct (Z.leb_spec (resident m / 2) (dead m)).
    - rewrite Hn1, Hlg. split; [|lia]. Z.div_mod_to_equations; lia.
    - lia. }
  destruct Hroom as (Hroom & Hn0 & Hn28).
  assert (IR : InvR (freshTable P n (KV.cap (kvHolder m))))
    by (apply freshTable_InvR; lia).
  assert (AR : arena_ok (newKVHolder P (KV.cap (kvHolder m))))
    by (apply newKVHolder_ok; unfold len in *; lia).
  assert (Hlen0 : length (r_ctrl (freshTable P n (KV.cap (kvHolder m)))) = n)
    by (simpl; apply length_replicate).
  assert (Hlive0 : countTable isLive
                     (r_ctrl (freshTable P n (KV.cap (kvHolder m)))) = 0).
  { destruct IR as [_ _ _ _ _ _ Hi' _ _]. by rewrite <- Hi'. }
  assert (Hdata0 : len (KV.data (newKVHolder P (KV.cap (kvHolder m))))
                   = KV.cap (kvHolder m)).
  { unfold len; simpl. rewrite length_replicate. lia. }
  destruct (moveRows_total P LO m (length (ctrl m)) 0 _ I Hrd Hold eq_refl
              IR AR)
    as (r & Hmv & Htail);
    rewrite ?drop_0, ?Hlen0, ?Hlive0; unfold len; rewrite ?Hlen0;
    unfold len in *; try lia.
  { cbn [freshTable r_kv]. unfold len in Hdata0. rewrite Hdata0.
    unfold compactSize in Hfit. simpl KV.tail. lia. }
  assert (Hfit' : KV.tail (r_kv r)
                  ≤ len (KV.data (r_kv (freshTable P n (KV.cap (kvHolder m)))))).
  { cbn [freshTable r_kv] in *. unfold len in *. rewrite Hdata0.
    rewrite Htail. unfold compactSize in Hfit. simpl KV.tail. lia. }
  unfold rehash. fold n. rewrite Hmv. cbn [mbind option_bind].
  eexists. split; [done|].
  pose proof (moveRows_placing P LO m _ _ r (λ _ _, False) Hold Hdk
                (NoDup_seq 0 _) (λ _ _ _ F, F)
                (freshTable_placing P m n (KV.cap (kvHolder m))
                   ltac:(unfold len in *; lia))
                Hmv Hfit') as [_ _ _ _ _ _ _ HP].
  intros g s key v cnt Hh.
  apply (placed_present P r); try done.
  apply (HP g s key v cnt); [|done]. right.
  destruct Hh as (c & k & (row & Hrow & Hs)%get2_Some & _).
  split.
  - apply elem_of_seq. apply lookup_lt_Some in Hrow. lia.
  - exists row. split; [done|]. by apply lookup_lt_Some in Hs.
Qed.

End RehashPresent.

Section RehashClaim.

Variable P : Package.
Hypothesis LO : layout_ok P.

(** C7: rehash returns a table of [n] groups, [n] being [ceil(6G/5)], or
    [G] when [dead >= resident/2]; afterwards [dead] is 0, [limit] is
    [14 n], and every pair an occupied slot held is stored in the new
    table under the tag of its key, with the counter it had.  When the
    occupied slots hold different keys, every such pair is present in
    the new table: the probe of [Get], from the group the hash of the
    key selects, stops at a slot that reads the value and carries the
    counter the old slot had, and [Get] returns the value. *)
Theorem rehash_spec m :
  Inv m → (0 < length (ctrl m))%nat → len (groups m) < 2 ^ 27 →
  arena_ok (kvHolder m) → 4 ≤ KV.cap (kvHolder m) →
  readable P m → compactSize P m ≤ KV.cap (kvHolder m) →
  ∃ m', rehash P m = Some m'
    ∧ length (ctrl m') = length (groups m')
    ∧ length (counters m') = length (groups m')
    ∧ (if resident m / 2 <=? dead m
       then length (groups m') = length (groups m)
       else 6 * len (groups m) ≤ 5 * len (groups m')
            ∧ 5 * len (groups m') < 6 * len (groups m) + 5)
    ∧ dead m' = 0
    ∧ limit m' = len (groups m') * 14
    ∧ (∀ g s key v cnt, holds P m g s key v cnt → stored P m' key v cnt)
    ∧ (distinctKeys P m →
       ∀ g s key v cnt, holds P m g s key v cnt →
         present P m' key v cnt
         ∧ ∃ m'', Get P m' (MD5L P key) key = Some (m'', (v, true))).
Proof.
  intros I Hpos HG A Hcap4 Hrd Hfit.
  destruct (rehash_rebuilds P LO m I Hpos HG A Hcap4 Hrd Hfit)
    as (m' & H & H1 & H2 & H3 & H4 & H5 & H6).
  exists m'. do 7 (split; [done|]).
  intros Hdk.
  destruct (rehash_present P LO m I Hpos HG A Hcap4 Hrd Hfit Hdk)
    as (m2 & Hm2 & Hp).
  assert (m2 = m') as -> by congruence. exact Hp.
Qed.

End RehashClaim.

Lemma demoShardAB_readable : readable demoPackage demoShardAB.
Proof.
  intros g s c k Hc Hl Hk.
  destruct g as [|g]; [|by destruct g].
  do 2 (destruct s as [|s]; [injection Hk as <-; eexists; by vm_compute|]).
  do 14 (destruct s as [|s];
         [injection Hc as <-; by vm_compute in Hl|]).
  by vm_compute in Hc.
Defined.

Lemma demoShardAB_holds g s key v cnt :
  holds demoPackage demoShardAB g s key v cnt →
  (g, s, key) = (0%nat, 0%nat, keyA) ∨ (g, s, key) = (0%nat, 1%nat, keyB).
Proof.
  intros (c & k & Hc & Hl & Hk & Hkv & _).
  destruct g as [|g]; [|by destruct g].
  destruct s as [|s].
  { injection Hk as <-. vm_compute in Hkv. injection Hkv as <- _. by left. }
  destruct s as [|s].
  { injection Hk as <-. vm_compute in Hkv. injection Hkv as <- _. by right. }
  do 14 (destruct s as [|s];
         [injection Hc as <-; by vm_compute in Hl|]).
  by vm_compute in Hc.
Defined.

Lemma demoShardAB_distinct : distinctKeys demoPackage demoShardAB.
Proof.
  intros g s g' s' key v cnt v' cnt' H1 H2.
  apply demoShardAB_holds in H1, H2.
  destruct H1 as [H1|H1], H2 as [H2|H2];
    apply pair_equal_spec in H1 as [[-> ->]%pair_equal_spec Hk1];
    apply pair_equal_spec in H2 as [[-> ->]%pair_equal_spec Hk2];
    try done; exfalso; rewrite Hk1 in Hk2; by vm_compute in Hk2.
Defined.

Lemma rehash_spec_witness :
  ∃ m' m'', rehash demoPackage demoShardAB = Some m'
        ∧ length (groups m') = 2%nat
        ∧ dead m' = 0 ∧ limit m' = 28
        ∧ stored demoPackage m' keyA hello 1
        ∧ present demoPackage m' keyB hello 1
        ∧ Get demoPackage m' (demoHash keyB) keyB
          = Some (m'', (hello, true)).
Proof.
  destruct (rehash_spec demoPackage demoPackage_layout demoShardAB
              demoShardAB_Inv ltac:(by vm_compute) ltac:(by vm_compute)
              demoShardAB_arena ltac:(by vm_compute) demoShardAB_readable
              ltac:(by vm_compute))
    as (m' & H & _ & _ & Hn & Hd & Hl & Hst & Hpr).
  assert (HA : holds demoPackage demoShardAB 0 0 keyA hello 1).
  { exists (snd (splitHash (demoHash keyA))), 33554433.
    split; [reflexivity|]. split; [reflexivity|]. split; [reflexivity|].
    split; [by vm_compute|reflexivity]. }
  assert (HB : ∃ c k, get2 (ctrl demoShardAB) 0 1 = Some c
                      ∧ get2 (groups demoShardAB) 0 1 = Some k)
    by (eexists _, _; split; reflexivity).
  destruct HB as (cB & kB & HcB & HkB).
  assert (HB : holds demoPackage demoShardAB 0 1 keyB hello 1).
  { exists cB, kB. injection HcB as <-. injection HkB as <-.
    split; [reflexivity|]. split; [reflexivity|]. split; [reflexivity|].
    split; [by vm_compute|reflexivity]. }
  destruct (Hpr demoShardAB_distinct 0%nat 1%nat keyB hello 1 HB)
    as (Hp & m'' & HG).
  exists m', m''. split; [exact H|].
  change (6 * 1 ≤ 5 * len (groups m')
          ∧ 5 * len (groups m') < 6 * 1 + 5) in Hn.
  assert (Hn2 : length (groups m') = 2%nat) by (unfold len in Hn; lia).
  split; [exact Hn2|]. split; [exact Hd|]. unfold len in Hl.
  rewrite Hn2 in Hl.
  split; [exact Hl|]. split; [exact (Hst 0%nat 0%nat _ _ _ HA)|].
  split; [exact Hp|exact HG].
Defined.

(** ** The round trip of RePut *)

Section RoundTrip.

Variable P : Package.
Hypothesis LO : layout_ok P.

(** C1: for a 16-byte key and a value shorter than [limitSize], a RePut
    that returns true is followed by a Get of the same hash and key that
    returns that value, byte for byte, whatever its layout (short,
    medium or long) and whatever path RePut took: insertion of a new
    key, update of a present one, with or without a rehash first.  The
    shard is one whose counts are consistent and whose arena is laid out
    as the code lays it out; when the call rehashes, the old pairs are
    readable and fit the arena once compacted. *)
Theorem RePut_Get_round_trip m l key value m' :
  Inv m → arena_ok (kvHolder m) → wfSlots m →
  length key = 16%nat → len value < limitSize P →
  (limit m ≤ resident m →
   (0 < length (ctrl m))%nat ∧ len (groups m) < 2 ^ 27
   ∧ 4 ≤ KV.cap (kvHolder m) ∧ readable P m
   ∧ compactSize P m ≤ KV.cap (kvHolder m)) →
  RePut P m l key value = Some (m', true) →
  ∃ m'', Get P m' l key = Some (m'', (value, true)).
Proof.
  intros I A W Hkey Hlim Hre H.
  assert (Hlv : len value < 2 ^ 31) by (pose proof (lo_limit P LO); lia).
  unfold RePut in H.
  destruct (KV.limit (kvHolder m) <=? KV.tail (kvHolder m));
    [by injection H|].
  destruct (rehashing m) eqn:Hrh; [by injection H|].
  destruct (Z.leb_spec (limit m) (resident m)) as [Hfull|Hroom].
  - destruct (Hre Hfull) as (Hpos & HG & Hcap4 & Hrd & Hfit).
    destruct (rehash_layout P LO (setRehashing m true)
                (setRehashing_Inv _ _ I) Hpos HG A Hcap4
                (readable_setRehashing P _ _ Hrd)
                ltac:(by rewrite compactSize_setRehashing))
      as (m1 & Hm1 & I1 & A1 & W1 & B1 & _).
    rewrite Hm1 in H. cbn [mbind option_bind] in H.
    destruct (wfSlots_ext m1 (setRehashing m1 false) eq_refl eq_refl eq_refl
                (conj W1 B1)) as (W2 & _).
    eapply (rePut_body_then_Get P LO (setRehashing m1 false)); try done.
    by apply setRehashing_Inv.
  - cbn [mbind option_bind] in H.
    by eapply (rePut_body_then_Get P LO m).
Qed.

End RoundTrip.

Ltac slots16 g s :=
  destruct g as [|g]; [|by destruct g];
  do 16 (try destruct s as [|s]).

Lemma demoShardFull_Inv : Inv demoShardFull.
Proof. constructor; try (by repeat constructor); by vm_compute. Defined.

Lemma demoShardFull_arena : arena_ok (kvHolder demoShardFull).
Proof. constructor; by vm_compute. Defined.

Lemma demoShardFull_readable : readable demoPackage demoShardFull.
Proof.
  intros g s c k Hc Hl Hk. slots16 g s;
    first [by vm_compute in Hc
          |injection Hc as <-; by vm_compute in Hl
          |injection Hk as <-; eexists; by vm_compute].
Defined.

Lemma demoShardFull_wf : wfSlots demoShardFull.
Proof.
  constructor.
  - intros g s c k Hc Hc0 Hk. slots16 g s;
      first [by vm_compute in Hc
            |vm_compute in Hc; injection Hc as <-; lia
            |vm_compute in Hk; injection Hk as <-; by vm_compute].
  - intros g s c k g' s' c' k' Hc Hc0 Hk Hc' Hc0' Hk' Hne.
    slots16 g s;
      try (by vm_compute in Hc);
      try (vm_compute in Hc; injection Hc as <-; lia);
      slots16 g' s';
      try (by vm_compute in Hc');
      try (vm_compute in Hc'; injection Hc' as <-; lia);
      try done;
      vm_compute in Hk, Hk'; injection Hk as <-; injection Hk' as <-;
      vm_compute; intuition discriminate.
  - intros g s c k vh Hc Hc0 Hk Hty Hvh.
    slots16 g s;
      try (by vm_compute in Hc);
      try (vm_compute in Hc; injection Hc as <-; lia);
      vm_compute in Hk; injection Hk as <-;
      vm_compute in Hvh; injection Hvh as <-;
      (split; [by vm_compute|]);
      intros g' s' c' k' Hc' Hc0' Hk'; slots16 g' s';
      try (by vm_compute in Hc');
      try (vm_compute in Hc'; injection Hc' as <-; lia);
      vm_compute in Hk'; injection Hk' as <-;
      vm_compute; intuition discriminate.
Defined.

Lemma RePut_Get_round_trip_witness :
  ∃ m' m'', RePut demoPackage demoShardFull (demoHash keyO) keyO hello
            = Some (m', true)
            ∧ length (groups m') = 2%nat
            ∧ Get demoPackage m' (demoHash keyO) keyO
              = Some (m'', (hello, true)).
Proof.
  eexists.
  assert (HP : RePut demoPackage demoShardFull (demoHash keyO) keyO hello
               = Some (_, true)) by (by vm_compute).
  destruct (RePut_Get_round_trip demoPackage demoPackage_layout
              demoShardFull (demoHash keyO) keyO hello _
              demoShardFull_Inv demoShardFull_arena demoShardFull_wf
              eq_refl ltac:(by vm_compute)
              ltac:(intros _; split; [by vm_compute|];
                    split; [by vm_compute|]; split; [by vm_compute|];
                    split; [exact demoShardFull_readable|by vm_compute])
              HP)
    as [m'' H].
  exists m''. split; [exact HP|]. split; [reflexivity|exact H].
Defined.
